(* ===== verification/_CoqProject ===== *)
-Q . S2P
Prelude.v
Protocol.v
JsonWriter.v
JsonGrammar.v
Float.v
Calendar.v
Numeric.v
Interval.v
Encoders.v
Errors.v
Effects.v
Wire.v
Rows.v
Args.v
StmtCache.v
Stream.v
Client.v
Query.v
Footprint.v
QuerySpec.v
QueryResult.v
QueryLife.v
QueryFaults.v
Exec.v
Crypto.v
Auth.v
Conn.v
Ctx.v
Dsn.v
Api.v
Iter.v
Talk.v
Answers.v
Copy.v
CopyTo.v
Scan.v
ScanSpec.v
ScanQuery.v
Turns.v
Calls.v
Session.v
Pipeline.v
Sql.v
Otel.v
Pool.v
PoolSpec.v
Buffers.v
Served.v
