(* ===== verification/Prelude.v ===== *)
(** pgz, a PostgreSQL driver in Go: a verification library.

    The development translates the driver (src/internal and src/pgz, outside
    cmd and the tests) into definitions that run, and proves what the driver's
    parts promise one another and their callers.  This header is the map of
    the whole; each file opens with its own.

    ** The program and the files

    The driver is a stack.  At the bottom are encoders that append JSON to a
    byte slice; above them the framed wire protocol; above it a client that
    holds one connection, runs queries and streams their rows; above that the
    iterators, batches, COPY, struct scanning, the pool and the adapters.

    - Values and text.  Protocol (internal/protocol: message codes and OIDs),
      JsonWriter (internal/jsonwriter, both builds of the string escaper),
      JsonGrammar (RFC 8259, the specification of everything emitted), Float
      (IEEE bit patterns and strconv's shortest formatting), Calendar, Numeric,
      Interval, Encoders (internal/types: every text and binary encoder and the
      tables that choose one).
    - Wire.  Errors (internal/pgerr and the client's error values), Effects
      (the effect all stateful code is written in), Wire (internal/wire: framed
      reads and writes over a socket), Rows (internal/rows: plans and the row
      loops), Args (pgz/args.go: Bind parameters).
    - Client.  StmtCache (pgz/stmtcache.go), Stream (pgz/stream.go: the writers),
      Client (pgz/config.go, tls_helpers.go, observer.go and the shared parts of
      conn.go), Ctx (pgz/ctx.go: the goroutine that watches a call's context,
      interleaved with the calls), Crypto and Auth (internal/auth: MD5 and SCRAM
      over SHA-256, HMAC and Base64 written out), Conn (pgz/conn.go: TLS
      negotiation, startup, authentication, the SELECT guard), Dsn (ParseDSN,
      over net/url).
    - Queries.  Query (pgz/query.go, the engine), Footprint (what the engine
      leaves alone of a client), QuerySpec, QueryResult, QueryLife, QueryFaults
      and Answers (its theorems), Exec (pgz/exec.go), Api (the
      exported wrappers), Iter (pgz/iter.go), Talk (a judgement for scripted
      exchanges), Copy and CopyTo (pgz/copy.go, copy_to.go), Scan, ScanSpec and
      ScanQuery (pgz/scan.go), Turns (a reference machine for the calls that go
      through the statement cache, and the loop they share), Calls (the turn of
      each kind of call, COPY and Ping included), Session (Open and then any calls on one socket),
      Pipeline (pgz/pipeline.go).
    - Around the client.  Sql (pgz/stdlib), Otel (pgz/otel and what reaches any
      observer), Pool and PoolSpec (pgz/pool), Buffers (internal/bufferpool),
      Served (the pool over real clients that their holders query).

    ** State and operations

    A stateful operation is a [prog S A] of Effects: a function from a state to
    one of four outcomes (a result, an error, a Go panic, or a model loop that
    ran out of fuel) and the state it leaves, which survives an error as a Go
    receiver does.  The states are records with the source's fields: [Wire.Conn]
    (the bytes the peer will have sent, the bytes written, how many more the
    socket accepts), [Client.Client] (the connection, the statement cache, the
    counters and the list of calls on the observer), an output writer (a class,
    with laws, of which bufWriter and flushingWriter are instances), an
    [Iterator], a [BatchResults], a [Pool].  A component used inside another is
    run through [zoom].  Statements are references into a store, because the
    cache and a batch share them; Go's map order is the class [MapOrder], and
    every theorem holds for any of its instances.  A read loop of the source,
    [for { ReadMessage; switch }], is [read_loop] with one step function whose
    cases are the switch's and whose accumulator is the loop's local variables.
    Two parts have goroutines, the pool and the watcher of a context: their
    critical sections are functions, and step relations (Pool.step, Ctx.step)
    interleave them.  Served joins the pool's relation with the clients: a
    dial there is Open, a health check is Ping, a holder's call is any client
    operation.  Machine integers are integers with the wrap-around of each
    conversion written out.

    ** Theorems

    - Encoders: numbers, dates and intervals parse back; every encoder appends
      one JSON value, for every byte sequence; the SWAR escaper is the scalar
      one; a row is the JSON object its cells denote.
    - Wire and cache: framing round-trips, ReadMessage never reads past a
      message whatever the bytes, and its scratch buffer stays bounded whatever
      lengths a server announces; the cache and the server agree on which
      statements live, under any eviction order.
    - Queries: the exact reply and document of both query paths, all of it
      delivered when the writer streams, success means a complete result whatever
      the server sends, each retry is an execution of its own from an empty
      writer (retries_never_mix), caps abort and leave the connection in step,
      and no call waits for an answer it has not asked for, from a server that
      answers every request (runQueryInner_answered).
    - Composition: a whole connection, from the TLS request to the last of any
      mix of queries in memory or streamed, iterators, scans, commands, CopyFroms from
      a source that ends or fails, CopyTos and Pings, with statements the server refuses or has lost, is a machine whose
      only state is the statement cache (session_exact), and it is the same
      machine through a pool, whatever the other goroutines do
      (pooled_session_exact).  A scan in batches is the same turn with a callback
      beside it, whatever the cache holds (ScanStructBatched_exact).  A context only ever disturbs its own call's
      reads, and detachContext returns and leaves nothing behind.
    - Handshake: the startup exchange, SCRAM against a server that follows RFC
      5802 (for passwords SASLprep does not change: the client does not apply
      it), no plaintext where TLS is required, connection strings read back.
    - Iterators, batches, COPY and scanning: each yields exactly the server's
      rows, or the first failure, and leaves the connection behind the reply; a
      scan writes only values of its fields' types, integers of their width,
      through either path; a batch caches exactly what its completed items had
      parsed.  A source that ends with io.ErrUnexpectedEOF counts as one that
      ends, as it does for the code; the finding is truncated_source_commits.
    - The pool: no connection in two hands, the counters count, hand-overs never
      block.  database/sql: rows, validity, transactions.  Telemetry: one span
      and one event per query.  Scratch buffers: exclusive and bounded.
    The theorems that show a defect or a promise that does not hold are listed
    with the findings; they are stated as what the code does.

    ** Bounds and fuel

    A read loop gets one more round than there are bytes to read
    ([Client.rounds]); every round consumes a message of at least five bytes or
    fails, so it never runs out (read_loop_total, runQueryInner_terminates, and
    [runs] for the other loops, whose results are never [Stuck]).  That the loops
    stop where the server stops answering is runQueryInner_answered.  Retry loops
    have the source's own counts.  COPY's pump and its tuple loops have one round
    more than there are bytes, as has Url.Query.  Lengths that Go keeps in an int
    are unbounded integers; theorems state the bounds they need (a message under
    2^28 bytes, a row of fewer than 2^15 columns).

    ** Modelling notes

    A slice is its contents: capacity is kept only in Buffers, so GrowForRow and
    the growth of a result slice have no effect.  A context is its two
    observations, refused at entry or cancelled while reading, and elapsed
    times are arguments.  An error is its constructor, wrapped as the source
    wraps it; the values interpolated in a message are kept where they are
    numbers.  In scanning, memory is typed values and a field's offset is a
    path; an integer in memory carries its size in bytes, so a write through a
    pointer of another width is no value of the field's type; the setters of a composite's fields are built per value, and the guard
    against cyclic embedding is not needed on the finite types of the model.
    A context's end is seen by the calls as the error they are given
    (Client.context, which Ctx.withDefaultTimeout derives); that it can come at
    any moment, with its CancelRequest and deadline, is Ctx's.
    Parameters stand for the TLS library and x509's Verify, SASLprep, the caller's Scan
    methods, callbacks, writers and readers, OpenTelemetry's providers and the
    dialer.

    ** Not modelled

    Dialing and socket options; the deadlines of the handshake; what a server
    does with a CancelRequest; the registration of the database/sql driver;
    the texts of errors, but for what CopyFail carries; internal/auth/scram_todo.go and
    internal/types/binary_todo.go, which are comments; cmd, which is
    demonstration programs.  SendBatch, the binary COPYs and the database/sql adapter have
    theorems of their own, that they leave the connection behind their reply, but
    are not turns of Session's machine. *)

From Stdlib Require Export ZArith Lia.
From Stdlib Require Export Strings.Byte.
From stdpp Require Export base tactics list gmap strings.

#[global] Open Scope Z_scope.

Abbreviation bytes := (list byte).

(** ** Bytes as machine integers *)

(** The value 0..255 of a byte. *)
Definition byteZ (b : byte) : Z := Z.of_N (Byte.to_N b).

(** Go's conversion [byte(v)]: keep the low eight bits. *)
Definition mkbyte (z : Z) : byte :=
  match Byte.of_N (Z.to_N (z mod 256)) with Some b => b | None => x00 end.

(** Boolean equality on bytes, the [==] of the source. *)
Definition beq (a b : byte) : bool := Byte.eqb a b.

(** The bytes of a Go string literal. *)
Definition str (s : string) : bytes := String.list_byte_of_string s.

(** Unsigned and signed wrap-around at [w] bits. *)
Definition wrapu (w z : Z) : Z := z mod 2 ^ w.
Definition wraps (w z : Z) : Z := (z + 2 ^ (w - 1)) mod 2 ^ w - 2 ^ (w - 1).
Definition int16 (z : Z) : Z := wraps 16 z.
Definition int32 (z : Z) : Z := wraps 32 z.
Definition int64 (z : Z) : Z := wraps 64 z.
Definition u16 (z : Z) : Z := wrapu 16 z.
Definition u32 (z : Z) : Z := wrapu 32 z.
Definition u64 (z : Z) : Z := wrapu 64 z.

(** Big-endian load: [b[0]<<8k | ... | b[k]], and the matching store of the
    low [8 n] bits. *)
Fixpoint be_acc (acc : Z) (l : bytes) : Z :=
  match l with
  | [] => acc
  | b :: l => be_acc (Z.lor (Z.shiftl acc 8) (byteZ b)) l
  end.
Definition be_get (l : bytes) : Z := be_acc 0 l.
Fixpoint be_put (n : nat) (z : Z) : bytes :=
  match n with
  | O => []
  | S n => mkbyte (Z.shiftr z (8 * Z.of_nat n)) :: be_put n z
  end.

(** The Go slice expression [l[i:j]]. *)
Definition slice (i j : nat) (l : bytes) : bytes := take (j - i) (drop i l).

(** [len(l)] as a Go int. *)
Definition Zlen {A} (l : list A) : Z := Z.of_nat (length l).

(** Position of the first NUL byte ([bytes.IndexByte(l, 0)]); [None] is -1. *)
Fixpoint index_zero (l : bytes) : option nat :=
  match l with
  | [] => None
  | b :: l => if beq b x00 then Some 0%nat else S <$> index_zero l
  end.

(** ** Digits in a base, most significant first *)
Fixpoint digits_fuel (fuel : nat) (base n : Z) : list Z :=
  match fuel with
  | O => []
  | S f => if n <? base then [n] else digits_fuel f base (n / base) ++ [n mod base]
  end.
Definition digits (base n : Z) : list Z := digits_fuel (S (Z.to_nat (Z.log2 n))) base n.
Definition undigits (base : Z) (l : list Z) : Z := fold_left (fun a d => a * base + d) l 0.

(** The digit characters [strconv] uses: 0-9 then a-z. *)
Definition digit_char (d : Z) : byte := if d <? 10 then mkbyte (48 + d) else mkbyte (87 + d).
Definition AppendUintBase (dst : bytes) (n base : Z) : bytes := dst ++ (digit_char <$> digits base n).
(** [strconv.AppendInt(dst, v, 10)]. *)
Definition AppendInt (dst : bytes) (v : Z) : bytes :=
  if v <? 0 then AppendUintBase (dst ++ ["-"%byte]) (- v) 10 else AppendUintBase dst v 10.

Definition is_digit (c : byte) : bool := (48 <=? byteZ c) && (byteZ c <=? 57).
Definition digit_val (c : byte) : Z := byteZ c - 48.
(** The number a run of decimal digit characters denotes. *)
Definition dec_value (l : bytes) : Z := undigits 10 (digit_val <$> l).

(** The lists joined with a separator between neighbours. *)
Fixpoint join (sep : bytes) (l : list bytes) : bytes :=
  match l with
  | [] => []
  | [x] => x
  | x :: l => x ++ sep ++ join sep l
  end.

(** The sign and digits of a decimal integer, and its value. *)
Definition int_value (l : bytes) : Z :=
  match l with
  | c :: l' => if beq c "-"%byte then - dec_value l' else dec_value l
  | [] => 0
  end.

(** [strconv.ParseInt(s, 10, 64)], [None] for a syntax or range error. *)
Definition ParseInt64 (s : bytes) : option Z :=
  let '(neg, ds) := match s with
                    | c :: r => if beq c "-"%byte then (true, r) else if beq c "+"%byte then (false, r) else (false, s)
                    | [] => (false, [])
                    end in
  match ds with
  | [] => None
  | _ =>
      if forallb is_digit ds then
        let v := if neg : bool then - dec_value ds else dec_value ds in
        if (- 2 ^ 63 <=? v) && (v <? 2 ^ 63) then Some v else None
      else None
  end.

(** [strings.HasPrefix(s, p)]. *)
Fixpoint HasPrefix (p s : bytes) : bool :=
  match p, s with
  | [], _ => true
  | a :: p, b :: s => beq a b && HasPrefix p s
  | _, [] => false
  end.

(** ** Decidable equality and finite maps over bytes *)
#[global] Instance byte_eq_dec : EqDecision byte := Byte.byte_eq_dec.
#[global] Program Instance byte_countable : Countable byte :=
  inj_countable Byte.to_N Byte.of_N _.
Next Obligation. intros b. apply Byte.of_to_N. Qed.

(** ** Lemmas *)

Create HintDb pgz.
Create Rewrite HintDb pgz.

Lemma byteZ_range b : 0 <= byteZ b < 256.
Proof. unfold byteZ. pose proof (Byte.to_N_bounded b). lia. Qed.

Lemma mkbyte_byteZ b : mkbyte (byteZ b) = b.
Proof.
  unfold mkbyte. rewrite Z.mod_small by apply byteZ_range.
  unfold byteZ. rewrite N2Z.id, Byte.of_to_N. done.
Qed.

Lemma mkbyte_mod_eq x y : x mod 256 = y mod 256 → mkbyte x = mkbyte y.
Proof. intros H. unfold mkbyte. by rewrite H. Qed.

Lemma byteZ_mkbyte z : byteZ (mkbyte z) = z mod 256.
Proof.
  unfold mkbyte, byteZ. pose proof (Z.mod_pos_bound z 256 ltac:(lia)) as Hz.
  destruct (Byte.of_N (Z.to_N (z mod 256))) eqn:E.
  - apply Byte.to_of_N in E. lia.
  - exfalso. pose proof (proj1 (Byte.of_N_None_iff _) E). lia.
Qed.

Lemma byteZ_inj a b : byteZ a = byteZ b → a = b.
Proof. intros H. by rewrite <- (mkbyte_byteZ a), H, mkbyte_byteZ. Qed.

Lemma mkbyte_mod z : mkbyte (z mod 256) = mkbyte z.
Proof. unfold mkbyte. by rewrite Z.mod_mod. Qed.

Lemma mkbyte_eq a b : a mod 256 = b mod 256 → mkbyte a = mkbyte b.
Proof. intros H. by rewrite <- (mkbyte_mod a), H, mkbyte_mod. Qed.

Lemma beq_true a b : beq a b = true ↔ a = b.
Proof.
  unfold beq. split; [apply Byte.byte_dec_bl|apply Byte.byte_dec_lb].
Qed.
Lemma beq_false a b : beq a b = false ↔ a ≠ b.
Proof.
  destruct (beq a b) eqn:E; [apply beq_true in E|]; split; try done.
  intros _ H. apply beq_true in H. congruence.
Qed.
Lemma beq_refl a : beq a a = true.
Proof. by apply beq_true. Qed.

(** Case analysis on the byte comparisons of the goal or a hypothesis. *)
Ltac byte_cases :=
  repeat match goal with
  | |- context [beq ?a ?b] =>
      let E := fresh "Eb" in destruct (beq a b) eqn:E; [apply beq_true in E|apply beq_false in E]
  end.

Lemma wraps_small w z : 0 < w → - 2 ^ (w - 1) <= z < 2 ^ (w - 1) → wraps w z = z.
Proof.
  intros Hw Hz. unfold wraps.
  assert (2 ^ w = 2 * 2 ^ (w - 1)) as E by (rewrite <- Z.pow_succ_r by lia; f_equal; lia).
  rewrite Z.mod_small; lia.
Qed.
Lemma wraps_range w z : 0 < w → - 2 ^ (w - 1) <= wraps w z < 2 ^ (w - 1).
Proof.
  intros Hw. unfold wraps.
  assert (2 ^ w = 2 * 2 ^ (w - 1)) as E by (rewrite <- Z.pow_succ_r by lia; f_equal; lia).
  pose proof (Z.mod_pos_bound (z + 2 ^ (w - 1)) (2 ^ w)). nia.
Qed.
Lemma wraps_mod w z : 0 < w → wraps w (z mod 2 ^ w) = wraps w z.
Proof. intros Hw. unfold wraps. by rewrite Zplus_mod_idemp_l. Qed.
Lemma wrapu_small w z : 0 <= z < 2 ^ w → wrapu w z = z.
Proof. apply Z.mod_small. Qed.

Lemma lor_shift_byte a b : Z.lor (Z.shiftl a 8) (byteZ b) = a * 256 + byteZ b.
Proof.
  pose proof (byteZ_range b).
  rewrite <- Z.lxor_lor, <- Z.add_nocarry_lxor; [by rewrite Z.shiftl_mul_pow2 by lia| |].
  all: apply Z.bits_inj'; intros n Hn; rewrite Z.land_spec, Z.bits_0, Z.shiftl_spec by lia;
    destruct (decide (n < 8)); [rewrite Z.testbit_neg_r by lia; done|];
    rewrite (Z.bits_above_log2 (byteZ b) n), andb_false_r; try done; try lia;
    destruct (decide (byteZ b = 0)) as [->|]; [simpl; lia|];
    apply Z.log2_lt_pow2; [lia|]; apply Z.lt_le_trans with (2 ^ 8); [lia|]; apply Z.pow_le_mono_r; lia.
Qed.

Lemma be_acc_eq acc l : be_acc acc l = acc * 256 ^ Zlen l + be_get l.
Proof.
  unfold be_get, Zlen. revert acc. induction l as [|b l IH]; intros acc; simpl be_acc; simpl length.
  - lia.
  - rewrite IH, (IH (Z.lor _ _)), !lor_shift_byte, Nat2Z.inj_succ, Z.pow_succ_r by lia. lia.
Qed.

Lemma be_get_cons b l : be_get (b :: l) = byteZ b * 256 ^ Zlen l + be_get l.
Proof. unfold be_get at 1. simpl be_acc. rewrite be_acc_eq, lor_shift_byte. lia. Qed.

Lemma be_get_range l : 0 <= be_get l < 256 ^ Zlen l.
Proof.
  unfold Zlen. induction l as [|b l IH]; [unfold be_get; simpl; lia|].
  rewrite be_get_cons. simpl length. rewrite Nat2Z.inj_succ, Z.pow_succ_r by lia.
  unfold Zlen. pose proof (byteZ_range b). nia.
Qed.

Lemma length_be_put n z : length (be_put n z) = n.
Proof. induction n; simpl; congruence. Qed.

Lemma be_get_put n z : be_get (be_put n z) = z mod 256 ^ Z.of_nat n.
Proof.
  induction n as [|n IH]; simpl be_put; [by rewrite Z.mod_1_r|].
  rewrite be_get_cons, IH, byteZ_mkbyte. unfold Zlen. rewrite length_be_put.
  rewrite Z.shiftr_div_pow2 by lia.
  replace (2 ^ (8 * Z.of_nat n)) with (256 ^ Z.of_nat n) by (rewrite Z.pow_mul_r by lia; done).
  rewrite Nat2Z.inj_succ, Z.pow_succ_r, (Z.mul_comm 256) by lia.
  rewrite Z.rem_mul_r by (try apply Z.pow_nonzero; lia). lia.
Qed.

Lemma be_put_mod n z : be_put n (z mod 256 ^ Z.of_nat n) = be_put n z.
Proof.
  assert (∀ m k, (m <= k)%nat → be_put m (z mod 256 ^ Z.of_nat k) = be_put m z) as H; [|by apply H].
  intros m k. induction m as [|m IH]; intros Hm; simpl; [done|]. f_equal; [|apply IH; lia].
  apply mkbyte_eq. rewrite !Z.shiftr_div_pow2 by lia.
  replace (2 ^ (8 * Z.of_nat m)) with (256 ^ Z.of_nat m) by (rewrite Z.pow_mul_r by lia; done).
  replace (Z.of_nat k) with (Z.of_nat m + Z.succ (Z.of_nat (k - S m))) by lia.
  rewrite Z.pow_add_r, Z.pow_succ_r by lia.
  assert (0 < 256 ^ Z.of_nat m) by (apply Z.pow_pos_nonneg; lia).
  assert (0 < 256 ^ Z.of_nat (k - S m)) by (apply Z.pow_pos_nonneg; lia).
  rewrite Z.rem_mul_r by lia.
  rewrite (Z.mul_comm (256 ^ Z.of_nat m)), Z.div_add, Z.div_small by (try apply Z.mod_pos_bound; lia).
  rewrite Z.add_0_l, Z.mod_mod_divide; [done|]. apply Z.divide_factor_l.
Qed.

Lemma be_put_get l : be_put (length l) (be_get l) = l.
Proof.
  induction l as [|b l IH]; [done|]. simpl. rewrite be_get_cons. unfold Zlen.
  assert (0 < 256 ^ Z.of_nat (length l)) by (apply Z.pow_pos_nonneg; lia).
  pose proof (be_get_range l) as Hr. unfold Zlen in Hr.
  f_equal.
  - rewrite Z.shiftr_div_pow2 by lia.
    replace (2 ^ (8 * Z.of_nat (length l))) with (256 ^ Z.of_nat (length l))
      by (rewrite Z.pow_mul_r by lia; done).
    rewrite Z.add_comm, Z.div_add, Z.div_small by lia. apply mkbyte_byteZ.
  - rewrite <- be_put_mod, Z.add_comm, Z.mod_add, be_put_mod by lia. apply IH.
Qed.

(** Signed loads and stores are inverse at each width. *)
Lemma be_get_put_small n z : 0 <= z < 256 ^ Z.of_nat n → be_get (be_put n z) = z.
Proof. intros H. rewrite be_get_put. by apply Z.mod_small. Qed.
Lemma int16_get_put z : int16 (be_get (be_put 2 z)) = int16 z.
Proof. rewrite be_get_put. apply (wraps_mod 16). lia. Qed.
Lemma int32_get_put z : int32 (be_get (be_put 4 z)) = int32 z.
Proof. rewrite be_get_put. apply (wraps_mod 32). lia. Qed.
Lemma int64_get_put z : int64 (be_get (be_put 8 z)) = int64 z.
Proof. rewrite be_get_put. apply (wraps_mod 64). lia. Qed.

Lemma Zlen_app {A} (l k : list A) : Zlen (l ++ k) = Zlen l + Zlen k.
Proof. unfold Zlen. rewrite length_app. lia. Qed.
Lemma Zlen_cons {A} (a : A) l : Zlen (a :: l) = Zlen l + 1.
Proof. unfold Zlen. cbn [length]. lia. Qed.
Lemma Zlen_nil {A} : Zlen (@nil A) = 0.
Proof. done. Qed.
Lemma Zlen_nonneg {A} (l : list A) : 0 <= Zlen l.
Proof. unfold Zlen. lia. Qed.

Lemma take_app_len {A} n (l k : list A) : length l = n → take n (l ++ k) = l.
Proof. intros <-. apply take_app_length. Qed.
Lemma drop_app_len {A} n (l k : list A) : length l = n → drop n (l ++ k) = k.
Proof. intros <-. apply drop_app_length. Qed.

Lemma drop_S_app {A} (l k : list A) c : drop (S (length l)) (l ++ c :: k) = k.
Proof. induction l; [done|]. simpl. done. Qed.

(** A NUL-terminated string is read back with what follows it. *)
Lemma index_zero_app l k : x00 ∉ l → index_zero (l ++ x00 :: k) = Some (length l).
Proof.
  induction l as [|b l IH]; intros H; simpl; [done|].
  apply not_elem_of_cons in H as [Hb Hl].
  assert (beq b x00 = false) as -> by (apply beq_false; congruence). by rewrite IH.
Qed.

(** *** Digits *)
Lemma undigits_snoc base l d : undigits base (l ++ [d]) = undigits base l * base + d.
Proof. unfold undigits. by rewrite fold_left_app. Qed.

Lemma digits_fuel_spec fuel base n :
  2 <= base → 0 <= n < 2 ^ Z.of_nat fuel →
  undigits base (digits_fuel fuel base n) = n ∧ Forall (λ d, 0 <= d < base) (digits_fuel fuel base n).
Proof.
  intros Hb. revert n. induction fuel as [|f IH]; intros n Hn.
  - simpl in *. split; [cbn; lia|constructor].
  - simpl. destruct (Z.ltb_spec n base).
    + split; [unfold undigits; simpl; lia|]. constructor; [lia|constructor].
    + rewrite Nat2Z.inj_succ, Z.pow_succ_r in Hn by lia.
      assert (0 <= n / base < 2 ^ Z.of_nat f) as Hd.
      { split; [apply Z.div_pos; lia|]. apply Z.div_lt_upper_bound; [lia|]. nia. }
      destruct (IH _ Hd) as [H1 H2]. rewrite undigits_snoc, H1.
      split; [pose proof (Z.div_mod n base); lia|].
      apply Forall_app; split; [done|]. constructor; [apply Z.mod_pos_bound; lia|constructor].
Qed.

Lemma digits_fuel_ok n : 0 <= n → n < 2 ^ Z.of_nat (S (Z.to_nat (Z.log2 n))).
Proof.
  intros Hn. rewrite Nat2Z.inj_succ, Z2Nat.id by apply Z.log2_nonneg.
  destruct (decide (n = 0)) as [->|]; [cbn; lia|]. apply Z.log2_spec. lia.
Qed.

Lemma undigits_digits base n : 2 <= base → 0 <= n → undigits base (digits base n) = n.
Proof. intros. apply digits_fuel_spec; [done|]. split; [done|by apply digits_fuel_ok]. Qed.
Lemma digits_range base n : 2 <= base → 0 <= n → Forall (λ d, 0 <= d < base) (digits base n).
Proof. intros. apply digits_fuel_spec; [done|]. split; [done|by apply digits_fuel_ok]. Qed.

(** No leading zero, except for the number 0 itself. *)
Lemma digits_fuel_head fuel base n :
  2 <= base → 0 < n < 2 ^ Z.of_nat fuel → ∃ d l, digits_fuel fuel base n = d :: l ∧ 0 < d < base.
Proof.
  intros Hb. revert n. induction fuel as [|f IH]; intros n Hn; [simpl in *; lia|].
  simpl. destruct (Z.ltb_spec n base); [exists n, []; split; [done|lia]|].
  rewrite Nat2Z.inj_succ, Z.pow_succ_r in Hn by lia.
  destruct (IH (n / base)) as (d & l & -> & Hd).
  { split; [apply Z.div_str_pos; lia|]. apply Z.div_lt_upper_bound; nia. }
  by exists d, (l ++ [n mod base]).
Qed.

Lemma digits_cons base n : 2 <= base → 0 <= n →
  ∃ d l, digits base n = d :: l ∧ (d = 0 → l = [] ∧ n = 0).
Proof.
  intros Hb Hn. destruct (decide (n = 0)) as [->|Hne].
  - exists 0, []. unfold digits. simpl. destruct (Z.ltb_spec 0 base); [done|lia].
  - destruct (digits_fuel_head (S (Z.to_nat (Z.log2 n))) base n) as (d & l & E & Hd);
      [done|split; [lia|by apply digits_fuel_ok]|].
    exists d, l. split; [done|lia].
Qed.

Lemma digit_char_digit d : 0 <= d < 10 → is_digit (digit_char d) = true ∧ digit_val (digit_char d) = d.
Proof.
  intros Hd. unfold digit_char, is_digit, digit_val.
  destruct (Z.ltb_spec d 10); [|lia]. rewrite byteZ_mkbyte, Z.mod_small by lia. split; lia.
Qed.

Lemma digit_chars_digits l : Forall (λ d, 0 <= d < 10) l →
  forallb is_digit (digit_char <$> l) = true ∧ digit_val <$> (digit_char <$> l) = l.
Proof.
  induction 1 as [|d l Hd _ [IH1 IH2]]; [done|]. destruct (digit_char_digit d Hd) as [H1 H2].
  rewrite !fmap_cons. simpl. rewrite H1, IH1, H2, IH2. done.
Qed.

Lemma dec_value_digits n : 0 <= n → dec_value (digit_char <$> digits 10 n) = n.
Proof.
  intros Hn. unfold dec_value.
  rewrite (proj2 (digit_chars_digits _ (digits_range 10 n ltac:(lia) Hn))).
  by apply undigits_digits.
Qed.

Lemma AppendInt_app dst v : AppendInt dst v = dst ++ AppendInt [] v.
Proof. unfold AppendInt, AppendUintBase. destruct (v <? 0); [by rewrite app_nil_l, <- app_assoc|done]. Qed.

Lemma int_value_AppendInt v : int_value (AppendInt [] v) = v.
Proof.
  unfold AppendInt, AppendUintBase. destruct (Z.ltb_spec v 0).
  - simpl. rewrite dec_value_digits; lia.
  - simpl. destruct (digits_cons 10 v) as (d & l & E & _); [lia..|].
    pose proof (digits_range 10 v ltac:(lia) ltac:(lia)) as HF. rewrite E in HF.
    pose proof (Forall_inv HF) as Hd. simpl in Hd.
    pose proof (dec_value_digits v ltac:(lia)) as Hv. rewrite E, fmap_cons in *. unfold int_value.
    assert (beq (digit_char d) "-"%byte = false) as ->; [|done].
    apply beq_false. intros Hc. pose proof (proj2 (digit_char_digit d Hd)) as Hq. rewrite Hc in Hq.
    rewrite <- Hq in Hd. by destruct Hd as [Hd _].
Qed.

Lemma AppendInt_digits n : 0 <= n → forallb is_digit (AppendInt [] n) = true.
Proof.
  intros Hn. unfold AppendInt, AppendUintBase. destruct (Z.ltb_spec n 0); [lia|].
  apply (digit_chars_digits _ (digits_range 10 n ltac:(lia) Hn)).
Qed.

Lemma ParseInt64_dec n : 0 <= n < 2 ^ 63 → ParseInt64 (AppendInt [] n) = Some n.
Proof.
  intros Hn. pose proof (AppendInt_digits n ltac:(lia)) as Hd.
  unfold AppendInt, AppendUintBase in *. destruct (Z.ltb_spec n 0); [lia|]. cbn [app] in *.
  pose proof (dec_value_digits n ltac:(lia)) as Hv. destruct (digits_cons 10 n ltac:(lia) ltac:(lia)) as (d & l & E & _).
  rewrite E in *. rewrite fmap_cons in *. unfold ParseInt64.
  assert (is_digit (digit_char d) = true) as Hd0 by (cbn in Hd; by apply andb_prop in Hd as [? _]).
  destruct (beq (digit_char d) "-"%byte) eqn:E1; [apply beq_true in E1; by rewrite E1 in Hd0|].
  destruct (beq (digit_char d) "+"%byte) eqn:E2; [apply beq_true in E2; by rewrite E2 in Hd0|].
  rewrite Hd, Hv. destruct (Z.leb_spec (- 2 ^ 63) n); [|lia]. by destruct (Z.ltb_spec n (2 ^ 63)); [|lia].
Qed.

Lemma HasPrefix_app p s : HasPrefix p (p ++ s) = true.
Proof. induction p as [|c p IH]; [done|]. cbn. rewrite IH. by assert (beq c c = true) as -> by (by apply beq_true). Qed.
Lemma HasPrefix_inv p s : HasPrefix p s = true → ∃ r, s = p ++ r.
Proof.
  revert s. induction p as [|c p IH]; intros s H; [by exists s|]. destruct s as [|b s]; [done|]. cbn in H.
  apply andb_prop in H as [H1 H2]. apply beq_true in H1 as ->. destruct (IH s H2) as [r ->]. by exists r.
Qed.

#[export] Hint Resolve byteZ_range Zlen_nonneg be_get_range : pgz.
#[export] Hint Rewrite @length_app length_be_put @length_cons @length_nil mkbyte_byteZ
  be_put_get : pgz.
