(* ===== verification/Protocol.v ===== *)
(** Message codes, type OIDs and the two OID classifiers of
    internal/protocol (messages.go and oid.go). *)
From S2P Require Import Prelude.

(** ** internal/protocol/messages.go *)

(** Backend message types. *)
Definition MsgAuthentication : byte := "R"%byte.
Definition MsgBackendKeyData : byte := "K"%byte.
Definition MsgBindComplete : byte := "2"%byte.
Definition MsgCloseComplete : byte := "3"%byte.
Definition MsgCommandComplete : byte := "C"%byte.
Definition MsgDataRow : byte := "D"%byte.
Definition MsgEmptyQueryResponse : byte := "I"%byte.
Definition MsgErrorResponse : byte := "E"%byte.
Definition MsgNoData : byte := "n"%byte.
Definition MsgNoticeResponse : byte := "N"%byte.
Definition MsgParameterDescription : byte := "t"%byte.
Definition MsgParameterStatus : byte := "S"%byte.
Definition MsgParseComplete : byte := "1"%byte.
Definition MsgPortalSuspended : byte := "s"%byte.
Definition MsgReadyForQuery : byte := "Z"%byte.
Definition MsgRowDescription : byte := "T"%byte.
Definition MsgNegotiateProtocol : byte := "v"%byte.
Definition MsgCopyInResponse : byte := "G"%byte.
Definition MsgCopyOutResponse : byte := "H"%byte.

(** Frontend message types. *)
Definition MsgBind : byte := "B"%byte.
Definition MsgClose : byte := "C"%byte.
Definition MsgDescribe : byte := "D"%byte.
Definition MsgExecute : byte := "E"%byte.
Definition MsgParse : byte := "P"%byte.
Definition MsgQuery : byte := "Q"%byte.
Definition MsgSync : byte := "S"%byte.
Definition MsgPassword : byte := "p"%byte.
Definition MsgCopyData : byte := "d"%byte.
Definition MsgCopyDone : byte := "c"%byte.
Definition MsgCopyFail : byte := "f"%byte.

(** Authentication request subtypes and the protocol version. *)
Definition AuthOK : Z := 0.
Definition AuthCleartextPassword : Z := 3.
Definition AuthMD5Password : Z := 5.
Definition AuthSASL : Z := 10.
Definition AuthSASLContinue : Z := 11.
Definition AuthSASLFinal : Z := 12.
Definition ProtocolVersion3 : Z := Z.lor (Z.shiftl 3 16) 0.

(** ** internal/protocol/oid.go *)

(** [type OID uint32]. *)
Abbreviation OID := Z (only parsing).

Definition OIDBool : OID := 16.
Definition OIDBytea : OID := 17.
Definition OIDName : OID := 19.
Definition OIDInt8 : OID := 20.
Definition OIDInt2 : OID := 21.
Definition OIDInt4 : OID := 23.
Definition OIDText : OID := 25.
Definition OIDOID : OID := 26.
Definition OIDJSON : OID := 114.
Definition OIDFloat4 : OID := 700.
Definition OIDFloat8 : OID := 701.
Definition OIDBPChar : OID := 1042.
Definition OIDVarchar : OID := 1043.
Definition OIDDate : OID := 1082.
Definition OIDTime : OID := 1083.
Definition OIDTimestamp : OID := 1114.
Definition OIDTimestampTZ : OID := 1184.
Definition OIDInterval : OID := 1186.
Definition OIDTimeTZ : OID := 1266.
Definition OIDNumeric : OID := 1700.
Definition OIDUUID : OID := 2950.
Definition OIDJSONB : OID := 3802.

Definition OIDBoolArray : OID := 1000.
Definition OIDInt2Array : OID := 1005.
Definition OIDInt4Array : OID := 1007.
Definition OIDTextArray : OID := 1009.
Definition OIDBPCharArray : OID := 1014.
Definition OIDVarcharArray : OID := 1015.
Definition OIDInt8Array : OID := 1016.
Definition OIDFloat4Array : OID := 1021.
Definition OIDFloat8Array : OID := 1022.
Definition OIDOIDArray : OID := 1028.
Definition OIDByteaArray : OID := 1001.
Definition OIDDateArray : OID := 1182.
Definition OIDTimestampArray : OID := 1115.
Definition OIDTimestampTZArray : OID := 1185.
Definition OIDUUIDArray : OID := 2951.
Definition OIDJSONArray : OID := 199.
Definition OIDJSONBArray : OID := 3807.
Definition OIDNumericArray : OID := 1231.

Definition OIDInt4Range : OID := 3904.
Definition OIDNumRange : OID := 3906.
Definition OIDTsRange : OID := 3908.
Definition OIDTsTzRange : OID := 3910.
Definition OIDDateRange : OID := 3912.
Definition OIDInt8Range : OID := 3926.

(** A Go [case a, b, c:] on an OID. *)
Definition oid_in (o : OID) (l : list OID) : bool := existsb (Z.eqb o) l.

Definition IsRange (o : OID) : bool :=
  oid_in o [OIDInt4Range; OIDInt8Range; OIDNumRange; OIDTsRange; OIDTsTzRange; OIDDateRange].

Definition ArrayElem (o : OID) : OID :=
  if o =? OIDBoolArray then OIDBool
  else if o =? OIDInt2Array then OIDInt2
  else if o =? OIDInt4Array then OIDInt4
  else if o =? OIDInt8Array then OIDInt8
  else if o =? OIDFloat4Array then OIDFloat4
  else if o =? OIDFloat8Array then OIDFloat8
  else if o =? OIDTextArray then OIDText
  else if o =? OIDVarcharArray then OIDVarchar
  else if o =? OIDBPCharArray then OIDBPChar
  else if o =? OIDUUIDArray then OIDUUID
  else if o =? OIDJSONArray then OIDJSON
  else if o =? OIDJSONBArray then OIDJSONB
  else if o =? OIDTimestampArray then OIDTimestamp
  else if o =? OIDTimestampTZArray then OIDTimestampTZ
  else if o =? OIDDateArray then OIDDate
  else if o =? OIDOIDArray then OIDOID
  else if o =? OIDByteaArray then OIDBytea
  else if o =? OIDNumericArray then OIDNumeric
  else 0.
