(* ===== verification/JsonWriter.v ===== *)
(** internal/jsonwriter: the Append* helpers (writer.go), the default scalar
    string escaper (escape_scalar.go) and the SWAR escaper of the [pgz_simd]
    build (escape_swar.go), with the proof that the two builds agree on every
    byte sequence. *)
From S2P Require Import Prelude.

(** ** writer.go *)

Definition AppendNull (dst : bytes) : bytes := dst ++ str "null".

Definition AppendBool (dst : bytes) (v : bool) : bytes :=
  if v then dst ++ str "true" else dst ++ str "false".

(** Byte 0x22 (double quote) and byte 0x5C (backslash). *)
Definition dquote : byte := x22.
Definition bslash : byte := x5c.

Definition escapeFlag (b : byte) : bool :=
  (byteZ b <? 32) || beq b dquote || beq b bslash.

(** The constant [hex = "0123456789abcdef"], indexed. *)
Definition hexdig (z : Z) : byte := nth (Z.to_nat z) (str "0123456789abcdef") x00.

Definition appendEscape (dst : bytes) (c : byte) : bytes :=
  if beq c dquote then dst ++ [bslash; dquote]
  else if beq c bslash then dst ++ [bslash; bslash]
  else if beq c x0a then dst ++ [bslash; "n"%byte]
  else if beq c x0d then dst ++ [bslash; "r"%byte]
  else if beq c x09 then dst ++ [bslash; "t"%byte]
  else if beq c x08 then dst ++ [bslash; "b"%byte]
  else if beq c x0c then dst ++ [bslash; "f"%byte]
  else dst ++ [bslash; "u"%byte; "0"%byte; "0"%byte;
               hexdig (Z.shiftr (byteZ c) 4); hexdig (Z.land (byteZ c) 15)].

(** ** escape_scalar.go *)

(** The [for] loop of AppendStringBodyBytes, one iteration per unit of fuel:
    [start] is the beginning of the pending unescaped span. *)
Fixpoint scalar_loop (fuel : nat) (s dst : bytes) (start i : nat) : bytes * nat :=
  match fuel with
  | O => (dst, start)
  | S fuel =>
      match s !! i with
      | None => (dst, start)
      | Some c =>
          if negb (escapeFlag c) then scalar_loop fuel s dst start (S i)
          else
            let dst := if (start <? i)%nat then dst ++ slice start i s else dst in
            scalar_loop fuel s (appendEscape dst c) (S i) (S i)
      end
  end.

Definition AppendStringBodyBytes (dst s : bytes) : bytes :=
  let '(dst, start) := scalar_loop (length s) s dst 0 0 in
  if (start <? length s)%nat then dst ++ drop start s else dst.

(** The string twin has the same body; Go strings are byte sequences. *)
Definition AppendStringBody (dst s : bytes) : bytes :=
  let '(dst, start) := scalar_loop (length s) s dst 0 0 in
  if (start <? length s)%nat then dst ++ drop start s else dst.

Definition AppendString (dst s : bytes) : bytes :=
  AppendStringBody (dst ++ [dquote]) s ++ [dquote].

Definition AppendStringBytes (dst s : bytes) : bytes :=
  AppendStringBodyBytes (dst ++ [dquote]) s ++ [dquote].

Definition AppendKey (dst k : bytes) : bytes := AppendString dst k ++ [":"%byte].

(** ** escape_swar.go *)
Module Swar.

Definition swarOnes : Z := 0x0101010101010101.
Definition swarHigh : Z := 0x8080808080808080.
Definition swarQuote : Z := 0x2222222222222222.
Definition swarSlash : Z := 0x5C5C5C5C5C5C5C5C.
Definition swarCtrl : Z := 0x2020202020202020.

(** Go's unary [^x] on uint64. *)
Definition not64 (x : Z) : Z := u64 (Z.lnot x).

Definition swarHasEscapable (x : Z) : Z :=
  let lowCtrl := Z.land (Z.land (u64 (x - swarCtrl)) (not64 x)) swarHigh in
  let quote := Z.land (Z.land (u64 (Z.lxor x swarQuote - swarOnes)) (not64 (Z.lxor x swarQuote))) swarHigh in
  let slash := Z.land (Z.land (u64 (Z.lxor x swarSlash - swarOnes)) (not64 (Z.lxor x swarSlash))) swarHigh in
  Z.lor (Z.lor lowCtrl quote) slash.

(** [binary.LittleEndian.Uint64]. *)
Fixpoint le_get (l : bytes) : Z :=
  match l with [] => 0 | b :: l => byteZ b + 256 * le_get l end.

(** Fast-forward through safe 8-byte chunks. *)
Fixpoint skip_chunks (fuel : nat) (s : bytes) (i : nat) : nat :=
  match fuel with
  | O => i
  | S fuel =>
      if (i + 8 <=? length s)%nat then
        if negb (swarHasEscapable (le_get (slice i (i + 8) s)) =? 0) then i
        else skip_chunks fuel s (i + 8)
      else i
  end.

(** Scalar scan to the next escapable byte or the end of input. *)
Fixpoint scan_scalar (fuel : nat) (s : bytes) (i : nat) : nat :=
  match fuel with
  | O => i
  | S fuel =>
      match s !! i with
      | None => i
      | Some c => if escapeFlag c then i else scan_scalar fuel s (S i)
      end
  end.

Fixpoint swar_loop (fuel : nat) (s dst : bytes) (start i : nat) : bytes :=
  match fuel with
  | O => dst
  | S fuel =>
      if (i <? length s)%nat then
        let i := skip_chunks (length s) s i in
        let i := scan_scalar (length s) s i in
        let '(dst, start) := if (start <? i)%nat then (dst ++ slice start i s, i) else (dst, start) in
        match s !! i with
        | Some c => swar_loop fuel s (appendEscape dst c) (S i) (S i)
        | None => swar_loop fuel s dst start i
        end
      else dst
  end.

Definition appendStringBodySWAR (dst s : bytes) : bytes :=
  swar_loop (S (length s)) s dst 0 0.

End Swar.

(** ** Reference definition: escape byte by byte *)
Definition escape1 (c : byte) : bytes := if escapeFlag c then appendEscape [] c else [c].
Fixpoint escape (s : bytes) : bytes :=
  match s with [] => [] | c :: s => escape1 c ++ escape s end.

(** ** Lemmas *)

Lemma appendEscape_app dst c : appendEscape dst c = dst ++ appendEscape [] c.
Proof. unfold appendEscape. byte_cases; done. Qed.

Lemma escape_app s t : escape (s ++ t) = escape s ++ escape t.
Proof. induction s as [|c s IH]; simpl; [done|]. by rewrite IH, app_assoc. Qed.

Lemma escape_safe s : forallb (λ c, negb (escapeFlag c)) s = true → escape s = s.
Proof.
  induction s as [|c s IH]; simpl; [done|]. intros [Hc Hs]%andb_prop.
  unfold escape1. apply negb_true_iff in Hc. rewrite Hc, IH by done. done.
Qed.

Lemma slice_lookup_snoc (s : bytes) i j c :
  (i <= j)%nat → s !! j = Some c → slice i (S j) s = slice i j s ++ [c].
Proof.
  intros Hij Hc. unfold slice. replace (S j - i)%nat with (S (j - i)) by lia.
  apply take_S_r. rewrite lookup_drop. by replace (i + (j - i))%nat with j by lia.
Qed.

(** The safe span already scanned by a loop that is at [i]. *)
Definition safe_span (s : bytes) (start i : nat) : Prop :=
  (start <= i)%nat ∧ forallb (λ c, negb (escapeFlag c)) (slice start i s) = true.

Lemma safe_span_refl s i : safe_span s i i.
Proof. split; [done|]. unfold slice. by rewrite Nat.sub_diag. Qed.

Lemma safe_span_snoc s start i c :
  safe_span s start i → s !! i = Some c → escapeFlag c = false → safe_span s start (S i).
Proof.
  intros [H1 H2] Hc He. split; [lia|]. rewrite (slice_lookup_snoc _ _ _ c) by done.
  rewrite forallb_app, H2. simpl. by rewrite He.
Qed.

Lemma drop_slice (s : bytes) i j : (i <= j)%nat → drop i s = slice i j s ++ drop j s.
Proof.
  intros H. unfold slice. rewrite <- (take_drop (j - i) (drop i s)) at 1.
  f_equal. rewrite drop_drop. f_equal. lia.
Qed.

Lemma span_escape s start i :
  safe_span s start i → escape (drop start s) = slice start i s ++ escape (drop i s).
Proof.
  intros [H1 H2]. rewrite (drop_slice s start i), escape_app by done. f_equal. by apply escape_safe.
Qed.

Lemma opt_slice (dst s : bytes) start i :
  (start <= i)%nat → (if (start <? i)%nat then dst ++ slice start i s else dst) = dst ++ slice start i s.
Proof.
  intros H. destruct (Nat.ltb_spec start i); [done|].
  unfold slice. replace (i - start)%nat with 0%nat by lia. by rewrite take_0, app_nil_r.
Qed.

Lemma escape_drop_cons s i c : s !! i = Some c → escape (drop i s) = escape1 c ++ escape (drop (S i) s).
Proof. intros H. by rewrite (drop_S s c i H). Qed.

Lemma scalar_loop_spec fuel s dst start i :
  (length s <= fuel + i)%nat → safe_span s start i →
  let '(dst', start') := scalar_loop fuel s dst start i in
  (start' <= length s ∨ start' = start)%nat ∧ dst' ++ drop start' s = dst ++ escape (drop start s).
Proof.
  revert dst start i. induction fuel as [|fuel IH]; intros dst start i Hf Hs; simpl.
  - split; [by right|]. rewrite (span_escape s start i Hs), (drop_slice s start i) by apply Hs.
    rewrite !(drop_ge s i) by lia. simpl. by rewrite !app_nil_r.
  - destruct (s !! i) as [c|] eqn:Ec.
    + destruct (escapeFlag c) eqn:Ee; simpl.
      * rewrite opt_slice by apply Hs.
        specialize (IH (appendEscape (dst ++ slice start i s) c) (S i) (S i) ltac:(lia) (safe_span_refl _ _)).
        destruct (scalar_loop fuel s _ (S i) (S i)) as [d' st']. destruct IH as [IH1 IH2].
        apply lookup_lt_Some in Ec as Hlt. split; [left; lia|].
        rewrite IH2, (span_escape s start i Hs), (escape_drop_cons s i c Ec).
        unfold escape1. rewrite Ee, appendEscape_app, <- !app_assoc. done.
      * apply IH; [lia|]. by apply safe_span_snoc with c.
    + split; [by right|]. apply lookup_ge_None in Ec.
      rewrite (span_escape s start i Hs), (drop_slice s start i) by apply Hs.
      rewrite !(drop_ge s i) by lia. simpl. by rewrite !app_nil_r.
Qed.

Lemma AppendStringBodyBytes_escape dst s : AppendStringBodyBytes dst s = dst ++ escape s.
Proof.
  unfold AppendStringBodyBytes.
  pose proof (scalar_loop_spec (length s) s dst 0 0 ltac:(lia) (safe_span_refl _ _)) as H.
  destruct (scalar_loop _ _ _ _ _) as [d st]. destruct H as [_ H]. rewrite drop_0 in H.
  destruct (Nat.ltb_spec st (length s)); [done|]. by rewrite drop_ge, app_nil_r in H by lia.
Qed.

Lemma AppendStringBody_escape dst s : AppendStringBody dst s = dst ++ escape s.
Proof. apply AppendStringBodyBytes_escape. Qed.

Lemma AppendString_escape dst s : AppendString dst s = dst ++ dquote :: escape s ++ [dquote].
Proof. unfold AppendString. by rewrite AppendStringBody_escape, <- !app_assoc. Qed.

Lemma AppendStringBytes_escape dst s : AppendStringBytes dst s = dst ++ dquote :: escape s ++ [dquote].
Proof. unfold AppendStringBytes. by rewrite AppendStringBodyBytes_escape, <- !app_assoc. Qed.

(** *** The word-level test *)

Lemma testbit_split a A n : 0 <= a < 256 → 0 <= n →
  Z.testbit (a + 256 * A) n = if n <? 8 then Z.testbit a n else Z.testbit A (n - 8).
Proof.
  intros Ha Hn. rewrite Z.mul_comm. destruct (Z.ltb_spec n 8).
  - rewrite <- (Z.mod_pow2_bits_low (a + A * 256) 8 n) by lia.
    change (2 ^ 8) with 256. rewrite Z.mod_add, Z.mod_small by lia. done.
  - replace n with (n - 8 + 8) at 1 by lia. rewrite <- (Z.div_pow2_bits (a + A * 256) 8 (n - 8)) by lia.
    change (2 ^ 8) with 256. rewrite Z.div_add, Z.div_small by lia. done.
Qed.

Lemma bitop_split (op : Z → Z → Z) (f : bool → bool → bool) a b A B :
  (∀ x y n, Z.testbit (op x y) n = f (Z.testbit x n) (Z.testbit y n)) →
  0 <= a < 256 → 0 <= b < 256 → 0 <= op a b < 256 →
  op (a + 256 * A) (b + 256 * B) = op a b + 256 * op A B.
Proof.
  intros Hop Ha Hb Hab. apply Z.bits_inj'. intros n Hn.
  rewrite Hop, !testbit_split, !Hop by lia. by destruct (n <? 8).
Qed.

Lemma land_byte_range a b : 0 <= a < 256 → 0 <= b < 256 → 0 <= Z.land a b < 256.
Proof.
  intros Ha Hb. rewrite <- (Z.mod_small a 256) by lia.
  change 256 with (2 ^ 8). rewrite <- Z.land_ones, (Z.land_comm a), <- Z.land_assoc, Z.land_comm by lia.
  rewrite Z.land_ones by lia. apply Z.mod_pos_bound. lia.
Qed.

Lemma lxor_byte_range a b : 0 <= a < 256 → 0 <= b < 256 → 0 <= Z.lxor a b < 256.
Proof.
  intros Ha Hb. assert (0 <= Z.lxor a b) by (apply Z.lxor_nonneg; lia). split; [done|].
  destruct (decide (Z.lxor a b = 0)) as [->|Hne]; [lia|].
  assert (∀ x, 0 <= x < 256 → Z.log2 x <= 7) as Hl.
  { intros x Hx. change 7 with (Z.log2 255). apply Z.log2_le_mono. lia. }
  change 256 with (2 ^ 8). apply Z.log2_lt_pow2; [lia|].
  pose proof (Z.log2_lxor a b ltac:(lia) ltac:(lia)). pose proof (Hl a Ha). pose proof (Hl b Hb). lia.
Qed.

Lemma land_split a b A B : 0 <= a < 256 → 0 <= b < 256 →
  Z.land (a + 256 * A) (b + 256 * B) = Z.land a b + 256 * Z.land A B.
Proof. intros. apply (bitop_split Z.land andb); auto using Z.land_spec, land_byte_range. Qed.

Lemma lxor_split a b A B : 0 <= a < 256 → 0 <= b < 256 →
  Z.lxor (a + 256 * A) (b + 256 * B) = Z.lxor a b + 256 * Z.lxor A B.
Proof. intros. apply (bitop_split Z.lxor xorb); auto using Z.lxor_spec, lxor_byte_range. Qed.

(** The value of a little-endian list of digits, and the constant with the
    same digit in each of [n] places. *)
Fixpoint le_val (l : list Z) : Z := match l with [] => 0 | b :: l => b + 256 * le_val l end.
Definition rep (n : nat) (d : Z) : Z := le_val (replicate n d).

Definition digits_ok (l : list Z) : Prop := Forall (λ b, 0 <= b < 256) l.

Lemma le_val_range l : digits_ok l → 0 <= le_val l < 256 ^ Zlen l.
Proof.
  unfold Zlen. induction 1 as [|b l Hb _ IH]; simpl length; simpl le_val; [lia|].
  rewrite Nat2Z.inj_succ, Z.pow_succ_r by lia. lia.
Qed.

(** [(x - n*ones - c) & ^x & high] on [length l] bytes. *)
Definition less_mask (n c : Z) (l : list Z) : Z :=
  Z.land (Z.land ((le_val l - rep (length l) n - c) mod 256 ^ Zlen l)
                 (256 ^ Zlen l - 1 - le_val l))
         (rep (length l) 128).

Lemma less_mask_cons n c b l :
  0 <= b < 256 → digits_ok l → 0 <= n <= 128 → 0 <= c <= 1 →
  let d := b - n - c in
  less_mask n c (b :: l) =
  Z.land (Z.land (d mod 256) (255 - b)) 128 + 256 * less_mask n (if d <? 0 then 1 else 0) l.
Proof.
  intros Hb Hl Hn Hc d. unfold less_mask, Zlen. simpl length. rewrite Nat2Z.inj_succ, Z.pow_succ_r by lia.
  unfold rep. simpl. set (N := 256 ^ Z.of_nat (length l)). set (Y := le_val l).
  set (R := le_val (replicate (length l) n)).
  assert (0 < N) by (apply Z.pow_pos_nonneg; lia).
  replace ((b + 256 * Y - (n + 256 * R) - c) mod (256 * N))
    with (d mod 256 + 256 * ((Y - R - (if d <? 0 then 1 else 0)) mod N)).
  2:{ rewrite Z.rem_mul_r by lia.
      replace (b + 256 * Y - (n + 256 * R) - c) with (d + (Y - R) * 256) by (unfold d; lia).
      rewrite Z.mod_add, Z.div_add by lia. f_equal. f_equal. f_equal.
      destruct (Z.ltb_spec d 0).
      - replace (d / 256) with (-1); [lia|]. apply Z.div_unique with (d + 256); unfold d in *; lia.
      - rewrite Z.div_small; unfold d in *; lia. }
  replace (256 * N - 1 - (b + 256 * Y)) with ((255 - b) + 256 * (N - 1 - Y)) by lia.
  pose proof (Z.mod_pos_bound d 256 ltac:(lia)).
  rewrite land_split, land_split; try lia. apply land_byte_range; lia.
Qed.

Lemma less_mask_nonneg n c l : digits_ok l → 0 <= less_mask n c l.
Proof.
  intros Hl. apply Z.land_nonneg. right. unfold rep. apply le_val_range.
  apply Forall_replicate. lia.
Qed.

(** One byte against a threshold: the high bit of [d & ^b] is set exactly
    when the byte is below [n], given no borrow came in. *)
Definition byte_mask_ok (n b : Z) : bool :=
  if b <? n then negb (Z.land (Z.land ((b - n) mod 256) (255 - b)) 128 =? 0)
  else Z.land (Z.land ((b - n) mod 256) (255 - b)) 128 =? 0.

Lemma byte_mask_all n : n = 1 ∨ n = 32 →
  forallb (byte_mask_ok n) (seqZ 0 256) = true.
Proof. intros [-> | ->]; vm_compute; done. Qed.

Lemma less_mask_zero n l : n = 1 ∨ n = 32 → digits_ok l →
  (less_mask n 0 l = 0 ↔ Forall (λ b, n <= b) l).
Proof.
  intros Hn. induction 1 as [|b l Hb Hl IH]; [split; [constructor|done]|].
  assert (byte_mask_ok n b = true) as Hm.
  { pose proof (proj1 (forallb_forall _ _) (byte_mask_all n Hn) b) as H. apply H.
    apply list_elem_of_In, elem_of_seqZ. lia. }
  rewrite less_mask_cons by (try done; lia). rewrite Z.sub_0_r.
  pose proof (less_mask_nonneg n (if b - n <? 0 then 1 else 0) l Hl) as Hp.
  assert (0 <= Z.land (Z.land ((b - n) mod 256) (255 - b)) 128) by (apply Z.land_nonneg; lia).
  unfold byte_mask_ok in Hm. rewrite Forall_cons.
  destruct (Z.ltb_spec b n).
  - apply negb_true_iff, Z.eqb_neq in Hm. split; lia.
  - apply Z.eqb_eq in Hm. rewrite Hm. destruct (Z.ltb_spec (b - n) 0); [lia|].
    rewrite <- IH. split; lia.
Qed.

Lemma le_get_val s : Swar.le_get s = le_val (byteZ <$> s).
Proof. induction s as [|b s IH]; simpl; [done|]. by rewrite IH. Qed.

Lemma bytes_ok s : digits_ok (byteZ <$> s).
Proof. unfold digits_ok. rewrite Forall_fmap. apply Forall_true. intros b. apply byteZ_range. Qed.

Lemma lxor_rep l q : digits_ok l → 0 <= q < 256 →
  Z.lxor (le_val l) (rep (length l) q) = le_val ((λ b, Z.lxor b q) <$> l) ∧
  digits_ok ((λ b, Z.lxor b q) <$> l).
Proof.
  intros Hl Hq. unfold rep. induction Hl as [|b l Hb Hl [IH1 IH2]]; [split; [done|constructor]|].
  rewrite fmap_cons. simpl. rewrite lxor_split by done.
  rewrite IH1. split; [done|]. constructor; [by apply lxor_byte_range|done].
Qed.

Lemma less_mask_word n l : length l = 8%nat → digits_ok l →
  Z.land (Z.land (u64 (le_val l - rep 8 n)) (Swar.not64 (le_val l))) Swar.swarHigh = less_mask n 0 l.
Proof.
  intros Hlen Hl. unfold less_mask, Zlen. rewrite Hlen.
  pose proof (le_val_range l Hl) as Hr. unfold Zlen in Hr. rewrite Hlen in Hr.
  change (256 ^ Z.of_nat 8) with (2 ^ 64) in *.
  unfold u64, Swar.not64, u64, wrapu. rewrite Z.sub_0_r. f_equal. f_equal.
  unfold Z.lnot. replace (Z.pred (- le_val l)) with ((2 ^ 64 - 1 - le_val l) + (-1) * 2 ^ 64) by lia.
  rewrite Z.mod_add, Z.mod_small by lia. done.
Qed.

Lemma lxor_byte_zero b q : 0 <= b < 256 → 0 <= q < 256 → (1 <= Z.lxor b q ↔ b ≠ q).
Proof.
  intros Hb Hq. pose proof (lxor_byte_range b q Hb Hq).
  rewrite <- Z.lxor_eq_0_iff. lia.
Qed.

Lemma swar_test s : length s = 8%nat →
  (Swar.swarHasEscapable (Swar.le_get s) = 0 ↔ forallb (λ c, negb (escapeFlag c)) s = true).
Proof.
  intros Hlen. rewrite le_get_val. set (l := byteZ <$> s).
  assert (length l = 8%nat) as Hl by (unfold l; rewrite length_fmap; done).
  assert (digits_ok l) as Hd by apply bytes_ok.
  destruct (lxor_rep l 0x22 Hd ltac:(lia)) as [Q1 Q2].
  destruct (lxor_rep l 0x5c Hd ltac:(lia)) as [S1 S2].
  rewrite Hl in Q1, S1. change (rep 8 0x22) with Swar.swarQuote in Q1.
  change (rep 8 0x5c) with Swar.swarSlash in S1.
  unfold Swar.swarHasEscapable. rewrite Q1, S1.
  change Swar.swarCtrl with (rep 8 32). change Swar.swarOnes with (rep 8 1).
  rewrite !less_mask_word by (rewrite ?length_fmap; done).
  rewrite !Z.lor_eq_0_iff, !less_mask_zero by (try done; lia).
  rewrite !Forall_fmap. unfold l. rewrite !Forall_fmap, !Forall_forall, forallb_forall.
  split.
  - intros [[H1 H2] H3] c Hc%list_elem_of_In. specialize (H1 c Hc). specialize (H2 c Hc).
    specialize (H3 c Hc). simpl in *. pose proof (byteZ_range c).
    rewrite lxor_byte_zero in H2, H3 by lia. unfold escapeFlag.
    rewrite !negb_orb, !andb_true_iff, !negb_true_iff, !beq_false, Z.ltb_ge.
    repeat split; [lia|by intros ->|by intros ->].
  - intros H. assert (∀ c, c ∈ s → 32 <= byteZ c ∧ c ≠ dquote ∧ c ≠ bslash) as H'.
    { intros c Hc%list_elem_of_In. specialize (H c Hc). unfold escapeFlag in H.
      rewrite !negb_orb, !andb_true_iff, !negb_true_iff, !beq_false, Z.ltb_ge in H. tauto. }
    repeat split; intros c Hc; specialize (H' c Hc); simpl; pose proof (byteZ_range c);
      rewrite ?lxor_byte_zero by lia; try lia.
    + intros E. destruct H' as (_ & H' & _). by apply H', byteZ_inj.
    + intros E. destruct H' as (_ & _ & H'). by apply H', byteZ_inj.
Qed.

(** *** The SWAR loop *)

Lemma slice_app (s : bytes) i j k :
  (i <= j <= k)%nat → slice i k s = slice i j s ++ slice j k s.
Proof.
  intros H. unfold slice. replace (k - i)%nat with ((j - i) + (k - j))%nat by lia.
  rewrite <- take_take_drop. f_equal. rewrite drop_drop. do 2 f_equal. lia.
Qed.

Lemma skip_chunks_safe fuel s st i :
  safe_span s st i → (i <= length s)%nat →
  safe_span s st (Swar.skip_chunks fuel s i) ∧ (i <= Swar.skip_chunks fuel s i <= length s)%nat.
Proof.
  revert i. induction fuel as [|fuel IH]; intros i Hs Hi; simpl; [done|].
  destruct (Nat.leb_spec (i + 8) (length s)); [|done].
  destruct (Z.eqb_spec (Swar.swarHasEscapable (Swar.le_get (slice i (i + 8) s))) 0) as [E|]; simpl; [|done].
  apply swar_test in E.
  - destruct (IH (i + 8)%nat) as [IH1 IH2]; [|lia|split; [done|lia]].
    destruct Hs as [H1 H2]. split; [lia|].
    rewrite (slice_app s st i (i + 8)), forallb_app, H2, E by lia. done.
  - unfold slice. rewrite length_take, length_drop. lia.
Qed.

Lemma scan_scalar_safe fuel s st i :
  safe_span s st i → (i <= length s <= fuel + i)%nat →
  let j := Swar.scan_scalar fuel s i in
  safe_span s st j ∧ (i <= j <= length s)%nat ∧ (∀ c, s !! j = Some c → escapeFlag c = true).
Proof.
  revert i. induction fuel as [|fuel IH]; intros i Hs Hi; simpl.
  - split; [done|]. split; [lia|]. intros c Hc%lookup_lt_Some. lia.
  - destruct (s !! i) as [c|] eqn:Ec; [|split; [done|]; split; [lia|]; congruence].
    apply lookup_lt_Some in Ec as Hlt.
    destruct (escapeFlag c) eqn:Ee; [split; [done|]; split; [lia|]; congruence|].
    destruct (IH (S i)) as (IH1 & IH2 & IH3); [by apply safe_span_snoc with c|lia|].
    split; [done|]. split; [lia|done].
Qed.

Lemma swar_loop_spec fuel s dst i :
  (length s < fuel + i)%nat → Swar.swar_loop fuel s dst i i = dst ++ escape (drop i s).
Proof.
  revert dst i. induction fuel as [|fuel IH]; intros dst i Hf; simpl.
  - rewrite drop_ge by lia. simpl. by rewrite app_nil_r.
  - destruct (Nat.ltb_spec i (length s)) as [Hi|Hi].
    2:{ rewrite drop_ge by lia. simpl. by rewrite app_nil_r. }
    destruct (skip_chunks_safe (length s) s i i (safe_span_refl _ _) ltac:(lia)) as [Hs1 Hl1].
    set (k := Swar.skip_chunks (length s) s i) in *.
    destruct (scan_scalar_safe (length s) s i k Hs1 ltac:(lia)) as (Hs2 & Hl2 & He).
    set (j := Swar.scan_scalar (length s) s k) in *.
    rewrite (span_escape s i j Hs2).
    assert ((if (i <? j)%nat then (dst ++ slice i j s, j) else (dst, i)) = (dst ++ slice i j s, j)) as ->.
    { destruct (Nat.ltb_spec i j); [done|]. assert (i = j) as <- by lia.
      unfold slice. by rewrite Nat.sub_diag, take_0, app_nil_r. }
    destruct (s !! j) as [c|] eqn:Ec.
    + rewrite IH by lia. rewrite (escape_drop_cons s j c Ec). unfold escape1.
      rewrite He, (appendEscape_app (dst ++ _)), <- !app_assoc by done. done.
    + apply lookup_ge_None in Ec. rewrite IH by lia. by rewrite app_assoc.
Qed.

(** C25. The [pgz_simd] build of the string escaper and the default scalar
    build produce the same bytes for every destination and every input. *)
Theorem swar_equals_scalar (dst s : bytes) :
  Swar.appendStringBodySWAR dst s = AppendStringBodyBytes dst s.
Proof.
  unfold Swar.appendStringBodySWAR.
  by rewrite swar_loop_spec, drop_0, AppendStringBodyBytes_escape by lia.
Qed.

#[export] Hint Rewrite AppendStringBytes_escape AppendString_escape : pgz.
