(* ===== verification/JsonGrammar.v ===== *)
(** The JSON grammar (RFC 8259) at byte level, used as the specification of
    everything the encoders emit, and the decoder of string literals.  It
    models no code: it is what "valid JSON" means in the theorems. *)
From S2P Require Import Prelude JsonWriter.

Definition is_hex (c : byte) : bool :=
  is_digit c || ((97 <=? byteZ c) && (byteZ c <=? 102)) || ((65 <=? byteZ c) && (byteZ c <=? 70)).

(** The one-letter escapes. *)
Definition short_escape (e : byte) : option byte :=
  if beq e dquote then Some dquote else if beq e bslash then Some bslash
  else if beq e "/"%byte then Some "/"%byte else if beq e "b"%byte then Some x08
  else if beq e "f"%byte then Some x0c else if beq e "n"%byte then Some x0a
  else if beq e "r"%byte then Some x0d else if beq e "t"%byte then Some x09 else None.

(** The body of a string literal, between the quotes. *)
Fixpoint jbody (s : bytes) : bool :=
  match s with
  | [] => true
  | c :: s =>
      if (byteZ c <? 32) || beq c dquote then false
      else if beq c bslash then
        match s with
        | e :: s1 =>
            if beq e "u"%byte then
              match s1 with
              | h1 :: h2 :: h3 :: h4 :: r => is_hex h1 && is_hex h2 && is_hex h3 && is_hex h4 && jbody r
              | _ => false
              end
            else match short_escape e with Some _ => jbody s1 | None => false end
        | [] => false
        end
      else jbody s
  end.

Definition hex_val (c : byte) : Z :=
  if is_digit c then byteZ c - 48 else if byteZ c <? 97 then byteZ c - 55 else byteZ c - 87.

(** The text a string-literal body denotes, for escapes below U+0080 (the
    only [\u] escapes the writer produces). *)
Fixpoint unescape (s : bytes) : option bytes :=
  match s with
  | [] => Some []
  | c :: s =>
      if (byteZ c <? 32) || beq c dquote then None
      else if beq c bslash then
        match s with
        | e :: s1 =>
            if beq e "u"%byte then
              match s1 with
              | h1 :: h2 :: h3 :: h4 :: r =>
                  let code := ((hex_val h1 * 16 + hex_val h2) * 16 + hex_val h3) * 16 + hex_val h4 in
                  if is_hex h1 && is_hex h2 && is_hex h3 && is_hex h4 && (code <? 128)
                  then cons (mkbyte code) <$> unescape r else None
              | _ => None
              end
            else match short_escape e with Some b => cons b <$> unescape s1 | None => None end
        | [] => None
        end
      else cons c <$> unescape s
  end.

(** Split off the leading run of decimal digits. *)
Fixpoint span_digits (s : bytes) : bytes * bytes :=
  match s with
  | c :: s' => if is_digit c then let '(d, r) := span_digits s' in (c :: d, r) else ([], s)
  | [] => ([], [])
  end.

Definition jexp (s : bytes) : bool :=
  match s with
  | [] => true
  | c :: s =>
      (beq c "e"%byte || beq c "E"%byte) &&
      let s := match s with x :: t => if beq x "+"%byte || beq x "-"%byte then t else s | [] => s end in
      let '(d, r) := span_digits s in negb (bool_decide (d = [])) && bool_decide (r = [])
  end.

Definition jfrac (s : bytes) : bool :=
  match s with
  | c :: t =>
      if beq c "."%byte then
        let '(d, r) := span_digits t in negb (bool_decide (d = [])) && jexp r
      else jexp s
  | [] => true
  end.

Definition junsigned (s : bytes) : bool :=
  let '(d, r) := span_digits s in
  match d with
  | [] => false
  | [_] => jfrac r
  | c :: _ => negb (beq c "0"%byte) && jfrac r
  end.

Definition jnumber (s : bytes) : bool :=
  match s with
  | c :: t => if beq c "-"%byte then junsigned t else junsigned s
  | [] => false
  end.

Definition is_ws (c : byte) : bool :=
  beq c x20 || beq c x09 || beq c x0a || beq c x0d.

#[warnings="-register-all"]
Inductive jvalue : bytes → Prop :=
| jv_null : jvalue (str "null")
| jv_true : jvalue (str "true")
| jv_false : jvalue (str "false")
| jv_number n : jnumber n = true → jvalue n
| jv_string b : jbody b = true → jvalue (dquote :: b ++ [dquote])
| jv_array l : Forall jvalue l → jvalue ("["%byte :: join [","%byte] l ++ ["]"%byte])
| jv_object (l : list (bytes * bytes)) :
    Forall (λ kv, jbody kv.1 = true) l → Forall (λ kv, jvalue kv.2) l →
    jvalue ("{"%byte ::
      join [","%byte] ((λ kv, dquote :: kv.1 ++ [dquote; ":"%byte] ++ kv.2) <$> l) ++ ["}"%byte])
| jv_ws a v b : forallb is_ws a = true → forallb is_ws b = true → jvalue v → jvalue (a ++ v ++ b).

(** ** Lemmas *)

Lemma jbody_escape1 c s : jbody (escape1 c ++ s) = jbody s.
Proof. destruct c; reflexivity. Qed.

Lemma unescape_escape1 c s : unescape (escape1 c ++ s) = cons c <$> unescape s.
Proof. destruct c; reflexivity. Qed.

Lemma jbody_escape s : jbody (escape s) = true.
Proof. induction s as [|c s IH]; simpl; [done|]. by rewrite jbody_escape1. Qed.

Lemma unescape_escape s : unescape (escape s) = Some s.
Proof. induction s as [|c s IH]; simpl; [done|]. by rewrite unescape_escape1, IH. Qed.

Lemma escape_inj s t : escape s = escape t → s = t.
Proof. intros H. apply (f_equal unescape) in H. rewrite !unescape_escape in H. by injection H. Qed.

Lemma jvalue_string s : jvalue (dquote :: escape s ++ [dquote]).
Proof. apply jv_string, jbody_escape. Qed.

(** A body whose characters need no escape is a literal for itself. *)
Lemma jbody_plain s : forallb (λ c, negb (escapeFlag c)) s = true → jbody s = true.
Proof. intros H. rewrite <- (escape_safe s H). apply jbody_escape. Qed.

Lemma span_digits_all l : forallb is_digit l = true → span_digits l = (l, []).
Proof.
  induction l as [|c l IH]; simpl; [done|]. intros [-> H]%andb_prop. by rewrite IH.
Qed.

Lemma span_digits_app l r :
  forallb is_digit l = true → match r with c :: _ => is_digit c = false | [] => True end →
  span_digits (l ++ r) = (l, r).
Proof.
  induction l as [|c l IH]; simpl; intros H Hr.
  - destruct r as [|c r]; simpl; [done|]. by rewrite Hr.
  - apply andb_prop in H as [-> H]. by rewrite IH.
Qed.

Lemma digits_forallb n : 0 <= n → forallb is_digit (digit_char <$> digits 10 n) = true.
Proof. intros Hn. apply digit_chars_digits, digits_range; lia. Qed.

Lemma junsigned_digits_frac n r :
  0 <= n → match r with c :: _ => is_digit c = false | [] => True end →
  junsigned ((digit_char <$> digits 10 n) ++ r) = jfrac r.
Proof.
  intros Hn Hr. unfold junsigned. rewrite span_digits_app by auto using digits_forallb.
  destruct (digits_cons 10 n) as (d & l & E & Hz); [lia..|].
  pose proof (digits_range 10 n ltac:(lia) Hn) as HF. rewrite E in *. rewrite fmap_cons.
  destruct l as [|e l]; [done|]. rewrite fmap_cons.
  assert (beq (digit_char d) "0"%byte = false) as ->; [|done].
  apply beq_false. intros Hc. pose proof (proj2 (digit_char_digit d (Forall_inv HF))) as Hv.
  rewrite Hc in Hv. by destruct (Hz (eq_sym Hv)).
Qed.

Lemma jnumber_AppendInt v : jnumber (AppendInt [] v) = true.
Proof.
  unfold AppendInt, AppendUintBase. destruct (Z.ltb_spec v 0).
  - simpl. rewrite <- (app_nil_r (_ <$> _)). by rewrite junsigned_digits_frac by (simpl; lia).
  - simpl. pose proof (junsigned_digits_frac v [] ltac:(lia) I) as H'. rewrite app_nil_r in H'.
    unfold jnumber. destruct (digit_char <$> digits 10 v) as [|c l] eqn:E; [done|].
    destruct (beq c "-"%byte) eqn:Ec; [|done]. apply beq_true in Ec as ->.
    pose proof (digits_forallb v ltac:(lia)) as Hd. rewrite E in Hd. done.
Qed.

(** C26. A JSON string literal written by [AppendStringBytes] is a quoted,
    grammatical string body, and decoding that body gives back exactly the
    bytes that were written. *)
Theorem string_literal_roundtrip (dst s : bytes) :
  ∃ body, AppendStringBytes dst s = dst ++ dquote :: body ++ [dquote] ∧
          jbody body = true ∧ unescape body = Some s.
Proof.
  exists (escape s). rewrite AppendStringBytes_escape.
  split; [done|]. split; [apply jbody_escape|apply unescape_escape].
Qed.

#[export] Hint Resolve jvalue_string jbody_escape jnumber_AppendInt : pgz.
#[export] Hint Constructors jvalue : pgz.
