(* ===== verification/Float.v ===== *)
(** IEEE-754 bit patterns and the standard library's shortest 'g' formatting
    ([strconv.AppendFloat(dst, v, 'g', -1, bits)]), which the float encoders and
    the text parameter path use.  A float is its bit pattern; [mb] is the number
    of mantissa bits and [eb] the number of exponent bits (23/8 or 52/11). *)
From Stdlib Require Import SpecFloat.
From S2P Require Import Prelude JsonWriter JsonGrammar.

Record float_layout := { mb : Z; eb : Z }.
Definition f32 : float_layout := {| mb := 23; eb := 8 |}.
Definition f64 : float_layout := {| mb := 52; eb := 11 |}.

Definition f_mant (fl : float_layout) (bits : Z) : Z := bits mod 2 ^ mb fl.
Definition f_exp (fl : float_layout) (bits : Z) : Z := bits / 2 ^ mb fl mod 2 ^ eb fl.
Definition f_neg (fl : float_layout) (bits : Z) : bool := Z.testbit bits (mb fl + eb fl).

(** [math.IsNaN] and [math.IsInf(_, 0)]. *)
Definition IsNaN (fl : float_layout) (bits : Z) : bool :=
  (f_exp fl bits =? 2 ^ eb fl - 1) && negb (f_mant fl bits =? 0).
Definition IsInf (fl : float_layout) (bits : Z) : bool :=
  (f_exp fl bits =? 2 ^ eb fl - 1) && (f_mant fl bits =? 0).

(** Four times the significand of a finite value, its lower and upper rounding
    boundaries on the same scale, and the binary exponent of that scale. *)
Definition f_bounds (fl : float_layout) (bits : Z) : Z * Z * Z * Z :=
  let m := f_mant fl bits in
  let e := f_exp fl bits in
  let bias := 2 ^ (eb fl - 1) - 1 in
  if e =? 0 then (4 * m - 2, 4 * m, 4 * m + 2, 1 - bias - mb fl - 2)
  else
    let M := 4 * (m + 2 ^ mb fl) in
    ((if (m =? 0) && (1 <? e) then M - 1 else M - 2), M, M + 2, e - bias - mb fl - 2).

Definition pow_pos (b k : Z) : Z := if k <? 0 then 1 else b ^ k.

(** The decimal with exponent [k] closest to the value, if it lies between the
    rounding boundaries (inclusive for an even significand). *)
Definition candidate (lo mid hi e k : Z) (even : bool) : option Z :=
  let s := pow_pos 2 e * pow_pos 10 (- k) in
  let b := pow_pos 2 (- e) * pow_pos 10 k in
  let d := mid * s / b in
  let inside x :=
    (0 <? x) && (if even then (lo * s <=? x * b) && (x * b <=? hi * s)
                 else (lo * s <? x * b) && (x * b <? hi * s)) in
  let up := (b <? 2 * (mid * s - d * b)) || ((b =? 2 * (mid * s - d * b)) && Z.odd d) in
  let first := if up then d + 1 else d in
  let second := if up then d else d + 1 in
  if inside first then Some first else if inside second then Some second else None.

(** The position of the decimal point: least [dp] with value < 10^dp. *)
Fixpoint find_dp (fuel : nat) (mid e dp : Z) : Z :=
  match fuel with
  | O => dp
  | S fuel =>
      let a := mid * pow_pos 2 e * pow_pos 10 (- dp) in
      let b := pow_pos 2 (- e) * pow_pos 10 dp in
      if b <=? a then find_dp fuel mid e (dp + 1)
      else if 10 * a <? b then find_dp fuel mid e (dp - 1)
      else dp
  end.

(** Fewest digits first: [n] digits, exponent [dp - n]. *)
Fixpoint shortest (fuel : nat) (n lo mid hi e dp : Z) (even : bool) : Z * Z :=
  match candidate lo mid hi e (dp - n) even with
  | Some d => (d, dp - n)
  | None =>
      match fuel with
      | O => (Z.max 1 (mid * pow_pos 2 e * pow_pos 10 (n - dp) / (pow_pos 2 (- e) * pow_pos 10 (dp - n))), dp - n)
      | S fuel => shortest fuel (n + 1) lo mid hi e dp even
      end
  end.

(** Drop trailing zeros of a positive number, counting them in the exponent. *)
Fixpoint strip_zeros (fuel : nat) (d k : Z) : Z * Z :=
  match fuel with
  | O => (d, k)
  | S fuel => if (d mod 10 =? 0) && (0 <? d) then strip_zeros fuel (d / 10) (k + 1) else (d, k)
  end.

Definition dec_chars (n : Z) : bytes := digit_char <$> digits 10 n.

(** [%e] (two exponent digits at least) and [%f] layouts of digits [d] with the
    point after position [dp]. *)
Definition fmtE (d : Z) (exp : Z) : bytes :=
  let ds := dec_chars d in
  take 1 ds ++ (match drop 1 ds with [] => [] | r => "."%byte :: r end)
  ++ "e"%byte :: (if exp <? 0 then "-"%byte else "+"%byte)
  :: (if Z.abs exp <? 10 then ["0"%byte] else []) ++ dec_chars (Z.abs exp).
Definition fmtF (d : Z) (dp : Z) : bytes :=
  let ds := dec_chars d in
  let n := Zlen ds in
  if dp <=? 0 then str "0." ++ replicate (Z.to_nat (- dp)) "0"%byte ++ ds
  else if n <=? dp then ds ++ replicate (Z.to_nat (dp - n)) "0"%byte
  else take (Z.to_nat dp) ds ++ "."%byte :: drop (Z.to_nat dp) ds.

(** [%g] with the shortest precision: [%e] when the decimal exponent is below
    -4 or at least 6 (the precision strconv substitutes for -1). *)
Definition fmt_finite (fl : float_layout) (bits : Z) : bytes :=
  let '(lo, mid, hi, e) := f_bounds fl bits in
  let sign := if f_neg fl bits then ["-"%byte] else [] in
  if mid =? 0 then sign ++ ["0"%byte]
  else
    let est := (Z.log2 mid + e) * 30103 / 100000 + 1 in
    let dp := find_dp 4 mid e est in
    let '(d, k) := shortest 17 1 lo mid hi e dp (Z.even (mid / 4)) in
    let '(d, k) := strip_zeros 20 d k in
    let dp := Zlen (digits 10 d) + k in
    let exp := dp - 1 in
    sign ++ (if (exp <? -4) || (6 <=? exp) then fmtE d exp else fmtF d dp).

Definition AppendFloat (fl : float_layout) (dst : bytes) (bits : Z) : bytes :=
  dst ++ (if IsNaN fl bits then str "NaN"
          else if IsInf fl bits then (if f_neg fl bits then str "-Inf" else str "+Inf")
          else fmt_finite fl bits).

(** ** Lemmas *)

Lemma forallb_replicate (f : byte → bool) n c : f c = true → forallb f (replicate n c) = true.
Proof. intros H. induction n; simpl; [done|]. by rewrite H. Qed.

Lemma dec_chars_digits n : 0 <= n → forallb is_digit (dec_chars n) = true.
Proof. apply digits_forallb. Qed.

Lemma dec_chars_cons n : 0 < n → ∃ c l, dec_chars n = c :: l ∧ is_digit c = true ∧ beq c "0"%byte = false ∧
  forallb is_digit l = true.
Proof.
  intros Hn. pose proof (dec_chars_digits n ltac:(lia)) as Hd. unfold dec_chars in *.
  destruct (digits_cons 10 n) as (d & l & E & Hz); [lia..|].
  pose proof (digits_range 10 n ltac:(lia) ltac:(lia)) as HF. rewrite E, fmap_cons in *.
  simpl in Hd. apply andb_prop in Hd as [Hd1 Hd2]. eexists _, _; split; [done|]. split; [done|]. split; [|done].
  apply beq_false. intros Hc. pose proof (proj2 (digit_char_digit d (Forall_inv HF))) as Hv.
  rewrite Hc in Hv. destruct (Hz (eq_sym Hv)). lia.
Qed.

Lemma junsigned_run c l r :
  is_digit c = true → forallb is_digit l = true → (l = [] ∨ beq c "0"%byte = false) →
  match r with x :: _ => is_digit x = false | [] => True end →
  junsigned (c :: l ++ r) = jfrac r.
Proof.
  intros Hc Hl H0 Hr. unfold junsigned. change (c :: l ++ r) with ((c :: l) ++ r).
  rewrite span_digits_app by (simpl; rewrite ?Hc, ?Hl; done).
  destruct l as [|d l]; [done|]. destruct H0 as [H0|H0]; [done|]. by rewrite H0.
Qed.

Lemma jexp_ok s x : 0 <= x → s = "+"%byte ∨ s = "-"%byte →
  jexp ("e"%byte :: s :: (if x <? 10 then ["0"%byte] else []) ++ dec_chars x) = true.
Proof.
  intros Hx Hs. unfold jexp. assert (beq s "+"%byte || beq s "-"%byte = true) as -> by (by destruct Hs as [-> | ->]).
  rewrite span_digits_all.
  - destruct (digits_cons 10 x) as (d & l & E & _); [lia..|]. unfold dec_chars.
    rewrite E, fmap_cons. by destruct (x <? 10).
  - rewrite forallb_app, dec_chars_digits by done. by destruct (x <? 10).
Qed.

Lemma fmtE_ok d exp : 0 < d → junsigned (fmtE d exp) = true.
Proof.
  intros Hd. unfold fmtE. destruct (dec_chars_cons d Hd) as (c & l & -> & Hc & H0 & Hl).
  cbn [take drop]. rewrite take_0, drop_0.
  change (([c] : bytes) ++ ?r) with (c :: ([] ++ r)).
  rewrite junsigned_run by (done || (by left) || (by destruct l)).
  assert ((if exp <? 0 then "-"%byte else "+"%byte) = "+"%byte ∨ (if exp <? 0 then "-"%byte else "+"%byte) = "-"%byte)
    as Hs by (destruct (exp <? 0); auto).
  destruct l as [|d' l]; cbn [app].
  - unfold jfrac. apply jexp_ok; [lia|done].
  - unfold jfrac. change (beq "."%byte "."%byte) with true. cbn iota.
    rewrite (app_comm_cons l), span_digits_app by done. simpl negb. rewrite jexp_ok by (done || lia). done.
Qed.

Lemma junsigned_zero_frac l : forallb is_digit l = true → l ≠ [] → junsigned (str "0." ++ l) = true.
Proof.
  intros Hl Hne. change (str "0." ++ l) with ("0"%byte :: [] ++ ("."%byte :: l)).
  rewrite junsigned_run by auto. unfold jfrac. change (beq "."%byte "."%byte) with true. cbn iota.
  rewrite span_digits_all by done. by destruct l.
Qed.

Lemma forallb_take_drop (l : bytes) n :
  forallb is_digit l = true → forallb is_digit (take n l) = true ∧ forallb is_digit (drop n l) = true.
Proof. intros H. rewrite <- (take_drop n l), forallb_app in H. by apply andb_prop in H. Qed.

Lemma fmtF_ok d dp : 0 < d → junsigned (fmtF d dp) = true.
Proof.
  intros Hd. unfold fmtF. destruct (dec_chars_cons d Hd) as (c & l & -> & Hc & H0 & Hl).
  destruct (Z.leb_spec dp 0).
  - apply junsigned_zero_frac; [|by destruct (replicate _ _)].
    rewrite forallb_app, forallb_replicate by done. simpl. by rewrite Hc, Hl.
  - destruct (Z.leb_spec (Zlen (c :: l)) dp).
    + rewrite <- app_comm_cons, <- (app_nil_r (l ++ _)). rewrite junsigned_run; auto.
      rewrite forallb_app, Hl, forallb_replicate; done.
    + destruct (Z.to_nat dp) as [|n] eqn:En; [lia|]. cbn [take drop].
      destruct (forallb_take_drop l n Hl) as [Ht1 Ht2].
      rewrite <- app_comm_cons, junsigned_run by auto. unfold jfrac.
      change (beq "."%byte "."%byte) with true. cbn iota. rewrite span_digits_all by done.
      destruct (drop n l) eqn:E; [|done]. exfalso. apply (f_equal length) in E.
      rewrite length_drop in E. unfold Zlen in *. simpl in *. lia.
Qed.

Lemma candidate_pos lo mid hi e k ev d : candidate lo mid hi e k ev = Some d → 0 < d.
Proof.
  unfold candidate. cbv zeta. intros H. repeat case_match; simplify_eq; try done;
  match goal with H : (_ <? _) && _ = true |- _ => apply andb_prop in H as [H%Z.ltb_lt _]; lia end.
Qed.

Lemma shortest_pos fuel n lo mid hi e dp ev : 0 < (shortest fuel n lo mid hi e dp ev).1.
Proof.
  revert n. induction fuel as [|f IH]; intros n; simpl;
    destruct (candidate _ _ _ _ _ _) eqn:E; simpl; try (by apply candidate_pos in E); try lia. apply IH.
Qed.

Lemma strip_zeros_pos fuel d k : 0 < d → 0 < (strip_zeros fuel d k).1.
Proof.
  revert d k. induction fuel as [|f IH]; intros d k Hd; simpl; [done|].
  destruct (Z.eqb_spec (d mod 10) 0); simpl; [|done]. destruct (Z.ltb_spec 0 d); simpl; [|done].
  apply IH. pose proof (Z.div_mod d 10). lia.
Qed.

(** Every finite value is written as a JSON number. *)
Lemma fmt_finite_number fl bits : jnumber (fmt_finite fl bits) = true.
Proof.
  unfold fmt_finite. destruct (f_bounds fl bits) as [[[lo mid] hi] e].
  destruct (mid =? 0); [by destruct (f_neg fl bits)|].
  set (dp := find_dp _ _ _ _). pose proof (shortest_pos 17 1 lo mid hi e dp (Z.even (mid / 4))) as Hp.
  destruct (shortest _ _ _ _ _ _ _ _) as [d k]. pose proof (strip_zeros_pos 20 d k Hp) as Hq.
  destruct (strip_zeros 20 d k) as [d' k']. simpl in Hq.
  set (b := if _ || _ then fmtE _ _ else fmtF _ _).
  assert (junsigned b = true) as Hb.
  { unfold b. destruct (_ || _); [by apply fmtE_ok|by apply fmtF_ok]. }
  destruct (f_neg fl bits); [done|]. simpl. unfold jnumber.
  destruct b as [|c b']; [done|]. destruct (beq c "-"%byte) eqn:E; [|done].
  apply beq_true in E as ->. done.
Qed.

Lemma AppendFloat_app fl dst bits : AppendFloat fl dst bits = dst ++ AppendFloat fl [] bits.
Proof. done. Qed.

(** ** Conversions between the two widths *)

Definition f_sign_bit (fl : float_layout) (neg : bool) : Z := if neg then 2 ^ (mb fl + eb fl) else 0.
Definition f_quiet_nan (fl : float_layout) : Z := (2 ^ eb fl - 1) * 2 ^ mb fl + 2 ^ (mb fl - 1).

(** The value of a bit pattern, and the bit pattern of a value of the layout. *)
Definition to_spec (fl : float_layout) (bits : Z) : spec_float :=
  let m := f_mant fl bits in
  let e := f_exp fl bits in
  let emin := 2 - 2 ^ (eb fl - 1) - mb fl in
  if IsNaN fl bits then S754_nan
  else if IsInf fl bits then S754_infinity (f_neg fl bits)
  else if e =? 0 then
    match m with Zpos p => S754_finite (f_neg fl bits) p emin | _ => S754_zero (f_neg fl bits) end
  else S754_finite (f_neg fl bits) (Z.to_pos (m + 2 ^ mb fl)) (e - 1 + emin).

Definition of_spec (fl : float_layout) (f : spec_float) : Z :=
  let emin := 2 - 2 ^ (eb fl - 1) - mb fl in
  match f with
  | S754_nan => f_quiet_nan fl
  | S754_infinity s => f_sign_bit fl s + (2 ^ eb fl - 1) * 2 ^ mb fl
  | S754_zero s => f_sign_bit fl s
  | S754_finite s m e =>
      f_sign_bit fl s +
      (if Zpos m <? 2 ^ mb fl then Zpos m else (e - emin + 1) * 2 ^ mb fl + (Zpos m - 2 ^ mb fl))
  end.

(** Go's conversion between float32 and float64, rounding to nearest even.  A
    NaN keeps its sign and what fits of its payload, and is quiet, as the
    conversion instructions of amd64 and arm64 leave it. *)
Definition convert (src dst : float_layout) (bits : Z) : Z :=
  if IsNaN src bits then
    f_sign_bit dst (f_neg src bits) + (2 ^ eb dst - 1) * 2 ^ mb dst +
      Z.lor (2 ^ (mb dst - 1)) (Z.shiftl (f_mant src bits) (mb dst - mb src))
  else
    of_spec dst
      match to_spec src bits with
      | S754_finite s m e =>
          binary_normalize (mb dst + 1) (2 ^ (eb dst - 1)) (if s then Zneg m else Zpos m) e s
      | f => f
      end.

(** A negative signalling NaN of payload 1, and back: the quiet bit is all that
    changes. *)
Example convert_nan :
  convert f32 f64 4286578689 = 18444492274432737280 ∧ convert f64 f32 18444492274432737280 = 4290772993.
Proof. by split; vm_compute. Qed.
