(* ===== verification/Calendar.v ===== *)
(** The date arithmetic and ISO-8601 writers of internal/types/binary.go:
    splitTime, appendISOTimestamp, appendISODateOnly, appendInt4, append2 and
    append6, against an independent definition of the proleptic Gregorian
    calendar and a parser for the text the writers emit.
    All intermediate int64 values stay within range for every int64 input of
    microseconds, so they are plain integers; the two uint64 conversions of
    splitTime wrap explicitly. *)
From S2P Require Import Prelude.

(** ** internal/types/binary.go *)

Definition pgEpochUnix : Z := 946684800.
Definition usecPerDay : Z := 86400 * 1000000.

(** The civil-from-days part of [splitTime]: day [doe] of a 400-year era to
    (year of era, month, day), the year counted from January. *)
Definition civil_of_doe (doe : Z) : Z * Z * Z :=
  let yoe := u64 (doe - doe ÷ 1460 + doe ÷ 36524 - doe ÷ 146096) ÷ 365 in
  let doy := u64 (doe - (365 * yoe + yoe ÷ 4 - yoe ÷ 100)) in
  let mp := (5 * doy + 2) ÷ 153 in
  let d := u64 (doy - (153 * mp + 2) ÷ 5 + 1) in
  let m := if mp <? 10 then mp + 3 else u64 (mp - 9) in
  (if m <=? 2 then yoe + 1 else yoe, m, d).

Definition splitTime (sec : Z) : Z * Z * Z * Z * Z * Z :=
  let days := sec ÷ 86400 in
  let rem := sec - days * 86400 in
  let '(rem, days) := if rem <? 0 then (rem + 86400, days - 1) else (rem, days) in
  let hour := rem ÷ 3600 in
  let rem := rem - hour * 3600 in
  let min := rem ÷ 60 in
  let second := rem - min * 60 in
  let z := days + 719468 in
  let era := if z <? 0 then z - 146096 else z in
  let era := era ÷ 146097 in
  let doe := u64 (z - era * 146097) in
  let '(yoe, m, d) := civil_of_doe doe in
  (yoe + era * 400, m, d, hour, min, second).

(** [byte('0' + v)]. *)
Definition ascii_digit (v : Z) : byte := mkbyte (48 + v).

Definition append2 (dst : bytes) (v : Z) : bytes :=
  dst ++ [ascii_digit (v ÷ 10); ascii_digit (Z.rem v 10)].

Definition append6 (dst : bytes) (v : Z) : bytes :=
  dst ++ [ascii_digit (Z.rem (v ÷ 100000) 10); ascii_digit (Z.rem (v ÷ 10000) 10);
          ascii_digit (Z.rem (v ÷ 1000) 10); ascii_digit (Z.rem (v ÷ 100) 10);
          ascii_digit (Z.rem (v ÷ 10) 10); ascii_digit (Z.rem v 10)].

Definition appendInt4 (dst : bytes) (v : Z) : bytes :=
  let '(dst, v) := if v <? 0 then (dst ++ ["-"%byte], - v) else (dst, v) in
  if 10000 <=? v then AppendInt dst v
  else dst ++ [ascii_digit (Z.rem (v ÷ 1000) 10); ascii_digit (Z.rem (v ÷ 100) 10);
               ascii_digit (Z.rem (v ÷ 10) 10); ascii_digit (Z.rem v 10)].

Definition appendISOTimestamp (dst : bytes) (usec : Z) (tzSuffix : bytes) : bytes :=
  let sec := pgEpochUnix + usec ÷ 1000000 in
  let frac := Z.rem usec 1000000 in
  let '(sec, frac) := if frac <? 0 then (sec - 1, frac + 1000000) else (sec, frac) in
  let '(y, mo, d, hh, mm, ss) := splitTime sec in
  let dst := appendInt4 dst y ++ ["-"%byte] in
  let dst := append2 dst mo ++ ["-"%byte] in
  let dst := append2 dst d ++ ["T"%byte] in
  let dst := append2 dst hh ++ [":"%byte] in
  let dst := append2 dst mm ++ [":"%byte] in
  let dst := append2 dst ss in
  let dst := if frac =? 0 then dst else append6 (dst ++ ["."%byte]) frac in
  dst ++ tzSuffix.

Definition appendISODateOnly (dst : bytes) (usec : Z) : bytes :=
  let sec := pgEpochUnix + usec ÷ 1000000 in
  let '(y, mo, d, _, _, _) := splitTime sec in
  let dst := appendInt4 dst y ++ ["-"%byte] in
  let dst := append2 dst mo ++ ["-"%byte] in
  append2 dst d.

(** ** Specification: the proleptic Gregorian calendar *)

Definition is_leap (y : Z) : bool :=
  ((y mod 4 =? 0) && negb (y mod 100 =? 0)) || (y mod 400 =? 0).

Definition days_in_month (y m : Z) : Z :=
  if m =? 2 then (if is_leap y then 29 else 28)
  else if (m =? 4) || (m =? 6) || (m =? 9) || (m =? 11) then 30 else 31.

(** Days from 0001-01-01 to January 1st of year [y]. *)
Definition days_before_year (y : Z) : Z :=
  365 * (y - 1) + (y - 1) / 4 - (y - 1) / 100 + (y - 1) / 400.

Fixpoint days_before_month (y : Z) (m : nat) : Z :=
  match m with
  | O | 1%nat => 0
  | S m => days_before_month y m + days_in_month y (Z.of_nat m)
  end.

(** Days from 1970-01-01 to the given date. *)
Definition unix_days (y m d : Z) : Z :=
  days_before_year y + days_before_month y (Z.to_nat m) + (d - 1) - 719162.

Definition valid_date (y m d : Z) : Prop := 1 <= m <= 12 ∧ 1 <= d <= days_in_month y m.

(** The microseconds since 2000-01-01 denoted by
    [YYYY-MM-DDTHH:MM:SS(.ffffff)?] and the text that follows. *)
Definition parse_iso (l : bytes) : Z * bytes :=
  let num i j := dec_value (slice i j l) in
  let sec := unix_days (num 0 4)%nat (num 5 7)%nat (num 8 10)%nat * 86400
             + num 11%nat 13%nat * 3600 + num 14%nat 16%nat * 60 + num 17%nat 19%nat in
  let us := (sec - pgEpochUnix) * 1000000 in
  match drop 19 l with
  | c :: r => if beq c "."%byte then (us + dec_value (take 6 r), drop 6 r) else (us, c :: r)
  | [] => (us, [])
  end.

(** [forallb f [z; z+1; ...]] over [n] consecutive integers. *)
Fixpoint all_from (f : Z → bool) (n : nat) (z : Z) : bool :=
  match n with O => true | S n => f z && all_from f n (z + 1) end.

(** The month lengths as a function of the leap flag alone, and the check of
    one March-based day of the year against them. *)
Definition dim (l : bool) (m : Z) : Z :=
  if m =? 2 then (if l then 29 else 28)
  else if (m =? 4) || (m =? 6) || (m =? 9) || (m =? 11) then 30 else 31.
Fixpoint dbm (l : bool) (m : nat) : Z :=
  match m with
  | O | 1%nat => 0
  | S m => dbm l m + dim l (Z.of_nat m)
  end.
Definition month_check (l0 l1 : bool) (doy : Z) : bool :=
  let mp := (5 * doy + 2) / 153 in
  let d := doy - (153 * mp + 2) / 5 + 1 in
  let m := if mp <? 10 then mp + 3 else mp - 9 in
  let l := if m <=? 2 then l1 else l0 in
  (0 <=? mp) && (mp <? 12) && (1 <=? m) && (m <=? 12) && (1 <=? d) && (d <=? dim l m) &&
  (dbm l (Z.to_nat m) + d - 1 =?
     (if m <=? 2 then doy - 306 else doy + 59 + (if l0 then 1 else 0))).

(** ** Lemmas *)

Lemma all_from_spec f n z k : all_from f n z = true → z <= k < z + Z.of_nat n → f k = true.
Proof.
  revert z. induction n as [|n IH]; intros z H Hk; [lia|]. simpl in H.
  apply andb_prop in H as [H1 H2]. destruct (decide (k = z)) as [->|]; [done|]. apply (IH (z + 1)); [done|lia].
Qed.

(** The specification counts days as the calendar does. *)
Lemma days_before_year_succ y :
  days_before_year (y + 1) = days_before_year y + (if is_leap y then 366 else 365).
Proof.
  unfold days_before_year, is_leap. replace (y + 1 - 1) with y by lia.
  destruct (Z.eqb_spec (y mod 4) 0), (Z.eqb_spec (y mod 100) 0), (Z.eqb_spec (y mod 400) 0);
    simpl; Z.div_mod_to_equations; lia.
Qed.

Lemma days_before_year_era y k : days_before_year (y + 400 * k) = days_before_year y + 146097 * k.
Proof. unfold days_before_year. Z.div_mod_to_equations. lia. Qed.

Lemma is_leap_era y k : is_leap (y + 400 * k) = is_leap y.
Proof.
  unfold is_leap.
  replace ((y + 400 * k) mod 4) with (y mod 4) by (Z.div_mod_to_equations; lia).
  replace ((y + 400 * k) mod 100) with (y mod 100) by (Z.div_mod_to_equations; lia).
  replace ((y + 400 * k) mod 400) with (y mod 400) by (Z.div_mod_to_equations; lia). done.
Qed.

Lemma days_in_month_le y m : days_in_month y m <= 31.
Proof. unfold days_in_month. repeat case_match; lia. Qed.

Lemma days_in_month_era y k m : days_in_month (y + 400 * k) m = days_in_month y m.
Proof. unfold days_in_month. by rewrite is_leap_era. Qed.

Lemma days_before_month_era y k m : days_before_month (y + 400 * k) m = days_before_month y m.
Proof.
  induction m as [|[|m] IH]; [done..|]. cbn [days_before_month] in *.
  by rewrite IH, days_in_month_era.
Qed.

Lemma unix_days_era y k m d : unix_days (y + 400 * k) m d = unix_days y m d + 146097 * k.
Proof. unfold unix_days. rewrite days_before_year_era, days_before_month_era. lia. Qed.

(** The year of the era, and the bounds on the day of that (March-based) year. *)
Lemma yoe_ok doe yoe : 0 <= doe < 146097 →
  yoe = (doe - doe / 1460 + doe / 36524 - doe / 146096) / 365 →
  0 <= yoe < 400 ∧
  0 <= doe - (365 * yoe + yoe / 4 - yoe / 100) <= 364 + (if is_leap (yoe + 1) then 1 else 0).
Proof.
  intros Hd Hy. assert (0 <= yoe < 400 ∧ 0 <= doe - (365 * yoe + yoe / 4 - yoe / 100) <= 365 ∧
    doe < 365 * (yoe + 1) + (yoe + 1) / 4 - (yoe + 1) / 100 + (yoe + 1) / 400) as (H1 & H2 & H3).
  { Z.div_mod_to_equations. lia. }
  split; [done|]. pose proof (days_before_year_succ (yoe + 1)) as Hs. unfold days_before_year in Hs.
  replace (yoe + 1 + 1 - 1) with (yoe + 1) in Hs by lia. replace (yoe + 1 - 1) with yoe in Hs by lia.
  rewrite (Z.div_small yoe 400) in Hs by lia. destruct (is_leap (yoe + 1)); lia.
Qed.

Lemma month_check_all l0 l1 : all_from (month_check l0 l1) (if l1 then 366 else 365) 0 = true.
Proof. destruct l0, l1; vm_compute; reflexivity. Qed.

Lemma days_in_month_leap y m : days_in_month y m = dim (is_leap y) m.
Proof. done. Qed.
Lemma days_before_month_leap y m : days_before_month y m = dbm (is_leap y) m.
Proof.
  induction m as [|[|m] IH]; [done..|]. cbn [days_before_month dbm] in *. by rewrite IH.
Qed.

(** The month and day of a March-based day of the year. *)
Lemma month_ok yoe doy : 0 <= doy <= 364 + (if is_leap (yoe + 1) then 1 else 0) →
  let mp := (5 * doy + 2) / 153 in
  let d := doy - (153 * mp + 2) / 5 + 1 in
  let m := if mp <? 10 then mp + 3 else mp - 9 in
  let y := if m <=? 2 then yoe + 1 else yoe in
  0 <= mp < 12 ∧ valid_date y m d ∧ unix_days y m d = days_before_year (yoe + 1) - 306 + doy - 719162.
Proof.
  intros H. cbv zeta.
  assert (month_check (is_leap yoe) (is_leap (yoe + 1)) doy = true) as Hc.
  { destruct (is_leap (yoe + 1)); apply (all_from_spec _ _ _ _ (month_check_all (is_leap yoe) _)); lia. }
  unfold month_check in Hc. set (mp := (5 * doy + 2) / 153) in *. clearbody mp.
  set (d := doy - (153 * mp + 2) / 5 + 1) in *. clearbody d.
  set (m := if mp <? 10 then mp + 3 else mp - 9) in *. clearbody m.
  rewrite !andb_true_iff, !Z.leb_le, Z.ltb_lt, Z.eqb_eq in Hc.
  pose proof (days_before_year_succ yoe) as Hs. unfold valid_date, unix_days.
  rewrite days_in_month_leap, days_before_month_leap.
  destruct (m <=? 2), (is_leap yoe) eqn:El; cbv beta iota in *; rewrite ?El; lia.
Qed.

Lemma civil_of_doe_ok doe : 0 <= doe < 146097 →
  let '(y, m, d) := civil_of_doe doe in valid_date y m d ∧ unix_days y m d = doe - 719468.
Proof.
  intros H. unfold civil_of_doe. rewrite !(Z.quot_div_nonneg doe) by lia.
  unfold u64. rewrite (wrapu_small 64 (doe - _ + _ - _)) by (Z.div_mod_to_equations; lia).
  rewrite (Z.quot_div_nonneg (doe - _ + _ - _)) by (Z.div_mod_to_equations; lia).
  set (yoe := (doe - doe / 1460 + doe / 36524 - doe / 146096) / 365).
  destruct (yoe_ok doe yoe H eq_refl) as [Hy Hd]. clearbody yoe.
  rewrite !(Z.quot_div_nonneg yoe) by lia.
  rewrite (wrapu_small 64 (doe - _)) by (destruct (is_leap (yoe + 1)); lia).
  set (doy := doe - (365 * yoe + yoe / 4 - yoe / 100)) in *.
  rewrite (Z.quot_div_nonneg (5 * doy + 2)) by lia.
  pose proof (month_ok yoe doy Hd) as Hm. cbv zeta in Hm. set (mp := (5 * doy + 2) / 153) in *.
  destruct Hm as (Hmp & Hv & Hu). rewrite (Z.quot_div_nonneg (153 * mp + 2)) by lia.
  rewrite (wrapu_small 64 (doy - _ + 1)) by (destruct Hv as [_ Hv]; pose proof (days_in_month_le
    (if (if mp <? 10 then mp + 3 else mp - 9) <=? 2 then yoe + 1 else yoe)
    (if mp <? 10 then mp + 3 else mp - 9)); lia).
  assert ((if mp <? 10 then mp + 3 else wrapu 64 (mp - 9)) = (if mp <? 10 then mp + 3 else mp - 9)) as ->.
  { destruct (Z.ltb_spec mp 10); [done|]. apply wrapu_small. lia. }
  split; [done|]. rewrite Hu. unfold doy, days_before_year.
  replace (yoe + 1 - 1) with yoe by lia. rewrite (Z.div_small yoe 400) by lia. lia.
Qed.

(** [splitTime] is the Gregorian calendar: every second maps to a valid
    date and time of day, and the date and time denote that second. *)
Theorem splitTime_correct (sec : Z) :
  let '(y, m, d, hh, mm, ss) := splitTime sec in
  valid_date y m d ∧ 0 <= hh < 24 ∧ 0 <= mm < 60 ∧ 0 <= ss < 60 ∧
  sec = unix_days y m d * 86400 + hh * 3600 + mm * 60 + ss.
Proof.
  unfold splitTime. set (rem := sec - sec ÷ 86400 * 86400).
  assert (∃ days r, (if rem <? 0 then (rem + 86400, sec ÷ 86400 - 1) else (rem, sec ÷ 86400)) = (r, days)
    ∧ sec = days * 86400 + r ∧ 0 <= r < 86400) as (days & r & -> & Hsec & Hr).
  { pose proof (Z.quot_rem' sec 86400). pose proof (Z.rem_bound_abs sec 86400 ltac:(lia)).
    unfold rem. destruct (Z.ltb_spec (sec - sec ÷ 86400 * 86400) 0); eexists _, _; (split; [done|]); lia. }
  clear rem.
  assert (∃ era, (if days + 719468 <? 0 then days + 719468 - 146096 else days + 719468) ÷ 146097 = era
    ∧ 0 <= days + 719468 - era * 146097 < 146097) as (era & -> & He).
  { eexists; split; [done|]. destruct (Z.ltb_spec (days + 719468) 0); Z.quot_rem_to_equations; lia. }
  unfold u64 at 1. rewrite wrapu_small by lia.
  pose proof (civil_of_doe_ok _ He) as Hc. destruct (civil_of_doe _) as [[y m] d].
  destruct Hc as [Hv Hu]. unfold valid_date in *.
  replace (y + era * 400) with (y + 400 * era) by lia. rewrite unix_days_era, days_in_month_era, Hu.
  split; [done|]. Z.quot_rem_to_equations. lia.
Qed.

Lemma days_before_month_range y m : valid_date y m 1 →
  0 <= days_before_month y (Z.to_nat m) ∧
  days_before_month y (Z.to_nat m) + days_in_month y m <= (if is_leap y then 366 else 365).
Proof.
  intros [Hm _].
  assert (m = 1 ∨ m = 2 ∨ m = 3 ∨ m = 4 ∨ m = 5 ∨ m = 6 ∨ m = 7 ∨ m = 8 ∨ m = 9 ∨ m = 10 ∨ m = 11 ∨ m = 12)
    as H by lia.
  rewrite days_in_month_leap, days_before_month_leap.
  repeat destruct H as [->|H]; subst; destruct (is_leap y); vm_compute; split; discriminate.
Qed.

Lemma unix_days_year y m d : valid_date y m d →
  days_before_year y - 719162 <= unix_days y m d < days_before_year (y + 1) - 719162.
Proof.
  intros [Hm Hd]. unfold unix_days. rewrite days_before_year_succ.
  destruct (days_before_month_range y m) as [H1 H2]; [split; lia|]. lia.
Qed.

Lemma days_before_year_mono y z : y <= z → days_before_year y <= days_before_year z.
Proof. intros H. unfold days_before_year. Z.div_mod_to_equations. lia. Qed.

(** A date inside the days of the years 0..9999 has such a year. *)
Lemma year_range y m d : valid_date y m d →
  days_before_year 0 - 719162 <= unix_days y m d < days_before_year 10000 - 719162 → 0 <= y < 10000.
Proof.
  intros Hv H. pose proof (unix_days_year y m d Hv).
  split.
  - destruct (Z.le_gt_cases 0 y); [done|]. pose proof (days_before_year_mono (y + 1) 0). lia.
  - destruct (Z.lt_ge_cases y 10000); [done|]. pose proof (days_before_year_mono 10000 y). lia.
Qed.

(** *** The digit writers *)

Lemma ascii_digit_val v : 0 <= v < 10 → digit_val (ascii_digit v) = v ∧ is_digit (ascii_digit v) = true.
Proof.
  intros H. unfold digit_val, is_digit, ascii_digit. rewrite byteZ_mkbyte, Z.mod_small by lia. split; lia.
Qed.

Lemma append2_app dst v : append2 dst v = dst ++ append2 [] v.
Proof. done. Qed.
Lemma append6_app dst v : append6 dst v = dst ++ append6 [] v.
Proof. done. Qed.
Lemma appendInt4_app dst v : appendInt4 dst v = dst ++ appendInt4 [] v.
Proof.
  unfold appendInt4. destruct (v <? 0); cbn [app].
  - destruct (10000 <=? - v); rewrite ?(AppendInt_app (dst ++ _)), ?(AppendInt_app ["-"%byte]), <- ?app_assoc; done.
  - destruct (10000 <=? v); [apply AppendInt_app|done].
Qed.

Lemma append2_value v : 0 <= v < 100 → dec_value (append2 [] v) = v.
Proof.
  intros H. unfold append2, dec_value, undigits. simpl.
  rewrite !(λ x H, proj1 (ascii_digit_val x H)) by (Z.quot_rem_to_equations; lia).
  Z.quot_rem_to_equations. lia.
Qed.

Lemma appendInt4_value v : 0 <= v < 10000 →
  dec_value (appendInt4 [] v) = v ∧ length (appendInt4 [] v) = 4%nat.
Proof.
  intros H. unfold appendInt4. destruct (Z.ltb_spec v 0); [lia|].
  destruct (Z.leb_spec 10000 v); [lia|]. unfold dec_value, undigits. simpl.
  rewrite !(λ x H, proj1 (ascii_digit_val x H)) by (Z.quot_rem_to_equations; lia).
  split; [|done]. Z.quot_rem_to_equations. lia.
Qed.

(** The six decimal digits of a number below 10^6, from the most significant. *)
Lemma six_digits v : 0 <= v < 1000000 →
  ∃ a b c d e f, v ÷ 100000 = a ∧ v ÷ 10000 = a * 10 + b ∧ v ÷ 1000 = (a * 10 + b) * 10 + c ∧
    v ÷ 100 = ((a * 10 + b) * 10 + c) * 10 + d ∧ v ÷ 10 = (((a * 10 + b) * 10 + c) * 10 + d) * 10 + e ∧
    v = ((((a * 10 + b) * 10 + c) * 10 + d) * 10 + e) * 10 + f ∧
    0 <= a < 10 ∧ 0 <= b < 10 ∧ 0 <= c < 10 ∧ 0 <= d < 10 ∧ 0 <= e < 10 ∧ 0 <= f < 10.
Proof.
  intros H. rewrite !Z.quot_div_nonneg by lia.
  change 100000 with (10 * 10 * 10 * 10 * 10). change 10000 with (10 * 10 * 10 * 10).
  change 1000 with (10 * 10 * 10). change 100 with (10 * 10). rewrite <- !Z.div_div by lia.
  set (q1 := v / 10). set (q2 := q1 / 10). set (q3 := q2 / 10). set (q4 := q3 / 10). set (q5 := q4 / 10).
  assert (∀ n, 0 <= n → n = n / 10 * 10 + n mod 10 ∧ 0 <= n mod 10 < 10 ∧ 0 <= n / 10) as Hn.
  { intros n Hn. pose proof (Z.div_mod n 10). pose proof (Z.mod_pos_bound n 10).
    pose proof (Z.div_pos n 10). lia. }
  pose proof (Hn v ltac:(lia)) as D0. fold q1 in D0. pose proof (Hn q1 ltac:(lia)) as D1. fold q2 in D1.
  pose proof (Hn q2 ltac:(lia)) as D2. fold q3 in D2. pose proof (Hn q3 ltac:(lia)) as D3. fold q4 in D3.
  pose proof (Hn q4 ltac:(lia)) as D4. fold q5 in D4.
  exists q5, (q4 mod 10), (q3 mod 10), (q2 mod 10), (q1 mod 10), (v mod 10). lia.
Qed.

(** The last decimal digit of a number written as tens and units. *)
Lemma rem_snoc q r : 0 <= q → 0 <= r < 10 → Z.rem (q * 10 + r) 10 = r.
Proof. intros. rewrite Z.rem_mod_nonneg, Z.add_comm, Z.mod_add, Z.mod_small; lia. Qed.

Lemma append6_value v : 0 <= v < 1000000 → dec_value (append6 [] v) = v.
Proof.
  intros H. unfold append6, dec_value, undigits.
  destruct (six_digits v H) as (a & b & c & d & e & f & -> & -> & -> & -> & -> & Hv & Hr).
  rewrite Hv, !rem_snoc, (Z.rem_small a) by lia. simpl.
  rewrite !(λ x H, proj1 (ascii_digit_val x H)) by lia. lia.
Qed.

Lemma usec_split usec : ∃ sec frac,
  (let sec := pgEpochUnix + usec ÷ 1000000 in
   let frac := Z.rem usec 1000000 in
   if frac <? 0 then (sec - 1, frac + 1000000) else (sec, frac)) = (sec, frac) ∧
  usec = (sec - pgEpochUnix) * 1000000 + frac ∧ 0 <= frac < 1000000.
Proof.
  cbv zeta. pose proof (Z.quot_rem' usec 1000000). pose proof (Z.rem_bound_abs usec 1000000 ltac:(lia)).
  destruct (Z.ltb_spec (Z.rem usec 1000000) 0); eexists _, _; (split; [done|]); lia.
Qed.

(** The time of day appended field by field. *)
Lemma appendISOTimestamp_fields usec sfx sec frac y mo d hh mm ss :
  (let sec := pgEpochUnix + usec ÷ 1000000 in
   let frac := Z.rem usec 1000000 in
   if frac <? 0 then (sec - 1, frac + 1000000) else (sec, frac)) = (sec, frac) →
  splitTime sec = (y, mo, d, hh, mm, ss) →
  ∀ dst, appendISOTimestamp dst usec sfx =
    dst ++ appendInt4 [] y ++ ["-"%byte] ++ append2 [] mo ++ ["-"%byte] ++ append2 [] d ++ ["T"%byte] ++
    append2 [] hh ++ [":"%byte] ++ append2 [] mm ++ [":"%byte] ++ append2 [] ss ++
    (if frac =? 0 then [] else "."%byte :: append6 [] frac) ++ sfx.
Proof.
  intros Hs Ht dst. unfold appendISOTimestamp. cbv zeta in Hs. rewrite Hs, Ht, appendInt4_app.
  destruct (frac =? 0); unfold append2, append6; rewrite <- ?app_assoc; done.
Qed.

(** Within the years 0..9999 the ISO text written for a timestamp, with
    either suffix the encoders pass, denotes exactly the microseconds it was
    written from. *)
Theorem iso_timestamp_roundtrip (usec : Z) (suffix : bytes)
  (Hsfx : suffix = [] ∨ suffix = str "Z")
  (Hlo : (unix_days 0 1 1 * 86400 - pgEpochUnix) * 1000000 <= usec)
  (Hhi : usec < (unix_days 10000 1 1 * 86400 - pgEpochUnix) * 1000000) :
  parse_iso (appendISOTimestamp [] usec suffix) = (usec, suffix).
Proof.
  destruct (usec_split usec) as (sec & frac & Hs & Hu & Hf).
  pose proof (splitTime_correct sec) as Hc.
  destruct (splitTime sec) as [[[[[y mo] d] hh] mm] ss] eqn:Ht.
  destruct Hc as (Hv & Hhh & Hmm & Hss & Hsec).
  rewrite (appendISOTimestamp_fields _ _ _ _ _ _ _ _ _ _ Hs Ht), app_nil_l.
  assert (0 <= y < 10000) as Hy.
  { apply (year_range y mo d Hv). change (unix_days 0 1 1) with (days_before_year 0 - 719162) in Hlo.
    change (unix_days 10000 1 1) with (days_before_year 10000 - 719162) in Hhi.
    unfold pgEpochUnix in *. lia. }
  destruct (appendInt4_value y Hy) as [Hyv Hyl].
  destruct (appendInt4 [] y) as [|y1 [|y2 [|y3 [|y4 [|]]]]]; try discriminate.
  destruct Hv as [Hm Hd]. pose proof (days_in_month_le y mo).
  pose proof (append2_value mo ltac:(lia)) as Emo. pose proof (append2_value d ltac:(lia)) as Ed.
  pose proof (append2_value hh ltac:(lia)) as Ehh. pose proof (append2_value mm ltac:(lia)) as Emm.
  pose proof (append2_value ss ltac:(lia)) as Ess.
  unfold append2 in *. rewrite app_nil_l in *.
  unfold parse_iso, slice. cbn [app take drop Nat.sub]. rewrite ?take_0.
  rewrite Hyv, Emo, Ed, Ehh, Emm, Ess.
  destruct (Z.eqb_spec frac 0) as [->|Hne]; cbn [app].
  - destruct Hsfx as [-> | ->]; cbn; f_equal; unfold pgEpochUnix in *; lia.
  - pose proof (append6_value frac Hf) as Ef. unfold append6 in *. cbn [app take drop] in *.
    change (beq "."%byte "."%byte) with true. rewrite ?take_0, ?drop_0. cbn iota. rewrite Ef. f_equal. unfold pgEpochUnix in *. lia.
Qed.

Lemma iso_timestamp_roundtrip_witness :
  parse_iso (appendISOTimestamp [] (-1) (str "Z")) = (-1, str "Z").
Proof. apply (iso_timestamp_roundtrip (-1) (str "Z")); [right; reflexivity|vm_compute; discriminate|vm_compute; reflexivity]. Defined.
