(* ===== verification/Numeric.v ===== *)
(** internal/types/numeric.go (text-format bool, int, float, numeric) and
    internal/types/numeric_bin.go (the base-10000 binary numeric decoder).
    A cell is [option bytes]: [None] is the nil slice of SQL NULL. *)
From S2P Require Import Prelude JsonWriter JsonGrammar.

(** ** numeric.go *)

Definition EncodeBool (dst : bytes) (raw : option bytes) : bytes :=
  match raw with
  | None => AppendNull dst
  | Some raw =>
      match raw with
      | [c] => if beq c "t"%byte then AppendBool dst true else AppendBool dst false
      | _ => AppendBool dst false
      end
  end.

Definition is_sign (c : byte) : bool := beq c "-"%byte || beq c "+"%byte.

Definition validInt (b : bytes) : bool :=
  match b with
  | [] => false
  | c :: r =>
      if is_sign c then match r with [] => false | _ => forallb is_digit r end
      else forallb is_digit b
  end.

Definition EncodeInt (dst : bytes) (raw : option bytes) : bytes :=
  match raw with
  | None => AppendNull dst
  | Some raw => if negb (validInt raw) then AppendStringBytes dst raw else dst ++ raw
  end.

Definition isNonFiniteFloat (b : bytes) : bool :=
  match b with
  | [a; b; c] => beq a "N"%byte && beq b "a"%byte && beq c "N"%byte
  | [a; b; _; _; _; _; _; _] => beq a "I"%byte || (beq a "-"%byte && beq b "I"%byte)
  | [a; b; _; _; _; _; _; _; _] => beq a "-"%byte && beq b "I"%byte
  | _ => false
  end.

(** The main loop of validFloat over the bytes still to read. *)
Fixpoint vf_loop (s : bytes) (sawDigit sawDot : bool) : bool :=
  match s with
  | [] => sawDigit
  | c :: r =>
      if is_digit c then vf_loop r true sawDot
      else if beq c "."%byte && negb sawDot then vf_loop r sawDigit true
      else if (beq c "e"%byte || beq c "E"%byte) && sawDigit && negb (bool_decide (r = [])) then
        let r := match r with x :: t => if is_sign x then t else r | [] => r end in
        match r with [] => false | _ => forallb is_digit r end
      else false
  end.

Definition validFloat (b : bytes) : bool :=
  match b with
  | [] => false
  | c :: r => if is_sign c then vf_loop r false false else vf_loop b false false
  end.

Definition EncodeFloat (dst : bytes) (raw : option bytes) : bytes :=
  match raw with
  | None => AppendNull dst
  | Some raw =>
      if isNonFiniteFloat raw then AppendStringBytes dst raw
      else if negb (validFloat raw) then AppendStringBytes dst raw
      else dst ++ raw
  end.

Definition EncodeNumeric (dst : bytes) (raw : option bytes) : bytes :=
  match raw with
  | None => AppendNull dst
  | Some raw =>
      if bool_decide (raw = str "NaN") then AppendStringBytes dst raw
      else if negb (validFloat raw) then AppendStringBytes dst raw
      else dst ++ raw
  end.

(** ** numeric_bin.go *)

Definition dchar (v : Z) : byte := mkbyte (48 + v).

Definition appendNumericPad4 (dst : bytes) (v : Z) : bytes :=
  dst ++ [dchar (Z.rem (v ÷ 1000) 10); dchar (Z.rem (v ÷ 100) 10);
          dchar (Z.rem (v ÷ 10) 10); dchar (Z.rem v 10)].

(** The closure [digitAt]: digit [i] of the body, 0 outside [0, ndigits). *)
Definition digitAt (body : bytes) (ndigits i : Z) : Z :=
  if (i <? 0) || (ndigits <=? i) then 0
  else be_get (slice (Z.to_nat (i * 2)) (Z.to_nat (i * 2) + 2) body).

(** [for i := 1; i <= weight; i++] *)
Fixpoint numeric_int_loop (n : nat) (i : Z) (dst body : bytes) (ndigits : Z) : bytes :=
  match n with
  | O => dst
  | S n => numeric_int_loop n (i + 1) (appendNumericPad4 dst (digitAt body ndigits i)) body ndigits
  end.

Definition divisor (inner : Z) : Z :=
  if inner =? 0 then 1000 else if inner =? 1 then 100 else if inner =? 2 then 10 else 1.

(** [for p := 0; p < dscale; p++] *)
Fixpoint numeric_frac_loop (n : nat) (p : Z) (dst body : bytes) (ndigits weight : Z) : bytes :=
  match n with
  | O => dst
  | S n =>
      let idx := weight + 1 + p ÷ 4 in
      let inner := Z.land p 3 in
      let digit := Z.rem (digitAt body ndigits idx ÷ divisor inner) 10 in
      numeric_frac_loop n (p + 1) (dst ++ [dchar digit]) body ndigits weight
  end.

(** The digits of a finite nonzero-length numeric. *)
Definition numeric_digits (dst body : bytes) (ndigits weight dscale : Z) : bytes :=
  let dst :=
    if weight <? 0 then dst ++ ["0"%byte]
    else numeric_int_loop (Z.to_nat weight) 1 (AppendInt dst (digitAt body ndigits 0)) body ndigits in
  if dscale =? 0 then dst
  else numeric_frac_loop (Z.to_nat dscale) 0 (dst ++ ["."%byte]) body ndigits weight.

Definition encodeNumericBinary (dst : bytes) (raw : option bytes) : bytes :=
  match raw with
  | None => AppendNull dst
  | Some raw =>
      if Zlen raw <? 8 then AppendStringBytes dst raw
      else
        let ndigits := int16 (be_get (slice 0 2 raw)) in
        let weight := int16 (be_get (slice 2 4 raw)) in
        let sign := be_get (slice 4 6 raw) in
        let dscale := int16 (be_get (slice 6 8 raw)) in
        let body := drop 8 raw in
        if (ndigits <? 0) || (dscale <? 0) || (Zlen body <? ndigits * 2) then AppendStringBytes dst raw
        else if sign =? 0xC000 then dst ++ [dquote] ++ str "NaN" ++ [dquote]
        else if sign =? 0xD000 then dst ++ [dquote] ++ str "Infinity" ++ [dquote]
        else if sign =? 0xF000 then dst ++ [dquote] ++ str "-Infinity" ++ [dquote]
        else if negb ((sign =? 0) || (sign =? 0x4000)) then AppendStringBytes dst raw
        else if ndigits =? 0 then
          let dst := dst ++ ["0"%byte] in
          if 0 <? dscale then (dst ++ ["."%byte]) ++ replicate (Z.to_nat dscale) "0"%byte else dst
        else
          let dst := if sign =? 0x4000 then dst ++ ["-"%byte] else dst in
          numeric_digits dst body ndigits weight dscale
  end.

Definition EncodeNumericBinary := encodeNumericBinary.

(** ** Specification of the numeric wire format *)

(** The message a server sends for [sign * (sum digits_i * 10000^(weight-i))]
    shown with [dscale] decimals. *)
Definition numeric_wire (sign weight dscale : Z) (ds : list Z) : bytes :=
  be_put 2 (Zlen ds) ++ be_put 2 weight ++ be_put 2 sign ++ be_put 2 dscale ++
  concat (be_put 2 <$> ds).

(** The value in units of the last shown decimal, rounded towards zero:
    floor(10^dscale * sum ds_i * 10000^(weight - i)). *)
Definition numeric_scaled (weight dscale : Z) (ds : list Z) : Z :=
  let a := 4 * (weight + 1) + dscale in
  undigits 10000 ds * 10 ^ Z.max 0 a / 10 ^ (4 * Zlen ds + Z.max 0 (- a)).

(** Characters that cannot break a JSON document when emitted bare. *)
Definition number_char (c : byte) : bool :=
  is_digit c || is_sign c || beq c "."%byte || beq c "e"%byte || beq c "E"%byte.

(** ** Lemmas: text *)

Lemma vf_loop_digits d s a b : forallb is_digit d = true → d ≠ [] → vf_loop (d ++ s) a b = vf_loop s true b.
Proof.
  revert a. induction d as [|c d IH]; intros a Hd Hne; [done|]. simpl in *.
  apply andb_prop in Hd as [-> Hd]. destruct d as [|c' d]; [done|]. by apply IH.
Qed.

Lemma span_digits_spec s d r : span_digits s = (d, r) → s = d ++ r ∧ forallb is_digit d = true.
Proof.
  revert d r. induction s as [|c s IH]; simpl; intros d r H; [by simplify_eq|].
  destruct (is_digit c) eqn:E; [|by simplify_eq].
  destruct (span_digits s) as [d' r'] eqn:Es. simplify_eq.
  destruct (IH _ _ eq_refl) as [-> H]. simpl. by rewrite E, H.
Qed.

Lemma is_digit_not c : is_digit c = true → is_sign c = false ∧ beq c "."%byte = false ∧
  beq c "e"%byte = false ∧ beq c "E"%byte = false.
Proof. by destruct c. Qed.

Lemma vf_loop_exp s b : jexp s = true → vf_loop s true b = true.
Proof.
  destruct s as [|c s]; [done|]. cbn [jexp vf_loop]. intros [Hc H]%andb_prop.
  assert (is_digit c = false ∧ beq c "."%byte = false) as [-> ->].
  { apply orb_prop in Hc as [Hc|Hc]; apply beq_true in Hc as ->; done. }
  rewrite Hc. simpl. destruct s as [|x s]; [done|]. rewrite bool_decide_eq_false_2 by done. simpl.
  assert (is_sign x = beq x "+"%byte || beq x "-"%byte) as -> by apply orb_comm.
  destruct (beq x "+"%byte || beq x "-"%byte);
    (destruct (span_digits _) as [d r] eqn:E; apply span_digits_spec in E as [E Hd];
     apply andb_prop in H as [H1 H2]; apply bool_decide_eq_true in H2 as ->; rewrite app_nil_r in E;
     rewrite E; apply negb_true_iff, bool_decide_eq_false in H1; by destruct d).
Qed.

Lemma vf_loop_unsigned s : junsigned s = true → vf_loop s false false = true.
Proof.
  unfold junsigned. destruct (span_digits s) as [d r] eqn:E. apply span_digits_spec in E as [-> Hd].
  intros H. assert (d ≠ [] ∧ jfrac r = true) as [Hne Hr].
  { destruct d as [|c [|c' d]]; [done|done|]. by apply andb_prop in H as [_ H]. }
  rewrite vf_loop_digits by done. destruct r as [|c r]; [done|]. unfold jfrac in Hr.
  destruct (beq c "."%byte) eqn:Ec; [|by apply vf_loop_exp].
  apply beq_true in Ec as ->. simpl. destruct (span_digits r) as [d' r'] eqn:E.
  apply span_digits_spec in E as [-> Hd']. apply andb_prop in Hr as [H1 H2].
  apply negb_true_iff, bool_decide_eq_false in H1. rewrite vf_loop_digits by done. by apply vf_loop_exp.
Qed.

Lemma validFloat_number s : jnumber s = true → validFloat s = true.
Proof.
  destruct s as [|c s]; [done|]. unfold jnumber, validFloat.
  destruct (beq c "-"%byte) eqn:E.
  - unfold is_sign. rewrite E. apply vf_loop_unsigned.
  - intros H. unfold is_sign. rewrite E, orb_false_l.
    destruct (beq c "+"%byte) eqn:Ep; [|by apply (vf_loop_unsigned (c :: s))].
    apply beq_true in Ep as ->. done.
Qed.

Lemma forallb_digit_number s : forallb is_digit s = true → forallb number_char s = true.
Proof.
  induction s as [|c s IH]; simpl; [done|]. unfold number_char at 1. intros [-> H]%andb_prop. by rewrite IH.
Qed.

Lemma vf_loop_chars s a b : vf_loop s a b = true → forallb number_char s = true.
Proof.
  revert a b. induction s as [|c s IH]; intros a b; simpl; [done|].
  destruct (is_digit c) eqn:Ed; [intros H; unfold number_char at 1; rewrite Ed; simpl; by eapply IH|].
  destruct (beq c "."%byte) eqn:Edot; simpl.
  - destruct b; simpl; [|intros H; unfold number_char at 1; rewrite Edot, !orb_true_r; by eapply IH].
    apply beq_true in Edot as ->. done.
  - destruct ((beq c "e"%byte || beq c "E"%byte)) eqn:Ee; simpl; [|done].
    assert (number_char c = true) as -> by
      (unfold number_char; rewrite <- !orb_assoc, Ee, !orb_true_r; done). simpl.
    destruct (a && _); [|done]. destruct s as [|x s]; [done|]. destruct (is_sign x) eqn:Es.
    + destruct s; [done|]. intros H%forallb_digit_number. cbn [forallb]. unfold number_char at 1.
      rewrite Es, orb_true_r. done.
    + apply forallb_digit_number.
Qed.

Lemma validFloat_chars s : validFloat s = true → forallb number_char s = true.
Proof.
  destruct s as [|c s]; [done|]. unfold validFloat. destruct (is_sign c) eqn:E; [|apply vf_loop_chars].
  intros H%vf_loop_chars. cbn [forallb]. unfold number_char at 1. by rewrite E, orb_true_r.
Qed.

Lemma jnumber_finite s : jnumber s = true → isNonFiniteFloat s = false ∧ s ≠ str "NaN".
Proof.
  intros H%validFloat_number%validFloat_chars. split; [|by intros ->].
  destruct (isNonFiniteFloat s) eqn:E; [|done]. exfalso. unfold isNonFiniteFloat in E.
  repeat case_match; try done; subst; cbn [forallb] in H; rewrite ?andb_true_iff, ?orb_true_iff in *;
    rewrite ?andb_true_iff, ?beq_true in E; destruct_and?; destruct_or?; destruct_and?; subst; done.
Qed.

(** The text float and numeric encoders pass every JSON number through
    unchanged, quote and escape whatever they do not recognise as a number,
    and never emit bare a byte outside digits, signs, point and exponent. *)
Theorem text_float_safe (dst raw : bytes) :
  (jnumber raw = true → EncodeFloat dst (Some raw) = dst ++ raw ∧ EncodeNumeric dst (Some raw) = dst ++ raw) ∧
  (∀ out, EncodeFloat dst (Some raw) = out ∨ EncodeNumeric dst (Some raw) = out →
     out = AppendStringBytes dst raw ∨ (out = dst ++ raw ∧ forallb number_char raw = true)).
Proof.
  split.
  - intros H. destruct (jnumber_finite raw H) as [H1 H2]. unfold EncodeFloat, EncodeNumeric.
    by rewrite H1, (validFloat_number raw H), bool_decide_eq_false_2.
  - unfold EncodeFloat, EncodeNumeric. intros out [<-|<-];
      (case_match; [by left|]); destruct (validFloat raw) eqn:E; simpl; auto using validFloat_chars.
Qed.

(** [EncodeInt] on the integers PostgreSQL prints. *)
Lemma validInt_AppendInt v : validInt (AppendInt [] v) = true.
Proof.
  unfold AppendInt, AppendUintBase. destruct (Z.ltb_spec v 0).
  - simpl. pose proof (digits_forallb (- v) ltac:(lia)) as Hd.
    destruct (digits_cons 10 (- v)) as (d & l & E & _); [lia..|]. rewrite E, fmap_cons in *. done.
  - simpl. pose proof (digits_forallb v ltac:(lia)) as Hd.
    destruct (digits_cons 10 v) as (d & l & E & _); [lia..|]. rewrite E, fmap_cons in *.
    unfold validInt. cbn [forallb] in Hd. pose proof Hd as [Hc _]%andb_prop.
    by destruct (is_digit_not _ Hc) as [-> _].
Qed.

(** ** Lemmas: the binary decoder *)

Lemma undigits_app b l k : undigits b (l ++ k) = undigits b l * b ^ Zlen k + undigits b k.
Proof.
  unfold undigits, Zlen. rewrite fold_left_app. generalize (fold_left (λ a d, a * b + d) l 0).
  induction k as [|d k IH] using rev_ind; intros a; [simpl; lia|].
  rewrite !fold_left_app. simpl. rewrite IH, length_app, Nat2Z.inj_add. change (Z.of_nat (length [d])) with 1.
  rewrite Z.pow_add_r by lia. lia.
Qed.

Lemma undigits_range b l : 0 < b → Forall (λ d, 0 <= d < b) l → 0 <= undigits b l < b ^ Zlen l.
Proof.
  intros Hb. induction l as [|d l IH] using rev_ind; intros H; [unfold undigits, Zlen; simpl; lia|].
  apply Forall_app in H as [H1 H2]. specialize (IH H1). pose proof (Forall_inv H2). simpl in *.
  rewrite undigits_snoc, Zlen_app, Z.pow_add_r by (unfold Zlen; lia).
  change (Zlen [d]) with 1. rewrite Z.pow_1_r. nia.
Qed.

Definition dg (ds : list Z) (k : Z) : Z := if k <? 0 then 0 else nth (Z.to_nat k) ds 0.

Section Scaled.
Context (ds : list Z) (Hds : Forall (λ d, 0 <= d < 10000) ds).
Let V := undigits 10000 ds.
Let n := Zlen ds.

Definition scaled (a : Z) : Z := V * 10 ^ Z.max 0 a / 10 ^ (4 * n + Z.max 0 (- a)).

Lemma V_range : 0 <= V < 10 ^ (4 * n).
Proof.
  replace (10 ^ (4 * n)) with (10000 ^ n) by (rewrite Z.pow_mul_r by (unfold n, Zlen; lia); done).
  apply undigits_range; [lia|done].
Qed.

Lemma scaled_shift a m : 0 <= m → scaled a = scaled (a + m) / 10 ^ m.
Proof.
  intros Hm. unfold scaled. assert (0 <= n) by apply Zlen_nonneg.
  rewrite Z.div_div by (apply Z.pow_nonzero || apply Z.pow_pos_nonneg; lia).
  rewrite <- Z.pow_add_r by lia.
  replace (4 * n + Z.max 0 (- (a + m)) + m)
    with (4 * n + Z.max 0 (- a) + (Z.max 0 (a + m) - Z.max 0 a)) by lia.
  replace (10 ^ Z.max 0 (a + m)) with (10 ^ Z.max 0 a * 10 ^ (Z.max 0 (a + m) - Z.max 0 a))
    by (rewrite <- Z.pow_add_r by lia; f_equal; lia).
  rewrite Z.mul_assoc, (Z.pow_add_r _ (4 * n + _)) by lia.
  rewrite Z.div_mul_cancel_r; [done| |]; apply Z.pow_nonzero; lia.
Qed.

Lemma scaled_nonpos a : a <= 0 → scaled a = 0.
Proof.
  intros Ha. unfold scaled. pose proof V_range. assert (0 <= n) by apply Zlen_nonneg.
  rewrite Z.max_l, Z.mul_1_r by lia. apply Z.div_small. split; [lia|].
  apply Z.lt_le_trans with (10 ^ (4 * n)); [lia|]. apply Z.pow_le_mono_r; lia.
Qed.

Lemma dg_digit k : 0 <= k < n → dg ds k = V / 10000 ^ (n - 1 - k) mod 10000.
Proof.
  intros Hk. unfold dg. destruct (Z.ltb_spec k 0); [lia|].
  assert (Z.to_nat k < length ds)%nat as Hlt by (unfold n, Zlen in Hk; lia).
  destruct (lookup_lt_is_Some_2 ds _ Hlt) as [d Hd].
  rewrite (nth_lookup_Some _ _ _ _ Hd).
  pose proof (take_drop_middle ds _ d Hd) as E. unfold V. rewrite <- E at 1.
  rewrite undigits_app. change (d :: ?l) with ([d] ++ l). rewrite undigits_app, Zlen_app.
  assert (Zlen (drop (S (Z.to_nat k)) ds) = n - 1 - k) as ->.
  { unfold Zlen, n, Zlen. rewrite length_drop. unfold n, Zlen in Hk. lia. }
  set (m := n - 1 - k). assert (0 <= m) by (unfold m; lia).
  assert (0 <= undigits 10000 (drop (S (Z.to_nat k)) ds) < 10000 ^ m) as Hr.
  { replace m with (Zlen (drop (S (Z.to_nat k)) ds)).
    - apply undigits_range; [lia|]. by apply Forall_drop.
    - unfold Zlen. rewrite length_drop. unfold m, n, Zlen in *. lia. }
  change (Zlen [d]) with 1. change (undigits 10000 [d]) with d.
  rewrite (Z.pow_add_r _ 1), Z.pow_1_r by lia.
  set (A := undigits _ (take _ _)). set (R := undigits _ (drop _ _)) in *.
  replace (A * (10000 * 10000 ^ m) + (d * 10000 ^ m + R)) with (R + (A * 10000 + d) * 10000 ^ m) by lia.
  rewrite Z.div_add, Z.div_small by lia.
  replace (0 + (A * 10000 + d)) with (d + A * 10000) by lia. rewrite Z.mod_add, Z.mod_small by (try lia; by eapply Forall_lookup_1 in Hds). done.
Qed.

Lemma scaled_group k : scaled (4 * k + 4) = scaled (4 * k) * 10000 + dg ds k.
Proof.
  pose proof V_range as HV. assert (0 <= n) by apply Zlen_nonneg.
  destruct (Z.lt_ge_cases k 0) as [Hk|Hk].
  { rewrite !scaled_nonpos by lia. unfold dg. destruct (Z.ltb_spec k 0); lia. }
  destruct (Z.lt_ge_cases k n) as [Hn|Hn].
  - rewrite dg_digit by lia.
    assert (∀ j, 0 <= j <= n → scaled (4 * j) = V / 10000 ^ (n - j)) as Hs.
    { intros j Hj. unfold scaled. rewrite Z.max_r, (Z.max_l 0 (- _)), Z.add_0_r by lia.
      replace (4 * n) with (4 * (n - j) + 4 * j) by lia. rewrite (Z.pow_add_r 10) by lia.
      rewrite Z.div_mul_cancel_r by (apply Z.pow_nonzero; lia). f_equal. by rewrite Z.pow_mul_r by lia. }
    replace (4 * k + 4) with (4 * (k + 1)) by lia. rewrite !Hs by lia.
    replace (n - k) with (n - 1 - k + 1) by lia. replace (n - (k + 1)) with (n - 1 - k) by lia.
    rewrite (Z.pow_add_r _ _ 1), Z.pow_1_r, <- Z.div_div by (try apply Z.pow_nonzero; lia).
    pose proof (Z.div_mod (V / 10000 ^ (n - 1 - k)) 10000). lia.
  - assert (dg ds k = 0) as ->.
    { unfold dg. destruct (Z.ltb_spec k 0); [done|]. apply nth_overflow. unfold n, Zlen in Hn. lia. }
    assert (∀ j, n <= j → scaled (4 * j) = V * 10 ^ (4 * (j - n))) as Hs.
    { intros j Hj. unfold scaled. rewrite Z.max_r, (Z.max_l 0 (- _)), Z.add_0_r by lia.
      replace (4 * j) with (4 * (j - n) + 4 * n) at 1 by lia. rewrite (Z.pow_add_r 10) by lia.
      rewrite Z.mul_assoc, Z.div_mul by (apply Z.pow_nonzero; lia). done. }
    replace (4 * k + 4) with (4 * (k + 1)) by lia. rewrite !Hs by lia.
    replace (4 * (k + 1 - n)) with (4 * (k - n) + 4) by lia. rewrite Z.pow_add_r by lia. lia.
Qed.

Lemma dg_range k : 0 <= dg ds k < 10000.
Proof.
  unfold dg. destruct (Z.ltb_spec k 0); [lia|].
  destruct (nth_in_or_default (Z.to_nat k) ds 0) as [Hin| ->]; [|lia].
  rewrite Forall_forall in Hds. apply Hds. by apply list_elem_of_In.
Qed.

(** One more decimal, the way the loop computes it. *)
Lemma scaled_succ w p : 0 <= p →
  scaled (4 * (w + 1) + p + 1) =
  scaled (4 * (w + 1) + p) * 10 + Z.rem (dg ds (w + 1 + p ÷ 4) ÷ divisor (Z.land p 3)) 10.
Proof.
  intros Hp. change 3 with (Z.ones 2). rewrite Z.land_ones, (Z.quot_div_nonneg p) by lia. change (2 ^ 2) with 4.
  set (k := w + 1 + p / 4). set (r := p mod 4). pose proof (Z.div_mod p 4 ltac:(lia)) as E. fold r in E.
  assert (0 <= r < 4) as Hr by (apply Z.mod_pos_bound; lia).
  replace (4 * (w + 1) + p) with (4 * k + r) by (unfold k; lia).
  rewrite (scaled_shift (4 * k + r + 1) (3 - r)), (scaled_shift (4 * k + r) (4 - r)) by lia.
  replace (4 * k + r + 1 + (3 - r)) with (4 * k + 4) by lia.
  replace (4 * k + r + (4 - r)) with (4 * k + 4) by lia. rewrite scaled_group.
  pose proof (dg_range k) as Hd. set (d := dg ds k) in *. set (X := scaled (4 * k)).
  assert (r = 0 ∨ r = 1 ∨ r = 2 ∨ r = 3) as Hc by lia. clearbody r d X.
  destruct Hc as [-> | [-> | [-> | ->]]]; cbv [divisor Z.eqb Pos.eqb];
    rewrite Z.quot_div_nonneg by lia; (rewrite Z.rem_mod_nonneg by (Z.div_mod_to_equations; lia));
    cbn -[Z.mul Z.add Z.div Z.modulo]; Z.div_mod_to_equations; lia.
Qed.

End Scaled.

Lemma wire_slice ds i : (i < length ds)%nat →
  slice (i * 2) (i * 2 + 2) (concat (be_put 2 <$> ds)) = be_put 2 (nth i ds 0).
Proof.
  revert i. induction ds as [|d ds IH]; intros i Hi; simpl in Hi; [lia|].
  destruct i as [|i]; [done|]. rewrite fmap_cons. cbn [concat].
  unfold slice in *. replace (S i * 2 + 2 - S i * 2)%nat with 2%nat by lia.
  specialize (IH i ltac:(lia)). replace (i * 2 + 2 - i * 2)%nat with 2%nat in IH by lia.
  change (S i * 2)%nat with (2 + i * 2)%nat. rewrite <- drop_drop.
  rewrite (drop_app_len 2 (be_put 2 d)) by apply length_be_put. exact IH.
Qed.

Lemma digitAt_wire ds i : Forall (λ d, 0 <= d < 10000) ds →
  digitAt (concat (be_put 2 <$> ds)) (Zlen ds) i = dg ds i.
Proof.
  intros Hds. pose proof (dg_range ds Hds i) as Hr. unfold digitAt, dg in *.
  destruct (Z.ltb_spec i 0); [done|]. simpl. destruct (Z.leb_spec (Zlen ds) i) as [Hi|Hi].
  - rewrite nth_overflow; [done|]. unfold Zlen in Hi. lia.
  - replace (Z.to_nat (i * 2)) with (Z.to_nat i * 2)%nat by lia.
    rewrite wire_slice by (unfold Zlen in Hi; lia). apply be_get_put_small.
    change (256 ^ Z.of_nat 2) with 65536. lia.
Qed.

(** Continue reading a decimal number from the value [x]. *)
Definition dec_from (x : Z) (l : bytes) : Z := fold_left (λ a d, a * 10 + d) (digit_val <$> l) x.

Lemma dec_from_app x l k : dec_from x (l ++ k) = dec_from (dec_from x l) k.
Proof. unfold dec_from. by rewrite fmap_app, fold_left_app. Qed.

Lemma dchar_val v : 0 <= v < 10 → digit_val (dchar v) = v ∧ is_digit (dchar v) = true.
Proof.
  intros H. unfold digit_val, is_digit, dchar. rewrite byteZ_mkbyte, Z.mod_small by lia. split; lia.
Qed.

Lemma rem10_range x : 0 <= x → 0 <= Z.rem x 10 < 10.
Proof. intros H. rewrite Z.rem_mod_nonneg by lia. apply Z.mod_pos_bound. lia. Qed.

Lemma pad4_spec v : 0 <= v < 10000 →
  forallb is_digit (appendNumericPad4 [] v) = true ∧ ∀ x, dec_from x (appendNumericPad4 [] v) = x * 10000 + v.
Proof.
  intros Hv. unfold appendNumericPad4. rewrite app_nil_l. rewrite !Z.quot_div_nonneg by lia.
  assert (∀ y, 0 <= y → digit_val (dchar (Z.rem y 10)) = y mod 10 ∧ is_digit (dchar (Z.rem y 10)) = true) as H.
  { intros y Hy. rewrite <- Z.rem_mod_nonneg by lia. by apply dchar_val, rem10_range. }
  assert (0 <= v / 1000 ∧ 0 <= v / 100 ∧ 0 <= v / 10) as (H1 & H2 & H3) by (Z.div_mod_to_equations; lia).
  destruct (H _ H1) as [V1 D1], (H _ H2) as [V2 D2], (H _ H3) as [V3 D3], (H v ltac:(lia)) as [V4 D4].
  split; [cbn [forallb]; by rewrite D1, D2, D3, D4|]. intros x. unfold dec_from. rewrite !fmap_cons.
  cbn [fold_left fmap list_fmap]. rewrite V1, V2, V3, V4. clear - Hv. Z.div_mod_to_equations. lia.
Qed.

Section Loops.
Context (ds : list Z) (Hds : Forall (λ d, 0 <= d < 10000) ds).
Let body := concat (be_put 2 <$> ds).

Lemma int_loop_spec n i dst : ∃ l,
  numeric_int_loop n i dst body (Zlen ds) = dst ++ l ∧ forallb is_digit l = true ∧ length l = (4 * n)%nat ∧
  dec_from (scaled ds (4 * i)) l = scaled ds (4 * (i + Z.of_nat n)).
Proof.
  revert i dst. induction n as [|n IH]; intros i dst; cbn [numeric_int_loop].
  - exists []. rewrite app_nil_r. repeat split. cbn. f_equal. lia.
  - destruct (IH (i + 1) (appendNumericPad4 dst (digitAt body (Zlen ds) i))) as (l & -> & Hd & Hlen & Hv).
    unfold body. rewrite digitAt_wire by done.
    destruct (pad4_spec (dg ds i) (dg_range ds Hds i)) as [Hp1 Hp2].
    exists (appendNumericPad4 [] (dg ds i) ++ l). unfold appendNumericPad4 at 1 2. rewrite <- !app_assoc.
    split; [done|]. split; [by rewrite forallb_app, Hp1, Hd|]. split; [rewrite length_app; unfold appendNumericPad4; simpl length; lia|].
    rewrite dec_from_app, Hp2, <- scaled_group by done.
    replace (4 * i + 4) with (4 * (i + 1)) by lia. rewrite Hv. f_equal. lia.
Qed.

Lemma frac_loop_spec w n p dst : 0 <= p → ∃ l,
  numeric_frac_loop n p dst body (Zlen ds) w = dst ++ l ∧ forallb is_digit l = true ∧ length l = n ∧
  dec_from (scaled ds (4 * (w + 1) + p)) l = scaled ds (4 * (w + 1) + p + Z.of_nat n).
Proof.
  revert p dst. induction n as [|n IH]; intros p dst Hp; cbn [numeric_frac_loop].
  - exists []. rewrite app_nil_r. repeat split. cbn. f_equal. lia.
  - unfold body. rewrite digitAt_wire by done. fold body.
    pose proof (scaled_succ ds Hds w p Hp) as Hs. set (d := Z.rem _ 10) in *.
    assert (0 <= d < 10) as Hd.
    { unfold d. apply rem10_range. pose proof (dg_range ds Hds (w + 1 + p ÷ 4)).
      apply Z.quot_pos; [lia|]. unfold divisor. repeat case_match; lia. }
    destruct (dchar_val d Hd) as [Hv1 Hv2].
    destruct (IH (p + 1) (dst ++ [dchar d]) ltac:(lia)) as (l & -> & Hl & Hlen & Hv).
    exists (dchar d :: l). rewrite <- app_assoc. split; [done|]. cbn [forallb]. rewrite Hv2, Hl.
    split; [done|]. split; [simpl; lia|]. change (dchar d :: l) with ([dchar d] ++ l).
    rewrite dec_from_app. unfold dec_from at 2. cbn. rewrite Hv1, <- Hs.
    replace (4 * (w + 1) + p + 1) with (4 * (w + 1) + (p + 1)) by lia. rewrite Hv. f_equal. lia.
Qed.

(** Integer and fractional parts of the text. *)
Lemma numeric_digits_spec w s dst : ds ≠ [] → 0 <= s → ∃ ip fr,
  numeric_digits dst body (Zlen ds) w s = dst ++ ip ++ (if s =? 0 then [] else "."%byte :: fr) ∧
  forallb is_digit (ip ++ fr) = true ∧ ip ≠ [] ∧ Zlen fr = s ∧
  dec_value (ip ++ fr) = scaled ds (4 * (w + 1) + s) ∧
  ((0 < w → dg ds 0 ≠ 0) → ∃ c l, ip = c :: l ∧ (l = [] ∨ beq c "0"%byte = false)).
Proof.
  intros Hne Hs. unfold numeric_digits.
  assert (∃ ip, (if w <? 0 then dst ++ ["0"%byte] else numeric_int_loop (Z.to_nat w) 1
      (AppendInt dst (digitAt body (Zlen ds) 0)) body (Zlen ds)) = dst ++ ip ∧ forallb is_digit ip = true ∧
      dec_from 0 ip = scaled ds (4 * (w + 1)) ∧
      ((0 < w → dg ds 0 ≠ 0) → ∃ c l, ip = c :: l ∧ (l = [] ∨ beq c "0"%byte = false)) ∧ ip ≠ [])
    as (ip & -> & Hip & Hiv & Hz & Hine).
  { destruct (Z.ltb_spec w 0).
    - exists ["0"%byte]. split; [done|]. split; [done|]. split; [|split; [|done]].
      + rewrite scaled_nonpos by (done || lia). done.
      + intros _. exists "0"%byte, []. auto.
    - pose proof (dg_range ds Hds 0) as Hd0. unfold body. rewrite digitAt_wire by done. fold body.
      destruct (int_loop_spec (Z.to_nat w) 1 (AppendInt dst (dg ds 0))) as (l & -> & Hl & Hlen & Hv).
      rewrite AppendInt_app, <- app_assoc. eexists; split; [done|].
      unfold AppendInt, AppendUintBase. destruct (Z.ltb_spec (dg ds 0) 0); [lia|]. rewrite app_nil_l.
      split; [by rewrite forallb_app, digits_forallb by lia|]. split; [|split].
      + rewrite dec_from_app. change (dec_from 0 ?k) with (dec_value k). rewrite dec_value_digits by lia.
        replace (dg ds 0) with (scaled ds (4 * 1)).
        * rewrite Hv. f_equal. lia.
        * change (4 * 1) with (4 * 0 + 4). rewrite scaled_group, scaled_nonpos by (done || lia). lia.
      + intros Hnz. destruct (digits_cons 10 (dg ds 0)) as (d & k & E & Hk); [lia..|].
        pose proof (digits_range 10 (dg ds 0) ltac:(lia) ltac:(lia)) as HF. rewrite E, fmap_cons in *.
        eexists _, _; split; [done|]. destruct (decide (d = 0)) as [->|Hd]; [left|right].
        * destruct (Hk eq_refl) as [-> Hd00]. destruct (decide (w = 0)) as [->|Hw]; [|lia].
          cbn in Hlen. by destruct l.
        * apply beq_false. intros Hc. pose proof (proj2 (digit_char_digit d (Forall_inv HF))) as Hq.
          rewrite Hc in Hq. by apply Hd.
      + destruct (digits_cons 10 (dg ds 0)) as (d & k & E & Hk); [lia..|]. by rewrite E. }
  destruct (Z.eqb_spec s 0) as [->|Hs0].
  - exists ip, []. rewrite !app_nil_r. repeat (split; [done|]). split; [|done].
    change (dec_value ip) with (dec_from 0 ip). rewrite Hiv. f_equal. lia.
  - destruct (frac_loop_spec w (Z.to_nat s) 0 ((dst ++ ip) ++ ["."%byte]) ltac:(lia)) as (fr & -> & Hf & Hlen & Hfv).
    exists ip, fr. rewrite <- !app_assoc. split; [done|]. rewrite forallb_app, Hip, Hf. split; [done|].
    split; [done|]. split; [unfold Zlen; lia|]. split; [|done].
    change (dec_value (ip ++ fr)) with (dec_from 0 (ip ++ fr)). rewrite dec_from_app, Hiv.
    replace (4 * (w + 1)) with (4 * (w + 1) + 0) at 1 by lia. rewrite Hfv. f_equal. lia.
Qed.
End Loops.

Lemma length_wire_digits ds : length (concat (be_put 2 <$> ds)) = (2 * length ds)%nat.
Proof.
  induction ds as [|d ds IH]; [done|]. rewrite fmap_cons. cbn [concat].
  rewrite length_app, length_be_put, IH. simpl. lia.
Qed.

Lemma int16_put v : - 2 ^ 15 <= v < 2 ^ 15 → int16 (be_get (be_put 2 v)) = v.
Proof. intros H. rewrite int16_get_put. apply wraps_small; lia. Qed.

Lemma numeric_wire_decode dst sign weight dscale ds :
  (sign = 0 ∨ sign = 0x4000) → ds ≠ [] → Zlen ds < 2 ^ 15 →
  - 2 ^ 15 <= weight < 2 ^ 15 → 0 <= dscale < 2 ^ 15 →
  encodeNumericBinary dst (Some (numeric_wire sign weight dscale ds)) =
  numeric_digits (if sign =? 0x4000 then dst ++ ["-"%byte] else dst)
    (concat (be_put 2 <$> ds)) (Zlen ds) weight dscale.
Proof.
  intros Hs Hne Hn Hw Hd. unfold encodeNumericBinary. pose proof (Zlen_nonneg ds).
  assert (1 <= Zlen ds) by (destruct ds; [done|]; unfold Zlen; simpl; lia).
  set (raw := numeric_wire sign weight dscale ds).
  assert (Zlen raw = 8 + 2 * Zlen ds) as Hlen.
  { unfold raw, numeric_wire, Zlen. rewrite !length_app, !length_be_put, length_wire_digits. lia. }
  change (slice 0 2 raw) with (be_put 2 (Zlen ds)). change (slice 2 4 raw) with (be_put 2 weight).
  change (slice 4 6 raw) with (be_put 2 sign). change (slice 6 8 raw) with (be_put 2 dscale).
  change (drop 8 raw) with (concat (be_put 2 <$> ds)).
  rewrite !int16_put by lia. rewrite (be_get_put_small 2 sign) by (destruct Hs as [-> | ->]; done).
  assert (Zlen (concat (be_put 2 <$> ds)) = 2 * Zlen ds) as ->
    by (unfold Zlen; rewrite length_wire_digits; lia).
  destruct (Z.ltb_spec (Zlen raw) 8); [lia|]. destruct (Z.ltb_spec (Zlen ds) 0); [lia|].
  destruct (Z.ltb_spec dscale 0); [lia|]. destruct (Z.ltb_spec (2 * Zlen ds) (Zlen ds * 2)); [lia|].
  destruct (Z.eqb_spec (Zlen ds) 0); [lia|]. by destruct Hs as [-> | ->].
Qed.

(** C27. The binary decoder of a finite numeric writes an optional sign, an
    integer part and exactly [dscale] decimals whose digits, read as one
    number, are the wire value in units of the last decimal; the text is a
    JSON number as soon as the wire has no leading zero group. *)
Theorem numeric_binary_exact (dst : bytes) (sign weight dscale : Z) (ds : list Z)
  (Hsign : sign = 0 ∨ sign = 0x4000) (Hne : ds ≠ []) (Hn : Zlen ds < 2 ^ 15)
  (Hds : Forall (λ d, 0 <= d < 10000) ds)
  (Hw : - 2 ^ 15 <= weight < 2 ^ 15) (Hscale : 0 <= dscale < 2 ^ 15) :
  ∃ ip fr,
    encodeNumericBinary dst (Some (numeric_wire sign weight dscale ds)) =
      dst ++ (if sign =? 0x4000 then ["-"%byte] else []) ++ ip ++
      (if dscale =? 0 then [] else "."%byte :: fr) ∧
    forallb is_digit (ip ++ fr) = true ∧ ip ≠ [] ∧ Zlen fr = dscale ∧
    dec_value (ip ++ fr) = numeric_scaled weight dscale ds ∧
    ((0 < weight → nth 0 ds 0 ≠ 0) →
     jnumber ((if sign =? 0x4000 then ["-"%byte] else []) ++ ip ++
              (if dscale =? 0 then [] else "."%byte :: fr)) = true).
Proof.
  rewrite numeric_wire_decode by done.
  destruct (numeric_digits_spec ds Hds weight dscale
    (if sign =? 0x4000 then dst ++ ["-"%byte] else dst) Hne ltac:(lia))
    as (ip & fr & -> & Hdig & Hip & Hfr & Hv & Hz).
  exists ip, fr. split; [destruct (sign =? 0x4000); by rewrite <- ?app_assoc|].
  repeat (split; [done|]). intros Hnz. destruct (Hz Hnz) as (c & l & -> & Hcl).
  rewrite forallb_app in Hdig. apply andb_prop in Hdig as [Hdi Hdf]. cbn [forallb] in Hdi.
  apply andb_prop in Hdi as [Hc Hl].
  assert (junsigned ((c :: l) ++ (if dscale =? 0 then [] else "."%byte :: fr)) = true) as Hu.
  { unfold junsigned. rewrite span_digits_app.
    - assert (jfrac (if dscale =? 0 then [] else "."%byte :: fr) = true) as ->.
      { destruct (Z.eqb_spec dscale 0) as [|Hs0]; [done|]. unfold jfrac.
        change (beq "."%byte "."%byte) with true. cbn iota. rewrite span_digits_all by done.
        destruct fr; [|done]. by unfold Zlen in Hfr. }
      destruct l; [done|]. destruct Hcl as [|Hcl]; [done|]. by rewrite Hcl.
    - cbn [forallb]. by rewrite Hc, Hl.
    - by destruct (dscale =? 0). }
  destruct (sign =? 0x4000); [done|]. cbn [app] in *. unfold jnumber.
  destruct (beq c "-"%byte) eqn:E; [|done]. apply beq_true in E as ->. done.
Qed.

Lemma numeric_binary_exact_witness :
  ∃ ip fr,
    encodeNumericBinary [] (Some (numeric_wire 0x4000 0 3 [12; 3450])) =
      [] ++ ["-"%byte] ++ ip ++ "."%byte :: fr ∧ dec_value (ip ++ fr) = 12345.
Proof.
  destruct (numeric_binary_exact [] 0x4000 0 3 [12; 3450]) as (ip & fr & H1 & _ & _ & _ & H2 & _);
    [by right|done|done|repeat constructor; done|done|done|].
  exists ip, fr. split; [exact H1|]. rewrite H2. reflexivity.
Defined.

#[export] Hint Resolve validInt_AppendInt : pgz.
