(* ===== verification/Interval.v ===== *)
(** internal/types/interval.go: the binary encoders of interval, time and
    timetz, against parsers of the ISO-8601 text they write. *)
From S2P Require Import Prelude JsonWriter JsonGrammar Float Calendar Numeric.

(** ** interval.go *)

(** [for end > 1 && buf[end-1] == '0' { end-- }] *)
Fixpoint frac6_end (buf : bytes) (e : nat) : nat :=
  match e with
  | S (S _ as e') => if beq (nth e' buf x00) "0"%byte then frac6_end buf e' else e
  | _ => e
  end.

Definition appendFrac6 (dst : bytes) (frac : Z) : bytes :=
  let frac := if frac <? 0 then - frac else frac in
  let buf := [ascii_digit (Z.rem (frac ÷ 100000) 10); ascii_digit (Z.rem (frac ÷ 10000) 10);
              ascii_digit (Z.rem (frac ÷ 1000) 10); ascii_digit (Z.rem (frac ÷ 100) 10);
              ascii_digit (Z.rem (frac ÷ 10) 10); ascii_digit (Z.rem frac 10)] in
  dst ++ take (frac6_end buf 6) buf.

Definition encodeIntervalBinary (dst : bytes) (raw : option bytes) : bytes :=
  match raw with
  | None => AppendNull dst
  | Some raw =>
      if negb (Zlen raw =? 16) then AppendStringBytes dst raw
      else
        let micros := int64 (be_get (slice 0 8 raw)) in
        let days := int32 (be_get (slice 8 12 raw)) in
        let months := int32 (be_get (slice 12 16 raw)) in
        let years := months ÷ 12 in
        let months := months - years * 12 in
        if (years =? 0) && (months =? 0) && (days =? 0) && (micros =? 0) then
          dst ++ [dquote] ++ str "PT0S" ++ [dquote]
        else
          let dst := dst ++ [dquote; "P"%byte] in
          let dst := if years =? 0 then dst else AppendInt dst years ++ ["Y"%byte] in
          let dst := if months =? 0 then dst else AppendInt dst months ++ ["M"%byte] in
          let dst := if days =? 0 then dst else AppendInt dst days ++ ["D"%byte] in
          let dst :=
            if micros =? 0 then dst
            else
              let dst := dst ++ ["T"%byte] in
              let hours := micros ÷ 3600000000 in
              let micros := micros - hours * 3600000000 in
              let mins := micros ÷ 60000000 in
              let micros := micros - mins * 60000000 in
              let secs := micros ÷ 1000000 in
              let frac := micros - secs * 1000000 in
              let dst := if hours =? 0 then dst else AppendInt dst hours ++ ["H"%byte] in
              let dst := if mins =? 0 then dst else AppendInt dst mins ++ ["M"%byte] in
              if (secs =? 0) && (frac =? 0) then dst
              else
                let dst := AppendInt dst secs in
                let dst := if frac =? 0 then dst else appendFrac6 (dst ++ ["."%byte]) frac in
                dst ++ ["S"%byte] in
          dst ++ [dquote]
  end.

Definition appendTimeOfDay (dst : bytes) (usec : Z) : bytes :=
  let usec := if usec <? 0 then 0 else usec in
  let hours := usec ÷ 3600000000 in
  let usec := usec - hours * 3600000000 in
  let mins := usec ÷ 60000000 in
  let usec := usec - mins * 60000000 in
  let secs := usec ÷ 1000000 in
  let frac := usec - secs * 1000000 in
  let dst := append2 dst hours ++ [":"%byte] in
  let dst := append2 dst mins ++ [":"%byte] in
  let dst := append2 dst secs in
  if frac =? 0 then dst else appendFrac6 (dst ++ ["."%byte]) frac.

Definition encodeTimeBinary (dst : bytes) (raw : option bytes) : bytes :=
  match raw with
  | None => AppendNull dst
  | Some raw =>
      if negb (Zlen raw =? 8) then AppendStringBytes dst raw
      else
        let usec := int64 (be_get raw) in
        appendTimeOfDay (dst ++ [dquote]) usec ++ [dquote]
  end.

Definition encodeTimeTZBinary (dst : bytes) (raw : option bytes) : bytes :=
  match raw with
  | None => AppendNull dst
  | Some raw =>
      if negb (Zlen raw =? 12) then AppendStringBytes dst raw
      else
        let usec := int64 (be_get (slice 0 8 raw)) in
        let zone := int32 (be_get (slice 8 12 raw)) in
        let dst := appendTimeOfDay (dst ++ [dquote]) usec in
        let zone := int32 (- zone) in
        let '(dst, zone) := if 0 <=? zone then (dst ++ ["+"%byte], zone)
                            else (dst ++ ["-"%byte], int32 (- zone)) in
        let h := zone ÷ 3600 in
        let m := Z.rem zone 3600 ÷ 60 in
        append2 (append2 dst h ++ [":"%byte]) m ++ [dquote]
  end.

(** ** Specification: reading ISO-8601 durations and times *)

Definition strip_neg (s : bytes) : bool * bytes :=
  match s with c :: t => if beq c "-"%byte then (true, t) else (false, s) | [] => (false, []) end.
Definition with_sign (neg : bool) (v : Z) : Z := if neg then - v else v.

(** An optional [-]digits followed by the unit [u]; zero when absent. *)
Definition field (u : byte) (s : bytes) : Z * bytes :=
  let '(neg, s1) := strip_neg s in
  let '(d, r) := span_digits s1 in
  match d, r with
  | _ :: _, c :: r' => if beq c u then (with_sign neg (dec_value d), r') else (0, s)
  | _, _ => (0, s)
  end.

Definition frac_value (f : bytes) : Z := dec_value f * 10 ^ (6 - Zlen f).

(** Seconds with an optional fraction of at most six digits, in microseconds. *)
Definition sec_field (s : bytes) : Z * bytes :=
  let '(neg, s1) := strip_neg s in
  let '(d, r) := span_digits s1 in
  match d, r with
  | _ :: _, c :: r1 =>
      if beq c "S"%byte then (with_sign neg (dec_value d * 1000000), r1)
      else if beq c "."%byte then
        let '(f, r2) := span_digits r1 in
        match r2 with
        | c2 :: r3 => if beq c2 "S"%byte
                      then (with_sign neg (dec_value d * 1000000 + frac_value f), r3) else (0, s)
        | [] => (0, s)
        end
      else (0, s)
  | _, _ => (0, s)
  end.

(** A duration after its [P]: total months, days, microseconds, and the rest. *)
Definition parse_duration (s : bytes) : Z * Z * Z * bytes :=
  let '(y, s) := field "Y"%byte s in
  let '(m, s) := field "M"%byte s in
  let '(d, s) := field "D"%byte s in
  match s with
  | c :: s' =>
      if beq c "T"%byte then
        let '(h, s) := field "H"%byte s' in
        let '(mi, s) := field "M"%byte s in
        let '(us, s) := sec_field s in
        (12 * y + m, d, h * 3600000000 + mi * 60000000 + us, s)
      else (12 * y + m, d, 0, s)
  | [] => (12 * y + m, d, 0, s)
  end.

(** [HH:MM:SS(.f+)?] in microseconds, and the rest. *)
Definition parse_time (l : bytes) : Z * bytes :=
  let num i j := dec_value (slice i j l) in
  let us := (num 0%nat 2%nat * 3600 + num 3%nat 5%nat * 60 + num 6%nat 8%nat) * 1000000 in
  match drop 8 l with
  | c :: r => if beq c "."%byte then let '(f, r') := span_digits r in (us + frac_value f, r') else (us, c :: r)
  | [] => (us, [])
  end.

(** [±HH:MM], in minutes east of UTC, and the rest. *)
Definition parse_zone (l : bytes) : Z * bytes :=
  let m := dec_value (slice 1 3 l) * 60 + dec_value (slice 4 6 l) in
  match l with
  | c :: _ => (if beq c "-"%byte then - m else m, drop 6 l)
  | [] => (0, [])
  end.

Definition interval_wire (micros days months : Z) : bytes :=
  be_put 8 micros ++ be_put 4 days ++ be_put 4 months.

(** ** Lemmas *)

Lemma frac6_end_SS buf e : frac6_end buf (S (S e)) =
  if beq (nth (S e) buf x00) "0"%byte then frac6_end buf (S e) else S (S e).
Proof. done. Qed.

Lemma frac6_end_spec buf e : (0 < e <= length buf)%nat →
  (0 < frac6_end buf e <= e)%nat ∧
  dec_value (take (frac6_end buf e) buf) * 10 ^ Z.of_nat (e - frac6_end buf e) = dec_value (take e buf).
Proof.
  induction e as [|e IH]; intros He; [lia|]. destruct e as [|e].
  - cbn [frac6_end]. split; [lia|]. rewrite Nat.sub_diag. by rewrite Z.pow_0_r, Z.mul_1_r.
  - rewrite frac6_end_SS. destruct (beq (nth (S e) buf x00) "0"%byte) eqn:Eb.
    2:{ split; [lia|]. rewrite Nat.sub_diag. by rewrite Z.pow_0_r, Z.mul_1_r. }
    destruct (IH ltac:(lia)) as [IH1 IH2]. split; [lia|].
    apply beq_true in Eb. destruct (lookup_lt_is_Some_2 buf (S e) ltac:(lia)) as [c Hc].
    rewrite (nth_lookup_Some _ _ _ _ Hc) in Eb. subst c.
    rewrite (take_S_r buf (S e) _ Hc). unfold dec_value at 2. rewrite fmap_app, undigits_app.
    change (undigits 10 (digit_val <$> take (S e) buf)) with (dec_value (take (S e) buf)).
    rewrite <- IH2. change (undigits 10 (digit_val <$> ["0"%byte])) with 0.
    change (Zlen (digit_val <$> ["0"%byte])) with 1.
    replace (Z.of_nat (S (S e) - frac6_end buf (S e))) with (Z.of_nat (S e - frac6_end buf (S e)) + 1) by lia.
    rewrite Z.pow_add_r by lia. lia.
Qed.

Lemma appendFrac6_app dst x : appendFrac6 dst x = dst ++ appendFrac6 [] x.
Proof. done. Qed.

Lemma appendFrac6_spec x : - 1000000 < x < 1000000 →
  forallb is_digit (appendFrac6 [] x) = true ∧ frac_value (appendFrac6 [] x) = Z.abs x.
Proof.
  intros Hx. unfold appendFrac6. rewrite app_nil_l.
  assert ((if x <? 0 then - x else x) = Z.abs x) as -> by (destruct (Z.ltb_spec x 0); lia).
  assert (0 <= Z.abs x < 1000000) as Hv by lia. generalize dependent (Z.abs x). clear Hx x. intros v Hv.
  set (buf := [_; _; _; _; _; _]).
  assert (forallb is_digit buf = true) as Hd.
  { unfold buf. assert (∀ y, 0 <= y → is_digit (ascii_digit (Z.rem y 10)) = true) as H
      by (intros y Hy; apply ascii_digit_val, rem10_range; done).
    cbn [forallb]. rewrite !H by (try apply Z.quot_pos; lia). done. }
  assert (dec_value buf = v) as Hb by apply (append6_value v Hv).
  destruct (frac6_end_spec buf 6 ltac:(cbn [length buf]; lia)) as [He Hf].
  split; [by apply forallb_take_drop|]. unfold frac_value, Zlen.
  rewrite length_take, Nat.min_l by (cbn [length buf]; lia).
  replace (6 - Z.of_nat (frac6_end buf 6)) with (Z.of_nat (6 - frac6_end buf 6)) by lia.
  rewrite Hf. exact Hb.
Qed.

Lemma AppendInt_shape z : ∃ ds,
  AppendInt [] z = (if z <? 0 then ["-"%byte] else []) ++ ds ∧
  forallb is_digit ds = true ∧ ds ≠ [] ∧ dec_value ds = Z.abs z.
Proof.
  exists (digit_char <$> digits 10 (Z.abs z)). unfold AppendInt, AppendUintBase.
  destruct (digits_cons 10 (Z.abs z)) as (d & l & E & _); [lia..|].
  split; [destruct (Z.ltb_spec z 0); by rewrite ?Z.abs_neq, ?Z.abs_eq by lia|].
  split; [apply digits_forallb; lia|]. split; [by rewrite E|]. apply dec_value_digits. lia.
Qed.

Lemma strip_neg_int z r : ∃ ds,
  strip_neg (AppendInt [] z ++ r) = (z <? 0, ds ++ r) ∧
  forallb is_digit ds = true ∧ ds ≠ [] ∧ with_sign (z <? 0) (dec_value ds) = z ∧ dec_value ds = Z.abs z.
Proof.
  destruct (AppendInt_shape z) as (ds & -> & Hd & Hne & Hv). exists ds.
  split; [|split; [done|]; split; [done|]; split; [|done]].
  - destruct (z <? 0); [done|]. destruct ds as [|c ds]; [done|]. cbn in *.
    apply andb_prop in Hd as [Hc _]. apply is_digit_not in Hc as [Hc _].
    unfold is_sign in Hc. apply orb_false_elim in Hc as [-> _]. done.
  - rewrite Hv. unfold with_sign. destruct (Z.ltb_spec z 0); lia.
Qed.

Definition opt_field (z : Z) (c : byte) (r : bytes) : bytes :=
  if z =? 0 then r else AppendInt [] z ++ c :: r.

Lemma field_read u z r : is_digit u = false → field u (AppendInt [] z ++ u :: r) = (z, r).
Proof.
  intros Hu. unfold field. destruct (strip_neg_int z (u :: r)) as (ds & -> & Hd & Hne & Hv & _).
  rewrite span_digits_app by done. destruct ds; [done|]. by rewrite beq_refl, Hv.
Qed.

Lemma field_skip u c z r : is_digit c = false → c ≠ u →
  field u (AppendInt [] z ++ c :: r) = (0, AppendInt [] z ++ c :: r).
Proof.
  intros Hc Hne'. unfold field. destruct (strip_neg_int z (c :: r)) as (ds & -> & Hd & Hne & _).
  rewrite span_digits_app by done. destruct ds; [done|]. apply beq_false in Hne'. by rewrite Hne'.
Qed.

Lemma field_none u c r : is_digit c = false → c ≠ "-"%byte → field u (c :: r) = (0, c :: r).
Proof.
  intros Hc Hne. unfold field, strip_neg. apply beq_false in Hne. rewrite Hne. simpl. by rewrite Hc.
Qed.

Lemma field_opt u z r : is_digit u = false → field u r = (0, r) → field u (opt_field z u r) = (z, r).
Proof.
  intros Hu Hr. unfold opt_field. destruct (Z.eqb_spec z 0) as [->|]; [done|]. by apply field_read.
Qed.

Lemma field_opt_ne u c z r : is_digit c = false → c ≠ u → field u r = (0, r) →
  field u (opt_field z c r) = (0, opt_field z c r).
Proof. intros. unfold opt_field. destruct (z =? 0); [done|]. by apply field_skip. Qed.

Definition sec_text (secs frac : Z) (r : bytes) : bytes :=
  if (secs =? 0) && (frac =? 0) then r
  else AppendInt [] secs ++ (if frac =? 0 then [] else "."%byte :: appendFrac6 [] frac) ++ "S"%byte :: r.

Lemma sec_text_field u secs frac r : u ≠ "."%byte → u ≠ "S"%byte → field u r = (0, r) →
  field u (sec_text secs frac r) = (0, sec_text secs frac r).
Proof.
  intros H1 H2 Hr. unfold sec_text. destruct (_ && _); [done|].
  destruct (frac =? 0); cbn [app]; by apply field_skip.
Qed.

Lemma sec_text_read secs frac r : sec_field r = (0, r) → - 1000000 < frac < 1000000 →
  (0 <= secs ∧ 0 <= frac) ∨ (secs < 0 ∧ frac <= 0) →
  sec_field (sec_text secs frac r) = (secs * 1000000 + frac, r).
Proof.
  intros Hr Hf Hs. unfold sec_text.
  destruct (Z.eqb_spec secs 0) as [E1|E1], (Z.eqb_spec frac 0) as [E2|E2]; cbn [andb app];
    [subst; done|..]; unfold sec_field;
    match goal with |- context [AppendInt [] secs ++ ?k] =>
      destruct (strip_neg_int secs k) as (ds & -> & Hd & Hne & Hv & Ha) end;
    rewrite span_digits_app by done; (destruct ds as [|d0 ds]; [done|]); cbn [app].
  2:{ change (beq "S"%byte "S"%byte) with true. cbn iota. f_equal. rewrite Ha.
      unfold with_sign. destruct (Z.ltb_spec secs 0); lia. }
  all: change (beq "."%byte "S"%byte) with false; change (beq "."%byte "."%byte) with true; cbn iota;
    destruct (appendFrac6_spec frac Hf) as [Hfd Hfv];
    rewrite span_digits_app by done; change (beq "S"%byte "S"%byte) with true; cbn iota;
    rewrite Hfv, Ha; f_equal; unfold with_sign; destruct (Z.ltb_spec secs 0); lia.
Qed.

Definition time_text (micros : Z) (r : bytes) : bytes :=
  if micros =? 0 then r
  else
    let hours := micros ÷ 3600000000 in
    let m1 := micros - hours * 3600000000 in
    let mins := m1 ÷ 60000000 in
    let m2 := m1 - mins * 60000000 in
    let secs := m2 ÷ 1000000 in
    "T"%byte :: opt_field hours "H"%byte (opt_field mins "M"%byte (sec_text secs (m2 - secs * 1000000) r)).

(** The source appends each optional part to what is already written. *)
Definition opt_part (z : Z) (c : byte) : bytes := if z =? 0 then [] else AppendInt [] z ++ [c].

Lemma opt_dst dst z c : (if z =? 0 then dst else AppendInt dst z ++ [c]) = dst ++ opt_part z c.
Proof. unfold opt_part. destruct (z =? 0); by rewrite ?app_nil_r, 1?AppendInt_app, <- ?app_assoc. Qed.

Lemma opt_field_app z c r : opt_field z c r = opt_part z c ++ r.
Proof. unfold opt_field, opt_part. destruct (z =? 0); by rewrite <- ?app_assoc. Qed.

Lemma sec_text_app secs frac r : sec_text secs frac r = sec_text secs frac [] ++ r.
Proof. unfold sec_text. destruct (_ && _); [done|]. by rewrite <- !app_assoc. Qed.

Lemma sec_dst dst secs frac :
  (if (secs =? 0) && (frac =? 0) then dst
   else (if frac =? 0 then AppendInt dst secs else appendFrac6 (AppendInt dst secs ++ ["."%byte]) frac) ++ ["S"%byte])
  = dst ++ sec_text secs frac [].
Proof.
  unfold sec_text. destruct (_ && _); [by rewrite app_nil_r|].
  destruct (frac =? 0); rewrite 1?appendFrac6_app, AppendInt_app, <- !app_assoc; done.
Qed.

(** The text of a nonzero interval, field by field. *)
Lemma interval_text dst micros days months :
  - 2 ^ 63 <= micros < 2 ^ 63 → - 2 ^ 31 <= days < 2 ^ 31 → - 2 ^ 31 <= months < 2 ^ 31 →
  encodeIntervalBinary dst (Some (interval_wire micros days months)) =
  dst ++ dquote :: "P"%byte ::
    (if (months =? 0) && (days =? 0) && (micros =? 0) then str "T0S" ++ [dquote]
     else opt_field (months ÷ 12) "Y"%byte (opt_field (months - months ÷ 12 * 12) "M"%byte
            (opt_field days "D"%byte (time_text micros [dquote])))).
Proof.
  intros H1 H2 H3. unfold encodeIntervalBinary. set (raw := interval_wire micros days months).
  assert (Zlen raw = 16) as -> by done. cbn [negb Z.eqb Pos.eqb].
  change (slice 0 8 raw) with (be_put 8 micros). change (slice 8 12 raw) with (be_put 4 days).
  change (slice 12 16 raw) with (be_put 4 months).
  rewrite int64_get_put, !int32_get_put. unfold int64, int32. rewrite !wraps_small by lia.
  assert ((months ÷ 12 =? 0) && (months - months ÷ 12 * 12 =? 0) = (months =? 0)) as ->.
  { destruct (Z.eqb_spec (months ÷ 12) 0), (Z.eqb_spec (months - months ÷ 12 * 12) 0), (Z.eqb_spec months 0);
      simpl; try done; Z.quot_rem_to_equations; lia. }
  destruct ((months =? 0) && (days =? 0) && (micros =? 0)); [done|].
  rewrite !opt_field_app. unfold time_text. cbv zeta. rewrite !opt_dst. destruct (micros =? 0).
  - rewrite <- !app_assoc. done.
  - rewrite sec_dst, ?opt_field_app, (sec_text_app _ _ [dquote]). rewrite <- !app_assoc. done.
Qed.

(** An interval whose seconds part is not strictly between -1 s and 0 is
    written as an ISO duration that reads back to the same months, days and
    microseconds. *)
Theorem interval_roundtrip (dst : bytes) (micros days months : Z)
  (Hmi : - 2 ^ 63 <= micros < 2 ^ 63) (Hd : - 2 ^ 31 <= days < 2 ^ 31)
  (Hmo : - 2 ^ 31 <= months < 2 ^ 31)
  (Hsec : Z.rem micros 60000000 <= - 1000000 ∨ 0 <= Z.rem micros 60000000) :
  ∃ body, encodeIntervalBinary dst (Some (interval_wire micros days months)) =
            dst ++ dquote :: "P"%byte :: body ∧
          parse_duration body = (months, days, micros, [dquote]).
Proof.
  rewrite interval_text by done. eexists; split; [done|].
  destruct ((months =? 0) && (days =? 0) && (micros =? 0)) eqn:E0.
  { rewrite !andb_true_iff, !Z.eqb_eq in E0. destruct E0 as [[-> ->] ->]. reflexivity. }
  assert (∀ u, field u (time_text micros [dquote]) = (0, time_text micros [dquote])) as Ht.
  { intros u. unfold time_text. destruct (micros =? 0); by apply field_none. }
  unfold parse_duration.
  rewrite field_opt; [|done|do 2 (apply field_opt_ne; [done..|]); apply Ht].
  rewrite field_opt; [|done|apply field_opt_ne; [done..|]; apply Ht].
  rewrite field_opt; [|done|apply Ht].
  replace (12 * (months ÷ 12) + (months - months ÷ 12 * 12)) with months by lia. unfold time_text at 1.
  destruct (Z.eqb_spec micros 0) as [->|Hne].
  { done. }
  change (beq "T"%byte "T"%byte) with true. cbv zeta iota.
  rewrite field_opt; [|done|apply field_opt_ne; [done..|]; by apply sec_text_field].
  rewrite field_opt; [|done|by apply sec_text_field].
  rewrite sec_text_read by (try done; Z.quot_rem_to_equations; lia).
  do 2 f_equal. lia.
Qed.

Lemma interval_roundtrip_witness :
  ∃ body, encodeIntervalBinary [] (Some (interval_wire (-3723500000) 3 (-14))) =
            [] ++ dquote :: "P"%byte :: body ∧
          parse_duration body = (-14, 3, -3723500000, [dquote]).
Proof. apply interval_roundtrip; vm_compute; [split; [discriminate|reflexivity]..|left; discriminate]. Defined.

(** The sign of an interval between -1 s and 0 is lost: it is written as
    its positive counterpart, for every such number of microseconds. *)
Theorem interval_subsecond_sign_lost (dst : bytes) (micros : Z) (H : - 1000000 < micros < 0) :
  encodeIntervalBinary dst (Some (interval_wire micros 0 0)) =
  encodeIntervalBinary dst (Some (interval_wire (- micros) 0 0)).
Proof.
  rewrite !interval_text by lia. cbn [Z.eqb andb].
  destruct (Z.eqb_spec micros 0), (Z.eqb_spec (- micros) 0); try lia.
  do 3 f_equal. unfold time_text. destruct (Z.eqb_spec micros 0), (Z.eqb_spec (- micros) 0); try lia.
  cbv zeta.
  assert (∀ x, - 1000000 < x < 1000000 → x ÷ 3600000000 = 0 ∧ x ÷ 60000000 = 0 ∧ x ÷ 1000000 = 0) as Hq
    by (intros x Hx; Z.quot_rem_to_equations; lia).
  destruct (Hq micros ltac:(lia)) as (-> & H1 & H2), (Hq (- micros) ltac:(lia)) as (-> & H3 & H4).
  rewrite !Z.mul_0_l, !Z.sub_0_r, H1, H3, !Z.mul_0_l, !Z.sub_0_r, H2, H4, !Z.mul_0_l, !Z.sub_0_r.
  do 3 f_equal. unfold sec_text. cbn [Z.eqb andb].
  destruct (Z.eqb_spec micros 0), (Z.eqb_spec (- micros) 0); try lia.
  do 3 f_equal. unfold appendFrac6. destruct (Z.ltb_spec micros 0), (Z.ltb_spec (- micros) 0); try lia. done.
Qed.

Lemma interval_subsecond_sign_lost_witness :
  encodeIntervalBinary [] (Some (interval_wire (-500000) 0 0)) =
  encodeIntervalBinary [] (Some (interval_wire 500000 0 0)).
Proof. apply (interval_subsecond_sign_lost [] (-500000)). lia. Defined.

Lemma appendTimeOfDay_read dst usec r : 0 <= usec < 360000000000 →
  match r with c :: _ => is_digit c = false ∧ c ≠ "."%byte | [] => True end →
  ∃ body, appendTimeOfDay dst usec = dst ++ body ∧ parse_time (body ++ r) = (usec, r).
Proof.
  intros Hu Hr. unfold appendTimeOfDay. destruct (Z.ltb_spec usec 0); [lia|]. cbv zeta.
  set (h := usec ÷ 3600000000). set (u1 := usec - h * 3600000000).
  set (m := u1 ÷ 60000000). set (u2 := u1 - m * 60000000). set (s := u2 ÷ 1000000). set (f := u2 - s * 1000000).
  assert (0 <= h < 100 ∧ 0 <= m < 60 ∧ 0 <= s < 60 ∧ 0 <= f < 1000000 ∧
    usec = (h * 3600 + m * 60 + s) * 1000000 + f) as (Hh & Hm & Hs & Hf & E).
  { unfold f, s, u2, m, u1, h. Z.quot_rem_to_equations. lia. }
  clearbody h m s f. clear u1 u2.
  pose proof (append2_value h ltac:(lia)) as Eh. pose proof (append2_value m ltac:(lia)) as Em.
  pose proof (append2_value s ltac:(lia)) as Es. unfold append2 in *. rewrite app_nil_l in *.
  destruct (Z.eqb_spec f 0) as [->|Hf0].
  - eexists; split; [rewrite <- !app_assoc; reflexivity|].
    unfold parse_time, slice. cbn [app take drop Nat.sub]. rewrite ?take_0, ?drop_0, Eh, Em, Es.
    destruct r as [|c r]; [f_equal; lia|]. destruct Hr as [_ Hr%beq_false]. rewrite Hr. f_equal. lia.
  - destruct (appendFrac6_spec f ltac:(lia)) as [Hd Hv]. rewrite appendFrac6_app.
    eexists; split; [rewrite <- !app_assoc; reflexivity|].
    unfold parse_time, slice. cbn [app take drop Nat.sub]. rewrite ?take_0, ?drop_0, Eh, Em, Es.
    change (beq "."%byte "."%byte) with true. cbn iota.
    rewrite span_digits_app by (done || (destruct r as [|c r]; [done|apply Hr])). rewrite Hv. f_equal. lia.
Qed.

(** A time with time zone is written as the time of day it carries, to the
    microsecond, followed by the zone's offset east of UTC in whole minutes
    rounded towards zero: the seconds of the zone are dropped. *)
Theorem timetz_roundtrip (dst : bytes) (usec west : Z)
  (Hu : 0 <= usec < 360000000000) (Hw : - 360000 < west < 360000) :
  ∃ body zone, encodeTimeTZBinary dst (Some (be_put 8 usec ++ be_put 4 west)) = dst ++ dquote :: body ∧
    parse_time body = (usec, zone) ∧ parse_zone zone = (- west ÷ 60, [dquote]).
Proof.
  unfold encodeTimeTZBinary. set (raw := be_put 8 usec ++ be_put 4 west).
  change (Zlen raw) with 12. cbn [Z.eqb Pos.eqb negb].
  change (slice 0 8 raw) with (be_put 8 usec). change (slice 8 12 raw) with (be_put 4 west).
  rewrite int64_get_put, int32_get_put. unfold int64, int32.
  rewrite (wraps_small 64), (wraps_small 32 west), (wraps_small 32 (- west)) by lia.
  set (z := Z.abs west).
  assert (0 <= z ÷ 3600 < 100 ∧ 0 <= Z.rem z 3600 ÷ 60 < 60 ∧
    z ÷ 3600 * 60 + Z.rem z 3600 ÷ 60 = z ÷ 60) as (Hh & Hm & Ez)
    by (unfold z in *; Z.quot_rem_to_equations; lia).
  pose proof (append2_value (z ÷ 3600) Hh) as Eh.
  pose proof (append2_value (Z.rem z 3600 ÷ 60) ltac:(lia)) as Em.
  assert (∀ c, is_digit c = false ∧ c ≠ "."%byte → ∃ body zone,
    append2 (append2 (appendTimeOfDay (dst ++ [dquote]) usec ++ [c]) (z ÷ 3600) ++ [":"%byte])
      (Z.rem z 3600 ÷ 60) ++ [dquote] = dst ++ dquote :: body ∧
    parse_time body = (usec, zone) ∧
    parse_zone zone = (if beq c "-"%byte then - (z ÷ 60) else z ÷ 60, [dquote])) as H.
  { intros c Hc.
    destruct (appendTimeOfDay_read (dst ++ [dquote]) usec
      (c :: append2 [] (z ÷ 3600) ++ ":"%byte :: append2 [] (Z.rem z 3600 ÷ 60) ++ [dquote]) Hu Hc)
      as (body & -> & Hp).
    eexists _, _. split; [|split; [exact Hp|]].
    - unfold append2. rewrite <- !app_assoc. done.
    - unfold append2 in *. rewrite !app_nil_l in *. unfold parse_zone, slice. cbn [app take drop Nat.sub].
      rewrite ?take_0, ?drop_0, Eh, Em, Ez. done. }
  destruct (Z.leb_spec 0 (- west)).
  - destruct (H "+"%byte) as (body & zone & H1 & H2 & H3); [done|]. exists body, zone.
    replace (- west) with z by (unfold z; lia). rewrite H3. done.
  - destruct (H "-"%byte) as (body & zone & H1 & H2 & H3); [done|]. exists body, zone.
    rewrite (wraps_small 32) by lia. replace (- - west) with z by (unfold z; lia).
    rewrite H3. replace (- west ÷ 60) with (- (z ÷ 60)) by (unfold z; Z.quot_rem_to_equations; lia). done.
Qed.

Lemma timetz_roundtrip_witness :
  ∃ body zone, encodeTimeTZBinary [] (Some (be_put 8 3661500000 ++ be_put 4 (-19815))) = [] ++ dquote :: body ∧
    parse_time body = (3661500000, zone) ∧ parse_zone zone = (330, [dquote]).
Proof. apply (timetz_roundtrip [] 3661500000 (-19815)); lia. Defined.
