(* ===== verification/Encoders.v ===== *)
(** internal/types: the text encoders (encoder.go, bytea.go, uuid.go,
    jsonpass.go), the binary scalar encoders (binary.go), the binary array
    encoder (array.go), and the tables Pick and PickBinaryEx that choose among
    them.  The contract of an encoder (encoder.go: "raw == nil means SQL NULL",
    "the returned slice is dst with the cell appended") is the class
    [AppendEncoder]; that what it appends is one JSON value is [JsonEncoder]. *)
From S2P Require Import Prelude Protocol JsonWriter JsonGrammar Float Calendar Numeric Interval.

Definition Encoder : Type := bytes → option bytes → bytes.

Definition quoted (dst s : bytes) : bytes := dst ++ [dquote] ++ s ++ [dquote].

(** ** encoder.go *)

Definition EncodeString (dst : bytes) (raw : option bytes) : bytes :=
  match raw with None => AppendNull dst | Some raw => AppendStringBytes dst raw end.

Definition appendHexBytes (dst src : bytes) : bytes :=
  dst ++ concat ((λ b, [hexdig (Z.shiftr (byteZ b) 4); hexdig (Z.land (byteZ b) 15)]) <$> src).

Definition EncodeOpaqueBinary (dst : bytes) (raw : option bytes) : bytes :=
  match raw with
  | None => AppendNull dst
  | Some raw => appendHexBytes (dst ++ [dquote; bslash; bslash; "x"%byte]) raw ++ [dquote]
  end.

Definition EncodeQuotedASCII (dst : bytes) (raw : option bytes) : bytes :=
  match raw with
  | None => AppendNull dst
  | Some raw =>
      if existsb (λ c, (byteZ c <? 32) || beq c dquote || beq c bslash) raw
      then AppendStringBytes dst raw
      else quoted dst raw
  end.

(** ** bytea.go, uuid.go, jsonpass.go *)

Definition EncodeBytea (dst : bytes) (raw : option bytes) : bytes :=
  match raw with
  | None => AppendNull dst
  | Some raw =>
      match raw with
      | a :: b :: r =>
          if beq a bslash && beq b "x"%byte
          then (dst ++ [dquote; bslash; bslash; "x"%byte]) ++ r ++ [dquote]
          else AppendStringBytes dst raw
      | _ => AppendStringBytes dst raw
      end
  end.

Definition EncodeUUID (dst : bytes) (raw : option bytes) : bytes :=
  match raw with
  | None => AppendNull dst
  | Some raw => if negb (Zlen raw =? 36) then AppendStringBytes dst raw else quoted dst raw
  end.

Definition EncodeJSONPassthrough (dst : bytes) (raw : option bytes) : bytes :=
  match raw with
  | None => AppendNull dst
  | Some raw => match raw with [] => dst ++ [dquote; dquote] | _ => dst ++ raw end
  end.

Definition Pick (oid : OID) : Encoder :=
  if oid =? OIDBool then EncodeBool
  else if oid_in oid [OIDInt2; OIDInt4; OIDInt8; OIDOID] then EncodeInt
  else if oid_in oid [OIDFloat4; OIDFloat8] then EncodeFloat
  else if oid =? OIDNumeric then EncodeNumeric
  else if oid_in oid [OIDJSON; OIDJSONB] then EncodeJSONPassthrough
  else if oid =? OIDBytea then EncodeBytea
  else if oid =? OIDUUID then EncodeUUID
  else if oid_in oid [OIDDate; OIDTime; OIDTimeTZ; OIDTimestamp; OIDTimestampTZ; OIDInterval]
  then EncodeQuotedASCII
  else EncodeString.

(** ** binary.go *)

(** The guards shared by the fixed-width encoders: NULL, then the length. *)
Definition fixed_width (n : Z) (f : bytes → bytes → bytes) : Encoder := λ dst raw,
  match raw with
  | None => AppendNull dst
  | Some raw => if negb (Zlen raw =? n) then AppendStringBytes dst raw else f dst raw
  end.

Definition encodeBoolBinary (dst : bytes) (raw : option bytes) : bytes :=
  match raw with
  | None => AppendNull dst
  | Some raw =>
      match raw with
      | [c] => if negb (beq c x00) then AppendBool dst true else AppendBool dst false
      | _ => AppendBool dst false
      end
  end.

Definition encodeInt2Binary : Encoder := fixed_width 2 (λ dst raw, AppendInt dst (int16 (be_get raw))).
Definition encodeInt4Binary : Encoder := fixed_width 4 (λ dst raw, AppendInt dst (int32 (be_get raw))).
Definition encodeInt8Binary : Encoder := fixed_width 8 (λ dst raw, AppendInt dst (int64 (be_get raw))).

Definition appendNonFiniteFloat (dst : bytes) (nan neg : bool) : bytes :=
  if nan then quoted dst (str "NaN")
  else if negb neg then quoted dst (str "Infinity")
  else quoted dst (str "-Infinity").

Definition encodeFloatBits (fl : float_layout) (dst : bytes) (bits : Z) : bytes :=
  if IsNaN fl bits || IsInf fl bits then appendNonFiniteFloat dst (IsNaN fl bits) (f_neg fl bits)
  else AppendFloat fl dst bits.
Definition encodeFloat4Binary : Encoder := fixed_width 4 (λ dst raw, encodeFloatBits f32 dst (be_get raw)).
Definition encodeFloat8Binary : Encoder := fixed_width 8 (λ dst raw, encodeFloatBits f64 dst (be_get raw)).

Definition encodeUUIDBinary : Encoder := fixed_width 16 (λ dst raw,
  let dst := dst ++ [dquote] in
  let dst := appendHexBytes dst (slice 0 4 raw) ++ ["-"%byte] in
  let dst := appendHexBytes dst (slice 4 6 raw) ++ ["-"%byte] in
  let dst := appendHexBytes dst (slice 6 8 raw) ++ ["-"%byte] in
  let dst := appendHexBytes dst (slice 8 10 raw) ++ ["-"%byte] in
  appendHexBytes dst (slice 10 16 raw) ++ [dquote]).

Definition encodeByteaBinary (dst : bytes) (raw : option bytes) : bytes :=
  match raw with
  | None => AppendNull dst
  | Some raw => appendHexBytes (dst ++ [dquote; bslash; bslash; "x"%byte]) raw ++ [dquote]
  end.

Definition encodeJSONBBinary (dst : bytes) (raw : option bytes) : bytes :=
  match raw with
  | None => AppendNull dst
  | Some raw =>
      match raw with
      | [] => dst ++ [dquote; dquote]
      | c :: r => if negb (beq c x01) then AppendStringBytes dst raw else dst ++ r
      end
  end.

Definition encodeTimestampWith (tz : bytes) : Encoder := fixed_width 8 (λ dst raw,
  let usec := int64 (be_get raw) in
  if usec =? 2 ^ 63 - 1 then quoted dst (str "infinity")
  else if usec =? - 2 ^ 63 then quoted dst (str "-infinity")
  else appendISOTimestamp (dst ++ [dquote]) usec tz ++ [dquote]).
Definition encodeTimestampBinary : Encoder := encodeTimestampWith [].
Definition encodeTimestampTZBinary : Encoder := encodeTimestampWith (str "Z").

Definition encodeDateBinary : Encoder := fixed_width 4 (λ dst raw,
  let days := int32 (be_get raw) in
  if days =? 2 ^ 31 - 1 then quoted dst (str "infinity")
  else if days =? - 2 ^ 31 then quoted dst (str "-infinity")
  else appendISODateOnly (dst ++ [dquote]) (days * usecPerDay) ++ [dquote]).

(** ** array.go *)

(** One iteration of the leaf branch of appendArrayDim on [body[consumed:]]:
    the new destination, the bytes it read, and ok. *)
Definition array_leaf (elemEnc : Encoder) (dst rest : bytes) : bytes * nat * bool :=
  if Zlen rest <? 4 then (dst, 0%nat, false)
  else
    let elemLen := int32 (be_get (take 4 rest)) in
    if elemLen <? 0 then (AppendNull dst, 4%nat, true)
    else if Zlen rest - 4 <? elemLen then (dst, 4%nat, false)
    else (elemEnc dst (Some (slice 4 (4 + Z.to_nat elemLen) rest)), (4 + Z.to_nat elemLen)%nat, true).

(** [for i := 0; i < size; i++], the body of the iteration being [step]. *)
Fixpoint array_loop (step : bytes → bytes → bytes * nat * bool) (n i : nat)
    (dst body : bytes) (consumed : nat) : bytes * nat * bool :=
  match n with
  | O => (dst ++ ["]"%byte], consumed, true)
  | S n =>
      let dst := if (0 <? i)%nat then dst ++ [","%byte] else dst in
      let '(dst, k, ok) := step dst (drop consumed body) in
      if ok then array_loop step n (S i) dst body (consumed + k)
      else (dst, (consumed + k)%nat, false)
  end.

(** [dims] is the suffix [dims[depth:]] of the source's slice. *)
Fixpoint appendArrayDim (elemEnc : Encoder) (dims : list Z) (dst body : bytes) : bytes * nat * bool :=
  match dims with
  | [] => (dst, 0%nat, false)
  | size :: inner =>
      array_loop (match inner with [] => array_leaf elemEnc | _ => appendArrayDim elemEnc inner end)
        (Z.to_nat size) 0 (dst ++ ["["%byte]) body 0
  end.

(** The loop reading the dimension sizes: [None] when one is negative.  Its
    offsets, int32 in the source, do not wrap: they are below the length of a
    message, which is at most 256 MiB. *)
Fixpoint array_dims (n : nat) (hdr : bytes) : option (list Z) :=
  match n with
  | O => Some []
  | S n =>
      let d := int32 (be_get (take 4 hdr)) in
      if d <? 0 then None else cons d <$> array_dims n (drop 8 hdr)
  end.

(** The closure built by makeArrayBinaryEncoder around a non-nil [elemEnc].
    [dst, _, ok := appendArrayDim(dst, ...)] assigns the parameter [dst], so
    the fallback appends to whatever the recursion had already written. *)
Definition arrayEncoder (elemEnc : Encoder) : Encoder := λ dst raw,
  match raw with
  | None => AppendNull dst
  | Some raw =>
      if Zlen raw <? 12 then AppendStringBytes dst raw
      else
        let ndim := int32 (be_get (slice 0 4 raw)) in
        if ndim <=? 0 then dst ++ ["["%byte; "]"%byte]
        else
          let hdrEnd := 12 + ndim * 8 in
          if Zlen raw <? hdrEnd then AppendStringBytes dst raw
          else
            match array_dims (Z.to_nat ndim) (drop 12 raw) with
            | None => AppendStringBytes dst raw
            | Some dims =>
                let body := drop (Z.to_nat hdrEnd) raw in
                let '(dst, _, ok) := appendArrayDim elemEnc dims dst body in
                if negb ok then AppendStringBytes dst raw else dst
            end
  end.

(** ** The binary table.  The [switch] of PickBinaryEx, then the array case,
    which looks the element up with PickBinary (no element is an array). *)
Definition pickScalarBinary (oid : OID) (binaryNumeric : bool) : option Encoder :=
  if oid =? OIDBool then Some encodeBoolBinary
  else if oid =? OIDInt2 then Some encodeInt2Binary
  else if oid_in oid [OIDInt4; OIDOID] then Some encodeInt4Binary
  else if oid =? OIDInt8 then Some encodeInt8Binary
  else if oid =? OIDFloat4 then Some encodeFloat4Binary
  else if oid =? OIDFloat8 then Some encodeFloat8Binary
  else if oid =? OIDUUID then Some encodeUUIDBinary
  else if oid =? OIDTimestamp then Some encodeTimestampBinary
  else if oid =? OIDTimestampTZ then Some encodeTimestampTZBinary
  else if oid =? OIDDate then Some encodeDateBinary
  else if oid =? OIDJSONB then Some encodeJSONBBinary
  else if oid =? OIDJSON then Some EncodeJSONPassthrough
  else if oid =? OIDInterval then Some encodeIntervalBinary
  else if oid =? OIDTime then Some encodeTimeBinary
  else if oid =? OIDTimeTZ then Some encodeTimeTZBinary
  else if oid =? OIDNumeric then (if binaryNumeric then Some EncodeNumericBinary else None)
  else if oid_in oid [OIDInt4Range; OIDInt8Range; OIDNumRange; OIDTsRange; OIDTsTzRange; OIDDateRange]
  then Some EncodeString
  else if oid_in oid [OIDText; OIDVarchar; OIDBPChar; OIDName; OIDBytea] then
    (if oid =? OIDBytea then Some encodeByteaBinary else Some EncodeString)
  else None.

Definition makeArrayBinaryEncoder (elemOID : OID) : option Encoder :=
  match pickScalarBinary elemOID false with None => None | Some e => Some (arrayEncoder e) end.

Definition PickBinaryEx (oid : OID) (binaryNumeric : bool) : option Encoder :=
  match pickScalarBinary oid binaryNumeric with
  | Some e => Some e
  | None =>
      if oid =? OIDNumeric then None
      else let elem := ArrayElem oid in
           if negb (elem =? 0) then makeArrayBinaryEncoder elem else None
  end.
Definition PickBinary (oid : OID) : option Encoder := PickBinaryEx oid false.
Definition is_some {A} (o : option A) : bool := match o with Some _ => true | None => false end.
Definition HasBinary (oid : OID) : bool := is_some (PickBinary oid).
Definition HasBinaryEx (oid : OID) (binaryNumeric : bool) : bool := is_some (PickBinaryEx oid binaryNumeric).

(** ** Interfaces *)

Class AppendEncoder (e : Encoder) : Prop := {
  enc_null dst : e dst None = dst ++ str "null";
  enc_app dst raw : e dst raw = dst ++ e [] raw
}.

(** What the encoder appends is one JSON value, for every cell. *)
Class JsonEncoder (e : Encoder) : Prop := {
  #[global] json_append :: AppendEncoder e;
  enc_json raw : jvalue (e [] (Some raw))
}.

(** OIDs whose binary form is not itself JSON text trusted from the server
    and not a time of day (whose hour field is written unchecked). *)
Definition strict_oid (o : OID) : bool :=
  negb (oid_in o [OIDJSON; OIDJSONB; OIDTime; OIDTimeTZ]) && (ArrayElem o =? 0).

(** ** Specification of the array wire format *)

(** A rectangular array of cells, [None] being SQL NULL. *)
#[warnings="-register-all"]
Inductive tree :=
| Leaf (cell : option bytes)
| Node (l : list tree).

Fixpoint shaped (dims : list Z) (t : tree) : Prop :=
  match dims, t with
  | [], Leaf None => True
  | [], Leaf (Some b) => Zlen b < 2 ^ 31
  | d :: dims, Node l => Zlen l = d ∧ foldr (λ t P, shaped dims t ∧ P) True l
  | _, _ => False
  end.

Fixpoint tree_wire (t : tree) : bytes :=
  match t with
  | Leaf None => be_put 4 (-1)
  | Leaf (Some b) => be_put 4 (Zlen b) ++ b
  | Node l => concat (map tree_wire l)
  end.

(** The JSON text the array should be rendered as. *)
Fixpoint tree_json (e : Encoder) (t : tree) : bytes :=
  match t with
  | Leaf c => e [] c
  | Node l => "["%byte :: join [","%byte] (map (tree_json e) l) ++ ["]"%byte]
  end.

Definition array_wire (flags elemOID : Z) (dims : list Z) (t : tree) : bytes :=
  be_put 4 (Zlen dims) ++ be_put 4 flags ++ be_put 4 elemOID ++
  concat (map (λ d, be_put 4 d ++ be_put 4 1) dims) ++ tree_wire t.

(** ** Lemmas: every encoder appends *)

Create Rewrite HintDb pgz_app.
#[global] Hint Rewrite <- @app_assoc : pgz_app.
#[global] Hint Rewrite AppendStringBytes_escape AppendString_escape : pgz_app.

(** Closes [f dst raw = dst ++ f [] raw] once the branches are split. *)
Ltac app_done := autorewrite with pgz_app; rewrite ?app_nil_l; try reflexivity; try done.

Lemma AppendBool_app dst v : AppendBool dst v = dst ++ AppendBool [] v.
Proof. by destruct v. Qed.
Lemma appendHexBytes_app dst l : appendHexBytes dst l = dst ++ appendHexBytes [] l.
Proof. done. Qed.
Lemma AppendStringBytes_app dst s : AppendStringBytes dst s = dst ++ AppendStringBytes [] s.
Proof. app_done. Qed.

Lemma fixed_width_append n f : (∀ dst raw, f dst raw = dst ++ f [] raw) → AppendEncoder (fixed_width n f).
Proof.
  intros H. split; [done|]. intros dst [raw|]; [|done]. unfold fixed_width.
  destruct (negb _); [apply AppendStringBytes_app|apply H].
Qed.

Lemma numeric_int_loop_app n i dst body nd :
  numeric_int_loop n i dst body nd = dst ++ numeric_int_loop n i [] body nd.
Proof.
  revert i dst. induction n as [|n IH]; intros i dst; simpl; [by rewrite app_nil_r|].
  rewrite IH, (IH _ (appendNumericPad4 [] _)). unfold appendNumericPad4. app_done.
Qed.
Lemma numeric_frac_loop_app n p dst body nd w :
  numeric_frac_loop n p dst body nd w = dst ++ numeric_frac_loop n p [] body nd w.
Proof.
  revert p dst. induction n as [|n IH]; intros i dst; simpl; [by rewrite app_nil_r|].
  rewrite IH, (IH _ [_]). app_done.
Qed.
(** Move what is already written to the front of every append. *)
Ltac app_out :=
  repeat match goal with
  | |- context [append2 ?d ?v] => lazymatch d with [] => fail | _ => rewrite (append2_app d v) end
  | |- context [append6 ?d ?v] => lazymatch d with [] => fail | _ => rewrite (append6_app d v) end
  | |- context [appendInt4 ?d ?v] => lazymatch d with [] => fail | _ => rewrite (appendInt4_app d v) end
  | |- context [appendFrac6 ?d ?v] => lazymatch d with [] => fail | _ => rewrite (appendFrac6_app d v) end
  | |- context [AppendInt ?d ?v] => lazymatch d with [] => fail | _ => rewrite (AppendInt_app d v) end
  | |- context [numeric_int_loop _ _ ?d _ _] =>
      lazymatch d with [] => fail | _ => rewrite (numeric_int_loop_app _ _ d) end
  | |- context [numeric_frac_loop _ _ ?d _ _ _] =>
      lazymatch d with [] => fail | _ => rewrite (numeric_frac_loop_app _ _ d) end
  | |- context [appendHexBytes ?d ?v] => lazymatch d with [] => fail | _ => rewrite (appendHexBytes_app d v) end
  end; autorewrite with pgz_app; rewrite ?app_nil_l; try done.

Lemma appendISOTimestamp_app dst usec tz : appendISOTimestamp dst usec tz = dst ++ appendISOTimestamp [] usec tz.
Proof.
  unfold appendISOTimestamp.
  destruct (if _ <? 0 then _ else _) as [sec frac]. destruct (splitTime sec) as [[[[[y mo] d] hh] mm] ss].
  destruct (frac =? 0); app_out.
Qed.
Lemma appendISODateOnly_app dst usec : appendISODateOnly dst usec = dst ++ appendISODateOnly [] usec.
Proof.
  unfold appendISODateOnly. destruct (splitTime _) as [[[[[y mo] d] hh] mm] ss]. app_out.
Qed.

Lemma appendTimeOfDay_app dst usec : appendTimeOfDay dst usec = dst ++ appendTimeOfDay [] usec.
Proof. unfold appendTimeOfDay. destruct (_ =? 0); app_out. Qed.

Lemma numeric_digits_app dst body nd w ds :
  numeric_digits dst body nd w ds = dst ++ numeric_digits [] body nd w ds.
Proof.
  unfold numeric_digits. destruct (w <? 0), (ds =? 0); app_out.
Qed.

(** Closes an [AppendEncoder] goal whose branches are all appends. *)
Ltac append_encoder :=
  split; [done|]; intros dst [raw|]; [|done]; simpl;
  repeat match goal with
  | |- context [if ?b then _ else _] => destruct b
  | |- context [match ?l with [] => _ | _ :: _ => _ end] => destruct l
  end; unfold AppendBool, quoted; app_out.

#[export] Instance EncodeString_append : AppendEncoder EncodeString.
Proof. append_encoder. Qed.
#[export] Instance EncodeOpaqueBinary_append : AppendEncoder EncodeOpaqueBinary.
Proof. append_encoder. Qed.
#[export] Instance EncodeQuotedASCII_append : AppendEncoder EncodeQuotedASCII.
Proof. append_encoder. Qed.
#[export] Instance EncodeBytea_append : AppendEncoder EncodeBytea.
Proof. append_encoder. Qed.
#[export] Instance EncodeUUID_append : AppendEncoder EncodeUUID.
Proof. append_encoder. Qed.
#[export] Instance EncodeJSONPassthrough_append : AppendEncoder EncodeJSONPassthrough.
Proof. append_encoder. Qed.
#[export] Instance EncodeBool_append : AppendEncoder EncodeBool.
Proof. append_encoder. Qed.
#[export] Instance EncodeInt_append : AppendEncoder EncodeInt.
Proof. append_encoder. Qed.
#[export] Instance EncodeFloat_append : AppendEncoder EncodeFloat.
Proof. append_encoder. Qed.
#[export] Instance EncodeNumeric_append : AppendEncoder EncodeNumeric.
Proof. append_encoder. Qed.
#[export] Instance encodeBoolBinary_append : AppendEncoder encodeBoolBinary.
Proof. append_encoder. Qed.
#[export] Instance encodeByteaBinary_append : AppendEncoder encodeByteaBinary.
Proof. append_encoder. Qed.
#[export] Instance encodeJSONBBinary_append : AppendEncoder encodeJSONBBinary.
Proof. append_encoder. Qed.
#[export] Instance encodeInt2Binary_append : AppendEncoder encodeInt2Binary.
Proof. apply fixed_width_append. intros. apply AppendInt_app. Qed.
#[export] Instance encodeInt4Binary_append : AppendEncoder encodeInt4Binary.
Proof. apply fixed_width_append. intros. apply AppendInt_app. Qed.
#[export] Instance encodeInt8Binary_append : AppendEncoder encodeInt8Binary.
Proof. apply fixed_width_append. intros. apply AppendInt_app. Qed.

Lemma encodeFloatBits_app fl dst bits : encodeFloatBits fl dst bits = dst ++ encodeFloatBits fl [] bits.
Proof. unfold encodeFloatBits, appendNonFiniteFloat, quoted. repeat case_match; done. Qed.
#[export] Instance encodeFloat4Binary_append : AppendEncoder encodeFloat4Binary.
Proof. apply fixed_width_append. intros. apply encodeFloatBits_app. Qed.
#[export] Instance encodeFloat8Binary_append : AppendEncoder encodeFloat8Binary.
Proof. apply fixed_width_append. intros. apply encodeFloatBits_app. Qed.
#[export] Instance encodeUUIDBinary_append : AppendEncoder encodeUUIDBinary.
Proof. apply fixed_width_append. intros. cbv zeta. unfold appendHexBytes. app_done. Qed.
#[export] Instance encodeTimestampWith_append tz : AppendEncoder (encodeTimestampWith tz).
Proof.
  apply fixed_width_append. intros. cbv zeta. unfold quoted. repeat case_match; [app_done..|].
  rewrite (appendISOTimestamp_app (dst ++ _)), (appendISOTimestamp_app ([] ++ _)). app_done.
Qed.
#[export] Instance encodeTimestampBinary_append : AppendEncoder encodeTimestampBinary.
Proof. apply encodeTimestampWith_append. Qed.
#[export] Instance encodeTimestampTZBinary_append : AppendEncoder encodeTimestampTZBinary.
Proof. apply encodeTimestampWith_append. Qed.
#[export] Instance encodeDateBinary_append : AppendEncoder encodeDateBinary.
Proof.
  apply fixed_width_append. intros. cbv zeta. unfold quoted. repeat case_match; [app_done..|].
  rewrite (appendISODateOnly_app (dst ++ _)), (appendISODateOnly_app ([] ++ _)). app_done.
Qed.
#[export] Instance encodeTimeBinary_append : AppendEncoder encodeTimeBinary.
Proof.
  split; [done|]. intros dst [raw|]; [|done]. cbn [encodeTimeBinary]. destruct (negb _); [app_done|].
  rewrite (appendTimeOfDay_app (dst ++ _)), (appendTimeOfDay_app ([] ++ _)). app_done.
Qed.
#[export] Instance encodeTimeTZBinary_append : AppendEncoder encodeTimeTZBinary.
Proof.
  split; [done|]. intros dst [raw|]; [|done]. cbn [encodeTimeTZBinary]. destruct (negb _); [app_done|].
  rewrite (appendTimeOfDay_app (dst ++ _)), (appendTimeOfDay_app ([] ++ _)). destruct (0 <=? _); app_out.
Qed.
#[export] Instance encodeNumericBinary_append : AppendEncoder EncodeNumericBinary.
Proof.
  split; [done|]. intros dst [raw|]; [|done]. cbn [EncodeNumericBinary encodeNumericBinary].
  unfold EncodeNumericBinary, encodeNumericBinary. cbv zeta. repeat case_match; try (by app_done).
  - rewrite (numeric_digits_app (dst ++ _)), (numeric_digits_app ([] ++ _)). app_done.
  - apply numeric_digits_app.
Qed.
#[export] Instance encodeIntervalBinary_append : AppendEncoder encodeIntervalBinary.
Proof.
  split; [done|]. intros dst [raw|]; [|done]. unfold encodeIntervalBinary. destruct (negb _); [app_done|].
  cbv zeta. destruct (_ && _); [app_done|]. rewrite !opt_dst.
  destruct (_ =? 0); [app_done|]. rewrite !sec_dst. app_done.
Qed.

(** ** Lemmas: what the encoders append is JSON *)

Lemma jvalue_plain s : forallb (λ c, negb (escapeFlag c)) s = true → jvalue (dquote :: s ++ [dquote]).
Proof. intros H. by apply jv_string, jbody_plain. Qed.

Lemma jvalue_AppendStringBytes s : jvalue (AppendStringBytes [] s).
Proof. rewrite AppendStringBytes_escape. apply jvalue_string. Qed.

Lemma jvalue_AppendInt v : jvalue (AppendInt [] v).
Proof. apply jv_number, jnumber_AppendInt. Qed.

Lemma jvalue_AppendBool b : jvalue (AppendBool [] b).
Proof. destruct b; constructor. Qed.

#[export] Hint Resolve jvalue_plain jvalue_AppendStringBytes jvalue_AppendInt jvalue_AppendBool : pgz.

Definition plain (s : bytes) : bool := forallb (λ c, negb (escapeFlag c)) s.

Lemma plain_app s t : plain (s ++ t) = plain s && plain t.
Proof. apply forallb_app. Qed.
Lemma plain_digits s : forallb is_digit s = true → plain s = true.
Proof.
  intros H. unfold plain. rewrite forallb_forall in *. intros c Hc. specialize (H c Hc). by destruct c.
Qed.
Lemma hexdig_plain z : 0 <= z < 16 → negb (escapeFlag (hexdig z)) = true.
Proof.
  intros Hz. assert (all_from (λ z, negb (escapeFlag (hexdig z))) 16 0 = true) as Ha by reflexivity.
  by apply (all_from_spec _ _ _ _ Ha).
Qed.
Lemma nibbles b : 0 <= Z.shiftr (byteZ b) 4 < 16 ∧ 0 <= Z.land (byteZ b) 15 < 16.
Proof.
  pose proof (byteZ_range b). change 15 with (Z.ones 4). rewrite Z.land_ones, Z.shiftr_div_pow2 by lia.
  change (2 ^ 4) with 16. split; Z.div_mod_to_equations; lia.
Qed.
Lemma plain_hex l : plain (appendHexBytes [] l) = true.
Proof.
  unfold appendHexBytes. rewrite app_nil_l. induction l as [|b l IH]; [done|].
  rewrite fmap_cons. cbn [concat]. rewrite plain_app, IH. destruct (nibbles b) as [H1 H2].
  unfold plain. cbn [forallb]. by rewrite !hexdig_plain.
Qed.
Lemma plain_AppendInt v : plain (AppendInt [] v) = true.
Proof.
  destruct (AppendInt_shape v) as (ds & -> & Hd & _). rewrite plain_app, (plain_digits ds Hd).
  by destruct (v <? 0).
Qed.
Lemma ascii_digit_plain v : plain [ascii_digit (Z.rem v 10)] = true.
Proof.
  assert (all_from (λ r, plain [ascii_digit r]) 19 (-9) = true) as Ha by reflexivity.
  apply (all_from_spec _ _ _ _ Ha). Z.quot_rem_to_equations. lia.
Qed.
Lemma plain_cons c s : plain (c :: s) = plain [c] && plain s.
Proof. apply (plain_app [c] s). Qed.
Lemma plain_append2 v : 0 <= v < 100 → plain (append2 [] v) = true.
Proof.
  intros Hv. unfold append2. rewrite app_nil_l, plain_cons, ascii_digit_plain, andb_true_r.
  replace (v ÷ 10) with (Z.rem (v ÷ 10) 10) by (Z.quot_rem_to_equations; lia). apply ascii_digit_plain.
Qed.
Lemma plain_append6 v : plain (append6 [] v) = true.
Proof.
  unfold append6. rewrite app_nil_l. do 5 (rewrite plain_cons, ascii_digit_plain; cbn [andb]).
  apply ascii_digit_plain.
Qed.
Lemma plain_appendInt4 v : plain (appendInt4 [] v) = true.
Proof.
  assert (∀ v, plain (if 10000 <=? v then AppendInt [] v
    else [] ++ [ascii_digit (Z.rem (v ÷ 1000) 10); ascii_digit (Z.rem (v ÷ 100) 10);
           ascii_digit (Z.rem (v ÷ 10) 10); ascii_digit (Z.rem v 10)]) = true) as H.
  { intros u. destruct (10000 <=? u); [apply plain_AppendInt|].
    rewrite app_nil_l. do 3 (rewrite plain_cons, ascii_digit_plain; cbn [andb]). apply ascii_digit_plain. }
  rewrite appendInt4_app. unfold appendInt4. destruct (v <? 0); [|apply H].
  rewrite app_nil_l. specialize (H (- v)). destruct (10000 <=? _); [|exact H].
  rewrite AppendInt_app, plain_app, H. done.
Qed.
Lemma plain_appendFrac6 v : plain (appendFrac6 [] v) = true.
Proof.
  unfold appendFrac6. cbv zeta. rewrite app_nil_l. generalize (if v <? 0 then - v else v). intros f.
  set (buf := [_; _; _; _; _; _]). assert (plain buf = true) as H.
  { unfold buf. do 5 (rewrite plain_cons, ascii_digit_plain; cbn [andb]). apply ascii_digit_plain. }
  rewrite <- (take_drop (frac6_end buf 6) buf), plain_app in H. by apply andb_prop in H as [H _].
Qed.

Create Rewrite HintDb pgz_plain.
#[export] Hint Rewrite plain_app plain_hex plain_AppendInt plain_append6 plain_appendInt4
  plain_appendFrac6 andb_true_r : pgz_plain.

(** The decision procedure for "quote, plain characters, quote". *)
Lemma jvalue_quoted s : plain s = true → jvalue ([dquote] ++ s ++ [dquote]).
Proof. apply jvalue_plain. Qed.

Lemma fixed_width_json n f : AppendEncoder (fixed_width n f) →
  (∀ raw, Zlen raw = n → jvalue (f [] raw)) → JsonEncoder (fixed_width n f).
Proof.
  intros Ha H. split; [done|]. intros raw. simpl. destruct (Z.eqb_spec (Zlen raw) n); simpl; [by apply H|].
  apply jvalue_AppendStringBytes.
Qed.

#[export] Instance EncodeString_json : JsonEncoder EncodeString.
Proof. split; [apply _|]. apply jvalue_AppendStringBytes. Qed.
#[export] Instance EncodeBool_json : JsonEncoder EncodeBool.
Proof. split; [apply _|]. intros raw. simpl. repeat case_match; constructor. Qed.
#[export] Instance EncodeOpaqueBinary_json : JsonEncoder EncodeOpaqueBinary.
Proof.
  split; [apply _|]. intros raw. cbn [EncodeOpaqueBinary]. rewrite appendHexBytes_app.
  apply (jv_string (bslash :: bslash :: "x"%byte :: appendHexBytes [] raw)).
  apply (jbody_plain _ (plain_hex raw)).
Qed.
#[export] Instance encodeByteaBinary_json : JsonEncoder encodeByteaBinary.
Proof. split; [apply _|]. apply (enc_json (e := EncodeOpaqueBinary)). Qed.
#[export] Instance EncodeQuotedASCII_json : JsonEncoder EncodeQuotedASCII.
Proof.
  split; [apply _|]. intros raw. simpl. destruct (existsb _ raw) eqn:E; [apply jvalue_AppendStringBytes|].
  apply jvalue_quoted. unfold plain. rewrite forallb_forall. intros c Hc.
  destruct (escapeFlag c) eqn:Ec; [|done]. exfalso.
  assert (existsb (λ c, (byteZ c <? 32) || beq c dquote || beq c bslash) raw = true); [|congruence].
  apply existsb_exists. by exists c.
Qed.
#[export] Instance encodeBoolBinary_json : JsonEncoder encodeBoolBinary.
Proof. split; [apply _|]. intros raw. simpl. repeat case_match; constructor. Qed.
#[export] Instance encodeInt2Binary_json : JsonEncoder encodeInt2Binary.
Proof. apply fixed_width_json; [apply _|]. intros. apply jvalue_AppendInt. Qed.
#[export] Instance encodeInt4Binary_json : JsonEncoder encodeInt4Binary.
Proof. apply fixed_width_json; [apply _|]. intros. apply jvalue_AppendInt. Qed.
#[export] Instance encodeInt8Binary_json : JsonEncoder encodeInt8Binary.
Proof. apply fixed_width_json; [apply _|]. intros. apply jvalue_AppendInt. Qed.

Lemma encodeFloatBits_json fl bits : jvalue (encodeFloatBits fl [] bits).
Proof.
  unfold encodeFloatBits, AppendFloat. destruct (IsNaN fl bits), (IsInf fl bits); simpl.
  4: apply jv_number, fmt_finite_number.
  all: unfold appendNonFiniteFloat, quoted; destruct (f_neg fl bits); by apply jvalue_quoted.
Qed.
#[export] Instance encodeFloat4Binary_json : JsonEncoder encodeFloat4Binary.
Proof. apply fixed_width_json; [apply _|]. intros. apply encodeFloatBits_json. Qed.
#[export] Instance encodeFloat8Binary_json : JsonEncoder encodeFloat8Binary.
Proof. apply fixed_width_json; [apply _|]. intros. apply encodeFloatBits_json. Qed.
#[export] Instance encodeUUIDBinary_json : JsonEncoder encodeUUIDBinary.
Proof.
  apply fixed_width_json; [apply _|]. intros raw _. cbv beta zeta.
  rewrite !(appendHexBytes_app (_ ++ _)), app_nil_l, <- !app_assoc.
  set (a := appendHexBytes [] (slice 0 4 raw)). set (b := appendHexBytes [] (slice 4 6 raw)).
  set (c := appendHexBytes [] (slice 6 8 raw)). set (d := appendHexBytes [] (slice 8 10 raw)).
  set (e := appendHexBytes [] (slice 10 16 raw)).
  pose proof (jvalue_quoted (a ++ ["-"%byte] ++ b ++ ["-"%byte] ++ c ++ ["-"%byte] ++ d ++ ["-"%byte] ++ e)) as H.
  rewrite <- !app_assoc in H. apply H. rewrite !plain_app. unfold a, b, c, d, e. by rewrite !plain_hex.
Qed.

Lemma plain_ISO usec tz : plain tz = true → plain (appendISOTimestamp [] usec tz) = true.
Proof.
  intros Ht. unfold appendISOTimestamp.
  destruct (if _ <? 0 then _ else _) as [sec frac]. pose proof (splitTime_correct sec) as Hs.
  destruct (splitTime sec) as [[[[[y mo] d] hh] mm] ss]. destruct Hs as (Hd & H1 & H2 & H3 & _).
  destruct Hd as [Hm Hd]. pose proof (days_in_month_le y mo).
  destruct (frac =? 0); app_out; autorewrite with pgz_plain; rewrite !plain_append2 by lia; done.
Qed.
Lemma plain_ISODate usec : plain (appendISODateOnly [] usec) = true.
Proof.
  unfold appendISODateOnly. set (sec := _ + _). pose proof (splitTime_correct sec) as Hs.
  destruct (splitTime sec) as [[[[[y mo] d] hh] mm] ss]. destruct Hs as (Hd & H1 & H2 & H3 & _).
  destruct Hd as [Hm Hd]. pose proof (days_in_month_le y mo).
  app_out. autorewrite with pgz_plain. rewrite !plain_append2 by lia. done.
Qed.
Lemma encodeTimestampWith_json tz : plain tz = true → JsonEncoder (encodeTimestampWith tz).
Proof.
  intros Ht. apply fixed_width_json; [apply _|]. intros raw _. cbv beta zeta. unfold quoted.
  repeat case_match; [by apply jvalue_quoted..|]. rewrite appendISOTimestamp_app.
  rewrite app_nil_l, <- app_assoc. by apply jvalue_quoted, plain_ISO.
Qed.
#[export] Instance encodeTimestampBinary_json : JsonEncoder encodeTimestampBinary.
Proof. by apply encodeTimestampWith_json. Qed.
#[export] Instance encodeTimestampTZBinary_json : JsonEncoder encodeTimestampTZBinary.
Proof. by apply encodeTimestampWith_json. Qed.
#[export] Instance encodeDateBinary_json : JsonEncoder encodeDateBinary.
Proof.
  apply fixed_width_json; [apply _|]. intros raw _. cbv beta zeta. unfold quoted.
  repeat case_match; [by apply jvalue_quoted..|]. rewrite appendISODateOnly_app.
  rewrite app_nil_l, <- app_assoc. apply jvalue_quoted, plain_ISODate.
Qed.

(** An opened string literal with nothing to escape in it so far. *)
Definition opened (out : bytes) : Prop := ∃ s, out = dquote :: s ∧ plain s = true.

Lemma open_app out t : opened out → plain t = true → opened (out ++ t).
Proof. intros (s & -> & Hs) Ht. exists (s ++ t). by rewrite plain_app, Hs. Qed.
Lemma open_close out : opened out → jvalue (out ++ [dquote]).
Proof. intros (s & -> & Hs). by apply jvalue_plain. Qed.

Lemma plain_opt_part z c : plain [c] = true → plain (opt_part z c) = true.
Proof. intros H. unfold opt_part. destruct (z =? 0); [done|]. by rewrite plain_app, plain_AppendInt. Qed.
Lemma plain_sec_text s f : plain (sec_text s f []) = true.
Proof.
  unfold sec_text. destruct (_ && _); [done|]. rewrite !plain_app, plain_AppendInt.
  destruct (f =? 0); [done|]. by rewrite plain_cons, plain_appendFrac6.
Qed.
#[export] Instance encodeIntervalBinary_json : JsonEncoder encodeIntervalBinary.
Proof.
  split; [apply _|]. intros raw. unfold encodeIntervalBinary.
  destruct (negb _); [apply jvalue_AppendStringBytes|]. cbv zeta. destruct (_ && _); [by apply jvalue_quoted|].
  rewrite !opt_dst.
  assert (opened ([] ++ [dquote; "P"%byte])) as HP by (by exists (str "P")).
  apply open_close. destruct (_ =? 0); rewrite 1?sec_dst;
    repeat (exact HP || (apply open_app; [|by rewrite ?plain_sec_text, ?plain_opt_part])).
Qed.

(** The array table asks PickBinary for the element, which is never an array. *)
Lemma PickBinary_elem o : negb (ArrayElem o =? 0) = true →
  PickBinary (ArrayElem o) = pickScalarBinary (ArrayElem o) false.
Proof.
  unfold ArrayElem. intros H. repeat match type of H with
  | context [if ?b then _ else _] => destruct b; [reflexivity|]
  end. done.
Qed.

(** *** Arrays *)

Lemma join_cons sep (x : bytes) l : join sep (x :: l) = x ++ concat (map (app sep) l).
Proof.
  revert x. induction l as [|y l IH]; intros x; [simpl; by rewrite app_nil_r|].
  change (join sep (x :: y :: l)) with (x ++ sep ++ join sep (y :: l)). rewrite IH. simpl.
  by rewrite <- app_assoc.
Qed.

(** A loop over pieces each of which one step reads in full. *)
Lemma array_loop_read step (ps : list (bytes * bytes)) :
  Forall (λ p, ∀ dst rest, step dst (p.1 ++ rest) = (dst ++ p.2, length p.1, true)) ps →
  ∀ i dst pre rest,
  array_loop step (length ps) (S i) dst (pre ++ concat (map fst ps) ++ rest) (length pre) =
  (dst ++ concat (map (app [","%byte]) (map snd ps)) ++ ["]"%byte],
   (length pre + length (concat (map fst ps)))%nat, true).
Proof.
  induction 1 as [|p ps Hp _ IH]; intros i dst pre rest; simpl.
  - by rewrite Nat.add_0_r.
  - rewrite drop_app_length, <- app_assoc, Hp, <- length_app.
    rewrite (app_assoc pre p.1), IH. rewrite !length_app, Nat.add_assoc, <- !app_assoc. done.
Qed.

Lemma array_loop_join step (ps : list (bytes * bytes)) dst rest :
  Forall (λ p, ∀ dst rest, step dst (p.1 ++ rest) = (dst ++ p.2, length p.1, true)) ps →
  array_loop step (length ps) 0 dst (concat (map fst ps) ++ rest) 0 =
  (dst ++ join [","%byte] (map snd ps) ++ ["]"%byte], length (concat (map fst ps)), true).
Proof.
  intros H. destruct H as [|p ps Hp Hps]; [done|]. simpl array_loop. rewrite drop_0, <- app_assoc, Hp.
  cbn [Nat.add]. rewrite (array_loop_read step ps Hps 0 _ p.1 rest).
  cbn [map concat]. rewrite join_cons, length_app, <- !app_assoc. done.
Qed.

Lemma length4 (z : Z) (b : bytes) : length (be_put 4 z ++ b) = (4 + length b)%nat.
Proof. by rewrite length_app, length_be_put. Qed.

Lemma array_leaf_read e c dst rest : AppendEncoder e → shaped [] (Leaf c) →
  array_leaf e dst (tree_wire (Leaf c) ++ rest) = (dst ++ e [] c, length (tree_wire (Leaf c)), true).
Proof.
  intros He Hc. unfold array_leaf. destruct c as [b|]; cbn [tree_wire]; cbn [shaped] in Hc.
  - assert (Zlen ((be_put 4 (Zlen b) ++ b) ++ rest) = 4 + Zlen b + Zlen rest) as Hl
      by (unfold Zlen; rewrite length_app, length4; lia).
    pose proof (Zlen_nonneg b). pose proof (Zlen_nonneg rest).
    rewrite Hl. destruct (Z.ltb_spec (4 + Zlen b + Zlen rest) 4); [lia|].
    rewrite <- app_assoc, take_app_len by apply length_be_put.
    rewrite int32_get_put. unfold int32. rewrite wraps_small by lia.
    destruct (Z.ltb_spec (Zlen b) 0); [lia|].
    destruct (Z.ltb_spec (4 + Zlen b + Zlen rest - 4) (Zlen b)); [lia|].
    unfold Zlen. rewrite Nat2Z.id, length4. unfold slice.
    replace (4 + length b - 4)%nat with (length b) by lia.
    rewrite drop_app_len, take_app_length by apply length_be_put. by rewrite enc_app.
  - rewrite Zlen_app. change (Zlen (be_put 4 (-1))) with 4. pose proof (Zlen_nonneg rest).
    destruct (Z.ltb_spec (4 + Zlen rest) 4); [lia|]. rewrite take_app_len by apply length_be_put.
    change (int32 (be_get (be_put 4 (-1)))) with (-1). cbn [Z.ltb Z.compare].
    unfold AppendNull. by rewrite enc_null.
Qed.

Lemma array_leaf_end e dst : array_leaf e dst [] = (dst, 0%nat, false).
Proof. done. Qed.

Lemma shaped_children dims l : foldr (λ t P, shaped dims t ∧ P) True l → Forall (shaped dims) l.
Proof. induction l as [|t l IH]; simpl; [constructor|]. intros [H1 H2]. constructor; auto. Qed.

Lemma appendArrayDim_read e dims : AppendEncoder e → dims ≠ [] → ∀ t dst rest, shaped dims t →
  appendArrayDim e dims dst (tree_wire t ++ rest) = (dst ++ tree_json e t, length (tree_wire t), true).
Proof.
  intros He. induction dims as [|d dims IH]; intros Hne t dst rest Hs; [done|].
  destruct t as [c|l]; [done|]. cbn [shaped] in Hs. destruct Hs as [Hd Hl%shaped_children].
  cbn [appendArrayDim tree_wire tree_json]. subst d. unfold Zlen. rewrite Nat2Z.id.
  set (step := match dims with [] => _ | _ => _ end).
  set (ps := map (λ t, (tree_wire t, tree_json e t)) l).
  assert (length l = length ps) as -> by (unfold ps; by rewrite length_map).
  assert (map tree_wire l = map fst ps) as -> by (unfold ps; by rewrite map_map).
  assert (map (tree_json e) l = map snd ps) as -> by (unfold ps; by rewrite map_map).
  rewrite array_loop_join; [by rewrite <- app_assoc|].
  unfold ps. apply Forall_map. eapply Forall_impl; [exact Hl|]. intros t Ht dst' rest'. cbn [fst snd].
  unfold step. destruct dims as [|d' dims].
  - destruct t as [c|l']; [|done]. by apply array_leaf_read.
  - by apply IH.
Qed.

Lemma array_dims_read dims rest : Forall (λ d, 0 <= d < 2 ^ 31) dims →
  array_dims (length dims) (concat (map (λ d, be_put 4 d ++ be_put 4 1) dims) ++ rest) = Some dims.
Proof.
  induction 1 as [|d dims Hd _ IH]; [done|]. cbn [length array_dims map concat].
  rewrite <- !app_assoc, take_app_len by apply length_be_put. rewrite int32_get_put. unfold int32.
  rewrite wraps_small by lia. destruct (Z.ltb_spec d 0); [lia|].
  rewrite (app_assoc (be_put 4 d)), drop_app_len by (by rewrite length4). by rewrite IH.
Qed.

Lemma tree_json_value e dims t : JsonEncoder e → shaped dims t → jvalue (tree_json e t).
Proof.
  intros He. revert t. induction dims as [|d dims IH]; intros t Hs; destruct t as [c|l]; try done.
  - cbn [tree_json]. destruct c as [b|]; [apply enc_json|]. rewrite enc_null. constructor.
  - cbn [shaped] in Hs. destruct Hs as [_ Hl%shaped_children]. cbn [tree_json]. apply jv_array.
    apply Forall_map. eapply Forall_impl; [exact Hl|]. exact IH.
Qed.

Lemma strict_encoder_json o e : PickBinary o = Some e → strict_oid o = true → JsonEncoder e.
Proof.
  intros He Ho.
  unfold strict_oid in Ho. apply andb_prop in Ho as [H1 H2].
    unfold PickBinary, PickBinaryEx in He. rewrite H2 in He. cbn [negb] in He.
    unfold pickScalarBinary in He. unfold oid_in in *. cbn [existsb] in *.
    rewrite negb_true_iff, !orb_false_iff in H1. destruct H1 as (H3 & H4 & H5 & H6 & _).
    rewrite H3, H4, H5, H6 in He.
    repeat match type of He with
    | context [if ?b then _ else _] => destruct b; [try (simplify_eq; apply _)|try done]
    end.
    simplify_eq. apply _.
Qed.

(** C29. Every binary encoder PickBinaryEx hands out, for a type outside JSON
    text, times of day, the opt-in numeric and arrays, appends exactly one
    JSON value: [null] for SQL NULL and a value for any cell bytes, malformed
    ones included. *)
Theorem binary_encoders_json (o : OID) (e : Encoder) (dst : bytes) (raw : option bytes)
  (He : PickBinary o = Some e) (Ho : strict_oid o = true) :
  ∃ v, e dst raw = dst ++ v ∧ jvalue v ∧ (raw = None → v = str "null").
Proof.
  pose proof (strict_encoder_json o e He Ho) as Hj.
  exists (e [] raw). split; [apply enc_app|]. destruct raw as [raw|].
  - split; [apply enc_json|done].
  - rewrite enc_null. split; [constructor|done].
Qed.

Lemma binary_encoders_json_witness :
  ∃ v, encodeInt4Binary (str "[") (Some (be_put 4 (-7))) = str "[" ++ v ∧ jvalue v ∧
       (Some (be_put 4 (-7)) = None → v = str "null").
Proof. apply (binary_encoders_json OIDInt4); reflexivity. Defined.

(** C28. The binary array encoder renders every well-formed array, of any
    number of dimensions and with NULL cells, as the nested JSON array of its
    elements, and that text is JSON when the elements' encoder writes JSON. *)
Theorem array_roundtrip (e : Encoder) (dst : bytes) (flags elemOID : Z) (dims : list Z) (t : tree)
  (He : AppendEncoder e) (Hne : dims ≠ []) (Hn : Zlen dims < 2 ^ 31)
  (Hd : Forall (λ d, 0 <= d < 2 ^ 31) dims) (Ht : shaped dims t) :
  arrayEncoder e dst (Some (array_wire flags elemOID dims t)) = dst ++ tree_json e t ∧
  (JsonEncoder e → jvalue (tree_json e t)).
Proof.
  split; [|intros Hj; by apply (tree_json_value e dims)].
  unfold arrayEncoder. set (raw := array_wire flags elemOID dims t).
  assert (Zlen raw = 12 + Zlen dims * 8 + Zlen (tree_wire t)) as Hlen.
  { unfold raw, array_wire, Zlen. rewrite !length_app, !length_be_put.
    assert (length (concat (map (λ d, be_put 4 d ++ be_put 4 1) dims)) = length dims * 8)%nat as ->; [|lia].
    clear. induction dims as [|d dims IH]; [done|]. cbn [map concat]. rewrite length_app, IH. done. }
  assert (1 <= Zlen dims) by (destruct dims; [done|]; unfold Zlen; simpl; lia).
  pose proof (Zlen_nonneg (tree_wire t)). destruct (Z.ltb_spec (Zlen raw) 12); [lia|].
  change (slice 0 4 raw) with (be_put 4 (Zlen dims)).
  rewrite int32_get_put. unfold int32. rewrite wraps_small by lia.
  destruct (Z.leb_spec (Zlen dims) 0); [lia|]. destruct (Z.ltb_spec (Zlen raw) (12 + Zlen dims * 8)); [lia|].
  change (drop 12 raw) with (concat (map (λ d, be_put 4 d ++ be_put 4 1) dims) ++ tree_wire t).
  unfold Zlen at 1. rewrite Nat2Z.id, array_dims_read by done.
  assert (drop (Z.to_nat (12 + Zlen dims * 8)) raw = tree_wire t) as ->.
  { unfold raw, array_wire. rewrite !app_assoc. apply drop_app_len.
    apply (f_equal Z.to_nat) in Hlen. unfold raw, array_wire, Zlen in Hlen.
    rewrite !app_assoc, length_app, Nat2Z.id in Hlen. unfold Zlen in *. lia. }
  rewrite <- (app_nil_r (tree_wire t)), (appendArrayDim_read e dims He Hne t dst [] Ht). done.
Qed.

Lemma array_roundtrip_witness :
  arrayEncoder encodeInt4Binary (str "x=")
    (Some (array_wire 1 23 [2; 1] (Node [Node [Leaf None]; Node [Leaf (Some (be_put 4 5))]]))) =
    str "x=" ++ str "[[null],[5]]" ∧
  (JsonEncoder encodeInt4Binary → jvalue (str "[[null],[5]]")).
Proof.
  apply (array_roundtrip encodeInt4Binary (str "x=") 1 23 [2; 1]
    (Node [Node [Leaf None]; Node [Leaf (Some (be_put 4 5))]]));
    [apply _|done|done|repeat constructor; done|repeat split; done].
Defined.

(** The outermost characters of a JSON value that starts with a bracket. *)
Lemma jvalue_bracket v : jvalue v → ∃ a m b, v = a ++ m ++ b ∧
  forallb is_ws a = true ∧ forallb is_ws b = true ∧
  (∃ c m', m = c :: m' ∧ is_ws c = false ∧ (c = "["%byte → ∃ k, m = k ++ ["]"%byte])).
Proof.
  induction 1 as [| | |n Hn|s Hs|l Hl|l H1 H2|a v b Ha Hb Hv (a' & m & b' & -> & Ha' & Hb' & Hm)].
  1-7: eexists [], _, []; rewrite app_nil_r; (split; [reflexivity|]); (split; [done|]); (split; [done|]).
  1-3: by eexists _, _.
  - destruct n as [|c n]; [done|]. exists c, n. split; [done|].
    assert (negb (is_ws c) && negb (beq c "["%byte) = true) as Hc.
    { unfold jnumber in Hn. destruct (beq c "-"%byte) eqn:E; [by apply beq_true in E as ->|].
      unfold junsigned in Hn. cbn [span_digits] in Hn. destruct (is_digit c) eqn:Ed; [by destruct c|done]. }
    apply andb_prop in Hc as [H1%negb_true_iff H2%negb_true_iff]. apply beq_false in H2. done.
  - by eexists _, _.
  - eexists _, _. split; [done|]. split; [done|]. intros _.
    eexists ("["%byte :: join [","%byte] l). done.
  - by eexists _, _.
  - exists (a ++ a'), m, (b' ++ b). rewrite !forallb_app, Ha, Ha', Hb, Hb', <- !app_assoc. done.
Qed.

Lemma not_jvalue_bracket m c : is_ws c = false → c ≠ "]"%byte → ¬ jvalue ("["%byte :: m ++ [c]).
Proof.
  intros Hc Hne H. apply jvalue_bracket in H as (a & n & b & E & Ha & Hb & d & n' & -> & Hd & Hk).
  assert (a = []) as ->.
  { destruct a as [|x a]; [done|]. injection E as <- _. done. }
  injection E as <- E. destruct (Hk eq_refl) as [k Ek]. destruct b as [|x b _] using rev_ind.
  - rewrite app_nil_r in E. rewrite <- E in Ek.
    change ("["%byte :: m ++ [c]) with (("["%byte :: m) ++ [c]) in Ek. by apply app_inj_tail in Ek as [_ ?].
  - rewrite app_assoc in E. apply app_inj_tail in E as [_ <-].
    rewrite forallb_app in Hb. cbn [forallb] in Hb. rewrite Hc in Hb. by rewrite andb_false_r in Hb.
Qed.

(** A one-dimensional int4 array whose body stops after its first element
    is not rendered by the documented fallback: the element already written
    stays in the output, the quoted message follows it, and what the encoder
    appended is not JSON, whatever the element's value. *)
Theorem array_truncated_invalid (dst : bytes) (flags elemOID size v : Z)
  (Hs : 2 <= size < 2 ^ 31) (Hv : - 2 ^ 31 <= v < 2 ^ 31) :
  let raw := array_wire flags elemOID [size] (Leaf (Some (be_put 4 v))) in
  let out := "["%byte :: AppendInt [] v ++ [","%byte] ++ AppendStringBytes [] raw in
  arrayEncoder encodeInt4Binary dst (Some raw) = dst ++ out ∧ ¬ jvalue out.
Proof.
  intros raw out. split.
  - unfold arrayEncoder. change (Zlen raw) with 28. change (slice 0 4 raw) with (be_put 4 1).
    change (int32 (be_get (be_put 4 1))) with 1. cbn [Z.ltb Z.leb Z.compare Z.add Z.mul Pos.compare Pos.compare_cont Pos.add Pos.mul].
    change (drop 12 raw) with (concat (map (λ d, be_put 4 d ++ be_put 4 1) [size]) ++ tree_wire (Leaf (Some (be_put 4 v)))).
    change (Z.to_nat 1) with (length [size]).
    rewrite array_dims_read by (constructor; [lia|constructor]).
    cbn [appendArrayDim]. destruct (Z.to_nat size) as [|[|n]] eqn:En; [lia..|].
    change (drop (Z.to_nat _) raw) with (tree_wire (Leaf (Some (be_put 4 v))) ++ []).
    cbn [array_loop Nat.ltb Nat.leb]. rewrite drop_0.
    rewrite (array_leaf_read encodeInt4Binary (Some (be_put 4 v))) by (apply _ || done). cbn [Nat.add].
    rewrite drop_app_length.
    assert (encodeInt4Binary [] (Some (be_put 4 v)) = AppendInt [] v) as ->.
    { unfold encodeInt4Binary, fixed_width. change (Zlen (be_put 4 v)) with 4. cbn [Z.eqb Pos.eqb negb].
      rewrite int32_get_put. unfold int32. by rewrite wraps_small by lia. }
    change (28 <? 12 + 1 * 8) with false. cbn iota. rewrite array_leaf_end. cbn iota beta zeta.
    rewrite AppendStringBytes_app. unfold out. rewrite <- !app_assoc. done.
  - unfold out. rewrite AppendStringBytes_escape, app_nil_l.
    rewrite (app_comm_cons _ _ dquote), !(app_assoc _ _ [dquote]). by apply not_jvalue_bracket.
Qed.

Lemma array_truncated_invalid_witness :
  let raw := array_wire 0 23 [2] (Leaf (Some (be_put 4 7))) in
  let out := "["%byte :: AppendInt [] 7 ++ [","%byte] ++ AppendStringBytes [] raw in
  arrayEncoder encodeInt4Binary [] (Some raw) = [] ++ out ∧ ¬ jvalue out.
Proof. apply array_truncated_invalid; lia. Defined.
