(* ===== verification/Errors.v ===== *)
(** internal/pgerr/pgerr.go (the structured server error and the decoder of
    ErrorResponse / NoticeResponse bodies) and the client-side error values:
    pgz/errors.go and the errors the rest of the driver builds. *)
From S2P Require Import Prelude.

(** ** pgerr.go *)

Record PGError := mkPGError {
  Severity : bytes;
  Code : bytes;
  Message : bytes;
  Detail : bytes;
  Hint : bytes;
  Where : bytes;
  Fields : gmap byte bytes
}.

Definition emptyError : PGError := mkPGError [] [] [] [] [] [] ∅.

Definition SQLState (e : PGError) : bytes := Code e.
Definition SQLStateClass (e : PGError) : bytes :=
  if Zlen (Code e) <? 2 then [] else take 2 (Code e).

Definition code_is (s : string) (e : PGError) : bool := bool_decide (Code e = str s).
Definition IsUniqueViolation : PGError → bool := code_is "23505".
Definition IsForeignKeyViolation : PGError → bool := code_is "23503".
Definition IsCheckViolation : PGError → bool := code_is "23514".
Definition IsNotNullViolation : PGError → bool := code_is "23502".
Definition IsExclusionViolation : PGError → bool := code_is "23P01".
Definition IsIntegrityViolation (e : PGError) : bool := bool_decide (SQLStateClass e = str "23").
Definition IsSerializationFailure : PGError → bool := code_is "40001".
Definition IsDeadlock : PGError → bool := code_is "40P01".
Definition IsQueryCanceled : PGError → bool := code_is "57014".
Definition IsAdminShutdown : PGError → bool := code_is "57P01".
Definition IsInvalidSQLStatementName : PGError → bool := code_is "26000".

(** The body of Parse's loop for one field: the map first, then the [switch]. *)
Definition set_field (e : PGError) (code : byte) (val : bytes) : PGError :=
  let f := <[code := val]> (Fields e) in
  if beq code "S"%byte then mkPGError val (Code e) (Message e) (Detail e) (Hint e) (Where e) f
  else if beq code "C"%byte then mkPGError (Severity e) val (Message e) (Detail e) (Hint e) (Where e) f
  else if beq code "M"%byte then mkPGError (Severity e) (Code e) val (Detail e) (Hint e) (Where e) f
  else if beq code "D"%byte then mkPGError (Severity e) (Code e) (Message e) val (Hint e) (Where e) f
  else if beq code "H"%byte then mkPGError (Severity e) (Code e) (Message e) (Detail e) val (Where e) f
  else if beq code "W"%byte then mkPGError (Severity e) (Code e) (Message e) (Detail e) (Hint e) val f
  else mkPGError (Severity e) (Code e) (Message e) (Detail e) (Hint e) (Where e) f.

(** [for len(body) > 0]: each iteration consumes at least two bytes. *)
Fixpoint parse_loop (fuel : nat) (e : PGError) (body : bytes) : PGError :=
  match fuel, body with
  | S fuel, code :: body =>
      if beq code x00 then e
      else
        match index_zero body with
        | None => e
        | Some i => parse_loop fuel (set_field e code (take i body)) (drop (S i) body)
        end
  | _, _ => e
  end.

Definition Parse (body : bytes) : PGError := parse_loop (length body) emptyError body.

(** ** pgz/errors.go and the other error values *)

Inductive limit_kind := LimitBytes | LimitRows.

(** Errors carry what the source's value carries; the text of a formatted
    message is abstracted to a tag and its operands. *)
Inductive gerror :=
| EEOF (partial : bool)                  (* io.EOF / io.ErrUnexpectedEOF *)
| EWrite                                 (* the socket refused a write *)
| EUser (tag : string)                   (* error from a caller-supplied io.Writer / io.Reader / callback *)
| EFmt (tag : string) (args : list Z)    (* fmt.Errorf, errors.New *)
| EPg (e : PGError)
| ETooLarge (limit : limit_kind) (limitVal observed : Z) (committed : bool)
| EWrapped (tag : string) (e : gerror).  (* fmt.Errorf("...: %w", e) *)

(** [errors.As(err, **PGError)]: unwrap to the first server error. *)
Fixpoint as_pg (e : gerror) : option PGError :=
  match e with
  | EPg p => Some p
  | EWrapped _ e => as_pg e
  | _ => None
  end.

(** ** Specification *)

Definition error_wire (fs : list (byte * bytes)) : bytes :=
  concat (map (λ f, f.1 :: f.2 ++ [x00]) fs) ++ [x00].

Definition field_of (e : PGError) (c : byte) : bytes := default [] (Fields e !! c).

(** The named members are views of the field map. *)
Record coherent (e : PGError) : Prop := {
  co_sev : Severity e = field_of e "S"%byte;
  co_code : Code e = field_of e "C"%byte;
  co_msg : Message e = field_of e "M"%byte;
  co_det : Detail e = field_of e "D"%byte;
  co_hint : Hint e = field_of e "H"%byte;
  co_where : Where e = field_of e "W"%byte
}.

(** ** Lemmas *)

Lemma set_field_coherent e c v : coherent e → coherent (set_field e c v).
Proof.
  intros [H1 H2 H3 H4 H5 H6]. unfold set_field. unfold field_of in *.
  byte_cases; subst; split; unfold field_of; cbn;
    rewrite ?lookup_insert_eq, ?lookup_insert_ne by congruence; done.
Qed.

Lemma set_field_Fields e c v : Fields (set_field e c v) = <[c := v]> (Fields e).
Proof. unfold set_field. byte_cases; done. Qed.

Lemma parse_loop_coherent fuel e body : coherent e → coherent (parse_loop fuel e body).
Proof.
  revert e body. induction fuel as [|fuel IH]; intros e [|c body] He; cbn [parse_loop]; try done.
  destruct (beq c x00); [done|]. destruct (index_zero body); [|done]. by apply IH, set_field_coherent.
Qed.

Lemma parse_loop_wire fs fuel e :
  Forall (λ f, f.1 ≠ x00 ∧ x00 ∉ f.2) fs → (length (error_wire fs) <= fuel)%nat →
  Fields (parse_loop fuel e (error_wire fs)) = foldl (λ m f, <[f.1 := f.2]> m) (Fields e) fs.
Proof.
  unfold error_wire. intros H. revert fuel e. induction H as [|[c v] fs [Hc Hv] _ IH]; intros fuel e Hl.
  - destruct fuel; done.
  - cbn [map concat fst snd] in *. destruct fuel as [|fuel]; [simpl in Hl; lia|].
    cbn [parse_loop app foldl fst snd]. apply beq_false in Hc as ->.
    rewrite <- !app_assoc. cbn [app]. rewrite index_zero_app by done.
    rewrite take_app_length, drop_S_app.
    rewrite IH, set_field_Fields; [done|]. simpl in Hl. rewrite !length_app in *. simpl in *. lia.
Qed.

(** A server error decodes to the fields on the wire: every well-formed
    field list gives the map of its fields (the last value of a repeated code
    winning), and for any body at all, malformed ones included, the named
    accessors agree with that map. *)
Theorem pgerr_parse (fs : list (byte * bytes)) (body : bytes)
  (Hfs : Forall (λ f, f.1 ≠ x00 ∧ x00 ∉ f.2) fs) :
  Fields (Parse (error_wire fs)) = foldl (λ m f, <[f.1 := f.2]> m) ∅ fs ∧
  coherent (Parse body).
Proof.
  split; [by apply parse_loop_wire|]. by apply parse_loop_coherent.
Qed.

Lemma pgerr_parse_witness :
  Fields (Parse (error_wire [("S"%byte, str "ERROR"); ("C"%byte, str "26000")])) =
    foldl (λ m f, <[f.1 := f.2]> m) ∅ [("S"%byte, str "ERROR"); ("C"%byte, str "26000")] ∧
  coherent (Parse (str "Sx")).
Proof.
  apply pgerr_parse. repeat constructor; try discriminate;
    intros H; repeat (apply elem_of_cons in H as [H|H]; [discriminate|]); by apply elem_of_nil in H.
Defined.

(** The class predicate covers every specific integrity predicate. *)
Lemma IsIntegrityViolation_covers e :
  IsUniqueViolation e || IsForeignKeyViolation e || IsCheckViolation e ||
  IsNotNullViolation e || IsExclusionViolation e = true → IsIntegrityViolation e = true.
Proof.
  unfold IsUniqueViolation, IsForeignKeyViolation, IsCheckViolation, IsNotNullViolation,
    IsExclusionViolation, code_is, IsIntegrityViolation, SQLStateClass.
  rewrite !orb_true_iff, !bool_decide_eq_true. by intros [[[[-> | ->]| ->]| ->]| ->].
Qed.
