(* ===== verification/Effects.v ===== *)
(** The effect every stateful part of the driver is written in: a state
    passed through calls, and four ways to finish.  [Panic] is a Go run-time
    panic (index out of range, nil dereference); [Stuck] is a loop of the model
    that ran out of fuel, which the termination theorems exclude. *)
From S2P Require Import Prelude Errors.

Inductive res (A : Type) :=
| Ret (a : A)
| Err (e : gerror)
| Panic
| Stuck.
Arguments Ret {_} _.
Arguments Err {_} _.
Arguments Panic {_}.
Arguments Stuck {_}.

(** A computation over state [S].  The state survives an error: a Go method
    that returns one has still mutated its receiver. *)
Definition prog (S A : Type) : Type := S → res A * S.

#[export] Instance prog_ret {S} : MRet (prog S) := λ A a s, (Ret a, s).
#[export] Instance prog_bind {S} : MBind (prog S) := λ A B f m s,
  match m s with
  | (Ret a, s) => f a s
  | (Err e, s) => (Err e, s)
  | (Panic, s) => (Panic, s)
  | (Stuck, s) => (Stuck, s)
  end.

Section Ops.
Context {S : Type}.
Definition throw {A} (e : gerror) : prog S A := λ s, (Err e, s).
Definition panic {A} : prog S A := λ s, (Panic, s).
Definition stuck {A} : prog S A := λ s, (Stuck, s).
Definition ask : prog S S := λ s, (Ret s, s).
Definition gets {A} (f : S → A) : prog S A := λ s, (Ret (f s), s).
Definition modify (f : S → S) : prog S unit := λ s, (Ret tt, f s).
(** [x, err := m]: the error becomes a value the caller inspects. *)
Definition catch {A} (m : prog S A) : prog S (gerror + A) := λ s,
    match m s with
    | (Ret a, s) => (Ret (inr a), s)
    | (Err e, s) => (Ret (inl e), s)
    | (Panic, s) => (Panic, s)
    | (Stuck, s) => (Stuck, s)
    end.
(** A result computed outside the state: [v, err := pure()]. *)
Definition of_sum {A} (r : gerror + A) : prog S A :=
    match r with inl e => throw e | inr a => mret a end.
(** [fmt.Errorf("...: %w", err)] around whatever [m] fails with. *)
Definition wrap {A} (tag : string) (m : prog S A) : prog S A := λ s,
    match m s with
    | (Err e, s) => (Err (EWrapped tag e), s)
    | r => r
    end.
Fixpoint mapM_ {A} (f : A → prog S unit) (l : list A) : prog S unit :=
    match l with [] => mret tt | x :: l => f x ≫= λ _, mapM_ f l end.
End Ops.

(** A computation on a component, run inside a larger state. *)
Definition zoom {S T A} (sel : T → S) (upd : S → T → T) (m : prog S A) : prog T A := λ t,
  let '(r, s) := m (sel t) in (r, upd s t).

(** ** Lemmas *)

Section Lemmas.
Context {S : Type}.

Lemma bind_ret {A B} (a : A) (f : A → prog S B) s : (mret a ≫= f) s = f a s.
Proof. reflexivity. Qed.

Lemma bind_Ret {A B} (m : prog S A) (f : A → prog S B) s a s' :
    m s = (Ret a, s') → (m ≫= f) s = f a s'.
Proof. unfold mbind, prog_bind. by intros ->. Qed.

Lemma bind_Err {A B} (m : prog S A) (f : A → prog S B) s e s' :
    m s = (Err e, s') → (m ≫= f) s = (Err e, s').
Proof. unfold mbind, prog_bind. by intros ->. Qed.

Lemma bind_inv {A B} (m : prog S A) (f : A → prog S B) s b s'' :
    (m ≫= f) s = (Ret b, s'') → ∃ a s', m s = (Ret a, s') ∧ f a s' = (Ret b, s'').
Proof. unfold mbind, prog_bind. destruct (m s) as [[] s']; naive_solver. Qed.

Lemma bind_assoc {A B C} (m : prog S A) (f : A → prog S B) (g : B → prog S C) s :
    ((m ≫= f) ≫= g) s = (m ≫= λ a, f a ≫= g) s.
Proof. unfold mbind, prog_bind. by destruct (m s) as [[] ?]. Qed.
End Lemmas.

(** A partial-correctness judgement for invariants: from a state satisfying
    [P], every way the computation can finish leaves a state satisfying [Q]
    of its outcome. *)
Definition triple {S A} (P : S → Prop) (m : prog S A) (Q : res A → S → Prop) : Prop :=
  ∀ s, P s → Q (fst (m s)) (snd (m s)).

Lemma triple_bind {S A B} (P : S → Prop) (m : prog S A) (f : A → prog S B) R Q :
  triple P m R →
  (∀ a, triple (λ s, R (Ret a) s) (f a) Q) →
  (∀ s e, R (Err e) s → Q (Err e) s) → (∀ s, R Panic s → Q Panic s) → (∀ s, R Stuck s → Q Stuck s) →
  triple P (m ≫= f) Q.
Proof.
  intros Hm Hf He Hp Hs s HP. specialize (Hm s HP). unfold mbind, prog_bind.
  destruct (m s) as [[a|e| |] s']; cbn in *; auto. by apply Hf.
Qed.

Create HintDb calm.

(** *** Computations that finish without growing a measure of the state *)

Section Calm.
Context {S : Type} (mu : S → nat).

Definition calm {A} (m : prog S A) : Prop :=
  ∀ s, fst (m s) ≠ Stuck ∧ (mu (snd (m s)) <= mu s)%nat.

Lemma calm_ret {A} (a : A) : calm (mret a).
Proof. intros s. split; [done|cbn; lia]. Qed.
Lemma calm_throw {A} e : calm (throw (A := A) e).
Proof. intros s. split; [done|cbn; lia]. Qed.
Lemma calm_panic {A} : calm (panic (A := A)).
Proof. intros s. split; [done|cbn; lia]. Qed.
Lemma calm_gets {A} (f : S → A) : calm (gets f).
Proof. intros s. split; [done|cbn; lia]. Qed.
Lemma calm_ask : calm ask.
Proof. intros s. split; [done|cbn; lia]. Qed.
Lemma calm_modify (f : S → S) : (∀ s, (mu (f s) <= mu s)%nat) → calm (modify f).
Proof. intros H s. split; [done|apply H]. Qed.
Lemma calm_of_sum {A} (r : gerror + A) : calm (of_sum r).
Proof. destruct r; [apply calm_throw|apply calm_ret]. Qed.
Lemma calm_bind {A B} (m : prog S A) (f : A → prog S B) : calm m → (∀ a, calm (f a)) → calm (m ≫= f).
Proof.
  intros Hm Hf s. unfold mbind, prog_bind. destruct (Hm s) as [H1 H2]. destruct (m s) as [[a|e| |] s']; cbn in *; try done.
  destruct (Hf a s') as [H3 H4]. split; [done|lia].
Qed.
Lemma calm_catch {A} (m : prog S A) : calm m → calm (catch m).
Proof.
  intros Hm s. unfold catch. destruct (Hm s) as [H1 H2]. by destruct (m s) as [[] s'].
Qed.
Lemma calm_mapM_ {A} (f : A → prog S unit) l : (∀ a, calm (f a)) → calm (mapM_ f l).
Proof. intros H. induction l; cbn; [apply calm_ret|]. by apply calm_bind. Qed.
End Calm.

#[export] Hint Resolve calm_ret calm_throw calm_panic calm_gets calm_ask calm_of_sum calm_catch calm_bind
  calm_mapM_ : calm.

(** *** Relations every computation of a kind maintains *)

Section Stable.
Context {S : Type} (R : S → S → Prop) `{!PreOrder R}.

(** However [m] finishes, the state it leaves is [R]-related to the start. *)
Definition stable {A} (m : prog S A) : Prop := ∀ s, R s (snd (m s)).

Lemma stable_ret {A} (a : A) : stable (mret a).
Proof. intros s. reflexivity. Qed.
Lemma stable_throw {A} e : stable (throw (A := A) e).
Proof. intros s. reflexivity. Qed.
Lemma stable_panic {A} : stable (panic (A := A)).
Proof. intros s. reflexivity. Qed.
Lemma stable_stuck {A} : stable (stuck (A := A)).
Proof. intros s. reflexivity. Qed.
Lemma stable_gets {A} (f : S → A) : stable (gets f).
Proof. intros s. reflexivity. Qed.
Lemma stable_ask : stable ask.
Proof. intros s. reflexivity. Qed.
Lemma stable_of_sum {A} (r : gerror + A) : stable (of_sum r).
Proof. destruct r; [apply stable_throw|apply stable_ret]. Qed.
Lemma stable_bind {A B} (m : prog S A) (f : A → prog S B) : stable m → (∀ a, stable (f a)) → stable (m ≫= f).
Proof.
  intros Hm Hf s. unfold mbind, prog_bind. specialize (Hm s). destruct (m s) as [[a|e| |] s']; cbn in *; try done.
  etransitivity; [exact Hm|apply Hf].
Qed.
Lemma stable_catch {A} (m : prog S A) : stable m → stable (catch m).
Proof. intros Hm s. unfold catch. specialize (Hm s). by destruct (m s) as [[] s']. Qed.
End Stable.
