(* ===== verification/Wire.v ===== *)
(** internal/wire/conn.go: the framed reader and writer.  The socket is a
    model of [net.Conn]: the bytes the peer will have sent before closing
    ([inbound]), the bytes written to it so far ([sent]), and how many more it
    accepts before every write fails ([room]; [None] for a healthy socket).
    The bufio.Reader is transparent to this view except for its size, which
    selects between the two branches of ReadMessage. *)
From S2P Require Import Prelude Errors Effects.

Definition minRead : Z := 8 * 1024.
Definition maxMsg : Z := Z.shiftl 256 20.
Definition DefaultReaderBufSize : Z := 128 * 1024.

Record Conn := mkConn {
  inbound : bytes;
  sent : bytes;
  room : option nat;
  brSize : Z;
  readCap : Z;          (* cap(c.readBuf) *)
  writeBuf : bytes
}.

Definition set_inbound (i : bytes) (c : Conn) : Conn :=
  mkConn i (sent c) (room c) (brSize c) (readCap c) (writeBuf c).
Definition set_writeBuf (w : bytes) (c : Conn) : Conn :=
  mkConn (inbound c) (sent c) (room c) (brSize c) (readCap c) w.
Definition set_readCap (n : Z) (c : Conn) : Conn :=
  mkConn (inbound c) (sent c) (room c) (brSize c) n (writeBuf c).
Definition set_socket (s : bytes) (r : option nat) (c : Conn) : Conn :=
  mkConn (inbound c) s r (brSize c) (readCap c) (writeBuf c).

Definition NewSized (inb : bytes) (r : option nat) (bufSize : Z) : Conn :=
  let bufSize := if bufSize <=? 0 then DefaultReaderBufSize else bufSize in
  mkConn inb [] r bufSize minRead [].

Definition New (inb : bytes) (r : option nat) : Conn := NewSized inb r DefaultReaderBufSize.

(** SwapNet: the socket is replaced, the scratch buffers are kept. *)
Definition SwapNet (nc c : Conn) : Conn := mkConn (inbound nc) (sent nc) (room nc) (brSize c) (readCap c) (writeBuf c).

Abbreviation io := (prog Conn).

(** ** Reading *)

(** [br.Peek(n)] and [br.Discard(n)]. *)
Definition Peek (n : nat) : io bytes := λ c,
  if (length (inbound c) <? n)%nat then (Err (EEOF false), c)
  else (Ret (take n (inbound c)), c).
Definition Discard (n : nat) : io unit := λ c,
  if (length (inbound c) <? n)%nat then (Err (EEOF false), set_inbound [] c)
  else (Ret tt, set_inbound (drop n (inbound c)) c).
(** [io.ReadFull(br, buf)] with [len(buf) = n]: what arrived is consumed even
    when it falls short. *)
Definition ReadFull (n : nat) : io bytes := λ c,
  if (length (inbound c) <? n)%nat
  then (Err (EEOF (bool_decide (inbound c ≠ []))), set_inbound [] c)
  else (Ret (take n (inbound c)), set_inbound (drop n (inbound c)) c).

Definition ReadByte : io byte :=
  b ← ReadFull 1; mret (nth 0 b x00).

Definition ReadMessage : io (byte * bytes) :=
  hdr ← Peek 5;
  let t := nth 0 hdr x00 in
  let length := be_get (slice 1 5 hdr) in
  if length <? 4 then throw (EFmt "wire: bogus message length" [length])
  else
    let bodyLen := length - 4 in
    if maxMsg <? bodyLen then throw (EFmt "wire: message too large" [bodyLen])
    else
      sz ← gets brSize;
      let total := 5 + bodyLen in
      if total <=? sz then
        all ← Peek (Z.to_nat total);
        let body := slice 5 (Z.to_nat total) all in
        _ ← Discard (Z.to_nat total);
        mret (t, body)
      else
        _ ← Discard 5;
        cap ← gets readCap;
        _ ← (if cap <? bodyLen
             then modify (set_readCap (let newCap := cap * 2 in if newCap <? bodyLen then bodyLen else newCap))
             else mret tt);
        body ← ReadFull (Z.to_nat bodyLen);
        mret (t, body).

(** ** Writing *)

(** The loop [for len(p) > 0 { n, err := nc.Write(p) ... }]: every byte is
    written, or the socket gives out part of the way through. *)
Definition WriteRaw (p : bytes) : io unit := λ c,
  match room c with
  | None => (Ret tt, set_socket (sent c ++ p) None c)
  | Some n =>
      if (length p <=? n)%nat then (Ret tt, set_socket (sent c ++ p) (Some (n - length p)%nat) c)
      else (Err EWrite, set_socket (sent c ++ take n p) (Some O) c)
  end.

Record Builder := { noType : bool; startOff : nat }.

Definition append (p : bytes) : io unit := modify (λ c, set_writeBuf (writeBuf c ++ p) c).

Definition Begin (t : byte) : io Builder :=
  start ← gets (λ c, length (writeBuf c));
  _ ← append [t];
  _ ← append [x00; x00; x00; x00];
  mret {| noType := false; startOff := start |}.

Definition BeginNoType : io Builder :=
  start ← gets (λ c, length (writeBuf c));
  _ ← append [x00; x00; x00; x00];
  mret {| noType := true; startOff := start |}.

Definition Flush : io unit :=
  buf ← gets writeBuf;
  match buf with
  | [] => mret tt
  | _ =>
      r ← catch (WriteRaw buf);
      _ ← modify (set_writeBuf []);
      of_sum r
  end.

Definition bByte (v : byte) : io unit := append [v].
Definition bBytes (p : bytes) : io unit := append p.
Definition bString (s : bytes) : io unit := append s.
Definition bCString (s : bytes) : io unit := _ ← append s; append [x00].
Definition bInt16 (v : Z) : io unit := append [mkbyte (Z.shiftr v 8); mkbyte v].
Definition bInt32 (v : Z) : io unit :=
  append [mkbyte (Z.shiftr v 24); mkbyte (Z.shiftr v 16); mkbyte (Z.shiftr v 8); mkbyte v].

(** [binary.BigEndian.PutUint32(buf[off:off+4], v)], the slice in range. *)
Definition patch4 (off : nat) (v : Z) (buf : bytes) : bytes :=
  take off buf ++ be_put 4 v ++ drop (off + 4) buf.

Definition Finish (b : Builder) : io unit := modify (λ c,
  let buf := writeBuf c in
  let start := startOff b in
  if noType b then set_writeBuf (patch4 start (Zlen buf - Z.of_nat start) buf) c
  else set_writeBuf (patch4 (start + 1) (Zlen buf - Z.of_nat start - 1) buf) c).

Definition Send (b : Builder) : io unit := _ ← Finish b; Flush.

(** A whole message: [b := c.Begin(t); <payload>; b.Finish()]; the caller's
    [b.Send()] is this and a Flush. *)
Definition message (t : byte) (payload : io unit) : io unit :=
  b ← Begin t; _ ← payload; Finish b.

(** ** Specification: protocol framing *)

Definition frame (t : byte) (body : bytes) : bytes := t :: be_put 4 (Zlen body + 4) ++ body.
Definition frameNoType (body : bytes) : bytes := be_put 4 (Zlen body + 4) ++ body.

(** A stream of messages, and the messages small enough for the reader. *)
Definition wire_of (ms : list (byte * bytes)) : bytes := concat (map (λ m, frame m.1 m.2) ms).
Definition msg_ok (m : byte * bytes) : Prop := Zlen m.2 <= maxMsg.

(** The payload only appends [p] to the write buffer. *)
Definition writes (m : io unit) (p : bytes) : Prop :=
  ∀ c, m c = (Ret tt, set_writeBuf (writeBuf c ++ p) c).

(** Nothing about the connection has moved but the read position. *)
Definition conn_at (rest : bytes) (k0 k : Conn) : Prop :=
  inbound k = rest ∧ sent k = sent k0 ∧ room k = room k0 ∧ brSize k = brSize k0 ∧ writeBuf k = writeBuf k0.

Fixpoint read_n (n : nat) : io (list (byte * bytes)) :=
  match n with
  | O => mret []
  | S n => m ← ReadMessage; ms ← read_n n; mret (m :: ms)
  end.

Definition send_all (ms : list (byte * bytes)) : io unit :=
  _ ← mapM_ (λ m, message m.1 (bBytes m.2)) ms; Flush.

(** ** Lemmas *)

Lemma length_frame t body : length (frame t body) = (5 + length body)%nat.
Proof. unfold frame. simpl. rewrite ?length_app, ?length_be_put. lia. Qed.

Lemma frame_body t body : slice 5 (5 + length body) (frame t body) = body.
Proof.
  unfold slice, frame. replace (5 + length body - 5)%nat with (length body) by lia.
  cbn [drop]. rewrite (drop_app_len 4) by apply length_be_put. apply take_ge. lia.
Qed.

Lemma maxMsg_eq : maxMsg = 268435456.
Proof. reflexivity. Qed.

Lemma Peek_ok n c p k : inbound c = p ++ k → length p = n → Peek n c = (Ret p, c).
Proof.
  intros H Hn. unfold Peek. rewrite H, length_app.
  destruct (Nat.ltb_spec (length p + length k) n); [lia|]. by rewrite take_app_len.
Qed.
Lemma Discard_ok n c p k : inbound c = p ++ k → length p = n → Discard n c = (Ret tt, set_inbound k c).
Proof.
  intros H Hn. unfold Discard. rewrite H, length_app.
  destruct (Nat.ltb_spec (length p + length k) n); [lia|]. by rewrite drop_app_len.
Qed.
Lemma ReadFull_ok n c p k : inbound c = p ++ k → length p = n → ReadFull n c = (Ret p, set_inbound k c).
Proof.
  intros H Hn. unfold ReadFull. rewrite H, length_app.
  destruct (Nat.ltb_spec (length p + length k) n); [lia|]. by rewrite take_app_len, drop_app_len.
Qed.

(** Run the next computation of a [bind] by an equation for it. *)
Ltac step H := rewrite (bind_Ret _ _ _ _ _ H).

Lemma frame_split t body : frame t body = (t :: be_put 4 (Zlen body + 4)) ++ body.
Proof. done. Qed.

(** One framed message at the front of the stream is read whole, whatever the
    size of the buffer. *)
Lemma ReadMessage_frame c t body rest :
  inbound c = frame t body ++ rest → msg_ok (t, body) →
  ∃ cap, ReadMessage c = (Ret (t, body), set_readCap cap (set_inbound rest c)).
Proof.
  intros Hin Hok. unfold msg_ok in Hok. cbn in Hok. rewrite maxMsg_eq in Hok. pose proof (Zlen_nonneg body).
  assert (inbound c = (t :: be_put 4 (Zlen body + 4)) ++ body ++ rest) as Hin'
    by (rewrite Hin, frame_split, <- app_assoc; done).
  unfold ReadMessage. step (Peek_ok 5 c _ _ Hin' eq_refl). cbv beta zeta.
  change (nth 0 _ x00) with t. change (slice 1 5 _) with (be_put 4 (Zlen body + 4)).
  rewrite be_get_put_small by (change (256 ^ Z.of_nat 4) with 4294967296; lia).
  destruct (Z.ltb_spec (Zlen body + 4) 4); [lia|].
  replace (Zlen body + 4 - 4) with (Zlen body) by lia. rewrite maxMsg_eq.
  destruct (Z.ltb_spec 268435456 (Zlen body)); [lia|].
  step (eq_refl : gets brSize c = (Ret (brSize c), c)). cbv beta.
  destruct (Z.leb_spec (5 + Zlen body) (brSize c)).
  - assert (length (frame t body) = Z.to_nat (5 + Zlen body)) as Hl by (rewrite length_frame; unfold Zlen; lia).
    step (Peek_ok _ c _ _ Hin Hl). step (Discard_ok _ c _ _ Hin Hl).
    replace (Z.to_nat (5 + Zlen body)) with (5 + length body)%nat by (unfold Zlen; lia).
    rewrite frame_body. exists (readCap c). by destruct c.
  - step (Discard_ok 5 c _ _ Hin' eq_refl).
    step (eq_refl : gets readCap (set_inbound (body ++ rest) c) = (Ret (readCap c), set_inbound (body ++ rest) c)).
    cbv beta.
    assert (∀ c, inbound c = body ++ rest → (b ← ReadFull (Z.to_nat (Zlen body)); mret (t, b)) c =
      (Ret (t, body), set_inbound rest c)) as Hr.
    { intros c' Hc'. step (ReadFull_ok (Z.to_nat (Zlen body)) c' _ _ Hc' ltac:(unfold Zlen; lia)). done. }
    destruct (readCap c <? Zlen body).
    + unfold mbind at 1, prog_bind at 1, modify at 1. rewrite Hr by done. by eexists.
    + rewrite bind_ret, Hr by done. exists (readCap c). by destruct c.
Qed.

(** Everything a successful read consumed is one well-formed frame. *)
Lemma ReadMessage_inv c t body c' : ReadMessage c = (Ret (t, body), c') →
  inbound c = frame t body ++ inbound c' ∧ msg_ok (t, body) ∧
  (∃ cap, c' = set_readCap cap (set_inbound (inbound c') c)).
Proof.
  unfold ReadMessage. intros H. apply bind_inv in H as (hdr & c1 & Hp & H).
  unfold Peek in Hp. destruct (Nat.ltb_spec (length (inbound c)) 5); [done|]. simplify_eq.
  destruct (inbound c1) as [|t0 [|l1 [|l2 [|l3 [|l4 rest]]]]] eqn:Ein; cbn [length take nth] in *; try lia.
  rewrite take_0 in H. change (slice 1 5 _) with [l1; l2; l3; l4] in H.
  set (n := be_get [l1; l2; l3; l4]) in *. pose proof (be_get_range [l1; l2; l3; l4]) as Hr. fold n in Hr.
  change (256 ^ Zlen [l1; l2; l3; l4]) with 4294967296 in Hr.
  assert ([l1; l2; l3; l4] = be_put 4 n) as Hl by (symmetry; apply (be_put_get [l1; l2; l3; l4])).
  destruct (Z.ltb_spec n 4); [done|]. rewrite maxMsg_eq in H.
  destruct (Z.ltb_spec 268435456 (n - 4)); [done|].
  assert (∀ b, Zlen b = n - 4 → t0 :: l1 :: l2 :: l3 :: l4 :: b = frame t0 b) as Hf.
  { intros b Hb. unfold frame. rewrite Hb. replace (n - 4 + 4) with n by lia. by rewrite <- Hl. }
  apply bind_inv in H as (sz & c2 & [= <- <-] & H).
  destruct (Z.leb_spec (5 + (n - 4)) (brSize c1)).
  - apply bind_inv in H as (all & c2 & Hp & H). unfold Peek in Hp.
    destruct (Nat.ltb_spec (length (inbound c1)) (Z.to_nat (5 + (n - 4)))); [done|]. simplify_eq.
    apply bind_inv in H as (u & c3 & Hd & H). unfold Discard in Hd.
    destruct (Nat.ltb_spec (length (inbound c2)) (Z.to_nat (5 + (n - 4)))); [done|]. simplify_eq.
    unfold mret, prog_ret in H. simplify_eq. rewrite Ein in *.
    replace (Z.to_nat (5 + (n - 4))) with (5 + Z.to_nat (n - 4))%nat in * by lia.
    cbn [Nat.add take drop length inbound set_inbound slice Nat.sub] in *.
    unfold slice. cbn [Nat.add take drop Nat.sub].
    assert (length (take (Z.to_nat (n - 4)) rest) = Z.to_nat (n - 4)) as Hlen by (rewrite length_take; lia).
    rewrite Nat.sub_0_r. rewrite drop_0, (take_ge (take _ rest)) by lia.
    split; [|split].
    + rewrite <- Hf by (unfold Zlen; lia). cbn [app]. by rewrite take_drop.
    + unfold msg_ok, Zlen. cbn [snd]. rewrite Hlen, maxMsg_eq. lia.
    + exists (readCap c2). by destruct c2.
  - apply bind_inv in H as (u & c2 & Hd & H). unfold Discard in Hd. rewrite Ein in Hd. cbn in Hd. simplify_eq.
    apply bind_inv in H as (cap & c3 & [= <- <-] & H). apply bind_inv in H as (u & c4 & Hc & H).
    apply bind_inv in H as (b & c5 & Hb & H). unfold mret, prog_ret in H. simplify_eq.
    assert (∃ cap, c4 = set_readCap cap (set_inbound (drop 0 rest) c1)) as [cap ->].
    { cbn [readCap set_inbound] in Hc. destruct (_ <? _); [|exists (readCap c1)];
        unfold modify, mret, prog_ret in Hc; simplify_eq; [by eexists|by destruct c1]. }
    unfold ReadFull in Hb. cbn [inbound set_readCap set_inbound] in Hb. rewrite drop_0 in Hb.
    destruct (Nat.ltb_spec (length rest) (Z.to_nat (n - 4))); [done|]. simplify_eq.
    assert (length (take (Z.to_nat (n - 4)) rest) = Z.to_nat (n - 4)) as Hlen by (rewrite length_take; lia).
    cbn [inbound set_inbound]. split; [|split].
    + rewrite <- Hf by (unfold Zlen; lia). cbn [app]. by rewrite take_drop.
    + unfold msg_ok, Zlen. cbn [snd]. rewrite Hlen, maxMsg_eq. lia.
    + by exists cap.
Qed.

(** Reading never panics. *)
Lemma ReadMessage_safe c : match fst (ReadMessage c) with Panic | Stuck => False | _ => True end.
Proof.
  unfold ReadMessage, mbind, prog_bind, Peek, Discard, ReadFull, gets, modify, throw, mret, prog_ret.
  repeat case_match; simplify_eq; done.
Qed.

(** *** Building messages *)

Lemma writes_append p : writes (append p) p.
Proof. done. Qed.
Lemma writes_bBytes p : writes (bBytes p) p.
Proof. done. Qed.
Lemma writes_seq m1 m2 p1 p2 : writes m1 p1 → writes m2 p2 → writes (m1 ≫= λ _, m2) (p1 ++ p2).
Proof.
  intros H1 H2 c. step (H1 c). rewrite H2. cbn. by rewrite <- app_assoc.
Qed.
Lemma writes_bCString s : writes (bCString s) (s ++ [x00]).
Proof. apply (writes_seq _ _ s [x00]); apply writes_append. Qed.
Lemma writes_bByte v : writes (bByte v) [v].
Proof. done. Qed.
Lemma writes_bInt16 v : writes (bInt16 v) (be_put 2 v).
Proof. intros c. unfold bInt16. cbn [be_put Z.of_nat]. rewrite Z.shiftr_0_r. done. Qed.
Lemma writes_bInt32 v : writes (bInt32 v) (be_put 4 v).
Proof. intros c. unfold bInt32. cbn [be_put]. rewrite Z.shiftr_0_r. done. Qed.
Lemma writes_mapM {A} (f : A → io unit) (g : A → bytes) l :
  (∀ a, writes (f a) (g a)) → writes (mapM_ f l) (concat (map g l)).
Proof.
  intros H. induction l as [|a l IH]; [intros c; cbn; rewrite app_nil_r; by destruct c|].
  cbn [mapM_ map concat]. by apply writes_seq.
Qed.
Lemma writes_nil : writes (mret tt) [].
Proof. intros c. cbn. rewrite app_nil_r. by destruct c. Qed.

(** Finish patches exactly the length of the message being built, after
    whatever earlier messages the buffer holds. *)
Lemma writes_message t payload p : writes payload p → writes (message t payload) (frame t p).
Proof.
  intros H c. unfold message, Begin. rewrite bind_assoc.
  step (eq_refl : gets (λ c, length (writeBuf c)) c = (Ret (length (writeBuf c)), c)). cbv beta.
  rewrite bind_assoc. step (writes_append [t] c). rewrite bind_assoc.
  step (writes_append [x00; x00; x00; x00] (set_writeBuf (writeBuf c ++ [t]) c)).
  rewrite bind_ret. step (H (set_writeBuf (writeBuf (set_writeBuf (writeBuf c ++ [t]) c) ++ [x00; x00; x00; x00])
    (set_writeBuf (writeBuf c ++ [t]) c))).
  unfold Finish, modify. cbn [noType startOff writeBuf set_writeBuf]. f_equal.
  set (w := writeBuf c). assert ((((w ++ [t]) ++ [x00; x00; x00; x00]) ++ p) = (w ++ [t]) ++ [x00;x00;x00;x00] ++ p) as ->
    by (by rewrite <- !app_assoc).
  assert (Zlen ((w ++ [t]) ++ [x00; x00; x00; x00] ++ p) - Z.of_nat (length w) - 1 = Zlen p + 4) as ->
    by (unfold Zlen; rewrite !length_app; simpl; lia).
  unfold patch4. rewrite take_app_len by (rewrite length_app; simpl; lia).
  rewrite (app_assoc (w ++ [t]) [x00; x00; x00; x00] p), drop_app_len by (rewrite !length_app; simpl; lia).
  unfold frame. by rewrite <- app_assoc.
Qed.

Lemma writes_messageNoType payload p : writes payload p →
  ∀ c, writeBuf c = [] → (b ← BeginNoType; _ ← payload; Finish b) c = (Ret tt, set_writeBuf (frameNoType p) c).
Proof.
  intros H c Hc. unfold BeginNoType. rewrite bind_assoc.
  step (eq_refl : gets (λ c, length (writeBuf c)) c = (Ret (length (writeBuf c)), c)). cbv beta.
  rewrite bind_assoc. step (writes_append [x00; x00; x00; x00] c). rewrite bind_ret.
  step (H (set_writeBuf (writeBuf c ++ [x00; x00; x00; x00]) c)).
  unfold Finish, modify. cbn [noType startOff writeBuf set_writeBuf]. rewrite Hc. f_equal.
  assert (Zlen (([] ++ [x00; x00; x00; x00]) ++ p) - Z.of_nat (length (A := byte) []) = Zlen p + 4) as ->
    by (unfold Zlen; rewrite !length_app; simpl; lia).
  done.
Qed.

Lemma Flush_ok c : room c = None →
  Flush c = (Ret tt, set_writeBuf [] (set_socket (sent c ++ writeBuf c) None c)).
Proof.
  intros Hr. unfold Flush. step (eq_refl : gets writeBuf c = (Ret (writeBuf c), c)). cbv beta.
  destruct (writeBuf c) as [|b w] eqn:E.
  - unfold mret, prog_ret. rewrite app_nil_r. f_equal. destruct c; cbn in *; by subst.
  - unfold mbind, prog_bind, catch, WriteRaw. rewrite Hr. cbn. done.
Qed.

(** After Flush the buffer is empty, delivered or not. *)
Lemma Flush_clears c : writeBuf (snd (Flush c)) = [].
Proof.
  unfold Flush, mbind, prog_bind, gets, catch, WriteRaw, modify, of_sum, throw, mret, prog_ret.
  destruct (writeBuf c) eqn:E; cbn; [done|]. repeat case_match; simplify_eq; done.
Qed.

Lemma conn_at_trans rest r1 k0 k1 k2 : conn_at r1 k0 k1 → conn_at rest k1 k2 → conn_at rest k0 k2.
Proof. intros (_ & ? & ? & ? & ?) (? & ? & ? & ? & ?). repeat split; congruence. Qed.

Lemma conn_at_in r k0 k : conn_at r k0 k → inbound k = r.
Proof. by intros (? & _). Qed.
Lemma conn_at_self r k0 k : conn_at r k0 k → conn_at (inbound k) k0 k.
Proof. by intros (? & ?). Qed.

Lemma length_wire_of ms : (length ms <= length (wire_of ms))%nat.
Proof.
  induction ms as [|m ms IH]; [done|]. unfold wire_of in *. cbn [map concat length].
  rewrite length_app, length_frame. lia.
Qed.

Lemma send_all_ok ms c : room c = None →
  send_all ms c = (Ret tt, set_writeBuf [] (set_socket (sent c ++ writeBuf c ++ wire_of ms) None c)).
Proof.
  intros Hr. unfold send_all.
  assert (writes (mapM_ (λ m : byte * bytes, message m.1 (bBytes m.2)) ms) (wire_of ms)) as Hw
    by (apply (writes_mapM _ (λ m, frame m.1 m.2)); intros m; apply writes_message, writes_bBytes).
  step (Hw c). rewrite Flush_ok by done. by destruct c.
Qed.

Lemma read_n_wire ms : ∀ c rest, Forall msg_ok ms → inbound c = wire_of ms ++ rest →
  ∃ cap, read_n (length ms) c = (Ret ms, set_readCap cap (set_inbound rest c)).
Proof.
  induction ms as [|[t b] ms IH]; intros c rest Hok Hin; cbn [length read_n].
  - exists (readCap c). cbn in Hin. subst. by destruct c.
  - apply Forall_cons in Hok as [H1 H2]. cbn in Hin. rewrite <- app_assoc in Hin.
    destruct (ReadMessage_frame c t b _ Hin H1) as [cap Hr]. step Hr.
    destruct (IH (set_readCap cap (set_inbound (wire_of ms ++ rest) c)) rest H2 eq_refl) as [cap' Hn].
    step Hn. exists cap'. by destruct c.
Qed.

(** Framing round trip: the messages a client builds in one write buffer
    and flushes, read by a peer with any reader size and with any bytes
    behind them, arrive as the same messages in order, nothing of what
    follows being consumed. *)
Theorem framing_roundtrip (ms : list (byte * bytes)) (c : Conn) (rest : bytes) (bufSize : Z)
  (Hroom : room c = None) (Hempty : sent c = [] ∧ writeBuf c = []) (Hms : Forall msg_ok ms) :
  ∃ c1 cap, send_all ms c = (Ret tt, c1) ∧ writeBuf c1 = [] ∧
    read_n (length ms) (NewSized (sent c1 ++ rest) None bufSize) =
      (Ret ms, set_readCap cap (set_inbound rest (NewSized (sent c1 ++ rest) None bufSize))).
Proof.
  destruct Hempty as [Hs Hw]. eexists. rewrite send_all_ok by done. rewrite Hs, Hw. cbn.
  destruct (read_n_wire ms (NewSized (wire_of ms ++ rest) None bufSize) rest Hms eq_refl) as [cap H].
  exists cap. split; [done|]. split; [done|]. exact H.
Qed.

Lemma framing_roundtrip_witness :
  ∃ c1 cap, send_all [("Q"%byte, str "select 1"); ("S"%byte, [])] (New [] None) = (Ret tt, c1) ∧ writeBuf c1 = [] ∧
    read_n 2 (NewSized (sent c1 ++ str "zz") None 16) =
      (Ret [("Q"%byte, str "select 1"); ("S"%byte, [])],
       set_readCap cap (set_inbound (str "zz") (NewSized (sent c1 ++ str "zz") None 16))).
Proof.
  apply (framing_roundtrip [("Q"%byte, str "select 1"); ("S"%byte, [])] (New [] None) (str "zz") 16);
    [reflexivity|split; reflexivity|repeat constructor; discriminate].
Defined.

(** C31. What ReadMessage returns is exactly one frame off the front of the
    stream, of bounded size, leaving the rest and everything else about the
    connection but the scratch capacity untouched; on any input it returns or
    fails with an error, it never panics. *)
Theorem ReadMessage_exact (c : Conn) :
  match ReadMessage c with
  | (Ret (t, body), c') =>
      inbound c = frame t body ++ inbound c' ∧ Zlen body <= maxMsg ∧
      sent c' = sent c ∧ writeBuf c' = writeBuf c ∧ brSize c' = brSize c
  | (Err e, c') => sent c' = sent c ∧ writeBuf c' = writeBuf c ∧ ∃ k, inbound c = k ++ inbound c'
  | _ => False
  end.
Proof.
  pose proof (ReadMessage_safe c) as Hs. destruct (ReadMessage c) as [[[t b]|e| |] c'] eqn:E; try done.
  - apply ReadMessage_inv in E as (H1 & H2 & cap & ->). done.
  - clear Hs. unfold ReadMessage, mbind, prog_bind, Peek, Discard, ReadFull, gets, modify, throw, mret, prog_ret in E.
    assert (∀ c : Conn, ∃ k, inbound c = k ++ inbound c) as Hid by (intros; by exists []).
    repeat case_match; simplify_eq; repeat split; cbn; eauto using app_nil_r; try (eexists; by rewrite app_nil_r);
      eexists; by rewrite take_drop.
Qed.

(** *** The scratch buffer *)

(** [n] reads in a row, whatever they return: how many of them reallocated the
    scratch buffer, and the connection afterwards. *)
Fixpoint reads (n : nat) (c : Conn) : nat * Conn :=
  match n with
  | O => (0%nat, c)
  | S n =>
      let c' := (ReadMessage c).2 in
      let '(g, c'') := reads n c' in
      (((if (readCap c' =? readCap c)%Z then 0 else 1) + g)%nat, c'')
  end.

Lemma ReadMessage_readCap c : 0 < readCap c →
  let k := readCap (ReadMessage c).2 in k = readCap c ∨ 2 * readCap c <= k ∧ k < 2 * maxMsg.
Proof.
  intros Hc. rewrite maxMsg_eq. unfold ReadMessage, mbind, prog_bind, Peek, Discard, ReadFull, gets, modify, throw, mret, prog_ret.
  rewrite maxMsg_eq. repeat (case_match; simplify_eq; cbn [snd readCap set_inbound set_readCap] in *; try by left);
    try (left; congruence); right; lia.
Qed.

(** C32. However many messages a server sends, and whatever they announce, the
    scratch buffer stays under 512 MiB and is reallocated at most 15 times. *)
Theorem read_buffer_bounded n c : readCap c = minRead →
  let '(g, c') := reads n c in minRead <= readCap c' < 2 * maxMsg ∧ (g <= 15)%nat.
Proof.
  intros Hc. assert (∀ n c, 0 < readCap c < 2 * maxMsg → let '(g, c') := reads n c in
    readCap c * 2 ^ Z.of_nat g <= readCap c' < 2 * maxMsg) as H.
  { clear. induction n as [|n IH]; intros c Hc; cbn [reads]; [rewrite Z.mul_1_r; lia|].
    pose proof (ReadMessage_readCap c ltac:(lia)) as Hk. cbv zeta in Hk. set (c1 := (ReadMessage c).2) in *.
    specialize (IH c1 ltac:(lia)). destruct (reads n c1) as [g c2]. destruct (Z.eqb_spec (readCap c1) (readCap c)) as [E|E].
    - rewrite E in IH. exact IH.
    - rewrite Nat2Z.inj_add, Z.pow_add_r by lia. change (2 ^ Z.of_nat 1) with 2. destruct Hk as [Hk|Hk]; [done|]. nia. }
  specialize (H n c). rewrite Hc in H. destruct (reads n c) as [g c']. change minRead with (2 ^ 13) in *. rewrite maxMsg_eq in *.
  specialize (H ltac:(lia)). destruct H as [H1 H2]. split.
  - split; [|lia]. pose proof (Z.pow_pos_nonneg 2 (Z.of_nat g) ltac:(lia) ltac:(lia)). nia.
  - destruct (Nat.leb_spec g 15) as [|Hg]; [done|]. exfalso.
    assert (2 ^ 16 <= 2 ^ Z.of_nat g) by (apply Z.pow_le_mono_r; lia). lia.
Qed.

Lemma read_buffer_bounded_witness :
  let '(g, c') := reads 2 (NewSized (frame "D"%byte (repeat x00 (Z.to_nat 10000)) ++ frame "D"%byte (repeat x00 (Z.to_nat 20000))) None 4096) in
  minRead <= readCap c' < 2 * maxMsg ∧ (g <= 15)%nat.
Proof. apply read_buffer_bounded. reflexivity. Defined.
