(* ===== verification/Rows.v ===== *)
(** internal/rows: the plan compiled from a RowDescription (plan.go) and the
    row loops that turn a DataRow into JSON or TOON (datarow.go, toon.go). *)
From S2P Require Import Prelude Protocol JsonWriter JsonGrammar Encoders Errors.

(** ** plan.go *)

Record Column := mkColumn {
  Name : bytes;
  TableOID : Z;
  AttrNum : Z;
  TypeOID : OID;
  TypeMod : Z;
  TypeLen : Z;
  Format : Z;
  ColEncoder : Encoder;
  KeyPrefix : bytes;
  KeyPrefixComma : bytes
}.

Record Plan := mkPlan {
  Columns : list Column;
  ColumnsArrayHeader : bytes;
  TOONHeader : bytes
}.

Definition indexZero (b : bytes) : option nat := index_zero b.

(** [for i, c := range cols { if i > 0 { buf = append(buf, ',') }; ... }] *)
Fixpoint sep_loop (f : bytes → Column → bytes) (i : nat) (buf : bytes) (cols : list Column) : bytes :=
  match cols with
  | [] => buf
  | c :: cols =>
      let buf := if (0 <? i)%nat then buf ++ [","%byte] else buf in
      sep_loop f (S i) (f buf c) cols
  end.

Definition buildColumnsHeader (cols : list Column) : bytes :=
  let buf := "{"%byte :: dquote :: str "columns" ++ [dquote; ":"%byte; "["%byte] in
  let buf := sep_loop (λ buf c, AppendString buf (Name c)) 0 buf cols in
  buf ++ ["]"%byte; ","%byte; dquote] ++ str "rows" ++ [dquote; ":"%byte; "["%byte].

Definition nameNeedsQuote (s : bytes) : bool :=
  match s with
  | [] => true
  | _ => existsb (λ c, (byteZ c <=? 32) || beq c ","%byte || beq c dquote || beq c bslash ||
                       beq c "{"%byte || beq c "}"%byte || beq c "["%byte || beq c "]"%byte) s
  end.

Definition buildTOONHeader (cols : list Column) : bytes :=
  let buf := ["["%byte; "?"%byte; "]"%byte; "{"%byte] in
  let buf := sep_loop (λ buf c, if nameNeedsQuote (Name c) then AppendString buf (Name c) else buf ++ Name c)
               0 buf cols in
  buf ++ ["}"%byte; x0a].

(** One iteration of ParseRowDescription's loop: a column and the rest. *)
Definition parse_column (body : bytes) : gerror + (Column * bytes) :=
  match indexZero body with
  | None => inl (EFmt "rows: unterminated column name" [])
  | Some e =>
      let name := take e body in
      let body := drop (S e) body in
      if Zlen body <? 18 then inl (EFmt "rows: short column descriptor" [])
      else
        let oid := be_get (slice 6 10 body) in
        let prefix := AppendKey [] name in
        inr ({| Name := name;
                TableOID := be_get (slice 0 4 body);
                AttrNum := int16 (be_get (slice 4 6 body));
                TypeOID := oid;
                TypeLen := int16 (be_get (slice 10 12 body));
                TypeMod := int32 (be_get (slice 12 16 body));
                Format := int16 (be_get (slice 16 18 body));
                ColEncoder := Pick oid;
                KeyPrefix := prefix;
                KeyPrefixComma := ","%byte :: prefix |}, drop 18 body)
  end.

Fixpoint parse_columns (n : nat) (body : bytes) : gerror + list Column :=
  match n with
  | O => inr []
  | S n =>
      match parse_column body with
      | inl e => inl e
      | inr (c, body) =>
          match parse_columns n body with inl e => inl e | inr cs => inr (c :: cs) end
      end
  end.

Definition ParseRowDescription (body : bytes) : gerror + Plan :=
  if Zlen body <? 2 then inl (EFmt "rows: short RowDescription" [])
  else
    let n := int16 (be_get (slice 0 2 body)) in
    if n <? 0 then inl (EFmt "rows: negative field count" [n])
    else
      match parse_columns (Z.to_nat n) (drop 2 body) with
      | inl e => inl e
      | inr cols => inr (mkPlan cols (buildColumnsHeader cols) (buildTOONHeader cols))
      end.

Definition set_format (f : Z) (binaryNumeric : bool) (c : Column) : Column :=
  let enc := if f =? 1 then
               match PickBinaryEx (TypeOID c) binaryNumeric with
               | Some be => be
               | None => EncodeOpaqueBinary
               end
             else Pick (TypeOID c) in
  mkColumn (Name c) (TableOID c) (AttrNum c) (TypeOID c) (TypeMod c) (TypeLen c) f enc
    (KeyPrefix c) (KeyPrefixComma c).

(** The format code of column [i]. *)
Definition format_at (formats : list Z) (ncols i : nat) : Z :=
  if (length formats =? 1)%nat then nth 0 formats 0
  else if (length formats =? ncols)%nat then nth i formats 0
  else 0.

Definition ApplyFormatsEx (p : Plan) (formats : list Z) (binaryNumeric : bool) : Plan :=
  let ncols := length (Columns p) in
  mkPlan (imap (λ i c, set_format (format_at formats ncols i) binaryNumeric c) (Columns p))
    (ColumnsArrayHeader p) (TOONHeader p).
Definition ApplyFormats (p : Plan) (formats : list Z) : Plan := ApplyFormatsEx p formats false.

Definition ParseRowDescriptionForFormats (body : bytes) (formats : list Z) : gerror + Plan :=
  match ParseRowDescription body with
  | inl e => inl e
  | inr p => inr (ApplyFormats p formats)
  end.

Definition PickResultFormatsEx (cols : list Column) (binaryNumeric : bool) : list Z :=
  (λ c, if HasBinaryEx (TypeOID c) binaryNumeric then 1 else 0) <$> cols.
Definition PickResultFormats (cols : list Column) : list Z := PickResultFormatsEx cols false.

(** ** datarow.go, toon.go *)

Definition errShortDataRow : gerror := EFmt "rows: short DataRow" [].
Definition errShortColumnHeader : gerror := EFmt "rows: short column header" [].

(** The cell read, inlined in each of the source's row loops. *)
Definition next_cell (body : bytes) : gerror + (option bytes * bytes) :=
  if Zlen body <? 4 then inl errShortColumnHeader
  else
    let l := int32 (be_get (take 4 body)) in
    let body := drop 4 body in
    if l =? -1 then inr (None, body)
    else if (l <? 0) || (Zlen body <? l) then inl (EFmt "rows: bad column length" [l])
    else inr (Some (take (Z.to_nat l) body), drop (Z.to_nat l) body).

(** The loop of AppendObject, AppendArray and AppendTOONRow; [emit i c dst raw]
    is what the body does with a cell once it is read. *)
Fixpoint row_loop (emit : nat → Column → bytes → option bytes → bytes) (i : nat) (cols : list Column)
    (dst body : bytes) : bytes * option gerror :=
  match cols with
  | [] => (dst, None)
  | c :: cols =>
      match next_cell body with
      | inl e => (dst, Some e)
      | inr (raw, body) => row_loop emit (S i) cols (emit i c dst raw) body
      end
  end.

Definition append_row (opening closing : bytes) (emit : nat → Column → bytes → option bytes → bytes)
    (dst body : bytes) (plan : Plan) : bytes * option gerror :=
  let cols := Columns plan in
  if Zlen body <? 2 then (dst, Some errShortDataRow)
  else
    let n := int16 (be_get (take 2 body)) in
    if negb (n =? Zlen cols) then (dst, Some (EFmt "rows: column count mismatch" [n; Zlen cols]))
    else
      match row_loop emit 0 cols (dst ++ opening) (drop 2 body) with
      | (dst, None) => (dst ++ closing, None)
      | r => r
      end.

Definition emit_object (i : nat) (c : Column) (dst : bytes) (raw : option bytes) : bytes :=
  let dst := if (i =? 0)%nat then dst ++ KeyPrefix c else dst ++ KeyPrefixComma c in
  ColEncoder c dst raw.
Definition emit_value (i : nat) (c : Column) (dst : bytes) (raw : option bytes) : bytes :=
  let dst := if (0 <? i)%nat then dst ++ [","%byte] else dst in
  ColEncoder c dst raw.

Definition AppendObject : bytes → bytes → Plan → bytes * option gerror :=
  append_row ["{"%byte] ["}"%byte] emit_object.
Definition AppendArray : bytes → bytes → Plan → bytes * option gerror :=
  append_row ["["%byte] ["]"%byte] emit_value.
Definition AppendTOONRow : bytes → bytes → Plan → bytes * option gerror :=
  append_row [] [x0a] emit_value.

(** ** Specification *)

Definition cell_wire (c : option bytes) : bytes :=
  match c with None => be_put 4 (-1) | Some b => be_put 4 (Zlen b) ++ b end.
Definition data_row (cells : list (option bytes)) : bytes :=
  be_put 2 (Zlen cells) ++ concat (map cell_wire cells).
Definition cell_ok (c : option bytes) : Prop :=
  match c with None => True | Some b => Zlen b < 2 ^ 31 end.

(** The field descriptors a server sends: name, type OID, format code. *)
Record field_desc := { fd_name : bytes; fd_table : Z; fd_att : Z; fd_oid : Z; fd_len : Z; fd_mod : Z; fd_fmt : Z }.
Definition field_wire (f : field_desc) : bytes :=
  fd_name f ++ [x00] ++ be_put 4 (fd_table f) ++ be_put 2 (fd_att f) ++ be_put 4 (fd_oid f) ++
  be_put 2 (fd_len f) ++ be_put 4 (fd_mod f) ++ be_put 2 (fd_fmt f).
Definition row_description (fs : list field_desc) : bytes :=
  be_put 2 (Zlen fs) ++ concat (map field_wire fs).

Definition field_ok (f : field_desc) : Prop :=
  (x00 ∉ fd_name f) ∧ 0 <= fd_table f < 2 ^ 32 ∧ - 2 ^ 15 <= fd_att f < 2 ^ 15 ∧ 0 <= fd_oid f < 2 ^ 32 ∧
  - 2 ^ 15 <= fd_len f < 2 ^ 15 ∧ - 2 ^ 31 <= fd_mod f < 2 ^ 31 ∧ - 2 ^ 15 <= fd_fmt f < 2 ^ 15.

(** The column a field descriptor is compiled to. *)
Definition column_of (f : field_desc) : Column :=
  let key := dquote :: escape (fd_name f) ++ [dquote; ":"%byte] in
  mkColumn (fd_name f) (fd_table f) (fd_att f) (fd_oid f) (fd_mod f) (fd_len f) (fd_fmt f)
    (Pick (fd_oid f)) key (","%byte :: key).

(** A column as the plan functions build them: its key prefixes come from its
    name and its encoder only appends. *)
Record column_wf (c : Column) : Prop := {
  cw_key : KeyPrefix c = dquote :: escape (Name c) ++ [dquote; ":"%byte];
  cw_comma : KeyPrefixComma c = ","%byte :: KeyPrefix c;
  cw_enc : AppendEncoder (ColEncoder c)
}.

Record plan_wf (p : Plan) : Prop := {
  pw_cols : Forall column_wf (Columns p);
  pw_header : ColumnsArrayHeader p = buildColumnsHeader (Columns p);
  pw_toon : TOONHeader p = buildTOONHeader (Columns p)
}.

Definition member (c : Column) (raw : option bytes) : bytes :=
  dquote :: escape (Name c) ++ [dquote; ":"%byte] ++ ColEncoder c [] raw.
Definition object_text (cols : list Column) (cells : list (option bytes)) : bytes :=
  "{"%byte :: join [","%byte] (zip_with member cols cells) ++ ["}"%byte].
Definition value_text (cols : list Column) (cells : list (option bytes)) : bytes :=
  join [","%byte] (zip_with (λ c raw, ColEncoder c [] raw) cols cells).

(** ** Lemmas: reading cells *)

Lemma next_cell_wire raw rest : cell_ok raw → next_cell (cell_wire raw ++ rest) = inr (raw, rest).
Proof.
  intros H. unfold next_cell, cell_wire. pose proof (Zlen_nonneg rest). destruct raw as [b|]; cbn in H.
  - pose proof (Zlen_nonneg b). rewrite <- app_assoc, Zlen_app. change (Zlen (be_put 4 (Zlen b))) with 4.
    rewrite Zlen_app. destruct (Z.ltb_spec (4 + (Zlen b + Zlen rest)) 4); [lia|].
    rewrite take_app_len, drop_app_len by apply length_be_put. rewrite int32_get_put. unfold int32.
    rewrite wraps_small, Zlen_app by lia. destruct (Z.eqb_spec (Zlen b) (-1)); [lia|].
    destruct (Z.ltb_spec (Zlen b) 0); [lia|]. destruct (Z.ltb_spec (Zlen b + Zlen rest) (Zlen b)); [lia|].
    cbn [orb]. unfold Zlen. by rewrite Nat2Z.id, take_app_length, drop_app_length.
  - rewrite Zlen_app. change (Zlen (be_put 4 (-1))) with 4. destruct (Z.ltb_spec (4 + Zlen rest) 4); [lia|].
    rewrite take_app_len, drop_app_len by apply length_be_put. done.
Qed.

(** Conversely what is read as a cell is a cell on the wire. *)
Lemma next_cell_inv body raw rest : next_cell body = inr (raw, rest) → body = cell_wire raw ++ rest ∧ cell_ok raw.
Proof.
  unfold next_cell. destruct (Z.ltb_spec (Zlen body) 4); [done|].
  destruct body as [|b1 [|b2 [|b3 [|b4 body]]]]; try (unfold Zlen in *; simpl in *; lia).
  change (take 4 _) with ([b1; b2; b3; b4]). change (drop 4 _) with body.
  set (l := int32 (be_get [b1; b2; b3; b4])).
  assert ([b1; b2; b3; b4] = be_put 4 l) as Hl.
  { rewrite <- (be_put_get [b1; b2; b3; b4]) at 1. unfold l, int32, wraps. cbn [length].
    rewrite <- (be_put_mod 4 (be_get _)), <- (be_put_mod 4 (_ - _)). f_equal.
    change (256 ^ Z.of_nat 4) with (2 ^ 32). rewrite Zminus_mod_idemp_l. f_equal. lia. }
  destruct (Z.eqb_spec l (-1)) as [E|E].
  - intros [= <- <-]. cbn [cell_wire]. rewrite <- E, <- Hl. done.
  - destruct (Z.ltb_spec l 0); [done|]. destruct (Z.ltb_spec (Zlen body) l); [done|].
    intros [= <- <-]. cbn [cell_wire cell_ok].
    assert (Zlen (take (Z.to_nat l) body) = l) as ->
      by (unfold Zlen in *; rewrite length_take; lia).
    split; [|unfold l, int32; pose proof (wraps_range 32 (be_get [b1; b2; b3; b4])); lia].
    rewrite <- Hl, <- app_assoc, take_drop. done.
Qed.

(** What a row loop does on the cells of a row, by their texts. *)
Fixpoint emits (emit : nat → Column → bytes → option bytes → bytes) (i : nat) (cols : list Column)
    (cells : list (option bytes)) (dst : bytes) : bytes :=
  match cols, cells with
  | c :: cols, raw :: cells => emits emit (S i) cols cells (emit i c dst raw)
  | _, _ => dst
  end.

Lemma row_loop_wire emit cols cells i dst rest :
  length cols = length cells → Forall cell_ok cells →
  row_loop emit i cols dst (concat (map cell_wire cells) ++ rest) = (emits emit i cols cells dst, None).
Proof.
  revert cells i dst. induction cols as [|c cols IH]; intros [|raw cells] i dst Hl Hok; try done.
  apply Forall_cons in Hok as [H1 H2]. cbn [row_loop map concat emits]. rewrite <- app_assoc, next_cell_wire by done.
  apply IH; [by injection Hl|done].
Qed.

Lemma row_loop_inv emit cols i dst body out :
  row_loop emit i cols dst body = (out, None) →
  ∃ cells rest, body = concat (map cell_wire cells) ++ rest ∧ length cells = length cols ∧ Forall cell_ok cells.
Proof.
  revert i dst body. induction cols as [|c cols IH]; intros i dst body H; cbn in H.
  - by exists [], body.
  - destruct (next_cell body) as [e|[raw body']] eqn:E; [done|]. apply next_cell_inv in E as [-> Hr].
    destruct (IH _ _ _ H) as (cells & rest & -> & Hl & Hc). exists (raw :: cells), rest.
    cbn [map concat length]. rewrite <- app_assoc, Hl. split; [done|]. split; [done|]. by constructor.
Qed.

Lemma emits_value cols cells i dst : Forall column_wf cols → length cols = length cells →
  emits emit_value i cols cells dst =
  dst ++ (if (0 <? i)%nat then concat (map (app [","%byte]) (zip_with (λ c raw, ColEncoder c [] raw) cols cells))
          else value_text cols cells).
Proof.
  intros Hw. revert cells i dst. induction Hw as [|c cols Hc Hw IH]; intros [|raw cells] i dst Hl; try done.
  - cbn. destruct i; by rewrite app_nil_r.
  - cbn [emits]. rewrite IH by (by injection Hl). cbn [Nat.ltb Nat.leb]. unfold emit_value, value_text.
    cbn [zip_with]. rewrite join_cons. pose proof (cw_enc _ Hc).
    destruct i; cbn [Nat.ltb Nat.leb map concat]; rewrite (enc_app (e := ColEncoder c)), <- !app_assoc; done.
Qed.

Lemma emits_object cols cells i dst : Forall column_wf cols → length cols = length cells →
  emits emit_object i cols cells dst =
  dst ++ (if (0 <? i)%nat then concat (map (app [","%byte]) (zip_with member cols cells))
          else join [","%byte] (zip_with member cols cells)).
Proof.
  intros Hw. revert cells i dst. induction Hw as [|c cols Hc Hw IH]; intros [|raw cells] i dst Hl; try done.
  - cbn. destruct i; by rewrite app_nil_r.
  - cbn [emits]. rewrite IH by (by injection Hl). cbn [Nat.ltb Nat.leb]. unfold emit_object.
    cbn [zip_with]. rewrite join_cons. pose proof (cw_enc _ Hc).
    assert (∀ d, ColEncoder c (d ++ KeyPrefix c) raw = d ++ member c raw) as Hm.
    { intros d. rewrite (enc_app (e := ColEncoder c)), (cw_key _ Hc). unfold member.
      rewrite <- app_assoc. cbn [app]. by rewrite <- app_assoc. }
    destruct i; cbn [Nat.eqb Nat.ltb Nat.leb map concat].
    + by rewrite Hm, <- app_assoc.
    + rewrite (cw_comma _ Hc). change (","%byte :: KeyPrefix c) with ([","%byte] ++ KeyPrefix c).
      by rewrite (app_assoc dst), Hm, <- !app_assoc.
Qed.

Lemma append_row_wire opening closing emit dst plan cells rest :
  length (Columns plan) = length cells → Forall cell_ok cells → Zlen cells < 2 ^ 15 →
  append_row opening closing emit dst (data_row cells ++ rest) plan =
  (emits emit 0 (Columns plan) cells (dst ++ opening) ++ closing, None).
Proof.
  intros Hl Hok Hn. unfold append_row, data_row. pose proof (Zlen_nonneg cells).
  rewrite <- app_assoc, Zlen_app. change (Zlen (be_put 2 (Zlen cells))) with 2.
  pose proof (Zlen_nonneg (concat (map cell_wire cells) ++ rest)).
  destruct (Z.ltb_spec (2 + Zlen (concat (map cell_wire cells) ++ rest)) 2); [lia|].
  rewrite take_app_len, drop_app_len by apply length_be_put. rewrite int16_get_put. unfold int16.
  rewrite wraps_small by lia. assert (Zlen (Columns plan) = Zlen cells) as -> by (unfold Zlen; by rewrite Hl).
  rewrite Z.eqb_refl. cbn [negb]. by rewrite row_loop_wire.
Qed.

(** A row is accepted exactly when it starts with as many cells as the plan
    has columns. *)
Lemma append_row_inv opening closing emit dst plan body out :
  append_row opening closing emit dst body plan = (out, None) →
  ∃ cells rest, body = data_row cells ++ rest ∧ length cells = length (Columns plan) ∧
    Forall cell_ok cells ∧ Zlen cells < 2 ^ 15.
Proof.
  unfold append_row. destruct (Z.ltb_spec (Zlen body) 2); [done|].
  destruct body as [|b1 [|b2 body]]; try (unfold Zlen in *; simpl in *; lia).
  change (take 2 _) with [b1; b2]. change (drop 2 _) with body.
  destruct (Z.eqb_spec (int16 (be_get [b1; b2])) (Zlen (Columns plan))) as [E|]; [|done]. cbn [negb].
  destruct (row_loop _ _ _ _ _) as [d [e|]] eqn:Er; [done|]. intros _.
  apply row_loop_inv in Er as (cells & rest & -> & Hl & Hok).
  exists cells, rest. assert (Zlen (Columns plan) = Zlen cells) as Hz by (unfold Zlen; by rewrite Hl).
  rewrite Hz in E. pose proof (wraps_range 16 (be_get [b1; b2]) ltac:(lia)) as Hr. unfold int16 in E. change (16 - 1) with 15 in Hr.
  rewrite E in Hr.
  split; [|repeat split; [done|done|lia]]. unfold data_row. rewrite <- E, <- app_assoc.
  change (b1 :: b2 :: ?k) with ([b1; b2] ++ k). f_equal.
  rewrite <- (be_put_get [b1; b2]) at 1. unfold wraps. cbn [length].
  rewrite <- (be_put_mod 2 (be_get _)), <- (be_put_mod 2 (_ - _)). f_equal.
  change (256 ^ Z.of_nat 2) with (2 ^ 16). rewrite Zminus_mod_idemp_l. f_equal. rewrite app_nil_r. lia.
Qed.

(** *** Plans *)

Lemma AppendKey_eq name : AppendKey [] name = dquote :: escape name ++ [dquote; ":"%byte].
Proof. unfold AppendKey. rewrite AppendString_escape, app_nil_l. cbn [app]. by rewrite <- app_assoc. Qed.

Lemma parse_column_wire f rest : field_ok f → parse_column (field_wire f ++ rest) = inr (column_of f, rest).
Proof.
  intros (Hn & Ht & Ha & Ho & Hl & Hm & Hf). unfold parse_column, indexZero.
  assert (field_wire f ++ rest = fd_name f ++ x00 :: (be_put 4 (fd_table f) ++ be_put 2 (fd_att f) ++
    be_put 4 (fd_oid f) ++ be_put 2 (fd_len f) ++ be_put 4 (fd_mod f) ++ be_put 2 (fd_fmt f)) ++ rest) as ->
    by (unfold field_wire; by rewrite <- !app_assoc).
  rewrite index_zero_app by done. cbv zeta. rewrite take_app_length, drop_S_app.
  set (d := be_put 4 (fd_table f) ++ _). assert (Zlen (d ++ rest) = 18 + Zlen rest) as -> by (rewrite Zlen_app; done).
  pose proof (Zlen_nonneg rest). destruct (Z.ltb_spec (18 + Zlen rest) 18); [lia|].
  change (slice 6 10 (d ++ rest)) with (be_put 4 (fd_oid f)). change (slice 0 4 (d ++ rest)) with (be_put 4 (fd_table f)).
  change (slice 4 6 (d ++ rest)) with (be_put 2 (fd_att f)). change (slice 10 12 (d ++ rest)) with (be_put 2 (fd_len f)).
  change (slice 12 16 (d ++ rest)) with (be_put 4 (fd_mod f)). change (slice 16 18 (d ++ rest)) with (be_put 2 (fd_fmt f)).
  change (drop 18 (d ++ rest)) with rest. rewrite !int16_get_put, int32_get_put, AppendKey_eq.
  rewrite !be_get_put_small by (change (256 ^ Z.of_nat 4) with (2 ^ 32); lia).
  unfold int16, int32. rewrite !wraps_small by lia. done.
Qed.

Lemma parse_columns_wire fs rest : Forall field_ok fs →
  parse_columns (length fs) (concat (map field_wire fs) ++ rest) = inr (map column_of fs).
Proof.
  induction 1 as [|f fs Hf _ IH]; [done|]. cbn [length parse_columns map concat].
  rewrite <- app_assoc, parse_column_wire by done. by rewrite IH.
Qed.

Lemma Pick_append o : AppendEncoder (Pick o).
Proof. unfold Pick. repeat case_match; apply _. Qed.

Lemma parse_columns_wf n body cols : parse_columns n body = inr cols → Forall column_wf cols ∧ length cols = n.
Proof.
  revert body cols. induction n as [|n IH]; intros body cols H; cbn in H; [by simplify_eq|].
  destruct (parse_column body) as [e|[c b]] eqn:E; [done|].
  destruct (parse_columns n b) as [e|cs] eqn:Ec; [done|]. simplify_eq.
  destruct (IH _ _ Ec) as [H1 H2]. split; [|by rewrite <- H2]. constructor; [|done].
  unfold parse_column in E. destruct (indexZero body); [|done]. destruct (_ <? 18); [done|]. simplify_eq.
  split; cbn; [apply AppendKey_eq|done|apply Pick_append].
Qed.

Lemma ParseRowDescription_wf body p : ParseRowDescription body = inr p → plan_wf p.
Proof.
  unfold ParseRowDescription. intros H. repeat case_match; simplify_eq.
  split; cbn; [|done|done]. by eapply parse_columns_wf.
Qed.

Lemma arrayEncoder_append e : AppendEncoder e → AppendEncoder (arrayEncoder e).
Proof.
  intros He.
  assert (∀ dims dst body, ∃ o n ok, appendArrayDim e dims dst body = (dst ++ o, n, ok) ∧
    ∀ d, appendArrayDim e dims d body = (d ++ o, n, ok)) as Ha.
  { assert (∀ step : bytes → bytes → bytes * nat * bool,
      (∀ body, ∃ o n ok, ∀ d, step d body = (d ++ o, n, ok)) →
      ∀ k i body c, ∃ o n ok, ∀ d, array_loop step k i d body c = (d ++ o, n, ok)) as Hloop.
    { intros step Hs. induction k as [|k IH]; intros i body c; cbn [array_loop]; [by eexists _, _, _|].
      destruct (Hs (drop c body)) as (o & n & ok & Ho). destruct ok.
      - destruct (IH (S i) body (c + n)%nat) as (o' & n' & ok' & Ho').
        destruct (0 <? i)%nat; eexists _, n', ok'; intros d; rewrite Ho, Ho', <- !app_assoc; done.
      - destruct (0 <? i)%nat; eexists _, (c + n)%nat, false; intros d; rewrite Ho, <- ?app_assoc; done. }
    assert (∀ body, ∃ o n ok, ∀ d, array_leaf e d body = (d ++ o, n, ok)) as Hleaf.
    { intros body. unfold array_leaf.
      destruct (Zlen body <? 4); [exists [], 0%nat, false; intros d; by rewrite app_nil_r|].
      cbv zeta. destruct (_ <? 0); [by exists (str "null"), 4%nat, true|].
      destruct (_ <? _); [exists [], 4%nat, false; intros d; by rewrite app_nil_r|].
      eexists _, _, _. intros d. by rewrite enc_app. }
    assert (∀ dims body, ∃ o n ok, ∀ d, appendArrayDim e dims d body = (d ++ o, n, ok)) as H.
    { induction dims as [|s dims IH]; intros body; cbn [appendArrayDim].
      - exists [], 0%nat, false. intros d. by rewrite app_nil_r.
      - destruct (Hloop (match dims with [] => array_leaf e | _ => appendArrayDim e dims end)
          ltac:(destruct dims; [exact Hleaf|exact IH]) (Z.to_nat s) 0%nat body 0%nat) as (o & n & ok & Ho).
        eexists _, n, ok. intros d. rewrite Ho, <- app_assoc. done. }
    intros dims dst body. destruct (H dims body) as (o & n & ok & Ho). by exists o, n, ok. }
  split; [done|]. intros dst [raw|]; [|done]. unfold arrayEncoder.
  repeat match goal with
  | |- context [if ?b then _ else _] => lazymatch b with negb ?ok => fail | _ => destruct b; [by app_done|] end
  end.
  destruct (array_dims _ _) as [dims|]; [|app_done].
  destruct (Ha dims dst (drop (Z.to_nat (12 + int32 (be_get (slice 0 4 raw)) * 8)) raw)) as (o & n & ok & -> & H).
  rewrite (H []). destruct ok; app_done.
Qed.

Lemma pickScalarBinary_append o bn e : pickScalarBinary o bn = Some e → AppendEncoder e.
Proof.
  unfold pickScalarBinary. intros H. repeat match type of H with
  | context [if ?b then _ else _] => destruct b; [try (simplify_eq; apply _)|try done]
  end. simplify_eq. apply _.
Qed.

Lemma PickBinaryEx_append o bn e : PickBinaryEx o bn = Some e → AppendEncoder e.
Proof.
  unfold PickBinaryEx, makeArrayBinaryEncoder. destruct (pickScalarBinary o bn) eqn:E.
  - intros [= <-]. by apply pickScalarBinary_append in E.
  - intros H. repeat case_match; try done. simplify_eq.
    apply arrayEncoder_append. by eapply pickScalarBinary_append.
Qed.

Lemma set_format_wf f bn c : column_wf c → column_wf (set_format f bn c).
Proof.
  intros [H1 H2 H3]. split; [done|done|]. unfold set_format. cbn.
  repeat case_match; [by eapply PickBinaryEx_append|apply _|apply Pick_append].
Qed.

Lemma sep_loop_ext f i buf cols cols' :
  (∀ b c c', Name c = Name c' → f b c = f b c') → map Name cols = map Name cols' →
  sep_loop f i buf cols = sep_loop f i buf cols'.
Proof.
  intros Hf. revert i buf cols'. induction cols as [|c cols IH]; intros i buf [|c' cols'] H; try done.
  cbn in *. injection H as H1 H2. rewrite (Hf _ c c' H1). by apply IH.
Qed.

Lemma ApplyFormatsEx_wf p fmts bn : plan_wf p → plan_wf (ApplyFormatsEx p fmts bn).
Proof.
  intros [H1 H2 H3].
  assert (∀ g : nat → Column → Column, (∀ i c, Name (g i c) = Name c) → ∀ cols,
    map Name (imap g cols) = map Name cols) as Hn.
  { intros g Hg cols. revert g Hg. induction cols as [|c cols IH]; intros g Hg; [done|].
    rewrite imap_cons. cbn [map]. rewrite Hg. f_equal. apply IH. intros; apply Hg. }
  split; cbn.
  - apply Forall_lookup. intros i c Hc. rewrite list_lookup_imap in Hc.
    destruct (Columns p !! i) as [c'|] eqn:E; [|done]. cbn in Hc. simplify_eq.
    apply set_format_wf. by apply (Forall_lookup_1 _ _ _ _ H1 E).
  - rewrite H2. unfold buildColumnsHeader. f_equal. apply sep_loop_ext; [|by rewrite Hn].
    by intros b c c' ->.
  - rewrite H3. unfold buildTOONHeader. f_equal. apply sep_loop_ext; [|by rewrite Hn].
    by intros b c c' ->.
Qed.

(** The JSON header of the columnar form. *)
Lemma sep_loop_join f g cols i buf : (∀ b c, f b c = b ++ g c) →
  sep_loop f i buf cols =
  buf ++ (if (0 <? i)%nat then concat (map (app [","%byte]) (map g cols)) else join [","%byte] (map g cols)).
Proof.
  intros Hf. revert i buf. induction cols as [|c cols IH]; intros i buf; cbn [sep_loop map].
  - destruct i; cbn; by rewrite app_nil_r.
  - rewrite IH, Hf, join_cons. destruct i; cbn [Nat.ltb Nat.leb map concat]; by rewrite <- !app_assoc.
Qed.

Definition name_text (c : Column) : bytes := dquote :: escape (Name c) ++ [dquote].

Lemma buildColumnsHeader_eq cols :
  buildColumnsHeader cols = "{"%byte :: dquote :: str "columns" ++ [dquote; ":"%byte; "["%byte] ++
    join [","%byte] (map name_text cols) ++
    ["]"%byte; ","%byte; dquote] ++ str "rows" ++ [dquote; ":"%byte; "["%byte].
Proof.
  unfold buildColumnsHeader. rewrite (sep_loop_join _ name_text).
  - cbn [Nat.ltb Nat.leb app]. by rewrite <- !app_assoc.
  - intros b c. by rewrite AppendString_escape.
Qed.

(** C30. For any plan the driver builds and any DataRow body: a row with as
    many cells as columns is rendered as the JSON object of its members (and
    as the array, or the TOON line, of its values), in column order, with
    nothing dropped or duplicated; and a body is accepted only when it starts
    with exactly such a row. *)
Theorem row_exact (plan : Plan) (dst body : bytes) (Hp : plan_wf plan) :
  (∀ cells rest, body = data_row cells ++ rest → length (Columns plan) = length cells →
     Forall cell_ok cells → Zlen cells < 2 ^ 15 →
     AppendObject dst body plan = (dst ++ object_text (Columns plan) cells, None) ∧
     AppendArray dst body plan = (dst ++ "["%byte :: value_text (Columns plan) cells ++ ["]"%byte], None) ∧
     AppendTOONRow dst body plan = (dst ++ value_text (Columns plan) cells ++ [x0a], None)) ∧
  (∀ out, AppendObject dst body plan = (out, None) ∨ AppendArray dst body plan = (out, None) ∨
          AppendTOONRow dst body plan = (out, None) →
     ∃ cells rest, body = data_row cells ++ rest ∧ length cells = length (Columns plan) ∧
       Forall cell_ok cells ∧ Zlen cells < 2 ^ 15).
Proof.
  destruct Hp as [Hc _ _]. split.
  - intros cells rest -> Hl Hok Hn. unfold AppendObject, AppendArray, AppendTOONRow.
    rewrite !append_row_wire, emits_object, !emits_value by done. cbn [Nat.ltb Nat.leb].
    unfold object_text. rewrite <- !app_assoc. done.
  - intros out [H|[H|H]]; by eapply append_row_inv.
Qed.

Definition demo_plan : Plan :=
  let cols := map column_of [{| fd_name := str "id"; fd_table := 0; fd_att := 0; fd_oid := 23;
                                fd_len := 4; fd_mod := -1; fd_fmt := 0 |}] in
  mkPlan cols (buildColumnsHeader cols) (buildTOONHeader cols).

Lemma demo_plan_wf : plan_wf demo_plan.
Proof.
  split; [|done|done]. repeat constructor. apply Pick_append.
Qed.

Lemma row_exact_witness :
  AppendObject [] (data_row [Some (str "42")] ++ []) demo_plan = ([] ++ str "{" ++ [dquote] ++ str "id" ++ [dquote] ++ str ":42}", None).
Proof.
  apply (proj1 (row_exact demo_plan [] (data_row [Some (str "42")] ++ []) demo_plan_wf) [Some (str "42")] []);
    [reflexivity|reflexivity|repeat constructor|reflexivity].
Defined.

(** The JSON of a row whose cells are encoded as JSON. *)
Lemma object_text_json cols cells : length cols = length cells →
  Forall2 (λ c raw, jvalue (ColEncoder c [] raw)) cols cells → jvalue (object_text cols cells).
Proof.
  intros _ H.
  pose (kvs := zip_with (λ c raw, (escape (Name c), ColEncoder c [] raw)) cols cells).
  assert (object_text cols cells = "{"%byte :: join [","%byte]
    ((λ kv : bytes * bytes, dquote :: kv.1 ++ [dquote; ":"%byte] ++ kv.2) <$> kvs) ++ ["}"%byte]) as ->.
  { unfold object_text, kvs. do 3 f_equal. clear. revert cells.
    induction cols as [|c cols IH]; intros [|raw cells]; cbn; try done. f_equal. apply IH. }
  apply jv_object; unfold kvs; clear kvs; induction H; constructor; eauto; apply jbody_escape.
Qed.

Lemma value_text_json cols cells :
  Forall2 (λ c raw, jvalue (ColEncoder c [] raw)) cols cells →
  jvalue ("["%byte :: value_text cols cells ++ ["]"%byte]).
Proof.
  intros H. apply jv_array. induction H; constructor; eauto.
Qed.

(** A RowDescription of any fields with NUL-free names compiles to exactly
    those columns, text encoders and prebuilt keys, and whatever body is
    accepted yields a well-formed plan with as many columns as announced. *)
Theorem rowdesc_roundtrip (fs : list field_desc) (rest body : bytes) (p : Plan)
  (Hfs : Forall field_ok fs) (Hn : Zlen fs < 2 ^ 15) (Hb : ParseRowDescription body = inr p) :
  ParseRowDescription (row_description fs ++ rest) =
    inr (mkPlan (map column_of fs) (buildColumnsHeader (map column_of fs)) (buildTOONHeader (map column_of fs))) ∧
  plan_wf p ∧ Zlen (Columns p) = int16 (be_get (slice 0 2 body)).
Proof.
  split; [|split; [by eapply ParseRowDescription_wf|]].
  - unfold ParseRowDescription, row_description. rewrite <- app_assoc, Zlen_app.
    change (Zlen (be_put 2 (Zlen fs))) with 2. pose proof (Zlen_nonneg (concat (map field_wire fs) ++ rest)).
    pose proof (Zlen_nonneg fs).
    destruct (Z.ltb_spec (2 + Zlen (concat (map field_wire fs) ++ rest)) 2); [lia|].
    change (slice 0 2 (be_put 2 (Zlen fs) ++ _)) with (be_put 2 (Zlen fs)).
    rewrite int16_get_put. unfold int16. rewrite wraps_small by lia.
    destruct (Z.ltb_spec (Zlen fs) 0); [lia|]. rewrite drop_app_len by apply length_be_put.
    unfold Zlen. rewrite Nat2Z.id, parse_columns_wire by done. done.
  - unfold ParseRowDescription in Hb. destruct (Zlen body <? 2); [done|].
    destruct (Z.ltb_spec (int16 (be_get (slice 0 2 body))) 0); [done|].
    destruct (parse_columns _ _) as [e|cols] eqn:E; [done|]. simplify_eq.
    apply parse_columns_wf in E as [_ E]. cbn [Columns]. unfold Zlen at 1. rewrite E. lia.
Qed.

Definition demo_field : field_desc :=
  {| fd_name := str "id"; fd_table := 0; fd_att := 0; fd_oid := 23; fd_len := 4; fd_mod := -1; fd_fmt := 0 |}.

Lemma demo_field_ok : Forall field_ok [demo_field].
Proof.
  constructor; [|constructor]. split; [|cbn; lia]. cbn. intros H.
  repeat (apply elem_of_cons in H as [H|H]; [discriminate|]). by apply elem_of_nil in H.
Qed.

Lemma rowdesc_roundtrip_witness :
  ParseRowDescription (row_description [demo_field] ++ str "x") =
    inr (mkPlan (map column_of [demo_field]) (buildColumnsHeader (map column_of [demo_field]))
           (buildTOONHeader (map column_of [demo_field]))) ∧
  plan_wf (mkPlan [] (buildColumnsHeader []) (buildTOONHeader [])) ∧
  Zlen (Columns (mkPlan [] (buildColumnsHeader []) (buildTOONHeader []))) = int16 (be_get (slice 0 2 (be_put 2 0))).
Proof. apply (rowdesc_roundtrip [demo_field]); [apply demo_field_ok|reflexivity|reflexivity]. Defined.

Lemma nth_map0 {A} (f : A → Z) (l : list A) i a d : l !! i = Some a → nth i (map f l) d = f a.
Proof. revert i. induction l as [|b l IH]; intros [|i] H; cbn in *; simplify_eq; auto. Qed.

(** The formats requested in Bind and the decoders installed for the
    answer agree, column by column: a column asked for in binary is decoded
    by its specialised binary decoder (never by the opaque fallback), every
    other column is asked for in text and decoded by its text encoder. *)
Theorem formats_agree (p : Plan) (bn : bool) (i : nat) (c : Column) :
  Columns (ApplyFormatsEx p (PickResultFormatsEx (Columns p) bn) bn) !! i = Some c →
  ∃ c0, Columns p !! i = Some c0 ∧ TypeOID c = TypeOID c0 ∧ Name c = Name c0 ∧
    nth i (PickResultFormatsEx (Columns p) bn) 0 = Format c ∧
    ((Format c = 1 ∧ PickBinaryEx (TypeOID c) bn = Some (ColEncoder c)) ∨
     (Format c = 0 ∧ PickBinaryEx (TypeOID c) bn = None ∧ ColEncoder c = Pick (TypeOID c))).
Proof.
  unfold ApplyFormatsEx. cbn [Columns]. rewrite list_lookup_imap. intros H.
  destruct (Columns p !! i) as [c0|] eqn:E; [|done]. cbn in H. injection H as <-.
  set (fmts := PickResultFormatsEx (Columns p) bn).
  assert (length fmts = length (Columns p)) as Hl by (unfold fmts, PickResultFormatsEx; by rewrite length_fmap).
  assert (nth i fmts 0 = (if HasBinaryEx (TypeOID c0) bn then 1 else 0)) as Hn
    by exact (nth_map0 _ _ _ _ _ E).
  assert (format_at fmts (length (Columns p)) i = nth i fmts 0) as Hf.
  { unfold format_at. rewrite Hl, Nat.eqb_refl. destruct (Nat.eqb_spec (length (Columns p)) 1) as [E1|]; [|done].
    apply lookup_lt_Some in E as Hi. by replace i with 0%nat by lia. }
  exists c0. rewrite Hf, Hn. split; [done|]. split; [done|]. split; [done|]. split; [done|].
  unfold HasBinaryEx, set_format. destruct (PickBinaryEx (TypeOID c0) bn) as [be|] eqn:Eb; cbn; rewrite Eb.
  - by left.
  - by right.
Qed.

Lemma formats_agree_witness :
  ∃ c0, Columns demo_plan !! 0%nat = Some c0 ∧ TypeOID c0 = 23 ∧
    nth 0 (PickResultFormatsEx (Columns demo_plan) false) 0 = 1.
Proof.
  destruct (formats_agree demo_plan false 0 (set_format 1 false (column_of demo_field)) eq_refl)
    as (c0 & H1 & H2 & _ & H3 & _).
  exists c0. split; [exact H1|]. split; [symmetry; exact H2|exact H3].
Defined.

(** With the decoders the driver installs, every row of strict types is a JSON
    object whatever the server puts in its cells. *)
Lemma strict_column_json c raw : PickBinaryEx (TypeOID c) false = Some (ColEncoder c) →
  strict_oid (TypeOID c) = true → jvalue (ColEncoder c [] raw).
Proof.
  intros H Ho. pose proof (strict_encoder_json _ _ H Ho). destruct raw as [raw|]; [apply enc_json|].
  rewrite enc_null. constructor.
Qed.
