(* ===== verification/Args.v ===== *)
(** pgz/args.go: the parameter block of a Bind message.  A Go argument of type
    [any] is a value of [goarg]; an unsupported dynamic type is [AOther].  The
    protocol's formats of a value are a table of their own ([arg_value]),
    independent of the code's encoders. *)
From S2P Require Import Prelude Protocol JsonWriter JsonGrammar Float Calendar Numeric Interval Encoders Errors Effects Wire.

Inductive int_kind := KInt | KInt8 | KInt16 | KInt32 | KInt64 | KUint | KUint8 | KUint16 | KUint32 | KUint64.

(** A [time.Time] is its instant, in nanoseconds since 2000-01-01 UTC. *)
Inductive goarg :=
| ANil
| ABool (b : bool)
| AInt (k : int_kind) (v : Z)
| AFloat32 (bits : Z)
| AFloat64 (bits : Z)
| AString (s : bytes)
| ABytes (b : bytes)
| ATime (ns : Z)
| AOther.

(** ** ParameterDescription *)

Fixpoint read_oids (n : nat) (body : bytes) : list OID :=
  match n with O => [] | S n => be_get (take 4 body) :: read_oids n (drop 4 body) end.

Definition parseParamOIDs (body : bytes) : list OID :=
  if Zlen body <? 2 then []
  else
    let n := int16 (be_get (slice 0 2 body)) in
    if (n <=? 0) || (Zlen body <? 2 + 4 * n) then []
    else read_oids (Z.to_nat n) (drop 2 body).

(** ** Choosing the format *)

Definition paramBinary (oid : OID) (v : goarg) : bool :=
  match v with
  | ANil => false
  | _ =>
      if oid =? OIDBool then match v with ABool _ => true | _ => false end
      else if oid_in oid [OIDInt2; OIDInt4; OIDInt8; OIDOID] then match v with AInt _ _ => true | _ => false end
      else if oid_in oid [OIDFloat4; OIDFloat8] then
        match v with AFloat32 _ | AFloat64 _ => true | _ => false end
      else if oid =? OIDBytea then match v with ABytes _ => true | _ => false end
      else if oid_in oid [OIDTimestamp; OIDTimestampTZ] then match v with ATime _ => true | _ => false end
      else false
  end.

Definition toInt64 (v : goarg) : gerror + Z :=
  match v with
  | AInt _ x => inr (int64 x)
  | _ => inl (EFmt "pgz: cannot convert to int64" [])
  end.

(** The result is the bit pattern of a float64. *)
Definition toFloat64 (v : goarg) : gerror + Z :=
  match v with
  | AFloat32 x => inr (convert f32 f64 x)
  | AFloat64 x => inr x
  | _ => inl (EFmt "pgz: cannot convert to float64" [])
  end.

(** [t.UTC().Sub(pgEpoch).Microseconds()]: Sub saturates at the int64 range of
    nanoseconds, Microseconds truncates. *)
Definition epochMicros (ns : Z) : Z :=
  Z.max (- 2 ^ 63) (Z.min (2 ^ 63 - 1) ns) ÷ 1000.

Definition appendParamBinary (oid : OID) (v : goarg) : io unit :=
  if oid =? OIDBool then
    _ ← bInt32 1;
    match v with ABool true => bByte x01 | ABool false => bByte x00 | _ => panic end
  else if oid =? OIDInt2 then
    n ← of_sum (toInt64 v); _ ← bInt32 2; bInt16 (int16 n)
  else if oid_in oid [OIDInt4; OIDOID] then
    n ← of_sum (toInt64 v); _ ← bInt32 4; bInt32 (int32 n)
  else if oid =? OIDInt8 then
    n ← of_sum (toInt64 v); _ ← bInt32 8; _ ← bInt32 (int32 (Z.shiftr n 32)); bInt32 (int32 n)
  else if oid =? OIDFloat4 then
    f ← of_sum (toFloat64 v); _ ← bInt32 4; bInt32 (int32 (convert f64 f32 f))
  else if oid =? OIDFloat8 then
    u ← of_sum (toFloat64 v); _ ← bInt32 8; _ ← bInt32 (int32 (Z.shiftr u 32)); bInt32 (int32 u)
  else if oid =? OIDBytea then
    match v with ABytes b => _ ← bInt32 (int32 (Zlen b)); bBytes b | _ => panic end
  else if oid_in oid [OIDTimestamp; OIDTimestampTZ] then
    match v with
    | ATime ns =>
        let us := epochMicros ns in
        _ ← bInt32 8; _ ← bInt32 (int32 (Z.shiftr us 32)); bInt32 (int32 us)
    | _ => panic
    end
  else throw (EFmt "pgz: appendParamBinary: unhandled OID" [oid]).

(** [x.UTC().Format("2006-01-02 15:04:05.999999-07")]. *)
Definition formatTime (ns : Z) : bytes :=
  let sec := pgEpochUnix + ns / 1000000000 in
  let us := ns mod 1000000000 / 1000 in
  let '(y, mo, d, hh, mm, ss) := splitTime sec in
  appendInt4 [] y ++ ["-"%byte] ++ append2 [] mo ++ ["-"%byte] ++ append2 [] d ++ [x20] ++
  append2 [] hh ++ [":"%byte] ++ append2 [] mm ++ [":"%byte] ++ append2 [] ss ++
  (if us =? 0 then [] else "."%byte :: appendFrac6 [] us) ++ str "+00".

(** The text form, and whether it is NULL. *)
Definition encodeArg (v : goarg) : gerror + (bytes * bool) :=
  match v with
  | ANil => inr ([], true)
  | AString x => inr (x, false)
  | ABytes x => inr (appendHexBytes [bslash; "x"%byte] x, false)
  | ABool true => inr (str "t", false)
  | ABool false => inr (str "f", false)
  | AInt (KInt | KInt32 | KInt64) x => inr (AppendInt [] x, false)
  | AInt (KUint | KUint32 | KUint64) x => inr (AppendUintBase [] x 10, false)
  | AFloat32 x => inr (AppendFloat f32 [] x, false)
  | AFloat64 x => inr (AppendFloat f64 [] x, false)
  | ATime ns => inr (formatTime ns, false)
  | AInt _ _ | AOther => inl (EFmt "pgz: unsupported parameter type" [])
  end.

Definition appendParamText (v : goarg) : io unit :=
  r ← of_sum (encodeArg v);
  let s : bytes := fst r in
  let isNull : bool := snd r in
  if isNull then bInt32 (-1) else _ ← bInt32 (int32 (Zlen s)); bString s.

(** ** The Bind parameter block *)

Definition oid_at (oids : list OID) (i : nat) : OID := nth i oids 0.

Definition write_value (oids : list OID) (i : nat) (a : goarg) : io unit :=
  let oid := oid_at oids i in
  match a with
  | ANil => bInt32 (-1)
  | _ => if paramBinary oid a then appendParamBinary oid a else appendParamText a
  end.

Fixpoint each (f : nat → goarg → io unit) (i : nat) (l : list goarg) : io unit :=
  match l with [] => mret tt | a :: l => _ ← f i a; each f (S i) l end.

Definition writeBindParams (oids : list OID) (args : list goarg) : io unit :=
  match args with
  | [] => _ ← bInt16 0; bInt16 0
  | _ =>
      _ ← bInt16 (int16 (Zlen args));
      _ ← each (λ i a, if paramBinary (oid_at oids i) a then bInt16 1 else bInt16 0) 0 args;
      _ ← bInt16 (int16 (Zlen args));
      each (write_value oids) 0 args
  end.

(** ** Specification: what the server reads *)

(** The length-prefixed value of a parameter. *)
Definition param_wire (v : option bytes) : bytes :=
  match v with None => be_put 4 (-1) | Some b => be_put 4 (Zlen b) ++ b end.

(** Microseconds since 2000-01-01, toward it; an instant 292 years away or more
    is the last one that a Duration holds. *)
Definition micros_since_2000 (ns : Z) : Z :=
  if ns <? - 2 ^ 63 then -9223372036854775 else if 2 ^ 63 <=? ns then 9223372036854775 else ns ÷ 1000.

(** The binary form of an argument as its server type's receive function
    defines it; [None] when the server's type and the Go type have none. *)
Definition binary_value (oid : OID) (v : goarg) : option bytes :=
  match v with
  | ABool b => if oid =? OIDBool then Some [if b then x01 else x00] else None
  | AInt _ x =>
      if oid =? OIDInt2 then Some (be_put 2 x)
      else if oid_in oid [OIDInt4; OIDOID] then Some (be_put 4 x)
      else if oid =? OIDInt8 then Some (be_put 8 x) else None
  | AFloat32 x =>
      if oid =? OIDFloat4 then Some (be_put 4 (convert f64 f32 (convert f32 f64 x)))
      else if oid =? OIDFloat8 then Some (be_put 8 (convert f32 f64 x)) else None
  | AFloat64 x =>
      if oid =? OIDFloat4 then Some (be_put 4 (convert f64 f32 x))
      else if oid =? OIDFloat8 then Some (be_put 8 x) else None
  | ABytes b => if oid =? OIDBytea then Some b else None
  | ATime ns => if oid_in oid [OIDTimestamp; OIDTimestampTZ] then Some (be_put 8 (micros_since_2000 ns)) else None
  | _ => None
  end.
Definition format_code (oid : OID) (v : goarg) : Z := match binary_value oid v with Some _ => 1 | None => 0 end.

(** [k] decimal digits, the last one for the units. *)
Definition padded (k : nat) (z : Z) : bytes := map (λ i, digit_char (z / 10 ^ i mod 10)) (rev (seqZ 0 (Z.of_nat k))).
Fixpoint without_zeros (l : bytes) : bytes :=
  match l with
  | [] => []
  | c :: l => match without_zeros l with [] => if beq c "0"%byte then [] else [c] | l => c :: l end
  end.
Definition year_text (y : Z) : bytes :=
  (if y <? 0 then str "-" else []) ++ (if Z.abs y <? 10000 then padded 4 (Z.abs y) else AppendInt [] (Z.abs y)).
(** A timestamptz literal: the UTC date and time, microseconds if any. *)
Definition time_text (ns : Z) : bytes :=
  let '(y, mo, d, hh, mm, ss) := splitTime (pgEpochUnix + ns / 1000000000) in
  let us := ns / 1000 mod 1000000 in
  year_text y ++ str "-" ++ padded 2 mo ++ str "-" ++ padded 2 d ++ str " " ++
  padded 2 hh ++ str ":" ++ padded 2 mm ++ str ":" ++ padded 2 ss ++
  (if us =? 0 then [] else str "." ++ without_zeros (padded 6 us)) ++ str "+00".

(** The text form of an argument as its server type's input function reads it:
    decimal integers (the code has none for the 8-bit and 16-bit types), bytea
    in hexadecimal, booleans as t and f. *)
Definition text_value (v : goarg) : option bytes :=
  match v with
  | AString x => Some x
  | ABytes x => Some (str "\x" ++ concat (map (λ b, [digit_char (byteZ b / 16); digit_char (byteZ b mod 16)]) x))
  | ABool b => Some (if b then str "t" else str "f")
  | AInt (KInt | KInt32 | KInt64) x => Some (AppendInt [] x)
  | AInt (KUint | KUint32 | KUint64) x => if x <? 0 then None else Some (AppendInt [] x)
  | AFloat32 x => Some (AppendFloat f32 [] x)
  | AFloat64 x => Some (AppendFloat f64 [] x)
  | ATime ns => Some (time_text ns)
  | AInt _ _ | AOther | ANil => None
  end.

(** The value sent for an argument: [None] when it cannot be sent. *)
Definition arg_value (oid : OID) (v : goarg) : option (option bytes) :=
  match v with
  | ANil => Some None
  | _ => match binary_value oid v with Some p => Some (Some p) | None => Some <$> text_value v end
  end.

Fixpoint arg_values (oids : list OID) (i : nat) (args : list goarg) : option (list (option bytes)) :=
  match args with
  | [] => Some []
  | a :: args =>
      match arg_value (oid_at oids i) a, arg_values oids (S i) args with
      | Some v, Some vs => Some (v :: vs)
      | _, _ => None
      end
  end.

(** The signed integer a server reads from a parameter of 2, 4 or 8 bytes. *)
Definition read_signed (p : bytes) : Z := wraps (8 * Zlen p) (be_get p).

Definition params_wire (oids : list OID) (args : list goarg) (vals : list (option bytes)) : bytes :=
  let n := be_put 2 (Zlen args) in
  n ++ concat (imap (λ i a, be_put 2 (format_code (oid_at oids i) a)) args) ++
  n ++ concat (map param_wire vals).

(** ** Lemmas *)

Lemma be_put_wraps n z : (0 < n)%nat → be_put n (wraps (8 * Z.of_nat n) z) = be_put n z.
Proof.
  intros Hn. rewrite <- (be_put_mod n (wraps _ _)), <- (be_put_mod n z). f_equal.
  replace (256 ^ Z.of_nat n) with (2 ^ (8 * Z.of_nat n)) by (rewrite Z.pow_mul_r by lia; done).
  unfold wraps. rewrite Zminus_mod_idemp_l. f_equal. lia.
Qed.
Lemma be_put_int16 z : be_put 2 (int16 z) = be_put 2 z.
Proof. apply (be_put_wraps 2). lia. Qed.
Lemma be_put_int32 z : be_put 4 (int32 z) = be_put 4 z.
Proof. apply (be_put_wraps 4). lia. Qed.
Lemma be_put_int64 z : be_put 8 (int64 z) = be_put 8 z.
Proof. apply (be_put_wraps 8). lia. Qed.

(** A 64-bit value written as two 32-bit halves. *)
Lemma be_put_halves z : be_put 4 (int32 (Z.shiftr z 32)) ++ be_put 4 (int32 z) = be_put 8 z.
Proof.
  rewrite !be_put_int32. cbn [be_put app]. rewrite !Z.shiftr_shiftr by lia. done.
Qed.

Lemma writes_halves z : writes (_ ← bInt32 (int32 (Z.shiftr z 32)); bInt32 (int32 z)) (be_put 8 z).
Proof. rewrite <- be_put_halves. apply writes_seq; apply writes_bInt32. Qed.

Lemma writes_len4 m p n : writes m p → Zlen p = n → writes (_ ← bInt32 n; m) (param_wire (Some p)).
Proof. intros H <-. apply writes_seq; [apply writes_bInt32|done]. Qed.

Lemma writes_ret_bind {A} (a : A) f p : writes (f a) p → writes (mret a ≫= f) p.
Proof. intros H c. exact (H c). Qed.

(** The low bytes of an integer are those of its 64-bit wrap. *)
Lemma be_put_int64_low n z : (n <= 8)%nat → be_put n (int64 z) = be_put n z.
Proof.
  intros Hn. rewrite <- (be_put_mod n (int64 z)), <- (be_put_mod n z). f_equal.
  replace (256 ^ Z.of_nat n) with (2 ^ (8 * Z.of_nat n)) by (rewrite Z.pow_mul_r by lia; done).
  unfold int64, wraps. rewrite <- (Z.mod_mod_divide _ (2 ^ 64)).
  2:{ exists (2 ^ (64 - 8 * Z.of_nat n)). rewrite <- Z.pow_add_r by lia. f_equal. lia. }
  rewrite Zminus_mod_idemp_l. replace (z + 2 ^ (64 - 1) - 2 ^ (64 - 1)) with z by lia.
  apply Z.mod_mod_divide. exists (2 ^ (64 - 8 * Z.of_nat n)). rewrite <- Z.pow_add_r by lia. f_equal. lia.
Qed.

Lemma writes_eq m p p' : writes m p → p = p' → writes m p'.
Proof. by intros ? <-. Qed.

Lemma writes_text s : writes (_ ← bInt32 (int32 (Zlen s)); bString s) (param_wire (Some s)).
Proof.
  eapply writes_eq; [apply writes_seq; [apply writes_bInt32|apply writes_append]|].
  cbn [param_wire]. by rewrite be_put_int32.
Qed.

Lemma writes_int2 x : writes (bInt16 (int16 (int64 x))) (be_put 2 x).
Proof. eapply writes_eq; [apply writes_bInt16|]. rewrite be_put_int16. apply be_put_int64_low. lia. Qed.
Lemma writes_int4 x : writes (bInt32 (int32 x)) (be_put 4 x).
Proof. eapply writes_eq; [apply writes_bInt32|]. apply be_put_int32. Qed.
Lemma writes_int4' x : writes (bInt32 (int32 (int64 x))) (be_put 4 x).
Proof. eapply writes_eq; [apply writes_int4|]. apply be_put_int64_low. lia. Qed.
Lemma writes_int8 x :
  writes (_ ← bInt32 (int32 (Z.shiftr (int64 x) 32)); bInt32 (int32 (int64 x))) (be_put 8 x).
Proof. rewrite <- (be_put_int64 x). apply writes_halves. Qed.

#[export] Hint Resolve writes_int2 writes_int4 writes_int4' writes_int8 writes_halves writes_bBytes
  writes_bByte writes_bInt16 writes_bInt32 writes_append : pgz.

(** The code's arithmetic is the specification's. *)
Lemma epochMicros_spec ns : epochMicros ns = micros_since_2000 ns.
Proof.
  unfold epochMicros, micros_since_2000. destruct (Z.ltb_spec ns (- 2 ^ 63)); [by rewrite Z.min_r, Z.max_l by lia|].
  destruct (Z.leb_spec (2 ^ 63) ns); [by rewrite Z.min_l, Z.max_r by lia|]. f_equal. lia.
Qed.

Lemma ascii_digit_char v : 0 <= v < 10 → ascii_digit v = digit_char v.
Proof. intros H. unfold digit_char. by rewrite (proj2 (Z.ltb_lt v 10)) by lia. Qed.
(** A digit as the code takes it out of a nonnegative number. *)
Lemma digit_at v k n : 0 <= v → 0 < k → k = 10 ^ n → ascii_digit (Z.rem (v ÷ k) 10) = digit_char (v / 10 ^ n mod 10).
Proof.
  intros Hv Hk ->. rewrite Z.quot_div_nonneg, Z.rem_mod_nonneg by (try apply Z.div_pos; lia).
  apply ascii_digit_char, Z.mod_pos_bound. lia.
Qed.
Lemma last_digit v : 0 <= v → ascii_digit (Z.rem v 10) = digit_char (v / 10 ^ 0 mod 10).
Proof. intros Hv. rewrite <- (digit_at v 1 0) by (done || lia). by rewrite Z.quot_1_r. Qed.

Lemma append2_padded v : 0 <= v < 100 → append2 [] v = padded 2 v.
Proof.
  intros H. unfold append2. rewrite last_digit by lia.
  replace (v ÷ 10) with (Z.rem (v ÷ 10) 10) by (Z.quot_rem_to_equations; lia). by rewrite (digit_at v 10 1) by (done || lia).
Qed.
Lemma appendInt4_year y : appendInt4 [] y = year_text y.
Proof.
  assert (∀ pre v, 0 <= v → (if 10000 <=? v then AppendInt pre v
    else pre ++ [ascii_digit (Z.rem (v ÷ 1000) 10); ascii_digit (Z.rem (v ÷ 100) 10); ascii_digit (Z.rem (v ÷ 10) 10); ascii_digit (Z.rem v 10)])
    = pre ++ (if v <? 10000 then padded 4 v else AppendInt [] v)) as H.
  { intros pre v Hv. destruct (Z.leb_spec 10000 v).
    - by rewrite (proj2 (Z.ltb_ge v 10000)), AppendInt_app by lia.
    - rewrite (proj2 (Z.ltb_lt v 10000)) by lia. by rewrite (digit_at v 1000 3), (digit_at v 100 2), (digit_at v 10 1), last_digit by (done || lia). }
  unfold appendInt4, year_text. destruct (Z.ltb_spec y 0); rewrite H by lia.
  - by rewrite Z.abs_neq by lia.
  - by rewrite Z.abs_eq by lia.
Qed.

Lemma without_zeros_spec buf : length buf = 6%nat → without_zeros buf ≠ [] → take (frac6_end buf 6) buf = without_zeros buf.
Proof.
  intros H. do 6 (destruct buf as [|? buf]; [done|]). destruct buf; [|done]. cbn [frac6_end nth without_zeros].
  repeat (match goal with |- context [if beq ?c ?d then _ else _] => destruct (beq c d) end; cbn [frac6_end take]; try done).
Qed.
Lemma without_zeros_value l : without_zeros l = [] → dec_value l = 0.
Proof.
  assert (∀ l, without_zeros l = [] → Forall (λ c, c = "0"%byte) l) as H.
  { clear. induction l as [|c l IH]; [done|]. cbn [without_zeros]. destruct (without_zeros l); [|done].
    destruct (beq c "0"%byte) eqn:E; [|done]. apply beq_true in E. intros _. constructor; auto. }
  intros E. apply H in E. unfold dec_value, undigits. change 0 with 0 at 2.
  induction l as [|c l IH] using rev_ind; [done|]. apply Forall_app in E as [E1 E2]. apply Forall_cons in E2 as [-> _].
  rewrite fmap_app, fold_left_app, IH by done. done.
Qed.
Lemma appendFrac6_padded us : 0 <= us < 1000000 → us ≠ 0 → appendFrac6 [] us = without_zeros (padded 6 us).
Proof.
  intros H Hne. assert ([ascii_digit (Z.rem (us ÷ 100000) 10); ascii_digit (Z.rem (us ÷ 10000) 10); ascii_digit (Z.rem (us ÷ 1000) 10);
    ascii_digit (Z.rem (us ÷ 100) 10); ascii_digit (Z.rem (us ÷ 10) 10); ascii_digit (Z.rem us 10)] = padded 6 us) as E.
  { by rewrite (digit_at us 100000 5), (digit_at us 10000 4), (digit_at us 1000 3), (digit_at us 100 2), (digit_at us 10 1), last_digit by (done || lia). }
  unfold appendFrac6. rewrite (proj2 (Z.ltb_ge us 0)) by lia. rewrite E. apply (without_zeros_spec (padded 6 us)); [done|].
  intros Hz. apply without_zeros_value in Hz. rewrite <- E in Hz.
  change [ascii_digit _; _; _; _; _; _] with (append6 [] us) in Hz. by rewrite append6_value in Hz.
Qed.
Lemma formatTime_spec ns : formatTime ns = time_text ns.
Proof.
  unfold formatTime, time_text. pose proof (splitTime_correct (pgEpochUnix + ns / 1000000000)) as H.
  destruct (splitTime _) as [[[[[y mo] d] hh] mm] ss]. cbv zeta. destruct H as ([Hm Hd] & H1 & H2 & H3 & _).
  pose proof (days_in_month_le y mo). rewrite appendInt4_year, !append2_padded by lia.
  replace (ns mod 1000000000 / 1000) with (ns / 1000 mod 1000000) by (Z.to_euclidean_division_equations; lia).
  pose proof (Z.mod_pos_bound (ns / 1000) 1000000 ltac:(lia)) as Hus.
  generalize dependent ((ns / 1000) mod 1000000). intros us Hus.
  destruct (Z.eqb_spec us 0) as [E|E]; [done|]. by rewrite appendFrac6_padded.
Qed.

Lemma hex_spec l : appendHexBytes [bslash; "x"%byte] l =
  str "\x" ++ concat (map (λ b, [digit_char (byteZ b / 16); digit_char (byteZ b mod 16)]) l).
Proof.
  unfold appendHexBytes. f_equal. f_equal. apply map_ext. intros b. by destruct b.
Qed.

(** Exactly the values with a text form have one in the code. *)
Lemma encodeArg_spec v s : text_value v = Some s → encodeArg v = inr (s, false).
Proof.
  destruct v as [|[]|k x|x|x|x|b|ns|]; cbn [text_value encodeArg]; intros [= <-] || intros H; try done.
  - assert (∀ y, 0 <= y → AppendUintBase [] y 10 = AppendInt [] y) as Hu
      by (intros y Hy; unfold AppendInt; by rewrite (proj2 (Z.ltb_ge y 0)) by lia).
    destruct k; try (by injection H as <-); try done; destruct (Z.ltb_spec x 0); try done; injection H as <-; by rewrite Hu.
  - by rewrite hex_spec.
  - by rewrite formatTime_spec.
Qed.

(** The code sends binary exactly what has a binary form. *)
Lemma paramBinary_spec oid v : paramBinary oid v = match binary_value oid v with Some _ => true | None => false end.
Proof.
  unfold paramBinary, binary_value.
  destruct v; cbv [oid_in existsb OIDBool OIDInt2 OIDInt4 OIDInt8 OIDOID OIDFloat4 OIDFloat8 OIDBytea OIDTimestamp OIDTimestampTZ];
    repeat match goal with |- context [oid =? ?c] => destruct (Z.eqb_spec oid c); [subst oid; try done|] end; done.
Qed.

(** Each binary parameter type reduces to one branch of the switch. *)
Ltac param_oid oid :=
  cbv [oid_in existsb OIDBool OIDInt2 OIDInt4 OIDInt8 OIDOID OIDFloat4 OIDFloat8 OIDBytea OIDTimestamp
       OIDTimestampTZ] in *;
  repeat match goal with
  | H : context [oid =? ?c] |- _ => destruct (Z.eqb_spec oid c); [subst oid|]
  end;
  cbn [Z.eqb Pos.eqb orb] in *.

Lemma writes_param_binary oid v p : binary_value oid v = Some p → writes (appendParamBinary oid v) (param_wire (Some p)).
Proof.
  intros Hv. assert (paramBinary oid v = true) as Hb by (by rewrite paramBinary_spec, Hv). unfold paramBinary in Hb. unfold appendParamBinary.
  destruct v as [|b|k x|x|x|s|b|ns|]; cbn [toInt64 toFloat64 binary_value of_sum] in *; try done;
    param_oid oid; try done; simplify_eq.
  all: try (apply (writes_ret_bind (A := Z))).
  all: try (match goal with b : bool |- _ => destruct b; by (apply writes_len4; [apply writes_bByte|]) end).
  all: try (rewrite <- epochMicros_spec).
  all: try (apply writes_len4; [eauto 1 with pgz|done]).
  eapply writes_eq; [apply writes_seq; [apply writes_bInt32|apply writes_append]|].
  cbn [param_wire]. by rewrite be_put_int32.
Qed.

Lemma writes_param_text v s : encodeArg v = inr (s, false) → writes (appendParamText v) (param_wire (Some s)).
Proof.
  intros H. unfold appendParamText. rewrite H. cbn [of_sum]. apply (writes_ret_bind (A := bytes * bool)).
  apply writes_text.
Qed.

Lemma writes_write_value oids i a v : arg_value (oid_at oids i) a = Some v →
  writes (write_value oids i a) (param_wire v).
Proof.
  intros H. unfold write_value. rewrite paramBinary_spec. assert (a = ANil ∨ a ≠ ANil) as [->|Hne] by (destruct a; auto).
  { cbn in H. simplify_eq. apply writes_bInt32. }
  assert (match binary_value (oid_at oids i) a with Some p => Some (Some p) | None => Some <$> text_value a end = Some v) as E by (by destruct a).
  clear H. enough (writes (if match binary_value (oid_at oids i) a with Some _ => true | None => false end
    then appendParamBinary (oid_at oids i) a else appendParamText a) (param_wire v)) by (by destruct a).
  destruct (binary_value (oid_at oids i) a) as [p|] eqn:Eb; [simplify_eq; by apply writes_param_binary|].
  destruct (text_value a) as [s|] eqn:Et; [|done]. cbn in E. simplify_eq. by apply writes_param_text, encodeArg_spec.
Qed.

Lemma writes_each oids i args vals : arg_values oids i args = Some vals →
  writes (each (write_value oids) i args) (concat (map param_wire vals)).
Proof.
  revert i vals. induction args as [|a args IH]; intros i vals H; cbn in H; [simplify_eq; apply writes_nil|].
  destruct (arg_value _ _) as [v|] eqn:Ev; [|done]. destruct (arg_values oids (S i) args) as [vs|] eqn:Es; [|done].
  simplify_eq. cbn [each map concat]. apply writes_seq; [by apply writes_write_value|by apply IH].
Qed.

Lemma writes_formats oids i args :
  writes (each (λ i a, if paramBinary (oid_at oids i) a then bInt16 1 else bInt16 0) i args)
    (concat (imap (λ j a, be_put 2 (format_code (oid_at oids (i + j)) a)) args)).
Proof.
  revert i. induction args as [|a args IH]; intros i; [apply writes_nil|].
  rewrite imap_cons. cbn [each concat]. rewrite Nat.add_0_r. apply writes_seq.
  - unfold format_code. rewrite paramBinary_spec. destruct (binary_value _ _); apply writes_bInt16.
  - eapply writes_eq; [apply IH|]. f_equal. apply imap_ext. intros j b _. cbn. by rewrite Nat.add_succ_r.
Qed.

Lemma writes_bind_params oids args vals : arg_values oids 0 args = Some vals →
  writes (writeBindParams oids args) (params_wire oids args vals).
Proof.
  intros H. unfold writeBindParams, params_wire. destruct args as [|a args].
  - cbn in H. simplify_eq. apply (writes_seq _ _ (be_put 2 0) (be_put 2 0)); apply writes_bInt16.
  - assert (writes (bInt16 (int16 (Zlen (a :: args)))) (be_put 2 (Zlen (a :: args)))) as Hn
      by (eapply writes_eq; [apply writes_bInt16|apply be_put_int16]).
    apply writes_seq; [exact Hn|]. apply writes_seq; [exact (writes_formats oids 0 (a :: args))|].
    apply writes_seq; [exact Hn|]. by apply writes_each.
Qed.

(** C34. When every argument can be sent, writeBindParams appends exactly the
    parameter block of the protocol: the count, one format code per argument
    (binary precisely when the server's type and the Go type have a binary
    form), the count again, and each value with its length: NULL as -1; in
    binary a boolean as one byte, an integer as the low bytes of its type's
    width, a float as its bits, bytea as it is, an instant as its microseconds
    since 2000; in text decimal integers, t or f, hexadecimal, the UTC date and
    time.  Both tables are written down here, apart from the code's. *)
Theorem bind_params_wire (oids : list OID) (args : list goarg) (vals : list (option bytes)) (c : Conn)
  (H : arg_values oids 0 args = Some vals) :
  writeBindParams oids args c = (Ret tt, set_writeBuf (writeBuf c ++ params_wire oids args vals) c) ∧
  length vals = length args.
Proof.
  split; [by apply writes_bind_params|]. revert vals H. generalize 0%nat.
  induction args as [|a args IH]; intros i vals H; cbn in H; [by simplify_eq|].
  destruct (arg_value _ _); [|done]. destruct (arg_values oids (S i) args) as [vs|] eqn:E; [|done].
  simplify_eq. cbn. f_equal. by eapply IH.
Qed.

Definition demo_oids : list OID := [OIDInt4; OIDText; OIDBool].
Definition demo_args : list goarg :=
  [AInt KInt 7; AString (str "x"); ABool false; ANil; ABool false; AInt KUint 41; ABytes [xff]; ATime 1500000].
Definition demo_vals : list (option bytes) :=
  [Some (be_put 4 7); Some (str "x"); Some [x00]; None; Some (str "f"); Some (str "41"); Some (str "\xff");
   Some (str "2000-01-01 00:00:00.0015+00")].
Lemma bind_params_wire_witness :
  writeBindParams demo_oids demo_args (New [] None) =
    (Ret tt, set_writeBuf (params_wire demo_oids demo_args demo_vals) (New [] None)) ∧ length demo_vals = length demo_args.
Proof. apply (bind_params_wire demo_oids demo_args demo_vals (New [] None)). vm_compute. reflexivity. Defined.

Lemma read_signed_put n x : (0 < n)%nat → read_signed (be_put n x) = wraps (8 * Z.of_nat n) x.
Proof.
  intros Hn. unfold read_signed, Zlen. rewrite length_be_put, be_get_put.
  replace (256 ^ Z.of_nat n) with (2 ^ (8 * Z.of_nat n)) by (rewrite Z.pow_mul_r by lia; done).
  apply wraps_mod. lia.
Qed.

Lemma wraps_fixed w z : 0 < w → wraps w z = z ↔ - 2 ^ (w - 1) <= z < 2 ^ (w - 1).
Proof.
  intros Hw. split; [|by apply wraps_small]. intros <-. by apply wraps_range.
Qed.

(** An integer argument bound to an int2, int4 or oid parameter is sent
    without a range check: it reaches the server unchanged exactly when it
    fits the parameter's width, and otherwise a different number is sent, with
    no error. *)
Theorem int_param_wraps (oid : OID) (k : int_kind) (x : Z) (c : Conn) (w : Z)
  (Ho : (oid = OIDInt2 ∧ w = 16) ∨ (oid = OIDInt4 ∧ w = 32) ∨ (oid = OIDInt8 ∧ w = 64)) :
  ∃ p, write_value [oid] 0 (AInt k x) c = (Ret tt, set_writeBuf (writeBuf c ++ param_wire (Some p)) c) ∧
    read_signed p = wraps w x ∧ (read_signed p = x ↔ - 2 ^ (w - 1) <= x < 2 ^ (w - 1)).
Proof.
  assert (∃ n, (0 < n)%nat ∧ w = 8 * Z.of_nat n ∧ arg_value oid (AInt k x) = Some (Some (be_put n x)))
    as (n & Hn & -> & Hv).
  { destruct Ho as [[-> ->]|[[-> ->]|[-> ->]]]; [exists 2%nat|exists 4%nat|exists 8%nat]; split; [lia|done|lia|done|lia|done]. }
  exists (be_put n x). split; [by apply (writes_write_value [oid] 0)|].
  rewrite read_signed_put by done. split; [done|]. apply wraps_fixed. lia.
Qed.

Lemma int_param_wraps_witness :
  ∃ p, write_value [23] 0 (AInt KInt64 4294967297) (New [] None) =
      (Ret tt, set_writeBuf (writeBuf (New [] None) ++ param_wire (Some p)) (New [] None)) ∧
    read_signed p = wraps 32 4294967297 ∧
    (read_signed p = 4294967297 ↔ - 2 ^ (32 - 1) <= 4294967297 < 2 ^ (32 - 1)).
Proof. apply (int_param_wraps 23 KInt64 4294967297 (New [] None) 32). right; left; split; reflexivity. Defined.

(** A time.Time parameter reaches the server exact to the microsecond
    within 292 years of 2000-01-01; every instant beyond is sent as that one
    boundary instant (9223372036854775 microseconds, in April 2292). *)
Theorem timestamp_param (ns : Z) (c : Conn) (oid : OID) (Ho : oid = OIDTimestamp ∨ oid = OIDTimestampTZ) :
  ∃ p, write_value [oid] 0 (ATime ns) c = (Ret tt, set_writeBuf (writeBuf c ++ param_wire (Some p)) c) ∧
    (- 2 ^ 63 <= ns < 2 ^ 63 → read_signed p = ns ÷ 1000) ∧
    (2 ^ 63 <= ns → read_signed p = 9223372036854775).
Proof.
  exists (be_put 8 (epochMicros ns)). split.
  { apply (writes_write_value [oid] 0 (ATime ns) (Some (be_put 8 (epochMicros ns)))). rewrite epochMicros_spec.
    by destruct Ho as [-> | ->]. }
  rewrite read_signed_put by lia. change (8 * Z.of_nat 8) with 64.
  assert (- 2 ^ 63 <= epochMicros ns < 2 ^ 63) as Hr by (unfold epochMicros; Z.quot_rem_to_equations; lia).
  rewrite wraps_small by lia. unfold epochMicros.
  split; intros H; [f_equal; lia|]. rewrite Z.min_l, Z.max_r by lia. done.
Qed.

Lemma timestamp_param_witness :
  ∃ p, write_value [1114] 0 (ATime (2 ^ 63)) (New [] None) =
      (Ret tt, set_writeBuf (writeBuf (New [] None) ++ param_wire (Some p)) (New [] None)) ∧
    (- 2 ^ 63 <= 2 ^ 63 < 2 ^ 63 → read_signed p = 2 ^ 63 ÷ 1000) ∧
    (2 ^ 63 <= 2 ^ 63 → read_signed p = 9223372036854775).
Proof. apply (timestamp_param (2 ^ 63) (New [] None) 1114). left; reflexivity. Defined.
