(* ===== verification/StmtCache.v ===== *)
(** pgz/stmtcache.go: the per-connection prepared-statement cache.  The Go map
    holds pointers, and a statement's plan is updated through the pointer while
    the statement is cached, so the store of statements is explicit: the cache
    maps SQL text to a reference into it.  Evicting "any one entry" follows Go's
    unspecified map order, an interface ([MapOrder]) every theorem is proved
    against. *)
From S2P Require Import Prelude Protocol Rows.

Record preparedStmt := mkStmt {
  st_name : bytes;
  st_plan : option Plan;
  st_resultFmts : list Z;
  st_paramOIDs : list OID
}.

Record stmtCache := mkCache {
  max : Z;
  byKey : gmap bytes nat;
  closed : list bytes;
  seq : Z;
  heap : list preparedStmt      (* the statements allocated so far *)
}.

(** The first key a [range] over the map yields. *)
Class MapOrder := {
  first_key : gmap bytes nat → option bytes;
  first_key_some m k : first_key m = Some k → is_Some (m !! k);
  first_key_none m : first_key m = None → m = ∅
}.

Definition newStmtCache (n : Z) : stmtCache :=
  mkCache (if n <=? 0 then 64 else n) ∅ [] 0 [].

Definition get (sql : bytes) (sc : stmtCache) : option nat := byKey sc !! sql.

(** [*st], and [*st = v] through the pointer. *)
Definition deref (r : nat) (sc : stmtCache) : preparedStmt := nth r (heap sc) (mkStmt [] None [] []).
Definition alloc (st : preparedStmt) (sc : stmtCache) : nat * stmtCache :=
  (length (heap sc), mkCache (max sc) (byKey sc) (closed sc) (seq sc) (heap sc ++ [st])).
Definition update (r : nat) (f : preparedStmt → preparedStmt) (sc : stmtCache) : stmtCache :=
  mkCache (max sc) (byKey sc) (closed sc) (seq sc) (alter f r (heap sc)).

Section Cache.
Context `{MapOrder}.

Definition evict (sc : stmtCache) : stmtCache :=
  if Z.of_nat (size (byKey sc)) >=? max sc then
    match first_key (byKey sc) with
    | Some k =>
        let name := match byKey sc !! k with Some v => st_name (deref v sc) | None => [] end in
        mkCache (max sc) (delete k (byKey sc)) (closed sc ++ [name]) (seq sc) (heap sc)
    | None => sc
    end
  else sc.

Definition put (sql : bytes) (r : nat) (sc : stmtCache) : stmtCache :=
  let sc := evict sc in
  mkCache (max sc) (<[sql := r]> (byKey sc)) (closed sc) (seq sc) (heap sc).
End Cache.

Definition takePendingClose (sc : stmtCache) : list bytes * stmtCache :=
  (closed sc, mkCache (max sc) (byKey sc) [] (seq sc) (heap sc)).

Definition name_of (n : Z) : bytes := AppendUintBase (str "s_") n 36.

Definition nextName (sc : stmtCache) : bytes * stmtCache :=
  let n := u64 (seq sc + 1) in
  (name_of n, mkCache (max sc) (byKey sc) (closed sc) n (heap sc)).

Definition invalidate (sql : bytes) (sc : stmtCache) : stmtCache :=
  match byKey sc !! sql with
  | Some r => mkCache (max sc) (delete sql (byKey sc)) (closed sc ++ [st_name (deref r sc)]) (seq sc) (heap sc)
  | None => sc
  end.

(** FNV-1a, 64 bits. *)
Definition hashKey (s : bytes) : Z :=
  fold_left (λ h c, u64 (Z.lxor h (byteZ c) * 1099511628211)) s 14695981039346656037.
Example hashKey_a : hashKey (str "a") = 0xaf63dc4c8601ec8c.
Proof. reflexivity. Qed.

(** ** Specification: what the server holds *)

(** The names the cache would send in a Bind. *)
Definition live (sc : stmtCache) : list bytes := (λ kr, st_name (deref kr.2 sc)) <$> map_to_list (byKey sc).

(** The life of one connection's cache as its users drive it (runCached and
    execCached), with the statements that exist on the server ([srv]), those a
    Close has been sent for ([gone]) and those the driver forgot about
    ([lost]): a Parse that the server accepts, of a statement whose description
    the driver then refuses (no columns, for a query), leaves one. *)
Record session := mkSession { cache : stmtCache; srv : list bytes; gone : list bytes; lost : list bytes }.

Section Session.
Context `{MapOrder}.

Inductive sstep : session → session → Prop :=
| s_prepare sql plan fmts oids s name c1 r c2 :
    get sql (cache s) = None → seq (cache s) + 1 < 2 ^ 64 →
    nextName (cache s) = (name, c1) →
    alloc (mkStmt name plan fmts oids) c1 = (r, c2) →
    sstep s (mkSession (put sql r c2) (srv s ++ [name]) (gone s) (lost s))
| s_prepare_failed sql s name c1 :
    get sql (cache s) = None → seq (cache s) + 1 < 2 ^ 64 →
    nextName (cache s) = (name, c1) →
    sstep s (mkSession (invalidate sql c1) (srv s) (gone s) (lost s))
| s_prepare_unwanted sql s name c1 :
    get sql (cache s) = None → seq (cache s) + 1 < 2 ^ 64 →
    nextName (cache s) = (name, c1) →
    sstep s (mkSession (invalidate sql c1) (srv s ++ [name]) (gone s) (lost s ++ [name]))
| s_stale sql s : sstep s (mkSession (invalidate sql (cache s)) (srv s) (gone s) (lost s))
| s_replan r p s :
    sstep s (mkSession (update r (λ st, mkStmt (st_name st) p (st_resultFmts st) (st_paramOIDs st)) (cache s))
               (srv s) (gone s) (lost s))
| s_close s names c1 :
    takePendingClose (cache s) = (names, c1) →
    sstep s (mkSession c1 (srv s) (gone s ++ names) (lost s)).

(** Every statement the server holds is accounted for exactly once: in the
    cache, waiting for a Close, already closed, or lost; the cache is bounded. *)
Record session_ok (s : session) : Prop := {
  so_perm : live (cache s) ++ closed (cache s) ++ gone s ++ lost s ≡ₚ srv s;
  so_names : Forall (λ n, ∃ k, n = name_of k ∧ 0 <= k <= seq (cache s)) (srv s);
  so_nodup : NoDup (srv s);
  so_refs : map_Forall (λ _ r, (r < length (heap (cache s)))%nat) (byKey (cache s));
  so_size : Z.of_nat (size (byKey (cache s))) <= max (cache s);
  so_max : 1 <= max (cache s);
  so_seq : 0 <= seq (cache s) < 2 ^ 64
}.
End Session.

(** ** Lemmas *)

Definition digit_of_char (c : byte) : Z := if is_digit c then byteZ c - 48 else byteZ c - 87.

Lemma digit_of_char_char d : 0 <= d < 36 → digit_of_char (digit_char d) = d.
Proof.
  intros Hd. unfold digit_of_char, digit_char, is_digit. destruct (Z.ltb_spec d 10).
  - rewrite byteZ_mkbyte, Z.mod_small by lia. destruct (Z.leb_spec 48 (48 + d)), (Z.leb_spec (48 + d) 57); cbn [andb]; lia.
  - rewrite byteZ_mkbyte, Z.mod_small by lia. destruct (Z.leb_spec 48 (87 + d)), (Z.leb_spec (87 + d) 57); cbn [andb]; lia.
Qed.

(** Statement names are unique: the base-36 text determines the number. *)
Lemma name_of_inj n m : 0 <= n → 0 <= m → name_of n = name_of m → n = m.
Proof.
  intros Hn Hm H. unfold name_of, AppendUintBase in H. apply app_inv_head in H.
  apply (f_equal (fmap digit_of_char)) in H. rewrite <- !list_fmap_compose in H.
  assert (∀ k, 0 <= k → (digit_of_char ∘ digit_char) <$> digits 36 k = digits 36 k) as E.
  { intros k Hk. pose proof (digits_range 36 k ltac:(lia) Hk) as HF. induction HF as [|d l Hd _ IH]; [done|].
    rewrite fmap_cons, IH. f_equal. by apply digit_of_char_char. }
  rewrite !E in H by done. rewrite <- (undigits_digits 36 n), <- (undigits_digits 36 m), H by lia. done.
Qed.

Section Lemmas.
Context `{MapOrder}.

Lemma live_insert sc sql r : byKey sc !! sql = None →
  live (mkCache (max sc) (<[sql := r]> (byKey sc)) (closed sc) (seq sc) (heap sc)) ≡ₚ st_name (deref r sc) :: live sc.
Proof. intros Hn. unfold live. cbn [byKey]. by rewrite map_to_list_insert. Qed.

Lemma live_delete sc k r cl : byKey sc !! k = Some r →
  live sc ≡ₚ st_name (deref r sc) :: live (mkCache (max sc) (delete k (byKey sc)) cl (seq sc) (heap sc)).
Proof. intros Hn. unfold live. cbn [byKey]. by rewrite <- (map_to_list_delete (byKey sc) k r). Qed.

Lemma deref_alloc sc st r : (r < length (heap sc))%nat → deref r (snd (alloc st sc)) = deref r sc.
Proof. intros Hr. unfold deref, alloc. cbn. by rewrite app_nth1. Qed.

Lemma live_alloc sc st : map_Forall (λ _ r, (r < length (heap sc))%nat) (byKey sc) → live (snd (alloc st sc)) = live sc.
Proof.
  intros Hr. unfold live. cbn [alloc snd byKey]. apply list_fmap_ext. intros i [k r] Hi. cbn [snd].
  f_equal. apply (deref_alloc sc st). apply list_elem_of_lookup_2, elem_of_map_to_list in Hi. exact (Hr _ _ Hi).
Qed.

Lemma session_start n : session_ok (mkSession (newStmtCache n) [] [] []).
Proof.
  split; unfold newStmtCache, live; cbn.
  - by rewrite map_to_list_empty.
  - constructor.
  - constructor.
  - apply map_Forall_empty.
  - rewrite map_size_empty. destruct (Z.leb_spec n 0); lia.
  - destruct (Z.leb_spec n 0); lia.
  - lia.
Qed.

(** Dropping an entry moves its name to the Close queue. *)
Lemma drop_entry_ok s k r : session_ok s → byKey (cache s) !! k = Some r →
  session_ok (mkSession (mkCache (max (cache s)) (delete k (byKey (cache s)))
    (closed (cache s) ++ [st_name (deref r (cache s))]) (seq (cache s)) (heap (cache s))) (srv s) (gone s) (lost s)) ∧
  Z.of_nat (size (delete k (byKey (cache s)))) = Z.of_nat (size (byKey (cache s))) - 1.
Proof.
  intros [H1 H2 H3 H4 H5 H6 H7] Hk.
  assert (Z.of_nat (size (delete k (byKey (cache s)))) = Z.of_nat (size (byKey (cache s))) - 1) as Hsz.
  { rewrite map_size_delete, Hk. assert (size (byKey (cache s)) ≠ 0%nat); [|lia].
    apply map_size_non_empty_iff. intros E. by rewrite E, lookup_empty in Hk. }
  split; [|done]. split; cbn; try done.
  - rewrite <- H1. rewrite (live_delete _ _ _ (closed (cache s) ++ [st_name (deref r (cache s))]) Hk).
    generalize (live (mkCache (max (cache s)) (delete k (byKey (cache s)))
      (closed (cache s) ++ [st_name (deref r (cache s))]) (seq (cache s)) (heap (cache s)))). intros l.
    generalize (st_name (deref r (cache s))), (closed (cache s)), (gone s ++ lost s). intros x c g.
    rewrite <- app_assoc. cbn [app]. by rewrite app_assoc, <- Permutation_middle, <- app_assoc.
  - by apply map_Forall_delete.
  - lia.
Qed.

Lemma evict_ok s : session_ok s →
  session_ok (mkSession (evict (cache s)) (srv s) (gone s) (lost s)) ∧
  Z.of_nat (size (byKey (evict (cache s)))) < max (cache s) ∧ max (evict (cache s)) = max (cache s) ∧
  seq (evict (cache s)) = seq (cache s) ∧ heap (evict (cache s)) = heap (cache s) ∧
  (∀ sql, get sql (cache s) = None → get sql (evict (cache s)) = None).
Proof.
  intros Hs. unfold evict. rewrite Z.geb_leb.
  destruct (Z.leb_spec (max (cache s)) (Z.of_nat (size (byKey (cache s))))).
  2:{ split; [by destruct s|]. by repeat split. }
  destruct (first_key (byKey (cache s))) as [k|] eqn:Ek.
  - destruct (first_key_some _ _ Ek) as [r Hr]. rewrite Hr. destruct (drop_entry_ok s k r Hs Hr) as [Hok Hsz].
    split; [done|]. cbn. destruct Hs. repeat split; try done; [lia|].
    intros sql. unfold get. cbn. intros Hg. by rewrite lookup_delete_None; right.
  - exfalso. apply first_key_none in Ek. destruct Hs. rewrite Ek, map_size_empty in H0. lia.
Qed.

Lemma nextName_fresh s : session_ok s → seq (cache s) + 1 < 2 ^ 64 →
  ((nextName (cache s)).1 ∉ srv s) ∧ seq (nextName (cache s)).2 = seq (cache s) + 1.
Proof.
  intros [_ H2 _ _ _ _ H7] Hlt. unfold nextName. cbn. unfold u64. rewrite wrapu_small by lia. split; [|done].
  intros Hin. rewrite Forall_forall in H2. destruct (H2 _ Hin) as (k & E & Hk).
  apply name_of_inj in E; lia.
Qed.

(** Issuing a name does not touch what is cached. *)
Lemma next_ok s name c1 : session_ok s → seq (cache s) + 1 < 2 ^ 64 → nextName (cache s) = (name, c1) →
  session_ok (mkSession c1 (srv s) (gone s) (lost s)) ∧ (name ∉ srv s) ∧ name = name_of (seq c1) ∧
  byKey c1 = byKey (cache s) ∧ heap c1 = heap (cache s).
Proof.
  intros Hs Hlt E. pose proof (nextName_fresh s Hs Hlt) as [Hf Hq]. rewrite E in *. cbn in *.
  unfold nextName in E. injection E as <- <-. cbn in *. destruct Hs as [H1 H2 H3 H4 H5 H6 H7].
  split; [|done]. split; cbn; try done; [|rewrite Hq; lia].
  eapply Forall_impl; [exact H2|]. intros n (k & -> & Hk). exists k. split; [done|]. rewrite Hq. lia.
Qed.
End Lemmas.

(** Every step keeps the account of the server's statements. *)
Lemma sstep_ok `{MapOrder} s s' : sstep s s' → session_ok s → session_ok s'.
Proof.
  intros Hst Hs. destruct Hst as [sql plan fmts oids s name c1 r c2 Hg Hlt Hn Ha|sql s name c1 Hg Hlt Hn
    |sql s name c1 Hg Hlt Hn|sql s|r p s|s names c1 Ht].
  - destruct (next_ok s name c1 Hs Hlt Hn) as (Hok & Hfr & Hname & Hbk & Hhp).
    unfold alloc in Ha. injection Ha as <- <-.
    set (c2 := mkCache _ _ _ _ _).
    assert (session_ok (mkSession c2 (srv s) (gone s) (lost s))) as Hok2.
    { destruct Hok as [H1 H2 H3 H4 H5 H6 H7]. cbn in *. split; try done; cbn.
      - change c2 with (snd (alloc (mkStmt name plan fmts oids) c1)). by rewrite live_alloc.
      - intros k r Hk. specialize (H4 k r Hk). cbn in H4. rewrite length_app. cbn in *. lia. }
    destruct (evict_ok _ Hok2) as (Hok3 & Hsz & Hmx & Hsq & Hhp3 & Hg3). cbn [cache srv gone lost] in *.
    assert (get sql (evict c2) = None) as Hg'.
    { apply Hg3. unfold get, c2. cbn. rewrite Hbk. exact Hg. }
    assert (deref (length (heap c1)) (evict c2) = mkStmt name plan fmts oids) as Hd.
    { unfold deref. rewrite Hhp3. unfold c2. cbn. rewrite app_nth2, Nat.sub_diag by lia. done. }
    destruct Hok3 as [H1 H2 H3 H4 H5 H6 H7]. unfold put. split; cbn in *.
    + rewrite live_insert by exact Hg'. rewrite Hd. cbn [st_name app]. rewrite H1.
      by rewrite <- Permutation_cons_append.
    + apply Forall_app. split; [exact H2|]. constructor; [|constructor]. exists (seq c1).
      rewrite Hsq. split; [exact Hname|]. cbn. rewrite Hsq in H7. cbn in H7. lia.
    + apply NoDup_app. split; [done|]. split; [|apply NoDup_singleton].
      intros x Hx ->%list_elem_of_singleton. done.
    + apply map_Forall_insert_2; [|done]. rewrite Hhp3. unfold c2. cbn. rewrite length_app. cbn. lia.
    + unfold get in Hg'. rewrite map_size_insert, Hg', Hmx. cbn in *. lia.
    + done.
    + done.
  - destruct (next_ok s name c1 Hs Hlt Hn) as (Hok & _ & _ & Hbk & _).
    unfold invalidate. unfold get in Hg. by rewrite Hbk, Hg.
  - destruct (next_ok s name c1 Hs Hlt Hn) as (Hok & Hfr & Hname & Hbk & _).
    unfold invalidate. unfold get in Hg. rewrite Hbk, Hg. destruct Hok as [H1 H2 H3 H4 H5 H6 H7].
    split; try done; cbn [cache srv gone lost] in *.
    + rewrite !app_assoc, <- H1, <- !app_assoc. done.
    + apply Forall_app. split; [done|]. constructor; [|constructor]. exists (seq c1). split; [done|]. lia.
    + apply NoDup_app. split; [done|]. split; [|apply NoDup_singleton]. by intros x Hx ->%list_elem_of_singleton.
  - unfold invalidate. destruct (byKey (cache s) !! sql) as [r|] eqn:E; [|by destruct s].
    by apply (drop_entry_ok s sql r).
  - destruct Hs as [H1 H2 H3 H4 H5 H6 H7]. split; try done; cbn [cache srv gone lost update byKey closed max seq heap].
    + rewrite <- H1. f_equiv. unfold live. cbn [byKey update]. apply Permutation_refl'.
      apply list_fmap_ext. intros i [k r'] _. cbn [snd]. unfold deref, update. cbn [heap].
      rewrite !nth_lookup. destruct (decide (r = r')) as [->|Hne].
      * rewrite list_lookup_alter_eq. by destruct (heap (cache s) !! r').
      * by rewrite list_lookup_alter_ne.
    + intros k r' Hk. rewrite length_alter. by apply (H4 k).
  - unfold takePendingClose in Ht. injection Ht as <- <-. destruct Hs as [H1 H2 H3 H4 H5 H6 H7].
    split; try done. cbn. rewrite <- H1. change (live _) with (live (cache s)) at 1. f_equiv.
    rewrite app_assoc. f_equiv. apply Permutation_app_comm.
Qed.

(** One possible map order. *)
Definition list_first (m : gmap bytes nat) : option bytes := fst <$> head (map_to_list m).

Lemma list_first_some m k : list_first m = Some k → is_Some (m !! k).
Proof.
  unfold list_first. destruct (map_to_list m) as [|[k' r] l] eqn:E; cbn; intros H; simplify_eq.
  exists r. apply elem_of_map_to_list. rewrite E. by left.
Qed.
Lemma list_first_none m : list_first m = None → m = ∅.
Proof. unfold list_first. intros H. apply map_to_list_empty_iff. by destruct (map_to_list m). Qed.

#[export] Instance list_order : MapOrder := {|
  first_key := list_first; first_key_some := list_first_some; first_key_none := list_first_none
|}.

Lemma evict_max `{MapOrder} sc : max (evict sc) = max sc.
Proof. unfold evict. by repeat case_match. Qed.

Lemma sstep_max `{MapOrder} s s' : sstep s s' → max (cache s') = max (cache s).
Proof.
  destruct 1 as [sql plan fmts oids s name c1 r c2 Hg Hlt Hn Ha|sql s name c1 Hg Hlt Hn
    |sql s name c1 Hg Hlt Hn|sql s|r p s|s names c1 Ht]; cbn [cache].
  - unfold put. cbn. rewrite evict_max. unfold alloc, nextName in *. by simplify_eq.
  - unfold nextName in Hn. simplify_eq. unfold invalidate. by case_match.
  - unfold nextName in Hn. simplify_eq. unfold invalidate. by case_match.
  - unfold invalidate. by case_match.
  - done.
  - unfold takePendingClose in Ht. by simplify_eq.
Qed.


