(* ===== verification/Stream.v ===== *)
(** pgz/stream.go: the outWriter interface and its two implementations, the
    in-memory bufWriter and the flushingWriter over a caller's io.Writer.  The
    interface is a typeclass, what its clients rely on is the class of laws
    [OutWriterLaws], and both implementations satisfy it.  Slice capacity is
    not part of the model, so GrowForRow only sets its flag. *)
From S2P Require Import Prelude Errors Effects.

(** ** The interface *)

Class OutWriter (W : Type) := {
  Buf : W → bytes;
  SetBuf : bytes → W → W;
  Write : bytes → prog W unit;
  WriteByte : byte → prog W unit;
  MaybeFlush : prog W unit;
  FlushOut : prog W unit;
  Committed : W → bool;
  Reset : W → W;
  BytesOut : W → Z;
  GrowForRow : Z → W → W
}.

(** ** bufWriter *)

Record bufWriter := mkBufWriter { b_p : bytes; b_rowsHint : Z; b_grew : bool }.

Definition bw_SetBuf (p : bytes) (b : bufWriter) : bufWriter := mkBufWriter p (b_rowsHint b) (b_grew b).
Definition bw_Write (p : bytes) : prog bufWriter unit := modify (λ b, bw_SetBuf (b_p b ++ p) b).
Definition bw_WriteByte (c : byte) : prog bufWriter unit := modify (λ b, bw_SetBuf (b_p b ++ [c]) b).
Definition bw_MaybeFlush : prog bufWriter unit := mret tt.
Definition bw_Flush : prog bufWriter unit := mret tt.
Definition bw_Committed (b : bufWriter) : bool := false.
Definition bw_Reset (b : bufWriter) : bufWriter := bw_SetBuf [] b.
Definition bw_BytesOut (b : bufWriter) : Z := Zlen (b_p b).
Definition bw_GrowForRow (rowBytes : Z) (b : bufWriter) : bufWriter :=
  if b_grew b || (b_rowsHint b <=? 0) || (rowBytes <=? 0) then b
  else mkBufWriter (b_p b) (b_rowsHint b) true.

#[export] Instance bufWriter_out : OutWriter bufWriter := {|
  Buf := b_p; SetBuf := bw_SetBuf; Write := bw_Write; WriteByte := bw_WriteByte; MaybeFlush := bw_MaybeFlush;
  FlushOut := bw_Flush; Committed := bw_Committed; Reset := bw_Reset; BytesOut := bw_BytesOut;
  GrowForRow := bw_GrowForRow
|}.

(** ** flushingWriter *)

(** The caller's io.Writer: what it has accepted, and how many more bytes it
    accepts before failing ([None]: it never fails). *)
Record sink := mkSink { got : bytes; accepts : option nat }.

Definition sink_write (p : bytes) : prog sink unit := λ w,
  match accepts w with
  | None => (Ret tt, mkSink (got w ++ p) None)
  | Some n =>
      if (length p <=? n)%nat then (Ret tt, mkSink (got w ++ p) (Some (n - length p)%nat))
      else (Err (EUser "io.Writer"), mkSink (got w ++ take n p) (Some O))
  end.

(** [f_elapsed k] answers the k-th question "has the flush interval passed". *)
Record flushingWriter := mkFlushing {
  f_w : sink;
  f_threshold : Z;
  f_interval : Z;
  f_elapsed : nat → bool;
  f_clock : nat;
  f_buf : bytes;
  f_src : bool;          (* the pooled buffer is still ours *)
  f_committed : bool;
  f_written : Z;
  f_rowsHint : Z;
  f_grew : bool
}.

Definition fw_SetBuf (p : bytes) (f : flushingWriter) : flushingWriter :=
  mkFlushing (f_w f) (f_threshold f) (f_interval f) (f_elapsed f) (f_clock f) p (f_src f) (f_committed f)
    (f_written f) (f_rowsHint f) (f_grew f).
Definition fw_set_w (w : sink) (f : flushingWriter) : flushingWriter :=
  mkFlushing w (f_threshold f) (f_interval f) (f_elapsed f) (f_clock f) (f_buf f) (f_src f) (f_committed f)
    (f_written f) (f_rowsHint f) (f_grew f).
Definition fw_tick (f : flushingWriter) : flushingWriter :=
  mkFlushing (f_w f) (f_threshold f) (f_interval f) (f_elapsed f) (S (f_clock f)) (f_buf f) (f_src f)
    (f_committed f) (f_written f) (f_rowsHint f) (f_grew f).
Definition fw_flushed (f : flushingWriter) : flushingWriter :=
  mkFlushing (f_w f) (f_threshold f) (f_interval f) (f_elapsed f) (f_clock f) [] (f_src f) true
    (f_written f + Zlen (f_buf f)) (f_rowsHint f) (f_grew f).

Definition fw_releaseBuf (f : flushingWriter) : flushingWriter :=
  mkFlushing (f_w f) (f_threshold f) (f_interval f) (f_elapsed f) (f_clock f) (f_buf f) false (f_committed f)
    (f_written f) (f_rowsHint f) (f_grew f).

Definition fw_Write (p : bytes) : prog flushingWriter unit := modify (λ f, fw_SetBuf (f_buf f ++ p) f).
Definition fw_WriteByte (c : byte) : prog flushingWriter unit := modify (λ f, fw_SetBuf (f_buf f ++ [c]) f).

Definition fw_Flush : prog flushingWriter unit := λ f,
  match f_buf f with
  | [] => (Ret tt, f)
  | _ =>
      match sink_write (f_buf f) (f_w f) with
      | (Ret _, w) => (Ret tt, fw_flushed (fw_set_w w f))
      | (Err e, w) => (Err e, fw_releaseBuf (fw_set_w w f))
      | (Panic, w) => (Panic, fw_set_w w f)
      | (Stuck, w) => (Stuck, fw_set_w w f)
      end
  end.

Definition fw_MaybeFlush : prog flushingWriter unit := λ f,
  if f_threshold f <=? Zlen (f_buf f) then fw_Flush f
  else if (0 <? f_interval f) && (0 <? Zlen (f_buf f)) then
    (if f_elapsed f (f_clock f) then fw_Flush (fw_tick f) else (Ret tt, fw_tick f))
  else (Ret tt, f).

Definition fw_Committed (f : flushingWriter) : bool := f_committed f.
Definition fw_BytesOut (f : flushingWriter) : Z := f_written f + Zlen (f_buf f).
Definition fw_Reset (f : flushingWriter) : flushingWriter := if f_committed f then f else fw_SetBuf [] f.
Definition fw_GrowForRow (rowBytes : Z) (f : flushingWriter) : flushingWriter :=
  if f_grew f || (f_rowsHint f <=? 0) || (rowBytes <=? 0) then f
  else mkFlushing (f_w f) (f_threshold f) (f_interval f) (f_elapsed f) (f_clock f) (f_buf f) (f_src f)
         (f_committed f) (f_written f) (f_rowsHint f) true.

#[export] Instance flushingWriter_out : OutWriter flushingWriter := {|
  Buf := f_buf; SetBuf := fw_SetBuf; Write := fw_Write; WriteByte := fw_WriteByte; MaybeFlush := fw_MaybeFlush;
  FlushOut := fw_Flush; Committed := fw_Committed; Reset := fw_Reset; BytesOut := fw_BytesOut;
  GrowForRow := fw_GrowForRow
|}.

(** ** What the streaming engine relies on *)

(** [delivered]: what the user can already see; [writer_ok h]: the writer has
    not failed, knows what it has delivered and, when [h], never fails;
    [settled]: it holds nothing back that it is to deliver by itself. *)
Class OutWriterLaws (W : Type) `{OutWriter W} := {
  delivered : W → bytes;
  writer_ok : bool → W → Prop;
  settled : W → Prop;
  buf_set h p w : Buf (SetBuf p w) = p ∧ delivered (SetBuf p w) = delivered w ∧
    Committed (SetBuf p w) = Committed w ∧ (writer_ok h w → writer_ok h (SetBuf p w));
  write_spec p w : Write p w = (Ret tt, SetBuf (Buf w ++ p) w);
  writebyte_spec c w : WriteByte c w = (Ret tt, SetBuf (Buf w ++ [c]) w);
  grow_spec h n w : Buf (GrowForRow n w) = Buf w ∧ delivered (GrowForRow n w) = delivered w ∧
    Committed (GrowForRow n w) = Committed w ∧ (writer_ok h w → writer_ok h (GrowForRow n w));
  maybe_spec h w : writer_ok h w →
    (∃ w', MaybeFlush w = (Ret tt, w') ∧ writer_ok h w' ∧ delivered w' ++ Buf w' = delivered w ++ Buf w) ∨
    (h = false ∧ ∃ e w' k, MaybeFlush w = (Err e, w') ∧ as_pg e = None ∧ delivered w ++ Buf w = delivered w' ++ k);
  flush_spec h w : writer_ok h w →
    (∃ w', FlushOut w = (Ret tt, w') ∧ writer_ok h w' ∧ delivered w' ++ Buf w' = delivered w ++ Buf w) ∨
    (h = false ∧ ∃ e w' k, FlushOut w = (Err e, w') ∧ as_pg e = None ∧ delivered w ++ Buf w = delivered w' ++ k);
  committed_spec h w : writer_ok h w → Committed w = false → delivered w = [];
  reset_spec h w : Committed w = false →
    Buf (Reset w) = [] ∧ delivered (Reset w) = delivered w ∧ Committed (Reset w) = false ∧
    (writer_ok h w → writer_ok h (Reset w));
  bytesout_spec h w : writer_ok h w → BytesOut w = Zlen (delivered w) + Zlen (Buf w);
  flush_settles w w' : FlushOut w = (Ret tt, w') → settled w';
  flushes_total w : fst (MaybeFlush w) ≠ Stuck ∧ fst (FlushOut w) ≠ Stuck
}.

(** Everything written through the writer so far. *)
Definition output {W} `{OutWriterLaws W} (w : W) : bytes := delivered w ++ Buf w.

(** ** The two implementations keep the contract *)

#[export] Program Instance bufWriter_laws : OutWriterLaws bufWriter := {|
  delivered := λ _, [];
  writer_ok := λ _ _, True;
  settled := λ _, True
|}.
Next Obligation. by intros. Qed.
Next Obligation. by intros. Qed.
Next Obligation. by intros. Qed.
Next Obligation. intros h n w. cbn. unfold bw_GrowForRow. by case_match. Qed.
Next Obligation. intros h w _. left. by exists w. Qed.
Next Obligation. intros h w _. left. by exists w. Qed.
Next Obligation. by intros. Qed.
Next Obligation. by intros. Qed.
Next Obligation. by intros. Qed.
Next Obligation. by intros. Qed.
Next Obligation. by intros. Qed.

Definition fw_ok (h : bool) (f : flushingWriter) : Prop :=
  f_written f = Zlen (got (f_w f)) ∧ (f_committed f = false → got (f_w f) = []) ∧
  (h = true → accepts (f_w f) = None).

Lemma fw_Flush_spec h f : fw_ok h f →
  (∃ f', fw_Flush f = (Ret tt, f') ∧ fw_ok h f' ∧ got (f_w f') ++ f_buf f' = got (f_w f) ++ f_buf f) ∨
  (h = false ∧ ∃ e f' k, fw_Flush f = (Err e, f') ∧ as_pg e = None ∧ got (f_w f) ++ f_buf f = got (f_w f') ++ k).
Proof.
  intros (H1 & H2 & H3). unfold fw_Flush. destruct (f_buf f) as [|b l] eqn:E; [left; exists f; by rewrite E|].
  unfold sink_write. destruct (accepts (f_w f)) as [n|]; [destruct (length (b :: l) <=? n)%nat|].
  - left. eexists; split; [done|]. cbn. rewrite app_nil_r. split; [|done]. split; [|split; [done|by intros h1; specialize (H3 h1)]].
    cbn. rewrite E, H1, Zlen_app. done.
  - right. split; [destruct h; [by specialize (H3 eq_refl)|done]|]. eexists _, _, (drop n (b :: l)); split; [done|]. split; [done|]. cbn [f_w fw_releaseBuf fw_set_w got].
    by rewrite <- app_assoc, take_drop.
  - left. eexists; split; [done|]. cbn. rewrite app_nil_r. split; [|done]. split; [|by split].
    cbn. rewrite E, H1, Zlen_app. done.
Qed.

Lemma fw_Flush_empties f f' : fw_Flush f = (Ret tt, f') → f_buf f' = [].
Proof. unfold fw_Flush. destruct (f_buf f) eqn:E; [by intros [= <-]|]. destruct (sink_write _ _) as [[]]; by intros [= <-]. Qed.

Lemma fw_Flush_total f : fst (fw_Flush f) ≠ Stuck.
Proof. unfold fw_Flush, sink_write. by repeat case_match. Qed.

#[export] Program Instance flushingWriter_laws : OutWriterLaws flushingWriter := {|
  delivered := λ f, got (f_w f);
  writer_ok := fw_ok;
  settled := λ f, f_buf f = []
|}.
Next Obligation. by intros. Qed.
Next Obligation. by intros. Qed.
Next Obligation. by intros. Qed.
Next Obligation. intros h n w. cbn. unfold fw_GrowForRow. by case_match. Qed.
Next Obligation.
  intros h w Hw. cbn. unfold fw_MaybeFlush. destruct (_ <=? _); [by apply fw_Flush_spec|].
  destruct (_ && _); [destruct (f_elapsed w (f_clock w))|].
  - apply (fw_Flush_spec h (fw_tick w)). exact Hw.
  - left. by exists (fw_tick w).
  - left. by exists w.
Qed.
Next Obligation. intros h w Hw. by apply fw_Flush_spec. Qed.
Next Obligation. intros h w (_ & H & _) Hc. by apply H. Qed.
Next Obligation. intros h w Hc. cbn in *. unfold fw_Reset, fw_Committed in *. by rewrite Hc. Qed.
Next Obligation. intros h w (H & _). cbn. unfold fw_BytesOut. by rewrite H. Qed.
Next Obligation. intros w w'. apply fw_Flush_empties. Qed.
Next Obligation.
  intros w. cbn. split; [|apply fw_Flush_total]. unfold fw_MaybeFlush.
  repeat (case_match; try apply fw_Flush_total); done.
Qed.
