(* ===== verification/Client.v ===== *)
(** pgz/config.go and pgz/conn.go (except the handshake, in Conn.v), plus
    pgz/tls_helpers.go and pgz/observer.go: the state of a Client, its defaults, the handling of the
    asynchronous messages every read loop shares, cancellation and the
    bookkeeping of a finished query. *)
From S2P Require Import Prelude Protocol Errors Effects Wire Rows StmtCache.

(** ** config.go *)

Inductive SSLMode := SSLDisable | SSLPrefer | SSLRequire | SSLVerifyCA | SSLVerifyFull.

Definition ssl_rank (m : SSLMode) : Z :=
  match m with SSLDisable => 0 | SSLPrefer => 1 | SSLRequire => 2 | SSLVerifyCA => 3 | SSLVerifyFull => 4 end.

(** The caller's [*tls.Config] is its ServerName. *)
Record Config := mkConfig {
  Host : bytes;
  Port : Z;
  Database : bytes;
  User : bytes;
  Password : bytes;
  ApplicationName : bytes;
  DialTimeout : Z;
  FlushBytes : Z;
  RuntimeParams : list (bytes * bytes);     (* in map iteration order *)
  sslMode : SSLMode;
  StmtCacheSize : Z;
  TLSConfig : option bytes;
  MaxResponseBytes : Z;
  MaxResponseRows : Z;
  SlowQueryThreshold : Z;
  RetryOnSerialization : bool;
  FlushInterval : Z;
  Keepalive : Z;
  DefaultQueryTimeout : Z;
  WireReadBufferSize : Z;
  TCPRecvBuffer : Z;
  TCPSendBuffer : Z;
  BinaryOIDs : list Z;
  RowsHint : Z;
  BinaryNumeric : bool
}.

(** The zero value of the Go struct. *)
Definition zero_config : Config :=
  mkConfig [] 0 [] [] [] [] 0 0 [] SSLDisable 0 None 0 0 0 false 0 0 0 0 0 0 [] 0 false.

Definition second : Z := 1000000000.

Definition applyDefaults (c : Config) : Config :=
  let host := match Host c with [] => str "127.0.0.1" | h => h end in
  let user := match User c with [] => str "postgres" | u => u end in
  {| Host := host;
     Port := if Port c =? 0 then 5432 else Port c;
     User := user;
     Database := match Database c with [] => user | d => d end;
     DialTimeout := if DialTimeout c =? 0 then 10 * second else DialTimeout c;
     FlushBytes := if FlushBytes c <=? 0 then 32 * 1024 else FlushBytes c;
     ApplicationName := match ApplicationName c with [] => str "pgz" | a => a end;
     Keepalive := if Keepalive c =? 0 then 30 * second else Keepalive c;
     WireReadBufferSize :=
       if WireReadBufferSize c <=? 0 then 128 * 1024
       else if WireReadBufferSize c <? 4 * 1024 then 4 * 1024 else WireReadBufferSize c;
     Password := Password c; RuntimeParams := RuntimeParams c; sslMode := sslMode c;
     StmtCacheSize := StmtCacheSize c; TLSConfig := TLSConfig c; MaxResponseBytes := MaxResponseBytes c;
     MaxResponseRows := MaxResponseRows c; SlowQueryThreshold := SlowQueryThreshold c;
     RetryOnSerialization := RetryOnSerialization c; FlushInterval := FlushInterval c;
     DefaultQueryTimeout := DefaultQueryTimeout c; TCPRecvBuffer := TCPRecvBuffer c;
     TCPSendBuffer := TCPSendBuffer c; BinaryOIDs := BinaryOIDs c; RowsHint := RowsHint c;
     BinaryNumeric := BinaryNumeric c |}.

(** What a [*tls.Config] decides for us: the name to verify and which checks run. *)
Inductive tls_check := CheckNothing | CheckChain | CheckFull | CheckCaller.
Definition buildTLS (c : Config) : option (bytes * tls_check) :=
  match sslMode c with
  | SSLDisable => None
  | _ =>
      match TLSConfig c with
      | Some name => Some (match name with [] => Host c | n => n end, CheckCaller)
      | None =>
          Some (Host c, match sslMode c with
                        | SSLVerifyCA => CheckChain
                        | SSLVerifyFull => CheckFull
                        | _ => CheckNothing
                        end)
      end
  end.

(** *** tls_helpers.go: what [CheckChain] asks of the server's certificates.
    [Verify] is the standard library's, under the system roots; a certificate's
    name is compared when [DNSName] is not empty. *)

Record VerifyOptions (Cert : Type) := mkVerify { DNSName : bytes; Intermediates : list Cert }.
Arguments mkVerify {Cert} _ _.

Section Chain.
Context {Cert : Type} (Verify : Cert → VerifyOptions Cert → option gerror).

(** [cs.PeerCertificates[1:]] panics without a certificate. *)
Definition tlsVerifyOptionsNoHost (peers : list Cert) : res (VerifyOptions Cert) :=
  match peers with [] => Panic | _ :: inter => Ret (mkVerify [] inter) end.

Definition errNoTLSChain : gerror := EFmt "pgz: server returned no TLS chain" [].

Definition verifyChainNoHost (peers : list Cert) : res unit :=
  match peers with
  | [] => Err errNoTLSChain
  | leaf :: _ =>
      match tlsVerifyOptionsNoHost peers with
      | Ret opts => match Verify leaf opts with Some e => Err e | None => Ret tt end
      | Err e => Err e
      | Panic => Panic
      | Stuck => Stuck
      end
  end.
End Chain.

(** ** observer.go *)

Record QueryEvent := mkEvent {
  ev_sql : bytes;
  ev_rows : Z;
  ev_bytes : Z;
  ev_err : option gerror;
  ev_state : bytes;
  ev_retries : Z
}.

(** Calls on the Observer, in order, and between them the SetObserver calls that
    change who gets the next ones: a caller's observer is a number, [None] the
    noopObserver. *)
Inductive observed :=
| OnQueryStart (sql : bytes)
| OnQueryEnd (ev : QueryEvent)
| OnNotice (n : PGError)
| OnQuerySlow (ev : QueryEvent)
| Installed (o : option nat).

Record counters := mkCounters { queries : Z; errors : Z; rows : Z; cbytes : Z }.

(** ** conn.go *)

Definition cancelRequestCode : Z := 80877102.
Definition sslRequestCode : Z := 80877103.

Record Client := mkClient {
  cfg : Config;
  conn : Conn;
  params : gmap bytes bytes;
  pid : Z;
  skey : Z;
  stmts : stmtCache;
  log : list observed;       (* the calls made on the observer *)
  cancels : list bytes;      (* CancelRequest packets handed to side connections *)
  cnt : counters;
  lastRows : Z;
  lastRetries : Z
}.

Definition set_conn (x : Conn) (c : Client) : Client :=
  mkClient (cfg c) x (params c) (pid c) (skey c) (stmts c) (log c) (cancels c) (cnt c) (lastRows c) (lastRetries c).
Definition set_params (x : gmap bytes bytes) (c : Client) : Client :=
  mkClient (cfg c) (conn c) x (pid c) (skey c) (stmts c) (log c) (cancels c) (cnt c) (lastRows c) (lastRetries c).
Definition set_key (p k : Z) (c : Client) : Client :=
  mkClient (cfg c) (conn c) (params c) p k (stmts c) (log c) (cancels c) (cnt c) (lastRows c) (lastRetries c).
Definition set_stmts (x : stmtCache) (c : Client) : Client :=
  mkClient (cfg c) (conn c) (params c) (pid c) (skey c) x (log c) (cancels c) (cnt c) (lastRows c) (lastRetries c).
Definition observe (x : observed) (c : Client) : Client :=
  mkClient (cfg c) (conn c) (params c) (pid c) (skey c) (stmts c) (log c ++ [x]) (cancels c) (cnt c)
    (lastRows c) (lastRetries c).
Definition add_cancel (x : bytes) (c : Client) : Client :=
  mkClient (cfg c) (conn c) (params c) (pid c) (skey c) (stmts c) (log c) (cancels c ++ [x]) (cnt c)
    (lastRows c) (lastRetries c).
Definition set_cnt (x : counters) (c : Client) : Client :=
  mkClient (cfg c) (conn c) (params c) (pid c) (skey c) (stmts c) (log c) (cancels c) x (lastRows c) (lastRetries c).
Definition set_lastRows (x : Z) (c : Client) : Client :=
  mkClient (cfg c) (conn c) (params c) (pid c) (skey c) (stmts c) (log c) (cancels c) (cnt c) x (lastRetries c).
Definition set_lastRetries (x : Z) (c : Client) : Client :=
  mkClient (cfg c) (conn c) (params c) (pid c) (skey c) (stmts c) (log c) (cancels c) (cnt c) (lastRows c) x.

Abbreviation client := (prog Client).

(** Run a wire operation on [c.conn]. *)
Definition wire {A} (m : io A) : client A := zoom conn set_conn m.

(** The Client Open builds before the handshake. *)
Definition newClient (c : Config) (nc : Conn) : Client :=
  let c := applyDefaults c in
  mkClient c (NewSized (inbound nc) (room nc) (WireReadBufferSize c)) ∅ 0 0 (newStmtCache (StmtCacheSize c))
    [] [] (mkCounters 0 0 0 0) 0 0.

Definition splitParameter (b : bytes) : bytes * bytes :=
  match index_zero b with
  | Some i =>
      let rest := drop (S i) b in
      (take i b, match index_zero rest with Some j => take j rest | None => [] end)
  | None => ([], [])
  end.

Definition beU32 (b : bytes) : Z := be_get (take 4 b).
Definition beU32put (v : Z) : bytes := be_put 4 v.

(** [case protocol.MsgParameterStatus: k, v := splitParameter(body); c.params[k] = v] *)
Definition on_parameter (body : bytes) : client unit :=
  modify (λ c, let '(k, v) := splitParameter body in set_params (<[k := v]> (params c)) c).
(** [case protocol.MsgNoticeResponse: c.observer.OnNotice(pgerr.Parse(body))] *)
Definition on_notice (body : bytes) : client unit := modify (observe (OnNotice (Parse body))).

Definition ParameterStatus (name : bytes) (c : Client) : bytes := default [] (params c !! name).

(** The side connection is not ours to read: the packet is recorded as handed
    to the dialer, whose success the callers never look at. *)
Definition SendCancel : client unit :=
  c ← ask;
  if pid c =? 0 then throw (EFmt "pgz: no backend key data; cannot cancel" [])
  else modify (add_cancel (beU32put 16 ++ beU32put cancelRequestCode ++ beU32put (pid c) ++ beU32put (skey c))).

(** [c.recordEnd(sql, rows, bytes, dur, err)], run by the query's defer. *)
Definition recordEnd (sql : bytes) (nrows nbytes dur : Z) (err : option gerror) : client unit :=
  modify (λ c,
    let k := cnt c in
    let k := mkCounters (u64 (queries k + 1)) (errors k) (u64 (rows k + u64 nrows)) (u64 (cbytes k + u64 nbytes)) in
    let k := match err with Some _ => mkCounters (queries k) (u64 (errors k + 1)) (rows k) (cbytes k) | None => k end in
    let state := match err with Some (EPg e) => Code e | _ => [] end in
    let ev := mkEvent sql nrows nbytes err state (lastRetries c) in
    let c := observe (OnQueryEnd ev) (set_cnt k c) in
    let c := if (0 <? SlowQueryThreshold (cfg c)) && (SlowQueryThreshold (cfg c) <=? dur)
             then observe (OnQuerySlow ev) c else c in
    set_lastRetries 0 c).

(** A nil observer is the noopObserver. *)
Definition SetObserver (o : option nat) : client unit := modify (observe (Installed o)).

(** What observer [n] is told, [cur] being installed at first. *)
Fixpoint received (n : nat) (cur : option nat) (l : list observed) : list observed :=
  match l with
  | [] => []
  | Installed o :: l => received n o l
  | x :: l => if bool_decide (cur = Some n) then x :: received n cur l else received n cur l
  end.

(** A snapshot of the counters. *)
Definition Stats : client counters := gets cnt.

(** ** Contexts *)

(** A [context.Context] as the driver consults it: [ctx.Err()] at each of the
    successive points where it is asked, and whether it has a deadline.  It is
    the one the call works with: the caller's, or what [Ctx.withDefaultTimeout]
    makes of it under a DefaultQueryTimeout. *)
Record context := { ctx_err : nat → option gerror; ctx_deadline : bool }.

(** attachContext's synchronous part: an already finished context is refused.
    The watcher goroutine it starts cancels a running query from outside: Ctx. *)
Definition attachContext (ctx : context) : client unit :=
  match ctx_err ctx 0 with Some e => throw e | None => mret tt end.

(** ** Read loops *)

(** [for { t, body, err := c.conn.ReadMessage(); if err != nil { onerr }; switch t {...} }]
    over any state that contains the client: the step either goes round with
    new local variables or leaves the loop with a result. *)
Section Loop.
Context {S A R : Type} (read : prog S (byte * bytes)) (step : A → byte → bytes → prog S (A + R))
  (onerr : A → gerror → prog S R).

Fixpoint read_loop (fuel : nat) (a : A) : prog S R :=
  match fuel with
  | O => stuck
  | Datatypes.S fuel =>
      m ← catch read;
      match m with
      | inl e => onerr a e
      | inr (t, body) =>
          r ← step a t body;
          match r with
          | inl a => read_loop fuel a
          | inr x => mret x
          end
      end
  end.
End Loop.

(** Every message takes at least five bytes of the stream, so this many rounds
    are enough ([read_loop_total] below). *)
Definition rounds (c : Client) : nat := S (length (inbound (conn c))).

Definition again {S A R} (a : A) : prog S (A + R) := mret (inl a).
Definition leave {S A R} (r : R) : prog S (A + R) := mret (inr r).

(** The loop over a client alone. *)
Definition for_messages {A R} (step : A → byte → bytes → client (A + R)) (a : A) : client R := λ c,
  read_loop (wire ReadMessage) step (λ _ e, throw e) (rounds c) a c.

(** ** Ping *)

Definition Ping (ctx : context) : client unit :=
  _ ← attachContext ctx;
  _ ← wire (_ ← message MsgQuery (bCString []); Flush);
  for_messages (λ (_ : unit) t body,
    if beq t MsgEmptyQueryResponse || beq t MsgCommandComplete then again tt
    else if beq t MsgNoticeResponse then _ ← on_notice body; again tt
    else if beq t MsgParameterStatus then _ ← on_parameter body; again tt
    else if beq t MsgErrorResponse then throw (EPg (Parse body))
    else if beq t MsgReadyForQuery then leave tt
    else throw (EFmt "pgz: unexpected msg during ping" [byteZ t])) tt.

(** ** Lemmas: read loops terminate *)

(** The bytes still to read. *)
Definition left_in (c : Client) : nat := length (inbound (conn c)).

Lemma ReadMessage_shrinks c : match ReadMessage c with
  | (Ret _, c') => (length (inbound c') < length (inbound c))%nat
  | (Err _, c') => (length (inbound c') <= length (inbound c))%nat
  | _ => False
  end.
Proof.
  pose proof (ReadMessage_safe c) as Hs. destruct (ReadMessage c) as [[[t b]|e| |] c'] eqn:E; try done.
  - apply ReadMessage_inv in E as (-> & _ & _). rewrite length_app, length_frame. lia.
  - unfold ReadMessage, mbind, prog_bind, Peek, Discard, ReadFull, gets, modify, throw, mret, prog_ret in E.
    repeat case_match; simplify_eq; cbn; rewrite ?length_drop; lia.
Qed.

Section LoopTotal.
Context {S A R : Type} (mu : S → nat) (read : prog S (byte * bytes)) (step : A → byte → bytes → prog S (A + R))
  (onerr : A → gerror → prog S R).
Context (Hread : ∀ s, match read s with
    | (Ret _, s') => (mu s' < mu s)%nat
    | (Err _, s') => (mu s' <= mu s)%nat
    | (Panic, s') => (mu s' <= mu s)%nat
    | (Stuck, _) => False
    end)
  (Hstep : ∀ a t b, calm mu (step a t b)) (Herr : ∀ a e, calm mu (onerr a e)).

Lemma read_loop_total fuel a s : (mu s < fuel)%nat →
  fst (read_loop read step onerr fuel a s) ≠ Stuck ∧ (mu (snd (read_loop read step onerr fuel a s)) <= mu s)%nat.
Proof.
  revert a s. induction fuel as [|fuel IH]; intros a s Hf; [lia|]. cbn [read_loop].
  unfold mbind at 1 3, prog_bind at 1 3, catch. specialize (Hread s). destruct (read s) as [[[t b]|e| |] s1]; try done.
  2:{ destruct (Herr a e s1). split; [done|lia]. }
  unfold mbind, prog_bind. destruct (Hstep a t b s1) as [H1 H2].
  destruct (step a t b s1) as [[[a'|x]|e| |] s2]; cbn in *; try done.
  1: destruct (IH a' s2 ltac:(lia)) as [H3 H4].
  all: split; [done|lia].
Qed.
End LoopTotal.

Lemma wire_read_shrinks c : match wire ReadMessage c with
  | (Ret _, c') => (left_in c' < left_in c)%nat
  | (Err _, c') | (Panic, c') => (left_in c' <= left_in c)%nat
  | (Stuck, _) => False
  end.
Proof.
  pose proof (ReadMessage_shrinks (conn c)) as H. unfold wire, zoom, left_in.
  destruct (ReadMessage (conn c)) as [[] c']; try done.
Qed.

Lemma for_messages_calm {A R} (step : A → byte → bytes → client (A + R)) a :
  (∀ a t b, calm left_in (step a t b)) → calm left_in (for_messages step a).
Proof.
  intros H c. unfold for_messages.
  apply read_loop_total; [apply wire_read_shrinks|exact H|intros; apply calm_throw|unfold rounds, left_in; lia].
Qed.

Lemma on_parameter_calm b : calm left_in (on_parameter b).
Proof. apply calm_modify. intros c. by destruct (splitParameter b). Qed.
Lemma on_notice_calm b : calm left_in (on_notice b).
Proof. by apply calm_modify. Qed.
Lemma again_calm {S A R} mu (a : A) : calm mu (again (S := S) (R := R) a).
Proof. apply calm_ret. Qed.
Lemma leave_calm {S A R} mu (r : R) : calm mu (leave (S := S) (A := A) r).
Proof. apply calm_ret. Qed.
Lemma SendCancel_calm : calm left_in SendCancel.
Proof. intros c. unfold SendCancel, mbind, prog_bind, ask. by destruct (pid c =? 0). Qed.
Lemma attachContext_calm ctx : calm left_in (attachContext ctx).
Proof. unfold attachContext. destruct (ctx_err ctx 0); auto with calm. Qed.
(** A call on the observer goes to the one installed last, and to no other. *)
Lemma received_app n l l' : ∀ cur, received n cur (l ++ l') =
  received n cur l ++ received n (fold_left (λ o x, match x with Installed o' => o' | _ => o end) l cur) l'.
Proof.
  induction l as [|x l IH]; intros cur; [done|]. cbn [app received fold_left]. destruct x; rewrite ?IH; try done; by case_bool_decide.
Qed.
Lemma received_last n o l l' cur : Forall (λ x, match x with Installed _ => False | _ => True end) l' →
  received n cur (l ++ Installed o :: l') = received n cur l ++ (if bool_decide (o = Some n) then l' else []).
Proof.
  intros H. rewrite received_app. f_equal. cbn [received]. induction H as [|x l' Hx _ IH]; [by case_bool_decide|].
  cbn [received]. destruct x; try done; rewrite IH; by case_bool_decide.
Qed.

(** The chain check never panics; what it accepts is a leaf that verifies with
    the rest of the chain at hand and under no host name at all. *)
Lemma verifyChainNoHost_spec {Cert} (Verify : Cert → VerifyOptions Cert → option gerror) peers :
  (verifyChainNoHost Verify peers = Ret tt ↔
     ∃ leaf inter, peers = leaf :: inter ∧ Verify leaf (mkVerify [] inter) = None) ∧
  (verifyChainNoHost Verify peers = Ret tt ∨ ∃ e, verifyChainNoHost Verify peers = Err e).
Proof.
  destruct peers as [|leaf inter]; cbn; [split; [split; [done|by intros (? & ? & ? & _)]|by right; eexists]|].
  destruct (Verify leaf (mkVerify [] inter)) eqn:E; (split; [split; [|]|]).
  - done.
  - intros (? & ? & [= <- <-] & H). congruence.
  - by right; eexists.
  - by eauto.
  - done.
  - by left.
Qed.

Lemma recordEnd_calm a b c d e : calm left_in (recordEnd a b c d e).
Proof. apply calm_modify. intros k. unfold left_in. by destruct (_ && _), e. Qed.

(** A wire computation that does not read leaves the stream alone. *)
Definition silent {A} (m : io A) : Prop := ∀ c, fst (m c) ≠ Stuck ∧ inbound (snd (m c)) = inbound c.

Lemma silent_calm {A} (m : io A) : silent m → calm left_in (wire m).
Proof.
  intros H c. unfold wire, zoom, left_in. destruct (H (conn c)) as [H1 H2]. destruct (m (conn c)) as [r c'].
  cbn in *. split; [done|]. by rewrite H2.
Qed.
Lemma silent_bind {A B} (m : io A) (f : A → io B) : silent m → (∀ a, silent (f a)) → silent (m ≫= f).
Proof.
  intros Hm Hf s. unfold mbind, prog_bind. destruct (Hm s) as [H1 H2]. destruct (m s) as [[a|e| |] s']; cbn in *; try done.
  destruct (Hf a s') as [H3 H4]. by rewrite H4.
Qed.
Lemma silent_ret {A} (a : A) : silent (mret a).
Proof. done. Qed.
Lemma silent_append p : silent (append p).
Proof. done. Qed.
Lemma silent_writes m p : writes m p → silent m.
Proof. intros H c. by rewrite H. Qed.
Lemma silent_gets {A} (f : Conn → A) : silent (gets f).
Proof. done. Qed.
Lemma silent_Finish b : silent (Finish b).
Proof. intros c. unfold Finish, modify. by destruct (noType b). Qed.
Lemma silent_Flush : silent Flush.
Proof.
  intros c. unfold Flush, mbind, prog_bind, gets, catch, WriteRaw, modify, of_sum, throw, mret, prog_ret.
  repeat case_match; simplify_eq; done.
Qed.
Lemma silent_mapM_ {A} (f : A → io unit) l : (∀ a, silent (f a)) → silent (mapM_ f l).
Proof. intros H. induction l; cbn; [apply silent_ret|]. by apply silent_bind. Qed.
Lemma silent_Begin t : silent (Begin t).
Proof. done. Qed.
Lemma silent_BeginNoType : silent BeginNoType.
Proof. done. Qed.
Lemma silent_throw {A} e : silent (throw (A := A) e).
Proof. done. Qed.
Lemma silent_panic {A} : silent (panic (A := A)).
Proof. done. Qed.

#[export] Hint Resolve silent_bind silent_ret silent_append silent_gets silent_Finish silent_Flush silent_mapM_
  silent_Begin silent_BeginNoType silent_throw silent_panic : calm.
#[export] Hint Resolve for_messages_calm on_parameter_calm on_notice_calm again_calm leave_calm SendCancel_calm
  attachContext_calm recordEnd_calm silent_calm : calm.

(** Discharges [calm] and [silent] goals on the read loops' steps. *)
Ltac calm_tac :=
  repeat match goal with
  | |- ∀ _, _ => intro
  | |- calm _ (if ?b then _ else _) => destruct b
  | |- calm _ (match ?x with _ => _ end) => destruct x
  | |- silent (if ?b then _ else _) => destruct b
  | |- silent (match ?x with _ => _ end) => destruct x
  | |- calm _ (_ ≫= _) => apply calm_bind
  | |- silent (_ ≫= _) => apply silent_bind
  | |- calm _ (for_messages _ _) => apply for_messages_calm
  | |- calm _ (wire _) => apply silent_calm
  | |- silent (message _ _) => unfold message
  | |- silent (bCString _) => unfold bCString
  | |- _ => solve [auto with calm]
  end.

Lemma Ping_calm ctx : calm left_in (Ping ctx).
Proof. unfold Ping. calm_tac. Qed.


(** ** Lemmas: loops, relations and invariants *)

Section LoopRules.
Context {S A R : Type} (read : prog S (byte * bytes)) (step : A → byte → bytes → prog S (A + R))
  (onerr : A → gerror → prog S R).

Lemma read_loop_stable (Rel : S → S → Prop) `{!PreOrder Rel} :
  stable Rel read → (∀ a t b, stable Rel (step a t b)) → (∀ a e, stable Rel (onerr a e)) →
  ∀ fuel a, stable Rel (read_loop read step onerr fuel a).
Proof.
  intros Hr Hs He fuel. induction fuel as [|fuel IH]; intros a; cbn [read_loop]; [by apply stable_stuck|].
  apply stable_bind; [done|by apply stable_catch|]. intros [e|[t b]]; [apply He|].
  apply stable_bind; [done|apply Hs|]. intros [a'|x]; [apply IH|by apply stable_ret].
Qed.

(** A loop invariant: what every round keeps, and what each exit guarantees. *)
Lemma read_loop_inv (I : A → S → Prop) (Q : res R → S → Prop) :
  (∀ a s, I a s → match read s with
     | (Ret (t, b), s1) =>
         match step a t b s1 with
         | (Ret (inl a'), s2) => I a' s2
         | (Ret (inr x), s2) => Q (Ret x) s2
         | (Err e, s2) => Q (Err e) s2
         | (Panic, s2) => Q Panic s2
         | (Stuck, _) => True
         end
     | (Err e, s1) => Q (fst (onerr a e s1)) (snd (onerr a e s1)) ∨ fst (onerr a e s1) = Stuck
     | (Panic, s1) => Q Panic s1
     | (Stuck, _) => True
     end) →
  ∀ fuel a s, I a s → fst (read_loop read step onerr fuel a s) = Stuck ∨
    Q (fst (read_loop read step onerr fuel a s)) (snd (read_loop read step onerr fuel a s)).
Proof.
  intros H fuel. induction fuel as [|fuel IH]; intros a s HI; [by left|]. cbn [read_loop].
  specialize (H a s HI). unfold mbind, prog_bind, catch.
  destruct (read s) as [[[t b]|e| |] s1]; cbn; [|tauto|by right|by left].
  destruct (step a t b s1) as [[[a'|x]|e| |] s2]; cbn; [by apply IH|by right|by right|by right|by left].
Qed.
End LoopRules.

(** *** Scripted replies *)

Lemma set_conn_twice k1 k2 c : set_conn k2 (set_conn k1 c) = set_conn k2 c.
Proof. done. Qed.

Section Script.
Context {A R : Type} (stp : A → byte → bytes → client (A + R)) (next : A → byte * bytes → A)
  (touch : Client → byte * bytes → Client) (onerr : A → gerror → client R).
Context (touch_conn : ∀ k c m, touch (set_conn k c) m = set_conn k (touch c m)).

(** The outcome of the step that ends a loop. *)
Definition ending (r : res R) : res (A + R) :=
  match r with Ret x => Ret (inr x) | Err e => Err e | Panic => Panic | Stuck => Stuck end.

Lemma fold_touch_conn k ms : ∀ c, fold_left touch ms (set_conn k c) = set_conn k (fold_left touch ms c).
Proof. induction ms as [|m ms IH]; intros c; [done|]. cbn [fold_left]. by rewrite touch_conn, IH. Qed.

Lemma wire_read_frame c t body rest : inbound (conn c) = frame t body ++ rest → msg_ok (t, body) →
  ∃ k, wire ReadMessage c = (Ret (t, body), set_conn k c) ∧ conn_at rest (conn c) k.
Proof.
  intros Hin Hok. destruct (ReadMessage_frame (conn c) t body rest Hin Hok) as [cap E].
  eexists. unfold wire, zoom. rewrite E. split; [done|]. by repeat split.
Qed.

(** A loop over messages it goes round on, up to the one that ends it. *)
Lemma script_loop t b rest r g : ∀ ms a fuel c, (length ms < fuel)%nat →
  inbound (conn c) = wire_of ms ++ frame t b ++ rest →
  Forall (λ m, msg_ok m ∧ ∀ a c, stp a m.1 m.2 c = (Ret (inl (next a m)), touch c m)) ms → msg_ok (t, b) →
  (∀ k, stp (fold_left next ms a) t b (set_conn k (fold_left touch ms c)) =
    (ending r, g (set_conn k (fold_left touch ms c)))) →
  ∃ k, conn_at rest (conn c) k ∧
    read_loop (wire ReadMessage) stp onerr fuel a c = (r, g (set_conn k (fold_left touch ms c))).
Proof.
  intros ms. induction ms as [|[t1 b1] ms IH]; intros a fuel c Hf Hin Hok Hlast Hend; destruct fuel as [|fuel];
    try (cbn in Hf; lia); cbn [read_loop].
  - cbn in Hin. destruct (wire_read_frame c t b rest Hin Hlast) as (k & E & Hk). exists k. split; [done|].
    unfold mbind, prog_bind, catch. rewrite E. cbn [fold_left] in *. rewrite Hend. by destruct r.
  - apply Forall_cons in Hok as [[Hm Hs] Hok]. cbn [fst snd] in *. unfold wire_of in Hin. cbn [map concat fst snd] in Hin.
    rewrite <- app_assoc in Hin. fold (wire_of ms) in Hin.
    destruct (wire_read_frame c t1 b1 _ Hin Hm) as (k1 & E & Hk1).
    destruct (IH (next a (t1, b1)) fuel (set_conn k1 (touch c (t1, b1)))) as (k & Hk & E'); try done.
    { cbn in Hf. lia. }
    { by apply (conn_at_in _ _ _ Hk1). }
    { intros k. rewrite fold_touch_conn, !set_conn_twice. apply Hend. }
    exists k. split; [by eapply conn_at_trans|]. unfold mbind, prog_bind, catch. rewrite E, Hs, touch_conn.
    etransitivity; [exact E'|]. by rewrite fold_touch_conn.
Qed.

End Script.

Lemma for_messages_script {A R} (stp : A → byte → bytes → client (A + R)) (next : A → byte * bytes → A)
    (touch : Client → byte * bytes → Client) t b rest r g ms a c :
  (∀ k c m, touch (set_conn k c) m = set_conn k (touch c m)) →
  inbound (conn c) = wire_of ms ++ frame t b ++ rest →
  Forall (λ m, msg_ok m ∧ ∀ a c, stp a m.1 m.2 c = (Ret (inl (next a m)), touch c m)) ms → msg_ok (t, b) →
  (∀ k, stp (fold_left next ms a) t b (set_conn k (fold_left touch ms c)) =
    (ending r, g (set_conn k (fold_left touch ms c)))) →
  ∃ k, conn_at rest (conn c) k ∧ for_messages stp a c = (r, g (set_conn k (fold_left touch ms c))).
Proof.
  intros Htc Hin Hok Hlast Hend. apply (script_loop stp next touch) with (t := t) (b := b); try done.
  unfold rounds. pose proof (length_wire_of ms). rewrite Hin, length_app. lia.
Qed.

(** What the asynchronous messages do to a client. *)
Definition absorb (c : Client) (m : byte * bytes) : Client :=
  if beq m.1 MsgParameterStatus then let '(k, v) := splitParameter m.2 in set_params (<[k := v]> (params c)) c
  else if beq m.1 MsgNoticeResponse then observe (OnNotice (Parse m.2)) c
  else c.

Lemma absorb_conn k c m : absorb (set_conn k c) m = set_conn k (absorb c m).
Proof. unfold absorb. destruct (beq _ _); [by destruct (splitParameter _)|]. by destruct (beq _ _). Qed.
Lemma conn_absorb c m : conn (absorb c m) = conn c.
Proof. unfold absorb. destruct (beq _ _); [by destruct (splitParameter _)|]. by destruct (beq _ _). Qed.

(** Applying the defaults leaves every setting usable (a host, user,
    database, port, flush size and a read buffer of at least 4 KiB), keeps what
    the caller set, changes nothing the second time, and does not touch the SSL
    mode: the zero Config connects in plaintext. *)
Theorem config_defaults (c : Config) :
  (Host (applyDefaults c) ≠ [] ∧ User (applyDefaults c) ≠ [] ∧ Database (applyDefaults c) ≠ [] ∧
   Port (applyDefaults c) ≠ 0 ∧ 0 < FlushBytes (applyDefaults c) ∧ 4096 <= WireReadBufferSize (applyDefaults c)) ∧
  ((Host c ≠ [] → Host (applyDefaults c) = Host c) ∧ (User c ≠ [] → User (applyDefaults c) = User c) ∧
   (Database c ≠ [] → Database (applyDefaults c) = Database c) ∧ (Port c ≠ 0 → Port (applyDefaults c) = Port c) ∧
   (4096 <= WireReadBufferSize c → WireReadBufferSize (applyDefaults c) = WireReadBufferSize c)) ∧
  applyDefaults (applyDefaults c) = applyDefaults c ∧
  sslMode (applyDefaults c) = sslMode c ∧ buildTLS (applyDefaults zero_config) = None.
Proof.
  destruct c as [host port db user pw app dt fb rp ssl scs tls mb mr sq ros fi ka dq wr tr ts bo rh bn].
  cbn [applyDefaults Host Port Database User Password ApplicationName DialTimeout FlushBytes RuntimeParams sslMode
       StmtCacheSize TLSConfig MaxResponseBytes MaxResponseRows SlowQueryThreshold RetryOnSerialization FlushInterval
       Keepalive DefaultQueryTimeout WireReadBufferSize TCPRecvBuffer TCPSendBuffer BinaryOIDs RowsHint BinaryNumeric].
  split; [|split; [|split; [|done]]].
  - split; [by destruct host|]. split; [by destruct user|]. split; [by destruct db, user|].
    split; [by destruct (Z.eqb_spec port 0)|]. split; [destruct (Z.leb_spec fb 0); lia|].
    destruct (Z.leb_spec wr 0); [lia|]. destruct (Z.ltb_spec wr (4 * 1024)); lia.
  - split; [by destruct host|]. split; [by destruct user|]. split; [by destruct db|].
    split; [by destruct (Z.eqb_spec port 0)|]. intros H. destruct (Z.leb_spec wr 0); [lia|].
    by destruct (Z.ltb_spec wr (4 * 1024)); [lia|].
  - unfold applyDefaults.
    cbn [Host Port Database User Password ApplicationName DialTimeout FlushBytes RuntimeParams sslMode
       StmtCacheSize TLSConfig MaxResponseBytes MaxResponseRows SlowQueryThreshold RetryOnSerialization FlushInterval
       Keepalive DefaultQueryTimeout WireReadBufferSize TCPRecvBuffer TCPSendBuffer BinaryOIDs RowsHint BinaryNumeric].
    f_equal.
    + by destruct host.
    + by destruct (Z.eqb_spec port 0), (Z.eqb_spec port 0).
    + by destruct db, user.
    + by destruct user.
    + by destruct app.
    + by destruct (Z.eqb_spec dt 0), (Z.eqb_spec dt 0).
    + destruct (Z.leb_spec fb 0); [done|]. by destruct (Z.leb_spec fb 0); [lia|].
    + by destruct (Z.eqb_spec ka 0), (Z.eqb_spec ka 0).
    + destruct (Z.leb_spec wr 0); [done|]. destruct (Z.ltb_spec wr (4 * 1024)); [done|].
      destruct (Z.leb_spec wr 0); [lia|]. by destruct (Z.ltb_spec wr (4 * 1024)); [lia|].
Qed.
