(* ===== verification/Query.v ===== *)
(** pgz/query.go: the streaming engine.  A query runs over a client and an
    output writer together ([qstate]); every read loop is the source's
    [for { ReadMessage; switch }] with its local variables as the loop's
    accumulator, and error returns leave the state as the code leaves it. *)
From S2P Require Import Prelude Protocol JsonWriter JsonGrammar Encoders Errors Effects Wire Rows Args StmtCache Stream.
From S2P Require Import Client.

Inductive Mode := ModeArray | ModeNDJSON | ModeColumnar | ModeTOON.

(** ** Guards and predicates *)

(** [err.( *pgerr.Error)]: a type assertion, which does not unwrap. *)
Definition isRetryableSerialization (e : gerror) : bool :=
  match e with
  | EPg pe => bool_decide (Code pe = str "40001") || bool_decide (Code pe = str "40P01")
  | _ => false
  end.

Definition isStaleStmtError (e : gerror) : bool :=
  match e with EPg pe => bool_decide (Code pe = str "26000") | _ => false end.

Definition allBinary (fmts : list Z) : bool :=
  match fmts with [] => false | _ => forallb (λ f, f =? 1) fmts end.

Section Query.
Context {W : Type} `{OutWriter W} `{MapOrder}.

Abbreviation qstate := (Client * W)%type.
Abbreviation query := (prog qstate).

Definition cl {A} (m : client A) : query A := zoom fst (λ c s, (c, snd s)) m.
Definition ow {A} (m : prog W A) : query A := zoom snd (λ w s, (fst s, w)) m.

(** ** Caps *)

Definition checkCaps (rowCount : Z) (s : qstate) : option gerror :=
  let '(c, out) := s in
  let maxRows := MaxResponseRows (cfg c) in
  let maxBytes := MaxResponseBytes (cfg c) in
  if (0 <? maxRows) && (maxRows <=? rowCount) then
    Some (ETooLarge LimitRows maxRows rowCount (Committed out))
  else if (0 <? maxBytes) && (maxBytes <=? BytesOut out) then
    Some (ETooLarge LimitBytes maxBytes (BytesOut out) (Committed out))
  else None.

(** The drain's loop body: only ReadyForQuery ends it. *)
Definition drain_step (_ : unit) (t : byte) (body : bytes) : query (unit + unit) :=
  if beq t MsgReadyForQuery then leave tt
  else if beq t MsgParameterStatus then _ ← cl (on_parameter body); again tt
  else if beq t MsgNoticeResponse then _ ← cl (on_notice body); again tt
  else again tt.

(** A read error just stops the drain. *)
Definition drain : query unit := λ s,
  read_loop (cl (wire ReadMessage)) drain_step (λ _ _, mret tt) (rounds (fst s)) tt s.

(** Sends the cancel, drains to ReadyForQuery and returns the cap error. *)
Definition abortOversize {A} (capErr : gerror) : query A :=
  _ ← catch (cl SendCancel);
  _ ← drain;
  throw capErr.

(** ** Writing a result *)

Definition writeHeader (mode : Mode) (plan : option Plan) : prog W unit :=
  match mode with
  | ModeArray => WriteByte "["%byte
  | ModeNDJSON => mret tt
  | ModeColumnar => match plan with Some p => Write (ColumnsArrayHeader p) | None => panic end
  | ModeTOON => match plan with Some p => Write (TOONHeader p) | None => panic end
  end.

(** The scratch buffer after the row, and the row's error. *)
Definition row_bytes (mode : Mode) (plan : Plan) (body : bytes) (idx : Z) (scratch : bytes) : bytes * option gerror :=
  match mode with
  | ModeArray =>
      AppendObject (if 0 <? idx then scratch ++ [","%byte] else scratch) body plan
  | ModeNDJSON =>
      match AppendObject scratch body plan with
      | (s, None) => (s ++ [x0a], None)
      | r => r
      end
  | ModeColumnar =>
      AppendArray (if 0 <? idx then scratch ++ [","%byte] else scratch) body plan
  | ModeTOON => AppendTOONRow scratch body plan
  end.

Definition writeRow (mode : Mode) (plan : option Plan) (body : bytes) (idx : Z) : prog W unit :=
  match plan with
  | None => panic
  | Some plan =>
      scratch ← gets Buf;
      let startLen := Zlen scratch in
      match row_bytes mode plan body idx scratch with
      | (_, Some e) => throw e
      | (scratch, None) =>
          _ ← modify (SetBuf scratch);
          _ ← (if idx =? 0 then modify (GrowForRow (Zlen scratch - startLen)) else mret tt);
          MaybeFlush
      end
  end.

Definition writeFooter (mode : Mode) : prog W unit :=
  match mode with
  | ModeArray => WriteByte "]"%byte
  | ModeColumnar => Write (str "]}")
  | _ => mret tt
  end.

(** ** Preparing *)

Definition closeMessages (dead : list bytes) : io unit :=
  mapM_ (λ name, message MsgClose (_ ← bByte "S"%byte; bCString name)) dead.

Definition parseMessages (name sql : bytes) : io unit :=
  _ ← message MsgParse (_ ← bCString name; _ ← bCString sql; bInt16 0);
  message MsgDescribe (_ ← bByte "S"%byte; bCString name).

Definition syncMessage : io unit := message MsgSync (mret tt).

(** [c.stmts.nextName()] and [c.stmts.takePendingClose()]. *)
Definition next_name : client bytes := λ c,
  let '(n, sc) := nextName (stmts c) in (Ret n, set_stmts sc c).
Definition take_pending : client (list bytes) := λ c,
  let '(l, sc) := takePendingClose (stmts c) in (Ret l, set_stmts sc c).
Definition new_stmt (st : preparedStmt) : client nat := λ c,
  let '(r, sc) := alloc st (stmts c) in (Ret r, set_stmts sc c).
Definition cache_get (sql : bytes) : client (option nat) := gets (λ c, get sql (stmts c)).
Definition cache_put (sql : bytes) (r : nat) : client unit := modify (λ c, set_stmts (put sql r (stmts c)) c).
Definition cache_invalidate (sql : bytes) : client unit := modify (λ c, set_stmts (invalidate sql (stmts c)) c).
Definition load (r : nat) : client preparedStmt := gets (λ c, deref r (stmts c)).
(** [st.plan = p] *)
Definition set_plan (r : nat) (p : Plan) : client unit :=
  modify (λ c, set_stmts (update r (λ st, mkStmt (st_name st) (Some p) (st_resultFmts st) (st_paramOIDs st)) (stmts c)) c).

(** Columns named in Config.BinaryOIDs are upgraded to binary. *)
Definition upgrade_formats (binaryOIDs : list Z) (cols : list Column) (fmts : list Z) : list Z :=
  zip_with (λ c f, if existsb (λ o, u32 o =? TypeOID c) binaryOIDs then 1 else f) cols fmts.

(** The format codes requested for a plan, and the plan that decodes them. *)
Definition negotiate (cf : Config) (p : Plan) : list Z * Plan :=
  let fmts := PickResultFormatsEx (Columns p) (BinaryNumeric cf) in
  let fmts := match BinaryOIDs cf with [] => fmts | l => upgrade_formats l (Columns p) fmts end in
  (fmts, ApplyFormatsEx p fmts (BinaryNumeric cf)).

Record describing := mkDesc { d_plan : option Plan; d_err : option PGError; d_oids : list OID }.

Definition describe_step (name : bytes) (a : describing) (t : byte) (body : bytes) : client (describing + nat) :=
  if beq t MsgParseComplete || beq t MsgCloseComplete || beq t MsgNoData then again a
  else if beq t MsgParameterDescription then again (mkDesc (d_plan a) (d_err a) (parseParamOIDs body))
  else if beq t MsgRowDescription then
    p ← of_sum (ParseRowDescription body);
    again (mkDesc (Some p) (d_err a) (d_oids a))
  else if beq t MsgErrorResponse then again (mkDesc (d_plan a) (Some (Parse body)) (d_oids a))
  else if beq t MsgNoticeResponse then _ ← on_notice body; again a
  else if beq t MsgParameterStatus then _ ← on_parameter body; again a
  else if beq t MsgReadyForQuery then
    match d_err a with
    | Some e => throw (EPg e)
    | None =>
        match d_plan a with
        | None => throw (EFmt "pgz: prepare returned no row description" [])
        | Some p =>
            cf ← gets cfg;
            let '(fmts, p) := negotiate cf p in
            r ← new_stmt (mkStmt name (Some p) fmts (d_oids a));
            leave r
        end
    end
  else throw (EFmt "pgz: unexpected msg during describe" [byteZ t]).

Definition prepareAndDescribe (sql : bytes) : client nat :=
  name ← next_name;
  dead ← take_pending;
  _ ← wire (_ ← closeMessages dead; _ ← parseMessages name sql; _ ← syncMessage; Flush);
  for_messages (describe_step name) (mkDesc None None []).

(** ** Executing *)

Definition resultFormats (fmts : list Z) : io unit :=
  if allBinary fmts then _ ← bInt16 1; bInt16 1
  else _ ← bInt16 (int16 (Zlen fmts)); mapM_ bInt16 fmts.

Definition executeMessage : io unit :=
  message MsgExecute (_ ← bCString []; bInt32 0).

(** The Bind | Execute | Sync pipeline of bindExecute. *)
Definition bindMessages (st : preparedStmt) (args : list goarg) : io unit :=
  _ ← message MsgBind
        (_ ← bCString [];
         _ ← bCString (st_name st);
         _ ← writeBindParams (st_paramOIDs st) args;
         resultFormats (st_resultFmts st));
  _ ← executeMessage;
  _ ← syncMessage;
  Flush.

Record running := mkRun { rowCount : Z; headerWritten : bool; r_err : option PGError }.

(** The DataRow case shared by bindExecute and consumeText. *)
Definition data_row_case (mode : Mode) (plan : option Plan) (a : running) (body : bytes) : query (running + unit) :=
  _ ← (if headerWritten a then mret tt else ow (writeHeader mode plan));
  _ ← ow (writeRow mode plan body (rowCount a));
  let n := rowCount a + 1 in
  s ← ask;
  match checkCaps n s with
  | Some capErr => _ ← cl (modify (set_lastRows n)); abortOversize capErr
  | None => again (mkRun n true (r_err a))
  end.

(** The ReadyForQuery case, [plan] being the one the empty result's header is
    written from. *)
Definition ready_case (mode : Mode) (plan : option Plan) (a : running) : query (running + unit) :=
  _ ← cl (modify (set_lastRows (rowCount a)));
  match r_err a with
  | Some e => throw (EPg e)
  | None =>
      _ ← (if headerWritten a then mret tt else ow (writeHeader mode plan));
      _ ← ow (writeFooter mode);
      _ ← ow FlushOut;
      leave tt
  end.

Definition execute_step (mode : Mode) (r : nat) (a : running) (t : byte) (body : bytes) : query (running + unit) :=
  if beq t MsgBindComplete then again a
  else if beq t MsgDataRow then st ← cl (load r); data_row_case mode (st_plan st) a body
  else if beq t MsgCommandComplete || beq t MsgEmptyQueryResponse || beq t MsgPortalSuspended ||
          beq t MsgCloseComplete then again a
  else if beq t MsgRowDescription then
    st ← cl (load r);
    p ← of_sum (ParseRowDescriptionForFormats body (st_resultFmts st));
    _ ← cl (set_plan r p);
    again a
  else if beq t MsgNoticeResponse then _ ← cl (on_notice body); again a
  else if beq t MsgParameterStatus then _ ← cl (on_parameter body); again a
  else if beq t MsgErrorResponse then again (mkRun (rowCount a) (headerWritten a) (Some (Parse body)))
  else if beq t MsgReadyForQuery then st ← cl (load r); ready_case mode (st_plan st) a
  else throw (EFmt "pgz: unexpected msg during execute" [byteZ t]).

Definition loop_query {A R} (step : A → byte → bytes → query (A + R)) (a : A) : query R := λ s,
  read_loop (cl (wire ReadMessage)) step (λ _ e, throw e) (rounds (fst s)) a s.

Definition bindExecute (mode : Mode) (r : nat) (args : list goarg) : query unit :=
  st ← cl (load r);
  _ ← cl (wire (bindMessages st args));
  loop_query (execute_step mode r) (mkRun 0 false None).

Definition emptyPlan : Plan :=
  mkPlan [] ("{"%byte :: dquote :: str "columns" ++ [dquote] ++ str ":[]," ++ [dquote] ++ str "rows" ++ [dquote] ++ str ":[") [].

Definition text_step (mode : Mode) (a : option Plan * running) (t : byte) (body : bytes)
    : query ((option Plan * running) + unit) :=
  let '(plan, run) := a in
  if beq t MsgRowDescription then
    p ← of_sum (ParseRowDescription body); again (Some p, run)
  else if beq t MsgDataRow then
    match plan with
    | None => throw (EFmt "pgz: DataRow before RowDescription" [])
    | Some _ =>
        x ← data_row_case mode plan run body;
        mret (match x with inl run => inl (plan, run) | inr y => inr y end)
    end
  else if beq t MsgCommandComplete || beq t MsgEmptyQueryResponse then again a
  else if beq t MsgNoticeResponse then _ ← cl (on_notice body); again a
  else if beq t MsgParameterStatus then _ ← cl (on_parameter body); again a
  else if beq t MsgErrorResponse then again (plan, mkRun (rowCount run) (headerWritten run) (Some (Parse body)))
  else if beq t MsgReadyForQuery then
    x ← ready_case mode (match plan with None => Some emptyPlan | p => p end) run;
    mret (match x with inl run => inl (plan, run) | inr y => inr y end)
  else throw (EFmt "pgz: unexpected msg during simple query" [byteZ t]).

Definition consumeText (mode : Mode) : query unit :=
  loop_query (text_step mode) (None, mkRun 0 false None).

Definition runSimple (mode : Mode) (sql : bytes) : query unit :=
  _ ← cl (wire (_ ← message MsgQuery (bCString sql); Flush));
  consumeText mode.

(** ** The cached path *)

Definition obtain (sql : bytes) : query (nat * bool) :=
  o ← cl (cache_get sql);
  match o with
  | Some r => mret (r, true)
  | None =>
      x ← catch (cl (prepareAndDescribe sql));
      match x with
      | inl e => _ ← cl (cache_invalidate sql); throw e
      | inr r => _ ← cl (cache_put sql r); mret (r, false)
      end
  end.

(** [for attempt := 0; attempt < 2; attempt++] *)
Fixpoint cached_loop (attempts : nat) (first : bool) (mode : Mode) (sql : bytes) (args : list goarg) : query unit :=
  match attempts with
  | O => mret tt
  | S attempts =>
      rc ← obtain sql;
      let r := fst rc in
      let fromCache : bool := snd rc in
      x ← catch (bindExecute mode r args);
      match x with
      | inr _ => mret tt
      | inl e =>
          out ← gets snd;
          if first && fromCache && isStaleStmtError e && negb (Committed out) then
            _ ← cl (cache_invalidate sql);
            _ ← ow (modify Reset);
            cached_loop attempts false mode sql args
          else throw e
      end
  end.

Definition runCached (mode : Mode) (sql : bytes) (args : list goarg) : query unit :=
  cached_loop 2 true mode sql args.

(** ** The retry loop *)

Definition run_once (mode : Mode) (sql : bytes) (args : list goarg) : query unit :=
  c ← gets fst;
  if (StmtCacheSize (cfg c) <? 0) && bool_decide (args = []) then runSimple mode sql
  else runCached mode sql args.

Definition maxRetries : nat := 3.

(** [for attempt := 0; ; attempt++], at most [maxRetries] times round. *)
Fixpoint retry_loop (attempts k : nat) (ctx : context) (mode : Mode) (sql : bytes) (args : list goarg) : query unit :=
  match attempts with
  | O => mret tt
  | S attempts =>
      x ← catch (run_once mode sql args);
      match x with
      | inr _ => mret tt
      | inl e =>
          s ← ask;
          if negb (RetryOnSerialization (cfg (fst s))) then throw e
          else if bool_decide (attempts = O) || negb (isRetryableSerialization e) || Committed (snd s) then throw e
          else
            match ctx_err ctx k with
            | Some _ => throw e
            | None =>
                _ ← ow (modify Reset);
                _ ← cl (modify (λ c, set_lastRetries (lastRetries c + 1) c));
                match ctx_err ctx (S k) with
                | Some _ => throw e
                | None => retry_loop attempts (S (S k)) ctx mode sql args
                end
            end
      end
  end.

(** [defer func() { c.recordEnd(sql, c.lastRows, out.BytesOut(), ..., err) }()]:
    runs however the body finishes, [dur] being the time it took. *)
Definition with_record (sql : bytes) (dur : Z) (m : query unit) : query unit := λ s,
  let '(r, s') := m s in
  let err := match r with Err e => Some e | _ => None end in
  let '(_, s'') := cl (recordEnd sql (lastRows (fst s')) (BytesOut (snd s')) dur err) s' in
  (r, s'').

Definition runQueryInner (ctx : context) (dur : Z) (mode : Mode) (sql : bytes) (args : list goarg) : query unit :=
  _ ← cl (modify (observe (OnQueryStart sql)));
  with_record sql dur
    (_ ← cl (attachContext ctx);
     retry_loop maxRetries 1 ctx mode sql args).
End Query.
