(* ===== verification/Footprint.v ===== *)
(** What a computation on a client leaves alone.  A relation that the moves of
    the query engine respect (sending and reading, the asynchronous messages, the
    statement cache, the two counters of a query) holds between the client
    before any query and the client after it; Otel uses it for the observer's
    log, QueryLife for the configuration. *)
From S2P Require Import Prelude Protocol Errors Effects Wire Rows Args StmtCache Stream Client Query.

Class Footprint (Rel : Client → Client → Prop) := {
  fp_pre :: PreOrder Rel;
  fp_conn k c : Rel c (set_conn k c);
  fp_notice e c : Rel c (observe (OnNotice e) c);
  fp_params x c : Rel c (set_params x c);
  fp_stmts x c : Rel c (set_stmts x c);
  fp_cancel x c : Rel c (add_cancel x c);
  fp_rows x c : Rel c (set_lastRows x c);
  fp_retries x c : Rel c (set_lastRetries x c)
}.

Create HintDb footprint.

Section Footprint.
Context (Rel : Client → Client → Prop) {F : Footprint Rel} {MO : MapOrder}.

Lemma f_wire {A} (m : io A) : stable Rel (wire m).
Proof. intros c. unfold wire, zoom. destruct (m (conn c)) as [r k]. apply fp_conn. Qed.
Lemma f_modify f : (∀ c, Rel c (f c)) → stable Rel (modify f).
Proof. intros H c. apply H. Qed.
Lemma f_on_notice b : stable Rel (on_notice b).
Proof. intros c. apply fp_notice. Qed.
Lemma f_on_parameter b : stable Rel (on_parameter b).
Proof. apply f_modify. intros c. destruct (splitParameter b). apply fp_params. Qed.
Lemma f_for_messages {A R} (stp : A → byte → bytes → client (A + R)) a :
  (∀ a t b, stable Rel (stp a t b)) → stable Rel (for_messages stp a).
Proof. intros H c. apply (read_loop_stable _ _ _ Rel); [apply f_wire|exact H|intros; apply stable_throw, _]. Qed.
Lemma f_next_name : stable Rel next_name.
Proof. intros c. unfold next_name. destruct (nextName (stmts c)). apply fp_stmts. Qed.
Lemma f_take_pending : stable Rel take_pending.
Proof. intros c. unfold take_pending. destruct (takePendingClose (stmts c)). apply fp_stmts. Qed.
Lemma f_new_stmt st : stable Rel (new_stmt st).
Proof. intros c. unfold new_stmt. destruct (alloc st (stmts c)). apply fp_stmts. Qed.
Lemma f_cache_put sql r : stable Rel (cache_put sql r).
Proof. intros c. apply fp_stmts. Qed.
Lemma f_cache_invalidate sql : stable Rel (cache_invalidate sql).
Proof. intros c. apply fp_stmts. Qed.
Lemma f_set_plan r p : stable Rel (set_plan r p).
Proof. intros c. apply fp_stmts. Qed.
Lemma f_SendCancel : stable Rel SendCancel.
Proof.
  intros c. unfold SendCancel, mbind, prog_bind, ask. destruct (pid c =? 0); cbn; [reflexivity|apply fp_cancel].
Qed.
Lemma f_attach ctx : stable Rel (attachContext ctx).
Proof. unfold attachContext. destruct (ctx_err ctx 0); [apply stable_throw, _|apply stable_ret, _]. Qed.
End Footprint.

#[export] Hint Resolve f_wire f_on_notice f_on_parameter f_next_name f_take_pending f_new_stmt f_cache_put f_cache_invalidate
  f_set_plan f_SendCancel f_attach : footprint.

(** Peels a computation down to the moves above. *)
Ltac footprint :=
  repeat match goal with
  | |- ∀ _, _ => intro
  | |- stable _ (if ?b then _ else _) => destruct b
  | |- stable _ (match ?x with _ => _ end) => destruct x
  | |- stable _ (let _ := _ in _) => cbv zeta
  | |- stable _ (_ ≫= _) => apply stable_bind; [apply _| |]
  | |- stable _ (for_messages _ _) => apply f_for_messages; [apply _|]
  | |- stable _ (catch _) => apply stable_catch
  | |- stable _ (mret _) => apply stable_ret, _
  | |- stable _ (throw _) => apply stable_throw, _
  | |- stable _ panic => apply stable_panic, _
  | |- stable _ (gets _) => apply stable_gets, _
  | |- stable _ ask => apply stable_ask, _
  | |- stable _ (of_sum _) => apply stable_of_sum, _
  | |- stable _ (again _) => apply stable_ret, _
  | |- stable _ (leave _) => apply stable_ret, _
  | |- stable _ (load _) => apply stable_gets, _
  | |- stable _ (cache_get _) => apply stable_gets, _
  | |- stable _ (modify _) => apply f_modify; intro
  | |- _ => solve [eauto with footprint typeclass_instances | done]
  | |- _ => first [apply fp_rows | apply fp_retries | apply fp_notice | apply fp_params | apply fp_stmts]
  end.

(** *** With an output writer beside *)

Section QueryFootprint.
Context {W : Type} {OW : OutWriter W} {MO : MapOrder} (Rel : Client → Client → Prop) {F : Footprint Rel}.
Abbreviation query := (prog (Client * W)).

Definition beside (s s' : Client * W) : Prop := Rel s.1 s'.1.
#[export] Instance beside_pre : PreOrder beside.
Proof. split; [intros s; red; reflexivity|]. intros s1 s2 s3 H1 H2. red. etransitivity; [exact H1|exact H2]. Qed.
Definition bounded {A} (m : query A) : Prop := stable beside m.

Lemma b_ret {A} (a : A) : bounded (mret a).
Proof. apply stable_ret, _. Qed.
Lemma b_throw {A} e : bounded (throw (A := A) e).
Proof. apply stable_throw, _. Qed.
Lemma b_gets {A} (f : Client * W → A) : bounded (gets f).
Proof. apply stable_gets, _. Qed.
Lemma b_ask : bounded ask.
Proof. apply stable_ask, _. Qed.
Lemma b_of_sum {A} (r : gerror + A) : bounded (of_sum r).
Proof. apply stable_of_sum, _. Qed.
Lemma b_bind {A B} (m : query A) (f : A → query B) : bounded m → (∀ a, bounded (f a)) → bounded (m ≫= f).
Proof. apply stable_bind, _. Qed.
Lemma b_catch {A} (m : query A) : bounded m → bounded (catch m).
Proof. apply stable_catch. Qed.
Lemma b_cl {A} (m : client A) : stable Rel m → bounded (cl m).
Proof. intros H [c w]. unfold cl, zoom, beside. cbn [fst snd]. specialize (H c). by destruct (m c). Qed.
Lemma b_ow {A} (m : prog W A) : bounded (ow m).
Proof. intros [c w]. unfold ow, zoom, beside. cbn [fst snd]. destruct (m w). cbn. reflexivity. Qed.
Lemma b_loop {A R} (stp : A → byte → bytes → query (A + R)) a : (∀ a t b, bounded (stp a t b)) → bounded (loop_query stp a).
Proof. intros H s. apply (read_loop_stable _ _ _ beside); [apply b_cl, f_wire, _|exact H|intros; apply stable_throw, _]. Qed.
Lemma b_drain : bounded (drain (W := W)).
Proof.
  intros s. apply (read_loop_stable _ _ _ beside); [apply b_cl, f_wire, _| |intros; apply stable_ret, _].
  intros a t b. unfold drain_step. repeat case_match; try apply stable_ret, _;
    (apply stable_bind; [apply _|apply b_cl; eauto with footprint|intros; apply stable_ret, _]).
Qed.

Ltac footprint_w :=
  repeat match goal with
  | |- ∀ _, _ => intro
  | |- bounded (if ?b then _ else _) => destruct b
  | |- bounded (match ?x with _ => _ end) => destruct x
  | |- bounded (let _ := _ in _) => cbv zeta
  | |- bounded (_ ≫= _) => apply b_bind
  | |- bounded (loop_query _ _) => apply b_loop
  | |- bounded (catch _) => apply b_catch
  | |- bounded (cl _) => apply b_cl; footprint
  | |- bounded (ow _) => apply b_ow
  | |- bounded drain => apply b_drain
  | |- bounded (mret _) => apply b_ret
  | |- bounded (again _) => apply b_ret
  | |- bounded (leave _) => apply b_ret
  | |- bounded (throw _) => apply b_throw
  | |- bounded (gets _) => apply b_gets
  | |- bounded ask => apply b_ask
  | |- bounded (of_sum _) => apply b_of_sum
  | |- _ => solve [auto | done]
  end.

Lemma b_data_row mode p a b : bounded (data_row_case (W := W) mode p a b).
Proof. unfold data_row_case, abortOversize. footprint_w. Qed.
Lemma b_ready mode p a : bounded (ready_case (W := W) mode p a).
Proof. unfold ready_case. footprint_w. Qed.
Lemma f_prepareAndDescribe sql : stable Rel (prepareAndDescribe sql).
Proof. unfold prepareAndDescribe, describe_step. footprint. Qed.
Lemma b_obtain sql : bounded (obtain (W := W) sql).
Proof. unfold obtain. pose proof f_prepareAndDescribe. footprint_w. Qed.
Lemma b_bindExecute mode r args : bounded (bindExecute (W := W) mode r args).
Proof. unfold bindExecute, execute_step. pose proof b_data_row. pose proof b_ready. footprint_w. Qed.
Lemma b_runSimple mode sql : bounded (runSimple (W := W) mode sql).
Proof. unfold runSimple, consumeText, text_step. pose proof b_data_row. pose proof b_ready. footprint_w. Qed.
Lemma b_run_once mode sql args : bounded (run_once (W := W) mode sql args).
Proof.
  assert (∀ n first, bounded (cached_loop (W := W) n first mode sql args)) as Hc.
  { induction n as [|n IH]; intros first; cbn [cached_loop]; [footprint_w|]. pose proof b_obtain. pose proof b_bindExecute. footprint_w. }
  unfold run_once, runCached. pose proof b_runSimple. footprint_w.
Qed.
Lemma b_retry n : ∀ k ctx mode sql args, bounded (retry_loop (W := W) n k ctx mode sql args).
Proof. induction n as [|n IH]; intros k ctx mode sql args; cbn [retry_loop]; pose proof b_run_once; footprint_w. Qed.
End QueryFootprint.
