(* ===== verification/QuerySpec.v ===== *)
(** What the streaming engine of Query.v does with the messages of a server:
    the exact result of a well-behaved reply, for both query paths and any
    writer that keeps the OutWriter contract, and what a success means
    whatever bytes the server sends. *)
From S2P Require Import Prelude Protocol JsonWriter JsonGrammar Encoders Errors Effects Wire Rows Args StmtCache Stream.
From S2P Require Import Client Query.

(** ** Specification: replies and their text *)

Inductive reply :=
| RRow (cells : list (option bytes))
| RNeutral (t : byte) (body : bytes)
| RParam (body : bytes)
| RNotice (body : bytes)
| RError (body : bytes).

Definition reply_msg (r : reply) : byte * bytes :=
  match r with
  | RRow cells => (MsgDataRow, data_row cells)
  | RNeutral t body => (t, body)
  | RParam body => (MsgParameterStatus, body)
  | RNotice body => (MsgNoticeResponse, body)
  | RError body => (MsgErrorResponse, body)
  end.

(** Messages the loops skip. *)
Definition execute_neutral (t : byte) : bool :=
  beq t MsgBindComplete || beq t MsgCommandComplete || beq t MsgEmptyQueryResponse || beq t MsgPortalSuspended ||
  beq t MsgCloseComplete.
Definition text_neutral (t : byte) : bool := beq t MsgCommandComplete || beq t MsgEmptyQueryResponse.

Definition reply_ok (neutral : byte → bool) (p : Plan) (r : reply) : Prop :=
  msg_ok (reply_msg r) ∧
  match r with
  | RRow cells => length (Columns p) = length cells ∧ Forall cell_ok cells ∧ Zlen cells < 2 ^ 15
  | RNeutral t _ => neutral t = true
  | _ => True
  end.

Fixpoint rows_of (rs : list reply) : list (list (option bytes)) :=
  match rs with
  | [] => []
  | RRow cells :: rs => cells :: rows_of rs
  | _ :: rs => rows_of rs
  end.

(** The error reported is the last one before ReadyForQuery. *)
Fixpoint error_of (e : option PGError) (rs : list reply) : option PGError :=
  match rs with
  | [] => e
  | RError body :: rs => error_of (Some (Parse body)) rs
  | _ :: rs => error_of e rs
  end.

(** What the asynchronous messages do to the client. *)
Definition react (c : Client) (r : reply) : Client :=
  match r with
  | RParam body => let '(k, v) := splitParameter body in set_params (<[k := v]> (params c)) c
  | RNotice body => observe (OnNotice (Parse body)) c
  | _ => c
  end.

Definition opening (mode : Mode) (p : Plan) : bytes :=
  match mode with
  | ModeArray => ["["%byte]
  | ModeNDJSON => []
  | ModeColumnar => ColumnsArrayHeader p
  | ModeTOON => TOONHeader p
  end.

Definition row_text (mode : Mode) (p : Plan) (idx : Z) (cells : list (option bytes)) : bytes :=
  let sep := if 0 <? idx then [","%byte] else [] in
  match mode with
  | ModeArray => sep ++ object_text (Columns p) cells
  | ModeNDJSON => object_text (Columns p) cells ++ [x0a]
  | ModeColumnar => sep ++ "["%byte :: value_text (Columns p) cells ++ ["]"%byte]
  | ModeTOON => value_text (Columns p) cells ++ [x0a]
  end.

Fixpoint rows_text (mode : Mode) (p : Plan) (idx : Z) (rows : list (list (option bytes))) : bytes :=
  match rows with
  | [] => []
  | cells :: rows => row_text mode p idx cells ++ rows_text mode p (idx + 1) rows
  end.

Definition closing (mode : Mode) : bytes :=
  match mode with
  | ModeArray => ["]"%byte]
  | ModeColumnar => str "]}"
  | _ => []
  end.

(** The document of a successful query. *)
Definition result_text (mode : Mode) (p : Plan) (rows : list (list (option bytes))) : bytes :=
  opening mode p ++ rows_text mode p 0 rows ++ closing mode.

(** What a query that fails after its rows has written: no footer, and no
    header either when there was no row. *)
Definition partial_text (mode : Mode) (p : Plan) (rows : list (list (option bytes))) : bytes :=
  match rows with [] => [] | _ => opening mode p ++ rows_text mode p 0 rows end.

Definition finished_text (mode : Mode) (p : Plan) (rs : list reply) : bytes :=
  match error_of None rs with
  | Some _ => partial_text mode p (rows_of rs)
  | None => result_text mode p (rows_of rs)
  end.

(** Neither cap is reached by [n] rows and [len] bytes. *)
Definition under_caps (cf : Config) (n len : Z) : Prop :=
  (MaxResponseRows cf <= 0 ∨ n < MaxResponseRows cf) ∧ (MaxResponseBytes cf <= 0 ∨ len < MaxResponseBytes cf).

(** ** Lemmas: the writer *)

Section Engine.
Context {W : Type} {OW : OutWriter W} {OL : OutWriterLaws W} {MO : MapOrder} {h : bool}.
Abbreviation query := (prog (Client * W)).

(** A computation that returns [a] having written exactly [p], unless the
    user's writer fails with a prefix of it delivered. *)
Definition puts {A} (p : bytes) (a : A) (m : query A) : Prop := ∀ c w, writer_ok h w →
  (∃ w', m (c, w) = (Ret a, (c, w')) ∧ writer_ok h w' ∧ output w' = output w ++ p) ∨
  (h = false ∧ ∃ e w' k, m (c, w) = (Err e, (c, w')) ∧ as_pg e = None ∧ output w ++ p = delivered w' ++ k).

Lemma puts_ret {A} (a : A) : puts [] a (mret a).
Proof. intros c w Hw. left. exists w. by rewrite app_nil_r. Qed.

Lemma puts_bind {A B} p q (a : A) (b : B) m f : puts p a m → puts q b (f a) → puts (p ++ q) b (m ≫= f).
Proof.
  intros Hm Hf c w Hw. destruct (Hm c w Hw) as [(w1 & E & Hw1 & O1)|(Hh & e & w1 & k & E & He & O1)].
  - rewrite (bind_Ret _ _ _ _ _ E). destruct (Hf c w1 Hw1) as [(w2 & E2 & Hw2 & O2)|(Hh & e & w2 & k & E2 & He & O2)].
    + left. exists w2. split; [done|]. split; [done|]. by rewrite O2, O1, <- app_assoc.
    + right. split; [done|]; exists e, w2, k. split; [done|]. split; [done|]. by rewrite <- O2, O1, <- app_assoc.
  - right. split; [done|]; exists e, w1, (k ++ q). rewrite (bind_Err _ _ _ _ _ E). split; [done|]. split; [done|].
    by rewrite !app_assoc, O1.
Qed.

Lemma output_SetBuf p w : writer_ok h w → writer_ok h (SetBuf p w) ∧ output (SetBuf p w) = delivered w ++ p.
Proof. intros Hw. unfold output. destruct (buf_set h p w) as (-> & -> & _ & Hs). auto. Qed.

Lemma puts_append p : puts p tt (ow (modify (λ w, SetBuf (Buf w ++ p) w))).
Proof.
  intros c w Hw. left. eexists. split; [done|]. destruct (output_SetBuf (Buf w ++ p) w Hw) as [H1 H2].
  split; [done|]. cbn. rewrite H2. unfold output. by rewrite <- app_assoc.
Qed.
Lemma puts_Write p : puts p tt (ow (Write p)).
Proof.
  intros c w Hw. unfold ow, zoom. cbn. rewrite write_spec. exact (puts_append p c w Hw).
Qed.
Lemma puts_WriteByte b : puts [b] tt (ow (WriteByte b)).
Proof.
  intros c w Hw. unfold ow, zoom. cbn. rewrite writebyte_spec. exact (puts_append [b] c w Hw).
Qed.
Lemma puts_flush (m : prog W unit) :
  (∀ w, writer_ok h w →
    (∃ w', m w = (Ret tt, w') ∧ writer_ok h w' ∧ delivered w' ++ Buf w' = delivered w ++ Buf w) ∨
    (h = false ∧ ∃ e w' k, m w = (Err e, w') ∧ as_pg e = None ∧ delivered w ++ Buf w = delivered w' ++ k)) →
  puts [] tt (ow m).
Proof.
  intros Hm c w Hw. unfold ow, zoom, output. cbn.
  destruct (Hm w Hw) as [(w' & -> & H1 & H2)|(Hh & e & w' & k & -> & H1 & H2)].
  - left. exists w'. by rewrite app_nil_r.
  - right. split; [done|]; exists e, w', k. by rewrite app_nil_r.
Qed.

Lemma puts_header mode p : puts (opening mode p) tt (ow (writeHeader mode (Some p))).
Proof.
  destruct mode; cbn [writeHeader opening]; auto using puts_Write, puts_WriteByte.
  intros c w Hw. left. exists w. by rewrite app_nil_r.
Qed.
Lemma puts_footer mode : puts (closing mode) tt (ow (writeFooter mode)).
Proof.
  destruct mode; cbn [writeFooter closing]; auto using puts_Write, puts_WriteByte;
    intros c w Hw; left; exists w; by rewrite app_nil_r.
Qed.

Lemma row_bytes_wire mode p cells rest idx scratch : plan_wf p → length (Columns p) = length cells →
  Forall cell_ok cells → Zlen cells < 2 ^ 15 →
  row_bytes mode p (data_row cells ++ rest) idx scratch = (scratch ++ row_text mode p idx cells, None).
Proof.
  intros [Hc _ _] Hl Hok Hn. unfold row_bytes, row_text.
  assert (∀ d, AppendObject d (data_row cells ++ rest) p = (d ++ object_text (Columns p) cells, None) ∧
    AppendArray d (data_row cells ++ rest) p = (d ++ "["%byte :: value_text (Columns p) cells ++ ["]"%byte], None) ∧
    AppendTOONRow d (data_row cells ++ rest) p = (d ++ value_text (Columns p) cells ++ [x0a], None)) as Hr.
  { intros d. unfold AppendObject, AppendArray, AppendTOONRow.
    rewrite !append_row_wire, emits_object, !emits_value by done. cbn [Nat.ltb Nat.leb].
    unfold object_text. rewrite <- !app_assoc. done. }
  destruct mode, (0 <? idx); rewrite ?(proj1 (Hr _)), ?(proj1 (proj2 (Hr _))), ?(proj2 (proj2 (Hr _))),
    <- ?app_assoc; done.
Qed.

Lemma puts_row mode p cells rest idx : plan_wf p → length (Columns p) = length cells →
  Forall cell_ok cells → Zlen cells < 2 ^ 15 →
  puts (row_text mode p idx cells) tt (ow (writeRow mode (Some p) (data_row cells ++ rest) idx)).
Proof.
  intros Hp Hl Hok Hn c w Hw. pose proof (puts_flush MaybeFlush (maybe_spec h) c) as Hf.
  unfold ow, zoom in *. cbn [fst snd] in *. unfold writeRow.
  step (eq_refl : gets Buf w = (Ret (Buf w), w)). cbv beta zeta. rewrite row_bytes_wire by done.
  set (t := row_text mode p idx cells). set (w1 := SetBuf (Buf w ++ t) w).
  step (eq_refl : modify (SetBuf (Buf w ++ t)) w = (Ret tt, w1)).
  destruct (output_SetBuf (Buf w ++ t) w Hw) as [Hw1 O1]. fold w1 in Hw1, O1.
  rewrite app_assoc in O1. fold (output w) in O1.
  set (n := Zlen (Buf w ++ t) - Zlen (Buf w)).
  assert (∃ w2, (if idx =? 0 then modify (GrowForRow n) else mret tt) w1 = (Ret tt, w2) ∧ writer_ok h w2 ∧
    output w2 = output w ++ t) as (w2 & E2 & Hw2 & O2).
  { destruct (idx =? 0); [|by exists w1]. eexists. split; [done|].
    destruct (grow_spec h n w1) as (B & D & _ & Hg). unfold output in *. by rewrite B, D, O1; auto. }
  step E2. specialize (Hf w2 Hw2). rewrite !app_nil_r, O2 in Hf. exact Hf.
Qed.

(** ** Lemmas: one message *)

Lemma checkCaps_none n c w : writer_ok h w → under_caps (cfg c) n (Zlen (output w)) → checkCaps n (c, w) = None.
Proof.
  intros Hw [Hr Hb]. unfold checkCaps. rewrite (bytesout_spec h) by done. unfold output in Hb. rewrite Zlen_app in Hb.
  destruct (Z.ltb_spec 0 (MaxResponseRows (cfg c))), (Z.leb_spec (MaxResponseRows (cfg c)) n),
    (Z.ltb_spec 0 (MaxResponseBytes (cfg c))), (Z.leb_spec (MaxResponseBytes (cfg c)) (Zlen (delivered w) + Zlen (Buf w)));
    cbn; try done; lia.
Qed.

Definition row_chunk (mode : Mode) (p : Plan) (a : running) (cells : list (option bytes)) : bytes :=
  (if headerWritten a then [] else opening mode p) ++ row_text mode p (rowCount a) cells.

Lemma puts_header_row mode p a cells : plan_wf p → length (Columns p) = length cells → Forall cell_ok cells →
  Zlen cells < 2 ^ 15 → puts (row_chunk mode p a cells) tt
    (_ ← (if headerWritten a then mret tt else ow (writeHeader mode (Some p)));
     ow (writeRow mode (Some p) (data_row cells) (rowCount a))).
Proof.
  intros Hp Hl Hok Hn. apply puts_bind with (a := tt).
  - destruct (headerWritten a); [apply puts_ret|apply puts_header].
  - pose proof (puts_row mode p cells [] (rowCount a)) as Hr. rewrite app_nil_r in Hr. by apply Hr.
Qed.

Lemma puts_data_row mode p a cells c w : plan_wf p → length (Columns p) = length cells → Forall cell_ok cells →
  Zlen cells < 2 ^ 15 → writer_ok h w →
  under_caps (cfg c) (rowCount a + 1) (Zlen (output w ++ row_chunk mode p a cells)) →
  (∃ w', data_row_case mode (Some p) a (data_row cells) (c, w) =
      (Ret (inl (mkRun (rowCount a + 1) true (r_err a))), (c, w')) ∧
    writer_ok h w' ∧ output w' = output w ++ row_chunk mode p a cells) ∨
  (h = false ∧ ∃ e w' k, data_row_case mode (Some p) a (data_row cells) (c, w) = (Err e, (c, w')) ∧ as_pg e = None ∧
    output w ++ row_chunk mode p a cells = delivered w' ++ k).
Proof.
  intros Hp Hl Hok Hn Hw Hcap.
  pose proof (puts_header_row mode p a cells Hp Hl Hok Hn) as Hputs.
  unfold data_row_case. rewrite <- bind_assoc.
  destruct (Hputs c w Hw) as [(w' & E & Hw' & O)|(Hh & e & w' & k & E & He & O)].
  - left. exists w'. step E. cbv zeta. step (eq_refl : ask (c, w') = (Ret (c, w'), (c, w'))).
    rewrite checkCaps_none by (try done; by rewrite O). done.
  - right. split; [done|]; exists e, w', k. by rewrite (bind_Err _ _ _ _ _ E).
Qed.

Definition end_text (mode : Mode) (p : Plan) (a : running) : bytes :=
  match r_err a with
  | Some _ => []
  | None => (if headerWritten a then [] else opening mode p) ++ closing mode
  end.

Lemma puts_ready mode p a c w : writer_ok h w →
  (∃ w', ready_case mode (Some p) a (c, w) =
      (match r_err a with Some e => Err (EPg e) | None => Ret (inr tt) end, (set_lastRows (rowCount a) c, w')) ∧
    writer_ok h w' ∧ output w' = output w ++ end_text mode p a ∧
    match r_err a with None => settled w' | Some _ => w' = w end) ∨
  (h = false ∧ ∃ e w' k, ready_case mode (Some p) a (c, w) = (Err e, (set_lastRows (rowCount a) c, w')) ∧ as_pg e = None ∧
    output w ++ end_text mode p a = delivered w' ++ k).
Proof.
  intros Hw. unfold ready_case.
  step (eq_refl : cl (modify (set_lastRows (rowCount a))) (c, w) = (Ret tt, (set_lastRows (rowCount a) c, w))).
  unfold end_text. destruct (r_err a) as [e|].
  { left. exists w. rewrite app_nil_r. by repeat (split; [done|]). }
  set (c' := set_lastRows (rowCount a) c). rewrite <- bind_assoc.
  assert (puts ((if headerWritten a then [] else opening mode p) ++ closing mode) tt
    (_ ← (if headerWritten a then mret tt else ow (writeHeader mode (Some p))); ow (writeFooter mode))) as Hputs.
  { apply puts_bind with (a := tt); [destruct (headerWritten a); [apply puts_ret|apply puts_header]|apply puts_footer]. }
  destruct (Hputs c' w Hw) as [(w1 & E1 & Hw1 & O1)|(Hh & e & w1 & k & E1 & He & O1)].
  2: { right. split; [done|]. exists e, w1, k. by rewrite (bind_Err _ _ _ _ _ E1). }
  step E1. unfold ow, zoom, mbind, prog_bind. cbn [fst snd]. pose proof (flush_settles w1) as Hset.
  destruct (flush_spec h w1 Hw1) as [(w' & E & Hw' & O)|(Hh & e & w' & k & E & He & O)]; rewrite E.
  - left. exists w'. split; [done|]. split; [done|]. split; [|by apply Hset]. by rewrite <- O1.
  - right. split; [done|]. exists e, w', k. split; [done|]. split; [done|]. by rewrite <- O1, <- O.
Qed.

(** ** Lemmas: whole replies *)

Definition lift_run {A} (inj : running → A) (m : query (running + unit)) : query (A + unit) :=
  x ← m; mret (match x with inl run => inl (inj run) | inr y => inr y end).

(** A loop body that treats the messages of a reply the way both query paths do. *)
Record consumes {A} (neutral : byte → bool) (mode : Mode) (p : Plan) (I : stmtCache → Prop) (inj : running → A)
    (stp : A → byte → bytes → query (A + unit)) : Prop := {
  cs_row a b c w : I (stmts c) → stp (inj a) MsgDataRow b (c, w) = lift_run inj (data_row_case mode (Some p) a b) (c, w);
  cs_neutral a t b s : neutral t = true → stp (inj a) t b s = (Ret (inl (inj a)), s);
  cs_param a b c w : stp (inj a) MsgParameterStatus b (c, w) = (Ret (inl (inj a)), (react c (RParam b), w));
  cs_notice a b c w : stp (inj a) MsgNoticeResponse b (c, w) = (Ret (inl (inj a)), (react c (RNotice b), w));
  cs_error a b s : stp (inj a) MsgErrorResponse b s =
    (Ret (inl (inj (mkRun (rowCount a) (headerWritten a) (Some (Parse b))))), s);
  cs_ready a b c w : I (stmts c) → stp (inj a) MsgReadyForQuery b (c, w) = lift_run inj (ready_case mode (Some p) a) (c, w)
}.

(** The loop, one message at a time. *)
Lemma read_frame c w t body rest : inbound (conn c) = frame t body ++ rest → msg_ok (t, body) →
  ∃ k, (cl (wire ReadMessage) : query _) (c, w) = (Ret (t, body), (set_conn k c, w)) ∧ conn_at rest (conn c) k.
Proof.
  intros Hin Hok. destruct (ReadMessage_frame (conn c) t body rest Hin Hok) as [cap E].
  eexists. unfold cl, wire, zoom. cbn [fst snd]. rewrite E. split; [done|]. by repeat split.
Qed.

(** Where the loop goes after a step. *)
Definition after {A R} (x : res (A + R) * (Client * W)) (loop : A → query R) : res R * (Client * W) :=
  match x with
  | (Ret (inl a), s) => loop a s
  | (Ret (inr x), s) => (Ret x, s)
  | (Err e, s) => (Err e, s)
  | (Panic, s) => (Panic, s)
  | (Stuck, s) => (Stuck, s)
  end.

Lemma loop_round {A R} (stp : A → byte → bytes → query (A + R)) onerr fuel a c w t body rest :
  inbound (conn c) = frame t body ++ rest → msg_ok (t, body) →
  ∃ k, conn_at rest (conn c) k ∧
    read_loop (cl (wire ReadMessage)) stp onerr (S fuel) a (c, w) =
    after (stp a t body (set_conn k c, w)) (read_loop (cl (wire ReadMessage)) stp onerr fuel).
Proof.
  intros Hin Hok. destruct (read_frame c w t body rest Hin Hok) as (k & E & Hk). exists k. split; [done|].
  cbn [read_loop]. unfold mbind at 1, prog_bind at 1, catch. rewrite E. unfold mbind, prog_bind, after.
  by destruct (stp a t body (set_conn k c, w)) as [[[]| | |] s].
Qed.

Definition reacts (c : Client) (rs : list reply) : Client := fold_left react rs c.

Lemma react_conn k c r : react (set_conn k c) r = set_conn k (react c r).
Proof. destruct r as [| |b| |]; try done. cbn. by destruct (splitParameter b). Qed.
Lemma reacts_conn k c rs : reacts (set_conn k c) rs = set_conn k (reacts c rs).
Proof. revert c. induction rs as [|r rs IH]; intros c; [done|]. unfold reacts in *. cbn. by rewrite react_conn. Qed.
Lemma react_same c r : cfg (react c r) = cfg c ∧ stmts (react c r) = stmts c ∧ conn (react c r) = conn c.
Proof. destruct r as [| |b| |]; try done. cbn. by destruct (splitParameter b). Qed.
Lemma reacts_same c rs : cfg (reacts c rs) = cfg c ∧ stmts (reacts c rs) = stmts c.
Proof.
  revert c. induction rs as [|r rs IH]; intros c; [done|]. cbn [reacts fold_left].
  destruct (react_same c r) as (H1 & H2 & _), (IH (react c r)) as [H3 H4]. unfold reacts in *. by rewrite H3, H4, H1, H2.
Qed.
Lemma reacts_stmts c rs : stmts (reacts c rs) = stmts c.
Proof. apply reacts_same. Qed.
Lemma reacts_key c rs : pid (reacts c rs) = pid c ∧ skey (reacts c rs) = skey c ∧ cancels (reacts c rs) = cancels c.
Proof.
  revert c. induction rs as [|r rs IH]; intros c; [done|]. cbn [reacts fold_left].
  destruct (IH (react c r)) as (H1 & H2 & H3). unfold reacts in *. rewrite H1, H2, H3.
  destruct r as [| |b| |]; try done. cbn. by destruct (splitParameter b).
Qed.

(** Text that is already out does not matter to the caps. *)
Lemma under_caps_le cf n n' l l' : under_caps cf n l → n' <= n → l' <= l → under_caps cf n' l'.
Proof. unfold under_caps. lia. Qed.

(** What a run writes over the replies still to come, and how it ends. *)
Fixpoint run_text (mode : Mode) (p : Plan) (a : running) (rs : list reply) : bytes * running :=
  match rs with
  | [] => ([], a)
  | RRow cells :: rs =>
      let '(t, a') := run_text mode p (mkRun (rowCount a + 1) true (r_err a)) rs in
      (row_chunk mode p a cells ++ t, a')
  | RError body :: rs => run_text mode p (mkRun (rowCount a) (headerWritten a) (Some (Parse body))) rs
  | _ :: rs => run_text mode p a rs
  end.

Lemma run_text_rows mode p rs : ∀ a, rowCount a <= rowCount (run_text mode p a rs).2.
Proof.
  induction rs as [|r rs IH]; intros a; [done|]. destruct r as [cells|t b|b|b|b]; cbn [run_text]; try apply IH.
  - specialize (IH (mkRun (rowCount a + 1) true (r_err a))). destruct (run_text _ _ _ rs). cbn in *. lia.
  - apply (IH (mkRun (rowCount a) (headerWritten a) (Some (Parse b)))).
Qed.

Lemma run_text_open mode p e rs : ∀ n,
  run_text mode p (mkRun n true e) rs =
  (rows_text mode p n (rows_of rs), mkRun (n + Zlen (rows_of rs)) true (error_of e rs)).
Proof.
  revert e. induction rs as [|r rs IH]; intros e n; [cbn; by rewrite Z.add_0_r|].
  destruct r as [cells|t b|b|b|b]; cbn [run_text rows_of error_of rowCount headerWritten r_err]; rewrite IH; try done.
  unfold row_chunk. cbn [headerWritten rowCount app rows_text].
  by rewrite Zlen_cons, (Z.add_comm (Zlen _) 1), Z.add_assoc.
Qed.

Lemma run_text_start mode p rs : ∀ e,
  run_text mode p (mkRun 0 false e) rs =
  (partial_text mode p (rows_of rs),
   mkRun (Zlen (rows_of rs)) (match rows_of rs with [] => false | _ => true end) (error_of e rs)).
Proof.
  induction rs as [|r rs IH]; intros e; [done|].
  destruct r as [cells|t b|b|b|b]; cbn [run_text rows_of error_of rowCount headerWritten r_err]; try apply IH.
  rewrite run_text_open. unfold row_chunk. cbn [headerWritten rowCount partial_text rows_text].
  by rewrite Zlen_cons, (Z.add_comm (Zlen _) 1), <- app_assoc.
Qed.

Lemma start_end_text mode p rs :
  (run_text mode p (mkRun 0 false None) rs).1 ++ end_text mode p (run_text mode p (mkRun 0 false None) rs).2 =
  finished_text mode p rs.
Proof.
  rewrite run_text_start. unfold end_text, finished_text, partial_text, result_text. cbn [fst snd r_err headerWritten].
  destruct (error_of None rs), (rows_of rs); cbn [rows_text app]; rewrite ?app_nil_r, <- ?app_assoc; done.
Qed.

Section Replies.
Context {A : Type} {neutral : byte → bool} {mode : Mode} {p : Plan} {I : stmtCache → Prop} {inj : running → A}
  {stp : A → byte → bytes → query (A + unit)}.
Context (Hc : consumes neutral mode p I inj stp) (Hp : plan_wf p).

Abbreviation loop onerr := (read_loop (cl (wire ReadMessage)) stp onerr).

(** The loop has gone past the replies [rs], with [tail] still to be read. *)
Definition advanced (onerr : A → gerror → query unit) (fuel : nat) (a : running) (rs : list reply) (tail : bytes)
    (c : Client) (w : W) : Prop :=
  let '(t, a') := run_text mode p a rs in
  (∃ k w', loop onerr (length rs + fuel) (inj a) (c, w) = loop onerr fuel (inj a') (set_conn k (reacts c rs), w') ∧
    conn_at tail (conn c) k ∧ writer_ok h w' ∧ output w' = output w ++ t ∧ (rows_of rs = [] → w' = w)) ∨
  (h = false ∧ ∃ e s' l, loop onerr (length rs + fuel) (inj a) (c, w) = (Err e, s') ∧ as_pg e = None ∧
    output w ++ t = delivered (snd s') ++ l).

Lemma advanced_next onerr fuel a a1 r rs tail c k w1 w chunk :
  run_text mode p a (r :: rs) = (chunk ++ (run_text mode p a1 rs).1, (run_text mode p a1 rs).2) →
  loop onerr (S (length rs + fuel)) (inj a) (c, w) =
    loop onerr (length rs + fuel) (inj a1) (set_conn k (react c r), w1) →
  conn_at (inbound k) (conn c) k → output w1 = output w ++ chunk → (rows_of (r :: rs) = [] → rows_of rs = [] ∧ w1 = w) →
  advanced onerr fuel a1 rs tail (set_conn k (react c r)) w1 → advanced onerr fuel a (r :: rs) tail c w.
Proof.
  intros Ht E Hk O Hq. unfold advanced. rewrite Ht. destruct (run_text mode p a1 rs) as [t a']. cbn [fst snd length Nat.add].
  intros [(k' & w' & E' & Hk' & Hw' & O' & Q')|(Hh & e & s' & l & E' & He & O')].
  - left. exists k', w'. rewrite E, E', reacts_conn. cbn [reacts fold_left].
    split; [done|]. split; [by eapply conn_at_trans|]. split; [done|]. split; [by rewrite O', O, <- !app_assoc|].
    intros H. destruct (Hq H) as [H1 <-]. by apply Q'.
  - right. split; [done|]. exists e, s', l. rewrite E. split; [done|]. split; [done|]. by rewrite <- O', O, <- !app_assoc.
Qed.

Lemma after_lift (m : query (running + unit)) (lp : A → query unit) s :
  after (lift_run inj m s) lp = after (m s) (λ a, lp (inj a)).
Proof. unfold lift_run, mbind, prog_bind. by destruct (m s) as [[[]| | |] s']. Qed.

(** A round that writes nothing. *)
Lemma advanced_skip onerr fuel a a1 r rs tail c k w t b :
  reply_msg r = (t, b) → conn_at (inbound k) (conn c) k →
  loop onerr (S (length rs + fuel)) (inj a) (c, w) = after (stp (inj a) t b (set_conn k c, w)) (loop onerr (length rs + fuel)) →
  run_text mode p a (r :: rs) = run_text mode p a1 rs →
  stp (inj a) t b (set_conn k c, w) = (Ret (inl (inj a1)), (set_conn k (react c r), w)) →
  advanced onerr fuel a1 rs tail (set_conn k (react c r)) w → advanced onerr fuel a (r :: rs) tail c w.
Proof.
  intros Hr Hk E Ht Es. rewrite Es in E. apply (advanced_next onerr fuel a a1 r rs tail c k w w []); try done.
  - rewrite Ht. by destruct (run_text mode p a1 rs).
  - by rewrite app_nil_r.
  - intros H. split; [|done]. by destruct r.
Qed.

(** A round that writes a row. *)
Lemma advanced_row onerr fuel a cells rs tail c k w :
  length (Columns p) = length cells → Forall cell_ok cells → Zlen cells < 2 ^ 15 → I (stmts c) → writer_ok h w →
  under_caps (cfg c) (rowCount (run_text mode p a (RRow cells :: rs)).2)
    (Zlen (output w ++ (run_text mode p a (RRow cells :: rs)).1)) →
  conn_at (inbound k) (conn c) k →
  loop onerr (S (length rs + fuel)) (inj a) (c, w) =
    after (stp (inj a) MsgDataRow (data_row cells) (set_conn k c, w)) (loop onerr (length rs + fuel)) →
  (∀ w', writer_ok h w' → output w' = output w ++ row_chunk mode p a cells →
     advanced onerr fuel (mkRun (rowCount a + 1) true (r_err a)) rs tail (set_conn k c) w') →
  advanced onerr fuel a (RRow cells :: rs) tail c w.
Proof.
  intros Hl Hcells Hn HI Hw Hcap Hk E Hnext.
  rewrite (cs_row _ _ _ _ _ _ Hc) in E by done. rewrite after_lift in E. cbn [run_text] in Hcap.
  pose proof (run_text_rows mode p rs (mkRun (rowCount a + 1) true (r_err a))) as Hmono. cbn [rowCount] in Hmono.
  destruct (run_text mode p (mkRun (rowCount a + 1) true (r_err a)) rs) as [txt a'] eqn:Et. cbn [fst snd] in *.
  destruct (puts_data_row mode p a cells (set_conn k c) w Hp Hl Hcells Hn Hw) as [(w' & E' & Hw' & O)|(Hh & e & w' & l & E' & He & O)].
  { eapply under_caps_le; [exact Hcap|done|]. rewrite !Zlen_app. pose proof (Zlen_nonneg txt). lia. }
  - rewrite E' in E. cbn [after] in E.
    apply (advanced_next onerr fuel a (mkRun (rowCount a + 1) true (r_err a)) (RRow cells) rs tail c k w' w (row_chunk mode p a cells)); try done.
    + cbn [run_text]. by rewrite Et.
    + by apply Hnext.
  - rewrite E' in E. unfold advanced. cbn [run_text length Nat.add]. rewrite Et. right.
    split; [done|]. exists e, (set_conn k c, w'), (l ++ txt). rewrite E. split; [done|]. split; [done|].
    cbn [snd]. by rewrite !app_assoc, <- O.
Qed.

Lemma run_prefix onerr fuel tail : ∀ rs a c w,
  I (stmts c) → inbound (conn c) = wire_of (map reply_msg rs) ++ tail →
  Forall (reply_ok neutral p) rs → writer_ok h w →
  under_caps (cfg c) (rowCount (run_text mode p a rs).2) (Zlen (output w ++ (run_text mode p a rs).1)) →
  advanced onerr fuel a rs tail c w.
Proof.
  intros rs. induction rs as [|r rs IH]; intros a c w HI Hin Hok Hw Hcap.
  - left. exists (conn c), w. cbn in *. rewrite app_nil_r. by destruct c.
  - apply Forall_cons in Hok as [[Hmsg Hr] Hok]. cbn [map] in Hin. unfold wire_of in Hin. cbn [map concat] in Hin.
    rewrite <- app_assoc in Hin. fold (wire_of (map reply_msg rs)) in Hin.
    destruct (reply_msg r) as [t b] eqn:Er. cbn [fst snd] in Hin.
    destruct (loop_round stp onerr (length rs + fuel) (inj a) c w t b _ Hin Hmsg) as (k & Hk & E).
    pose proof (conn_at_self _ _ _ Hk) as Hk'. destruct (react_same c r) as (Rc & Rs & Rk).
    pose proof (λ a1 w1, IH a1 (set_conn k (react c r)) w1) as IHn. cbn [stmts conn cfg set_conn] in IHn.
    rewrite Rs, Rc, (conn_at_in _ _ _ Hk) in IHn.
    destruct r as [cells|t' b'|b'|b'|b']; injection Er as <- <-.
    + destruct Hr as (Hl & Hcells & Hn). apply (advanced_row onerr fuel a cells rs tail c k w); try done.
      intros w' Hw' O. apply IHn; try done. rewrite O. cbn [run_text] in Hcap.
      destruct (run_text mode p (mkRun (rowCount a + 1) true (r_err a)) rs). by rewrite <- app_assoc.
    + eapply (advanced_skip onerr fuel a a); try done; [|by apply IHn]. by apply (cs_neutral _ _ _ _ _ _ Hc).
    + eapply (advanced_skip onerr fuel a a); try done; [|by apply IHn]. by rewrite (cs_param _ _ _ _ _ _ Hc), react_conn.
    + eapply (advanced_skip onerr fuel a a); try done; [|by apply IHn]. apply (cs_notice _ _ _ _ _ _ Hc).
    + eapply (advanced_skip onerr fuel a (mkRun (rowCount a) (headerWritten a) (Some (Parse b')))); try done;
        [|by apply IHn]. apply (cs_error _ _ _ _ _ _ Hc).
Qed.

Lemma run_replies onerr z rest rs fuel a c w :
  I (stmts c) → (length rs < fuel)%nat →
  inbound (conn c) = wire_of (map reply_msg rs) ++ frame MsgReadyForQuery z ++ rest →
  Forall (reply_ok neutral p) rs → msg_ok (MsgReadyForQuery, z) → writer_ok h w →
  under_caps (cfg c) (rowCount (run_text mode p a rs).2) (Zlen (output w ++ (run_text mode p a rs).1)) →
  let '(t, a') := run_text mode p a rs in
  let t := t ++ end_text mode p a' in
  (∃ k w', loop onerr fuel (inj a) (c, w) =
      (match r_err a' with Some e => Err (EPg e) | None => Ret tt end,
       (set_lastRows (rowCount a') (set_conn k (reacts c rs)), w')) ∧
    conn_at rest (conn c) k ∧ writer_ok h w' ∧ output w' = output w ++ t ∧
    match r_err a' with None => settled w' | Some _ => rows_of rs = [] → w' = w end) ∨
  (h = false ∧ ∃ e s' l, loop onerr fuel (inj a) (c, w) = (Err e, s') ∧ as_pg e = None ∧
    output w ++ t = delivered (snd s') ++ l).
Proof.
  intros HI Hf Hin Hok Hz Hw Hcap.
  destruct (Nat.le_exists_sub (S (length rs)) fuel Hf) as (n & -> & _).
  replace (n + S (length rs))%nat with (length rs + S n)%nat by lia.
  pose proof (run_prefix onerr (S n) _ rs a c w HI Hin Hok Hw Hcap) as H. unfold advanced in H.
  destruct (run_text mode p a rs) as [t a']. destruct H as [(k1 & w1 & E1 & K1 & Hw1 & O1 & Q1)|(Hh & e & s' & l & E & He & O)].
  - assert (inbound (conn (set_conn k1 (reacts c rs))) = frame MsgReadyForQuery z ++ rest) as Hin1
      by (by apply (conn_at_in _ _ _ K1)).
    destruct (loop_round stp onerr n (inj a') _ w1 _ _ _ Hin1 Hz) as (k & Hk & E).
    rewrite (cs_ready _ _ _ _ _ _ Hc) in E by (cbn; by rewrite reacts_stmts).
    rewrite after_lift in E. rewrite E1, E. cbn [conn set_conn] in Hk. rewrite set_conn_twice.
    destruct (puts_ready mode p a' (set_conn k (reacts c rs)) w1 Hw1) as [(w' & E' & Hw' & O & Q)|(Hh & e & w' & l & E' & He & O)]; rewrite E'.
    + left. exists k, w'. rewrite O, O1, <- app_assoc.
      split; [by destruct (r_err a')|]. split; [by eapply conn_at_trans|]. split; [done|]. split; [done|].
      destruct (r_err a'); [|done]. rewrite Q. exact Q1.
    + right. split; [done|]. eexists e, _, l. split; [done|]. split; [done|]. cbn [snd]. by rewrite <- O, O1, <- app_assoc.
  - right. split; [done|]. exists e, s', (l ++ end_text mode p a'). split; [done|]. split; [done|].
    by rewrite !app_assoc, O.
Qed.
End Replies.

(** ** Lemmas: the two loop bodies, and what is sent *)

Lemma execute_consumes mode r p :
  consumes execute_neutral mode p (λ sc, st_plan (deref r sc) = Some p) id (execute_step mode r).
Proof.
  split.
  - intros a b c w HI. unfold execute_step. cbn [beq]. change (beq MsgDataRow MsgBindComplete) with false.
    change (beq MsgDataRow MsgDataRow) with true. cbv iota.
    step (eq_refl : cl (load r) (c, w) = (Ret (deref r (stmts c)), (c, w))). rewrite HI.
    unfold lift_run, mbind, prog_bind. by destruct (data_row_case _ _ _ _ _) as [[[]| | |] s'].
  - intros a t b s Hn. unfold execute_neutral in Hn. unfold execute_step.
    destruct (beq t MsgBindComplete) eqn:E1; [done|]. cbn [orb] in Hn.
    destruct (beq t MsgDataRow) eqn:E2; [|by rewrite Hn].
    apply beq_true in E2 as ->. done.
  - done.
  - done.
  - done.
  - intros a b c w HI. unfold execute_step.
    change (beq MsgReadyForQuery ?t) with (beq MsgReadyForQuery t).
    cbn -[load ready_case]. step (eq_refl : cl (load r) (c, w) = (Ret (deref r (stmts c)), (c, w))). rewrite HI.
    unfold lift_run, mbind, prog_bind. by destruct (ready_case _ _ _ _) as [[[]| | |] s'].
Qed.

Lemma text_consumes mode p :
  consumes text_neutral mode p (λ _, True) (λ a, (Some p, a)) (text_step mode).
Proof.
  split.
  - intros a b c w _. unfold text_step, lift_run, mbind, prog_bind. cbn.
    by destruct (data_row_case _ _ _ _ _) as [[[]| | |] s'].
  - intros a t b s Hn. unfold text_neutral in Hn. unfold text_step. 
    destruct (beq t MsgRowDescription) eqn:E1; [by apply beq_true in E1 as ->|].
    destruct (beq t MsgDataRow) eqn:E2; [by apply beq_true in E2 as ->|]. by rewrite Hn.
  - done.
  - done.
  - done.
  - intros a b c w _. unfold text_step, lift_run, mbind, prog_bind. cbn.
    by destruct (ready_case _ _ _ _) as [[[]| | |] s'].
Qed.

(** The result format block of a Bind. *)
Definition formats_wire (fmts : list Z) : bytes :=
  if allBinary fmts then be_put 2 1 ++ be_put 2 1 else be_put 2 (Zlen fmts) ++ concat (map (be_put 2) fmts).

Definition bind_body (st : preparedStmt) (args : list goarg) (vals : list (option bytes)) : bytes :=
  x00 :: st_name st ++ x00 :: params_wire (st_paramOIDs st) args vals ++ formats_wire (st_resultFmts st).

Lemma writes_resultFormats fmts : writes (resultFormats fmts) (formats_wire fmts).
Proof.
  unfold resultFormats, formats_wire. destruct (allBinary fmts).
  - apply writes_seq; apply writes_bInt16.
  - apply writes_seq; [|apply (writes_mapM bInt16 (be_put 2)), writes_bInt16].
    eapply writes_eq; [apply writes_bInt16|apply be_put_int16].
Qed.

(** A Bind with Execute and Sync behind it, in one flush. *)
Lemma pipeline_ok bind body c : room c = None → writes bind (frame MsgBind body) →
  (_ ← bind; _ ← executeMessage; _ ← syncMessage; Flush) c = (Ret tt, set_writeBuf [] (set_socket (sent c ++ writeBuf c ++
    frame MsgBind body ++ frame MsgExecute [x00; x00; x00; x00; x00] ++ frame MsgSync []) None c)).
Proof.
  intros Hr Hb.
  assert (writes executeMessage (frame MsgExecute [x00; x00; x00; x00; x00])) as He.
  { apply writes_message. eapply writes_eq; [apply writes_seq; [apply writes_bCString|apply writes_bInt32]|done]. }
  assert (writes syncMessage (frame MsgSync [])) as Hs by (apply writes_message, writes_nil).
  step (Hb c). step (He (set_writeBuf (writeBuf c ++ frame MsgBind body) c)).
  match goal with |- (syncMessage ≫= _) ?s = _ => step (Hs s) end.
  rewrite Flush_ok by done. cbn -[frame]. rewrite <- !app_assoc. done.
Qed.

Lemma bindMessages_ok st args vals c : room c = None → arg_values (st_paramOIDs st) 0 args = Some vals →
  bindMessages st args c = (Ret tt, set_writeBuf [] (set_socket (sent c ++ writeBuf c ++
    frame MsgBind (bind_body st args vals) ++ frame MsgExecute [x00; x00; x00; x00; x00] ++ frame MsgSync []) None c)).
Proof.
  intros Hr Ha. unfold bindMessages.
  assert (writes (message MsgBind (_ ← bCString []; _ ← bCString (st_name st);
      _ ← writeBindParams (st_paramOIDs st) args; resultFormats (st_resultFmts st)))
    (frame MsgBind (bind_body st args vals))) as Hb.
  { apply writes_message. eapply writes_eq.
    - apply writes_seq; [apply writes_bCString|]. apply writes_seq; [apply writes_bCString|].
      apply writes_seq; [by apply writes_bind_params|apply writes_resultFormats].
    - unfold bind_body. cbn [app]. by rewrite <- app_assoc. }
  by apply pipeline_ok.
Qed.
End Engine.

(** ** Lemmas: the cap *)

Section Cap.
Context {W : Type} {OW : OutWriter W} {OL : OutWriterLaws W} {MO : MapOrder} {h : bool}.

(** What a drain leaves alone. *)
Definition drained (rest : bytes) (c c' : Client) : Prop :=
  inbound (conn c') = rest ∧ sent (conn c') = sent (conn c) ∧ cancels c' = cancels c ∧ lastRows c' = lastRows c ∧
  stmts c' = stmts c.

Lemma drain_all z rest (w : W) : ∀ msgs fuel c, (length msgs < fuel)%nat →
  inbound (conn c) = wire_of msgs ++ frame MsgReadyForQuery z ++ rest →
  Forall (λ m, msg_ok m ∧ m.1 ≠ MsgReadyForQuery) msgs → msg_ok (MsgReadyForQuery, z) →
  ∃ c', read_loop (cl (wire ReadMessage)) drain_step (λ _ _, mret tt) fuel tt (c, w) = (Ret tt, (c', w)) ∧
    drained rest c c'.
Proof.
  intros msgs. induction msgs as [|[t b] msgs IH]; intros fuel c Hf Hin Hok Hz; destruct fuel as [|fuel];
    try (cbn in Hf; lia).
  - cbn in Hin. destruct (loop_round drain_step (λ _ _, mret tt) fuel tt c w _ _ _ Hin Hz) as (k & Hk & E).
    rewrite E. eexists. split; [done|]. destruct Hk as (? & ? & _). by repeat split.
  - apply Forall_cons in Hok as [[Hm Ht] Hok]. cbn [fst] in Ht. unfold wire_of in Hin. cbn [map concat fst snd] in Hin.
    rewrite <- app_assoc in Hin. fold (wire_of msgs) in Hin.
    destruct (loop_round drain_step (λ _ _, mret tt) fuel tt c w _ _ _ Hin Hm) as (k & Hk & E).
    assert (∃ c1, drain_step tt t b (set_conn k c, w) = (Ret (inl tt), (c1, w)) ∧ conn c1 = k ∧ cancels c1 = cancels c ∧
      lastRows c1 = lastRows c ∧ stmts c1 = stmts c) as (c1 & Es & C1 & C2 & C3 & C4).
    { unfold drain_step. destruct (beq t MsgReadyForQuery) eqn:Eb; [by apply beq_true in Eb|].
      destruct (beq t MsgParameterStatus).
      { unfold on_parameter, cl, zoom, modify, mbind, prog_bind, fst. destruct (splitParameter b). by eexists. }
      destruct (beq t MsgNoticeResponse); by eexists. }
    rewrite E, Es. destruct Hk as (K1 & K2 & _).
    destruct (IH fuel c1) as (c' & E' & D1 & D2 & D3 & D4 & D5); [cbn in Hf; lia|by rewrite C1, K1|done|done|].
    exists c'. split; [exact E'|]. repeat split; congruence.
Qed.

(** The row that reaches the row cap. *)
Lemma capped_row mode p a cells c w msgs z rest : plan_wf p → length (Columns p) = length cells → Forall cell_ok cells →
  Zlen cells < 2 ^ 15 → writer_ok h w → h = true →
  0 < MaxResponseRows (cfg c) → rowCount a + 1 = MaxResponseRows (cfg c) →
  inbound (conn c) = wire_of msgs ++ frame MsgReadyForQuery z ++ rest →
  Forall (λ m, msg_ok m ∧ m.1 ≠ MsgReadyForQuery) msgs → msg_ok (MsgReadyForQuery, z) →
  ∃ c' w', data_row_case mode (Some p) a (data_row cells) (c, w) =
      (Err (ETooLarge LimitRows (rowCount a + 1) (rowCount a + 1) (Committed w')), (c', w')) ∧
    output w' = output w ++ row_chunk mode p a cells ∧
    inbound (conn c') = rest ∧ lastRows c' = rowCount a + 1 ∧
    cancels c' = cancels c ++ (if pid c =? 0 then []
      else [beU32put 16 ++ beU32put cancelRequestCode ++ beU32put (pid c) ++ beU32put (skey c)]).
Proof.
  intros Hp Hl Hok Hn Hw Hh Hpos Hrow Hin Hmsgs Hz. unfold data_row_case. rewrite <- bind_assoc.
  destruct (puts_header_row mode p a cells Hp Hl Hok Hn c w Hw) as [(w' & E & Hw' & O)|(Hh' & _)]; [|by subst].
  step E. cbv zeta. step (eq_refl : ask (c, w') = (Ret (c, w'), (c, w'))).
  assert (checkCaps (rowCount a + 1) (c, w') =
    Some (ETooLarge LimitRows (rowCount a + 1) (rowCount a + 1) (Committed w'))) as ->.
  { unfold checkCaps. rewrite Hrow. destruct (Z.ltb_spec 0 (MaxResponseRows (cfg c))); [|lia]. by rewrite Z.leb_refl. }
  set (n := rowCount a + 1) in *. set (e := ETooLarge _ _ _ _).
  step (eq_refl : cl (modify (set_lastRows n)) (c, w') = (Ret tt, (set_lastRows n c, w'))).
  assert (∃ c1 o, catch (cl SendCancel) (set_lastRows n c, w') = (Ret o, (c1, w')) ∧ conn c1 = conn c ∧ lastRows c1 = n ∧
    cancels c1 = cancels c ++ (if pid c =? 0 then []
      else [beU32put 16 ++ beU32put cancelRequestCode ++ beU32put (pid c) ++ beU32put (skey c)]))
    as (c1 & o & Ec & C1 & C2 & C3).
  { unfold catch, cl, zoom, SendCancel, mbind, prog_bind, ask. cbn [fst snd pid set_lastRows].
    destruct (pid c =? 0); eexists _, _; (split; [done|]); cbn; by rewrite ?app_nil_r. }
  unfold abortOversize. step Ec. rewrite <- C1 in Hin.
  destruct (drain_all z rest w' msgs (rounds c1) c1) as (c2 & E2 & D1 & D2 & D3 & D4 & _); try done.
  { unfold rounds. rewrite Hin, length_app. pose proof (length_wire_of msgs). lia. }
  step (E2 : drain (c1, w') = (Ret tt, (c2, w'))). exists c2, w'. split; [done|]. rewrite D3, D4, C3. by repeat split.
Qed.
End Cap.

(** ** The result of a query *)

Section Results.
Context {W : Type} {OW : OutWriter W} {OL : OutWriterLaws W} {MO : MapOrder} {h : bool}.

(** A success leaves nothing to be delivered; a failure without rows leaves the
    writer alone. *)
Definition settles (rs : list reply) (w w' : W) : Prop :=
  match error_of None rs with None => settled w' | Some _ => rows_of rs = [] → w' = w end.

(** What a query path did: it consumed the reply exactly, up to and including
    ReadyForQuery, sent [request], and wrote and delivered the document; or the user's writer
    failed with a prefix of the document delivered. *)
Definition answered (request : bytes) (mode : Mode) (p : Plan) (rs : list reply) (rest : bytes) (c : Client) (w : W)
    (x : res unit * (Client * W)) : Prop :=
  (∃ k w', x = (match error_of None rs with Some e => Err (EPg e) | None => Ret tt end,
                (set_lastRows (Zlen (rows_of rs)) (set_conn k (reacts c rs)), w')) ∧
    inbound k = rest ∧ writeBuf k = [] ∧ room k = None ∧ sent k = sent (conn c) ++ writeBuf (conn c) ++ request ∧
    writer_ok h w' ∧ output w' = output w ++ finished_text mode p rs ∧ settles rs w w') ∨
  (h = false ∧ ∃ e s' l, x = (Err e, s') ∧ as_pg e = None ∧ output w ++ finished_text mode p rs = delivered (snd s') ++ l).

Lemma replied_answered {A} neutral mode p I (inj : running → A) stp onerr fuel rs st rest c w :
  consumes neutral mode p I inj stp → plan_wf p → I (stmts c) → (length rs < fuel)%nat →
  inbound (conn c) = wire_of (map reply_msg rs) ++ frame MsgReadyForQuery st ++ rest →
  Forall (reply_ok neutral p) rs → msg_ok (MsgReadyForQuery, st) → writer_ok h w →
  under_caps (cfg c) (Zlen (rows_of rs)) (Zlen (output w ++ partial_text mode p (rows_of rs))) →
  (∃ k w', read_loop (cl (wire ReadMessage)) stp onerr fuel (inj (mkRun 0 false None)) (c, w) =
      (match error_of None rs with Some e => Err (EPg e) | None => Ret tt end,
       (set_lastRows (Zlen (rows_of rs)) (set_conn k (reacts c rs)), w')) ∧
    conn_at rest (conn c) k ∧ writer_ok h w' ∧ output w' = output w ++ finished_text mode p rs ∧ settles rs w w') ∨
  (h = false ∧ ∃ e s' l, read_loop (cl (wire ReadMessage)) stp onerr fuel (inj (mkRun 0 false None)) (c, w) = (Err e, s') ∧
    as_pg e = None ∧ output w ++ finished_text mode p rs = delivered (snd s') ++ l).
Proof.
  intros Hc Hp HI Hf Hin Hok Hst Hw Hcap.
  pose proof (run_replies Hc Hp onerr st rest rs fuel (mkRun 0 false None) c w HI Hf Hin Hok Hst Hw) as H.
  unfold settles. rewrite <- start_end_text. rewrite run_text_start in *. exact (H Hcap).
Qed.

Lemma fuel_enough rs tail : (length rs < S (length (wire_of (map reply_msg rs) ++ tail)))%nat.
Proof.
  pose proof (length_wire_of (map reply_msg rs)) as Hl. rewrite length_map in Hl. rewrite length_app. lia.
Qed.

(** Once the request is out, bindExecute is its read loop. *)
Lemma bindExecute_started mode r args c (w : W) st vals :
  deref r (stmts c) = st → arg_values (st_paramOIDs st) 0 args = Some vals → room (conn c) = None →
  bindExecute mode r args (c, w) =
  read_loop (cl (wire ReadMessage)) (execute_step mode r) (λ _ e, throw e) (S (length (inbound (conn c))))
    (mkRun 0 false None)
    (set_conn (set_writeBuf [] (set_socket (sent (conn c) ++ writeBuf (conn c) ++
       frame MsgBind (bind_body st args vals) ++ frame MsgExecute [x00; x00; x00; x00; x00] ++ frame MsgSync [])
       None (conn c))) c, w).
Proof.
  intros Hd Ha Hroom. unfold bindExecute.
  step (eq_refl : cl (load r) (c, w) = (Ret (deref r (stmts c)), (c, w))). rewrite Hd.
  set (k0 := set_writeBuf [] _).
  assert ((cl (wire (bindMessages st args)) : prog (Client * W) unit) (c, w) = (Ret tt, (set_conn k0 c, w))) as E.
  { unfold cl, wire, zoom. cbn [fst snd]. by rewrite (bindMessages_ok st args vals (conn c) Hroom Ha). }
  step E. done.
Qed.

Lemma bindExecute_answered mode r args c w st p vals rs z rest :
  deref r (stmts c) = st → st_plan st = Some p → plan_wf p →
  arg_values (st_paramOIDs st) 0 args = Some vals → room (conn c) = None →
  inbound (conn c) = wire_of (map reply_msg rs) ++ frame MsgReadyForQuery z ++ rest →
  Forall (reply_ok execute_neutral p) rs → msg_ok (MsgReadyForQuery, z) → writer_ok h w →
  under_caps (cfg c) (Zlen (rows_of rs)) (Zlen (output w ++ partial_text mode p (rows_of rs))) →
  answered (frame MsgBind (bind_body st args vals) ++ frame MsgExecute [x00; x00; x00; x00; x00] ++ frame MsgSync [])
    mode p rs rest c w (bindExecute mode r args (c, w)).
Proof.
  intros Hd Hpl Hp Ha Hroom Hin Hok Hz Hw Hcap.
  rewrite (bindExecute_started mode r args c w st vals Hd Ha Hroom).
  set (req := frame MsgBind _ ++ _).
  set (k0 := set_writeBuf [] (set_socket (sent (conn c) ++ writeBuf (conn c) ++ req) None (conn c))).
  destruct (replied_answered execute_neutral mode p _ id (execute_step mode r) (λ _ e, throw e)
    (S (length (inbound k0))) rs z rest (set_conn k0 c) w (execute_consumes mode r p)) as
    [(k & w' & E' & (K1 & K2 & K3 & K4 & K5) & Hw' & O & Q)|H]; try done.
  - cbn. by rewrite Hd.
  - unfold k0. cbn. rewrite Hin. apply fuel_enough.
  - left. exists k, w'. rewrite reacts_conn in E'. split; [exact E'|].
    split; [done|]. split; [by rewrite K5|]. split; [by rewrite K3|]. by rewrite K2.
  - by right.
Qed.
End Results.
