(* ===== verification/QueryResult.v ===== *)
(** The results of the two query paths: exact documents, their JSON validity,
    and what a success implies whatever the server sends. *)
From S2P Require Import Prelude Protocol JsonWriter JsonGrammar Encoders Errors Effects Wire Rows Args StmtCache Stream.
From S2P Require Import Client Query QuerySpec.

(** ** Specification *)

(** A column whose encoder yields JSON for any cell. *)
Definition json_column (c : Column) : Prop :=
  PickBinaryEx (TypeOID c) false = Some (ColEncoder c) ∧ strict_oid (TypeOID c) = true.

(** The document is what its mode promises: one JSON value, or one per line. *)
Definition document (mode : Mode) (out : bytes) : Prop :=
  match mode with
  | ModeArray | ModeColumnar => jvalue out
  | ModeNDJSON => ∃ l, Forall jvalue l ∧ out = concat (map (λ v, v ++ [x0a]) l)
  | ModeTOON => True
  end.

(** ** Lemmas *)

Lemma cells_json cols cells : Forall json_column cols → length cols = length cells →
  Forall2 (λ c raw, jvalue (ColEncoder c [] raw)) cols cells.
Proof.
  intros H. revert cells. induction H as [|c cols [H1 H2] H IH]; intros [|raw cells] Hl; try done.
  constructor; [by apply strict_column_json|]. apply IH. by injection Hl.
Qed.

Lemma rows_text_sep mode p f rows : ∀ i, 0 <= i →
  (∀ i cells, row_text mode p i cells = (if 0 <? i then [","%byte] else []) ++ f cells) →
  rows_text mode p i rows =
  if 0 <? i then concat (map (app [","%byte]) (map f rows)) else join [","%byte] (map f rows).
Proof.
  induction rows as [|cells rows IH]; intros i Hi Hf; cbn [rows_text map]; [by destruct (0 <? i)|].
  rewrite (IH (i + 1)) by (try done; lia). rewrite Hf. destruct (Z.ltb_spec 0 (i + 1)); [|lia].
  destruct (Z.ltb_spec 0 i); cbn [concat map]; [by rewrite <- app_assoc|]. by rewrite join_cons.
Qed.

Lemma result_document mode p rows : plan_wf p → Forall json_column (Columns p) →
  Forall (λ cells, length (Columns p) = length cells) rows → document mode (result_text mode p rows).
Proof.
  intros Hp Hj Hr. unfold result_text.
  assert (Forall jvalue (map (object_text (Columns p)) rows)) as Hobj.
  { apply Forall_map. eapply Forall_impl; [exact Hr|]. intros cells Hl.
    apply object_text_json; [done|]. by apply cells_json. }
  assert (Forall jvalue (map (λ cells, "["%byte :: value_text (Columns p) cells ++ ["]"%byte]) rows)) as Hval.
  { apply Forall_map. eapply Forall_impl; [exact Hr|]. intros cells Hl. apply value_text_json. by apply cells_json. }
  destruct mode; cbn [document opening closing].
  - rewrite (rows_text_sep _ _ (object_text (Columns p))) by done. by apply jv_array.
  - exists (map (object_text (Columns p)) rows). split; [done|]. rewrite app_nil_r. cbn [app].
    generalize 0. clear. induction rows as [|cells rows IH]; intros i; [done|]. cbn [rows_text map concat].
    by rewrite (IH (i + 1)).
  - rewrite (rows_text_sep _ _ (λ cells, "["%byte :: value_text (Columns p) cells ++ ["]"%byte])) by done.
    cbn [Z.ltb]. rewrite (pw_header _ Hp), buildColumnsHeader_eq.
    set (names := map name_text (Columns p)).
    set (vals := map (λ cells, _) rows).
    pose (kvs := [(str "columns", "["%byte :: join [","%byte] names ++ ["]"%byte]);
                  (str "rows", "["%byte :: join [","%byte] vals ++ ["]"%byte])]).
    assert (jvalue ("{"%byte :: join [","%byte] ((λ kv : bytes * bytes, dquote :: kv.1 ++ [dquote; ":"%byte] ++ kv.2) <$> kvs) ++
      ["}"%byte])) as Hd.
    { apply jv_object; unfold kvs; [by repeat constructor|].
      repeat (apply Forall_cons; split); [| |apply Forall_nil_2]; cbn [snd]; apply jv_array; [|done].
      unfold names. apply Forall_map, Forall_forall. intros c _. apply jvalue_string. }
    unfold kvs in Hd. cbn [fmap list_fmap fst snd join] in Hd. cbn. cbn in Hd. rewrite <- ?app_assoc in *. cbn in *.
    rewrite <- ?app_assoc in *. exact Hd.
  - done.
Qed.

Lemma rows_text_snoc mode p rows cells : ∀ i,
  rows_text mode p i (rows ++ [cells]) = rows_text mode p i rows ++ row_text mode p (i + Zlen rows) cells.
Proof.
  induction rows as [|x rows IH]; intros i; cbn [app rows_text]; [by rewrite app_nil_r, Z.add_0_r|].
  rewrite IH, Zlen_cons, <- app_assoc. by rewrite (Z.add_comm (Zlen rows) 1), Z.add_assoc.
Qed.

Lemma rows_of_lengths neutral p rs : Forall (reply_ok neutral p) rs →
  Forall (λ cells, length (Columns p) = length cells) (rows_of rs).
Proof.
  induction 1 as [|r rs [_ Hr] _ IH]; [constructor|]. destruct r; cbn [rows_of]; try done. constructor; [|done]. apply Hr.
Qed.

(** A connected client whose server will send [inb], with [st] prepared. *)
Definition demo_stmt : preparedStmt := mkStmt (str "s_1") (Some demo_plan) [0] [OIDInt4].
Definition demo_client (inb : bytes) : Client :=
  set_stmts (snd (alloc demo_stmt (newStmtCache 0))) (newClient zero_config (New inb None)).
Definition demo_replies : list reply :=
  [RNeutral MsgBindComplete []; RParam (str "k" ++ x00 :: str "v" ++ [x00]); RRow [Some (str "42")]; RRow [None];
   RNeutral MsgCommandComplete (str "SELECT 2")].
Definition demo_inbound : bytes :=
  wire_of (map reply_msg demo_replies) ++ frame MsgReadyForQuery (str "I") ++ str "later".
Definition demo_buffer : bufWriter := mkBufWriter [] 0 false.

Lemma demo_replies_ok : Forall (reply_ok execute_neutral demo_plan) demo_replies.
Proof. repeat constructor; discriminate. Qed.

(** C1. The result of executing a prepared statement over a healthy
    connection, for every output mode and writer: exactly Bind, Execute and
    Sync are sent; for any mix of rows, notices, parameter changes and errors
    the server answers with, the reply is consumed exactly through
    ReadyForQuery, the asynchronous messages reach the client state, and the
    output gains exactly the document of the rows in order (without footer,
    and with the server's last error, when there was one), all of it delivered
    at a success, while a failure without rows has not touched the writer; or, if
    the caller's writer can fail ([h = false]), it failed with a prefix of that
    document delivered. *)
Theorem bindExecute_exact {W : Type} {OW : OutWriter W} {OL : OutWriterLaws W} {MO : MapOrder}
    (h : bool) (mode : Mode) (r : nat) (args : list goarg) (c : Client) (w : W) (st : preparedStmt) (p : Plan)
    (vals : list (option bytes)) (rs : list reply) (z rest : bytes)
  (Hst : deref r (stmts c) = st ∧ st_plan st = Some p ∧ plan_wf p)
  (Hargs : arg_values (st_paramOIDs st) 0 args = Some vals)
  (Hroom : room (conn c) = None)
  (Hin : inbound (conn c) = wire_of (map reply_msg rs) ++ frame MsgReadyForQuery z ++ rest)
  (Hrs : Forall (reply_ok execute_neutral p) rs ∧ msg_ok (MsgReadyForQuery, z))
  (Hw : writer_ok h w)
  (Hcap : under_caps (cfg c) (Zlen (rows_of rs)) (Zlen (output w ++ partial_text mode p (rows_of rs)))) :
  answered (h := h) (frame MsgBind (bind_body st args vals) ++ frame MsgExecute [x00; x00; x00; x00; x00] ++ frame MsgSync [])
    mode p rs rest c w (bindExecute mode r args (c, w)).
Proof. destruct Hst as (? & ? & ?), Hrs. by eapply bindExecute_answered. Qed.

Lemma bindExecute_exact_witness :
  answered (h := true) (frame MsgBind (bind_body demo_stmt [AInt KInt 7] [Some (be_put 4 7)]) ++
      frame MsgExecute [x00; x00; x00; x00; x00] ++ frame MsgSync [])
    ModeArray demo_plan demo_replies (str "later") (demo_client demo_inbound) demo_buffer
    (bindExecute ModeArray 0 [AInt KInt 7] (demo_client demo_inbound, demo_buffer)).
Proof.
  apply (bindExecute_exact true ModeArray 0 [AInt KInt 7] (demo_client demo_inbound) demo_buffer demo_stmt demo_plan
    [Some (be_put 4 7)] demo_replies (str "I") (str "later")).
  - split; [reflexivity|]. split; [reflexivity|apply demo_plan_wf].
  - reflexivity.
  - reflexivity.
  - reflexivity.
  - split; [apply demo_replies_ok|discriminate].
  - exact I.
  - split; left; discriminate.
Defined.

(** C2. The output of a prepared statement without server error, through a
    writer that does not fail, is what its mode promises, whatever bytes the
    cells hold: one JSON array, one columnar JSON object, or one JSON object
    per line, provided the columns have types whose encoders are strict; and
    none of it is left in the writer's buffer. *)
Theorem bindExecute_document {W : Type} {OW : OutWriter W} {OL : OutWriterLaws W} {MO : MapOrder}
    (mode : Mode) (r : nat) (args : list goarg) (c : Client) (w : W) (st : preparedStmt) (p : Plan)
    (vals : list (option bytes)) (rs : list reply) (z rest : bytes)
  (Hst : deref r (stmts c) = st ∧ st_plan st = Some p ∧ plan_wf p)
  (Hcols : Forall json_column (Columns p))
  (Hargs : arg_values (st_paramOIDs st) 0 args = Some vals)
  (Hroom : room (conn c) = None)
  (Hin : inbound (conn c) = wire_of (map reply_msg rs) ++ frame MsgReadyForQuery z ++ rest)
  (Hrs : Forall (reply_ok execute_neutral p) rs ∧ msg_ok (MsgReadyForQuery, z) ∧ error_of None rs = None)
  (Hw : writer_ok true w)
  (Hcap : MaxResponseRows (cfg c) <= 0 ∧ MaxResponseBytes (cfg c) <= 0) :
  ∃ s out, bindExecute mode r args (c, w) = (Ret tt, s) ∧ output (snd s) = output w ++ out ∧ document mode out ∧
    settled (snd s) ∧ lastRows (fst s) = Zlen (rows_of rs).
Proof.
  destruct Hst as (? & ? & Hp), Hrs as (Hok & ? & He), Hcap.
  destruct (bindExecute_answered (h := true) mode r args c w st p vals rs z rest) as
    [(k & w' & E & _ & _ & _ & _ & _ & O & Q)|(? & _)]; try done; [by split; left|].
  rewrite He in E. unfold finished_text in O. unfold settles in Q. rewrite He in O, Q.
  eexists _, _. split; [exact E|]. split; [exact O|]. split; [|by split].
  apply result_document; [done|done|]. by eapply rows_of_lengths.
Qed.

Definition strict_plan : Plan := ApplyFormatsEx demo_plan [1] false.
Definition strict_stmt : preparedStmt := mkStmt (str "s_1") (Some strict_plan) [1] [].
Definition strict_client (inb : bytes) : Client :=
  set_stmts (snd (alloc strict_stmt (newStmtCache 0))) (newClient zero_config (New inb None)).
Definition strict_replies : list reply := [RRow [Some (be_put 4 7)]; RRow [Some (str "?")]].

(** A streaming writer that flushes as soon as it holds something. *)
Definition eager_stream : flushingWriter := mkFlushing (mkSink [] None) 1 0 (λ _, false) 0 [] true false 0 0 false.

Lemma bindExecute_document_witness :
  ∃ s out, bindExecute ModeColumnar 0 []
      (strict_client (wire_of (map reply_msg strict_replies) ++ frame MsgReadyForQuery (str "I") ++ []), eager_stream) =
      (Ret tt, s) ∧ output (snd s) = output eager_stream ++ out ∧ document ModeColumnar out ∧
    settled (snd s) ∧ lastRows (fst s) = Zlen (rows_of strict_replies).
Proof.
  apply (bindExecute_document ModeColumnar 0 []
    (strict_client (wire_of (map reply_msg strict_replies) ++ frame MsgReadyForQuery (str "I") ++ []))
    eager_stream strict_stmt strict_plan [] strict_replies (str "I") []).
  - split; [reflexivity|]. split; [reflexivity|]. apply ApplyFormatsEx_wf, demo_plan_wf.
  - repeat constructor.
  - reflexivity.
  - reflexivity.
  - reflexivity.
  - split; [repeat constructor; discriminate|]. split; [discriminate|reflexivity].
  - split; [reflexivity|]. split; reflexivity.
  - split; discriminate.
Defined.

(** C6. The row cap: when the server has at least as many rows as
    MaxResponseRows allows, exactly that many rows have been written, the query
    fails with the too-large error carrying the counts, a CancelRequest with
    this backend's key is issued (when there is one), and the rest of the
    reply, whatever it holds, is drained through ReadyForQuery so that the
    connection stays usable. *)
Theorem row_cap_aborts {W : Type} {OW : OutWriter W} {OL : OutWriterLaws W} {MO : MapOrder}
    (mode : Mode) (r : nat) (args : list goarg) (c : Client) (w : W) (st : preparedStmt) (p : Plan)
    (vals : list (option bytes)) (rs : list reply) (cells : list (option bytes)) (msgs : list (byte * bytes))
    (z rest : bytes)
  (Hst : deref r (stmts c) = st ∧ st_plan st = Some p ∧ plan_wf p)
  (Hargs : arg_values (st_paramOIDs st) 0 args = Some vals)
  (Hroom : room (conn c) = None)
  (Hin : inbound (conn c) = wire_of (map reply_msg rs) ++ frame MsgDataRow (data_row cells) ++
     wire_of msgs ++ frame MsgReadyForQuery z ++ rest)
  (Hrs : Forall (reply_ok execute_neutral p) rs ∧ reply_ok execute_neutral p (RRow cells) ∧
         Forall (λ m, msg_ok m ∧ m.1 ≠ MsgReadyForQuery) msgs ∧ msg_ok (MsgReadyForQuery, z))
  (Hw : writer_ok true w)
  (Hcap : MaxResponseRows (cfg c) = Zlen (rows_of rs) + 1 ∧ MaxResponseBytes (cfg c) <= 0) :
  ∃ c' w', bindExecute mode r args (c, w) =
      (Err (ETooLarge LimitRows (MaxResponseRows (cfg c)) (MaxResponseRows (cfg c)) (Committed w')), (c', w')) ∧
    output w' = output w ++ opening mode p ++ rows_text mode p 0 (rows_of rs ++ [cells]) ∧
    inbound (conn c') = rest ∧ lastRows c' = MaxResponseRows (cfg c) ∧
    cancels c' = cancels c ++ (if pid c =? 0 then []
      else [beU32put 16 ++ beU32put cancelRequestCode ++ beU32put (pid c) ++ beU32put (skey c)]).
Proof.
  destruct Hst as (Hd & Hpl & Hp), Hrs as (Hok & [Hmsg (Hl & Hcells & Hn)] & Hmsgs & Hz), Hcap as [Hmax Hbytes].
  rewrite (bindExecute_started mode r args c w st vals Hd Hargs Hroom).
  set (k0 := set_writeBuf [] _).
  assert (length rs <= length (inbound (conn c)))%nat as Hfuel.
  { pose proof (length_wire_of (map reply_msg rs)) as Hf. rewrite length_map in Hf. rewrite Hin, length_app. lia. }
  replace (S (length (inbound (conn c)))) with (length rs + S (length (inbound (conn c)) - length rs))%nat by lia.
  pose proof (run_text_start mode p rs None) as Ht.
  pose proof (run_prefix (h := true) (execute_consumes mode r p) Hp (λ _ e, throw e)
    (S (length (inbound (conn c)) - length rs))
    (frame MsgDataRow (data_row cells) ++ wire_of msgs ++ frame MsgReadyForQuery z ++ rest) rs (mkRun 0 false None) (set_conn k0 c) w) as H.
  unfold advanced in H. rewrite Ht in H. cbn [fst snd rowCount] in H.
  destruct H as [(k1 & w1 & E1 & K1 & Hw1 & O1 & _)|[? _]]; try done.
  { cbn. by rewrite Hd. }
  { pose proof (Zlen_nonneg (rows_of rs)). split; [right; cbn [cfg set_conn]; lia|by left]. }
  cbn [id] in E1. rewrite E1. cbn [conn set_conn] in K1. rewrite reacts_conn, set_conn_twice.
  assert (inbound (conn (set_conn k1 (reacts c rs))) = frame MsgDataRow (data_row cells) ++
    wire_of msgs ++ frame MsgReadyForQuery z ++ rest) as Hin1 by (by apply (conn_at_in _ _ _ K1)).
  destruct (loop_round (execute_step mode r) (λ _ e, throw e) (length (inbound (conn c)) - length rs)
    (mkRun (Zlen (rows_of rs)) (match rows_of rs with [] => false | _ => true end) (error_of None rs))
    _ w1 _ _ _ Hin1 Hmsg) as (k2 & K2 & E2).
  rewrite set_conn_twice in E2.
  set (a := mkRun (Zlen (rows_of rs)) _ _) in E2.
  pose proof (cs_row _ _ _ _ _ _ (execute_consumes mode r p) a (data_row cells) (set_conn k2 (reacts c rs)) w1) as Es.
  cbn [id stmts set_conn] in Es. rewrite reacts_stmts, Hd in Es. fold a. rewrite E2, (Es Hpl). unfold lift_run, mbind, prog_bind.
  destruct (capped_row (h := true) mode p a cells (set_conn k2 (reacts c rs)) w1 msgs z rest) as
    (c' & w' & E & O & D1 & D2 & D3); try done.
  { cbn. rewrite (proj1 (reacts_same c rs)). pose proof (Zlen_nonneg (rows_of rs)). lia. }
  { cbn. by rewrite (proj1 (reacts_same c rs)). }
  { by apply (conn_at_in _ _ _ K2). }
  rewrite E. exists c', w'. cbn [after]. unfold a in *. cbn [rowCount] in *. rewrite Hmax.
  destruct (reacts_key c rs) as (R1 & R2 & R3). cbn [pid skey cancels set_conn] in D3. rewrite R1, R2, R3 in D3.
  split; [done|]. split; [|by repeat split].
  rewrite O, O1, rows_text_snoc, Z.add_0_l, <- app_assoc. f_equal. unfold row_chunk. cbn [headerWritten rowCount].
  unfold partial_text. destruct (rows_of rs); cbn [app]; rewrite <- ?app_assoc; done.
Qed.

Definition capped_client (inb : bytes) : Client :=
  set_key 7 9 (set_stmts (snd (alloc strict_stmt (newStmtCache 0)))
    (newClient (mkConfig [] 0 [] [] [] [] 0 0 [] SSLDisable 0 None 0 2 0 false 0 0 0 0 0 0 [] 0 false) (New inb None))).
Definition surplus : list (byte * bytes) :=
  [(MsgDataRow, data_row [Some (be_put 4 3)]); (MsgErrorResponse, [x00])].

Lemma row_cap_aborts_witness :
  ∃ c' w', bindExecute ModeArray 0 [] (capped_client (wire_of (map reply_msg [RRow [None]]) ++
        frame MsgDataRow (data_row [Some (be_put 4 7)]) ++ wire_of surplus ++ frame MsgReadyForQuery (str "I") ++ str "x"),
      demo_buffer) =
      (Err (ETooLarge LimitRows 2 2 (Committed w')), (c', w')) ∧
    output w' = output demo_buffer ++ opening ModeArray strict_plan ++
      rows_text ModeArray strict_plan 0 (rows_of [RRow [None]] ++ [[Some (be_put 4 7)]]) ∧
    inbound (conn c') = str "x" ∧ lastRows c' = 2 ∧
    cancels c' = [] ++ [beU32put 16 ++ beU32put cancelRequestCode ++ beU32put 7 ++ beU32put 9].
Proof.
  apply (row_cap_aborts ModeArray 0 [] (capped_client (wire_of (map reply_msg [RRow [None]]) ++
        frame MsgDataRow (data_row [Some (be_put 4 7)]) ++ wire_of surplus ++ frame MsgReadyForQuery (str "I") ++ str "x"))
    demo_buffer strict_stmt strict_plan [] [RRow [None]] [Some (be_put 4 7)] surplus (str "I") (str "x")).
  - split; [reflexivity|]. split; [reflexivity|]. apply ApplyFormatsEx_wf, demo_plan_wf.
  - reflexivity.
  - reflexivity.
  - reflexivity.
  - repeat first [split | constructor]; discriminate.
  - exact I.
  - split; [reflexivity|discriminate].
Defined.

(** The result of a simple query whose reply starts with a
    RowDescription: one Query message is sent, the plan compiled from the
    description renders every row from its text form, and the reply is consumed
    exactly, in every output mode and through any writer. *)
Theorem runSimple_exact {W : Type} {OW : OutWriter W} {OL : OutWriterLaws W}
    (h : bool) (mode : Mode) (sql desc : bytes) (c : Client) (w : W) (p : Plan) (rs : list reply) (z rest : bytes)
  (Hp : ParseRowDescription desc = inr p)
  (Hroom : room (conn c) = None)
  (Hin : inbound (conn c) = frame MsgRowDescription desc ++ wire_of (map reply_msg rs) ++ frame MsgReadyForQuery z ++ rest)
  (Hrs : Forall (reply_ok text_neutral p) rs ∧ msg_ok (MsgReadyForQuery, z) ∧ msg_ok (MsgRowDescription, desc))
  (Hw : writer_ok h w)
  (Hcap : under_caps (cfg c) (Zlen (rows_of rs)) (Zlen (output w ++ partial_text mode p (rows_of rs)))) :
  answered (h := h) (frame MsgQuery (sql ++ [x00])) mode p rs rest c w (runSimple mode sql (c, w)).
Proof.
  destruct Hrs as (Hok & Hz & Hd). unfold runSimple.
  set (k0 := set_writeBuf [] (set_socket (sent (conn c) ++ writeBuf (conn c) ++ frame MsgQuery (sql ++ [x00])) None (conn c))).
  assert ((cl (wire (_ ← message MsgQuery (bCString sql); Flush)) : prog (Client * W) unit) (c, w) =
    (Ret tt, (set_conn k0 c, w))) as E.
  { unfold cl, wire, zoom. cbn [fst snd]. step (writes_message MsgQuery _ _ (writes_bCString sql) (conn c)).
    by rewrite Flush_ok. }
  step E. unfold consumeText, loop_query, rounds. cbn [fst conn set_conn].
  assert (inbound (conn (set_conn k0 c)) = frame MsgRowDescription desc ++ wire_of (map reply_msg rs) ++
    frame MsgReadyForQuery z ++ rest) as Hin' by exact Hin.
  destruct (loop_round (text_step mode) (λ _ e, throw e) (length (inbound k0)) (None, mkRun 0 false None) _ w _ _ _ Hin' Hd)
    as (k1 & K1 & E1). rewrite E1, set_conn_twice.
  assert (text_step mode (None, mkRun 0 false None) MsgRowDescription desc (set_conn k1 c, w) =
    (Ret (inl (Some p, mkRun 0 false None)), (set_conn k1 c, w))) as ->.
  { unfold text_step. cbn -[ParseRowDescription]. unfold mbind, prog_bind. by rewrite Hp. }
  cbn [after].
  destruct (replied_answered (h := h) text_neutral mode p (λ _, True) (λ a, (Some p, a)) (text_step mode) (λ _ e, throw e)
    (length (inbound k0)) rs z rest (set_conn k1 c) w (text_consumes mode p)) as
    [(k & w' & E' & (J1 & J2 & J3 & J4 & J5) & Hw' & O & Q)|H]; try done.
  - by eapply ParseRowDescription_wf.
  - cbn. rewrite Hin, length_app, length_frame. pose proof (fuel_enough rs (frame MsgReadyForQuery z ++ rest)). lia.
  - by apply (conn_at_in _ _ _ K1).
  - destruct K1 as (_ & M1 & M2 & M3 & M4). left. exists k, w'. rewrite reacts_conn in E'. split; [exact E'|].
    cbn [conn set_conn] in *. split; [done|]. rewrite J5, M4, J3, M2, J2, M1. done.
  - by right.
Qed.

Definition demo_desc : bytes := row_description [demo_field].

Lemma runSimple_exact_witness :
  ∃ p, ParseRowDescription demo_desc = inr p ∧
  answered (h := true) (frame MsgQuery (str "select 42" ++ [x00])) ModeNDJSON p [RError [x00]; RNotice [x00]] (str "x")
    (newClient zero_config (New (frame MsgRowDescription demo_desc ++ wire_of (map reply_msg [RError [x00]; RNotice [x00]]) ++
       frame MsgReadyForQuery (str "I") ++ str "x") None)) demo_buffer
    (runSimple ModeNDJSON (str "select 42")
      (newClient zero_config (New (frame MsgRowDescription demo_desc ++ wire_of (map reply_msg [RError [x00]; RNotice [x00]]) ++
         frame MsgReadyForQuery (str "I") ++ str "x") None), demo_buffer)).
Proof.
  destruct (ParseRowDescription demo_desc) as [e|p] eqn:E; [vm_compute in E; discriminate|]. exists p. split; [reflexivity|].
  apply (runSimple_exact true ModeNDJSON (str "select 42") demo_desc
    (newClient zero_config (New (frame MsgRowDescription demo_desc ++ wire_of (map reply_msg [RError [x00]; RNotice [x00]]) ++
       frame MsgReadyForQuery (str "I") ++ str "x") None)) demo_buffer p [RError [x00]; RNotice [x00]] (str "I") (str "x")).
  - exact E.
  - reflexivity.
  - reflexivity.
  - split; [repeat constructor; discriminate|]. split; discriminate.
  - exact I.
  - split; left; discriminate.
Defined.
