(* ===== verification/QueryLife.v ===== *)
(** Whole-query behaviour: the loops end, retries, what a success means whatever
    the server sends, and the failures that leave their mark on the
    connection. *)
From S2P Require Import Prelude Protocol JsonWriter JsonGrammar Encoders Errors Effects Wire Rows Args StmtCache Stream.
From S2P Require Import Client Query Footprint QuerySpec QueryResult.

(** ** Termination *)

Section Total.
Context {W : Type} {OW : OutWriter W} {OL : OutWriterLaws W} {MO : MapOrder}.
Abbreviation query := (prog (Client * W)).

(** The bytes still to read, of a running query. *)
Definition mu (s : Client * W) : nat := left_in (fst s).

Lemma cl_calm {A} (m : client A) : calm left_in m → calm mu (cl m).
Proof.
  intros Hm [c w]. unfold cl, zoom, mu. cbn [fst snd]. specialize (Hm c). by destruct (m c) as [r c'].
Qed.
Lemma ow_calm {A} (m : prog W A) : (∀ w, fst (m w) ≠ Stuck) → calm mu (ow m).
Proof.
  intros Hm [c w]. unfold ow, zoom, mu. cbn [fst snd]. specialize (Hm w). destruct (m w) as [r w']. cbn in *. split; [done|lia].
Qed.
Lemma loop_query_calm {A R} (stp : A → byte → bytes → query (A + R)) a :
  (∀ a t b, calm mu (stp a t b)) → calm mu (loop_query stp a).
Proof.
  intros Hs s. unfold loop_query. apply read_loop_total; [|exact Hs|intros; apply calm_throw|unfold rounds, mu, left_in; lia].
  intros [c w]. unfold cl, zoom, mu. cbn [fst snd]. pose proof (wire_read_shrinks c) as Hr.
  by destruct (wire ReadMessage c) as [[]].
Qed.

Lemma load_calm r : calm left_in (load r).
Proof. apply calm_gets. Qed.
Lemma writeHeader_total mode p (w : W) : fst (writeHeader mode p w) ≠ Stuck.
Proof. destruct mode, p; cbn; rewrite ?write_spec, ?writebyte_spec; done. Qed.
Lemma writeFooter_total mode (w : W) : fst (writeFooter mode w) ≠ Stuck.
Proof. destruct mode; cbn; rewrite ?write_spec, ?writebyte_spec; done. Qed.
Lemma writeRow_total mode p b i (w : W) : fst (writeRow mode p b i w) ≠ Stuck.
Proof.
  unfold writeRow. destruct p as [p|]; [|done]. unfold mbind, prog_bind, gets. cbv beta zeta iota.
  destruct (row_bytes mode p b i (Buf w)) as [s [e|]]; [done|]. unfold modify.
  destruct (i =? 0); apply flushes_total.
Qed.
Lemma FlushOut_total (w : W) : fst (FlushOut w) ≠ Stuck.
Proof. apply flushes_total. Qed.

Lemma drain_calm : calm mu (drain (W := W)).
Proof.
  intros s. unfold drain. apply read_loop_total; [| |intros; apply calm_ret|unfold rounds, mu, left_in; lia].
  - intros [c w]. unfold cl, zoom, mu. cbn [fst snd]. pose proof (wire_read_shrinks c) as Hr.
    by destruct (wire ReadMessage c) as [[]].
  - intros a t b. unfold drain_step. repeat (case_match; auto using leave_calm, again_calm);
      apply calm_bind; auto using again_calm, cl_calm, on_parameter_calm, on_notice_calm.
Qed.

Lemma abort_calm {A} e : calm mu (abortOversize (W := W) (A := A) e).
Proof.
  unfold abortOversize. apply calm_bind; [apply calm_catch, cl_calm, SendCancel_calm|]. intros _.
  apply calm_bind; [apply drain_calm|]. intros _. apply calm_throw.
Qed.

Lemma data_row_calm mode p a b : calm mu (data_row_case (W := W) mode p a b).
Proof.
  unfold data_row_case. apply calm_bind.
  { destruct (headerWritten a); [apply calm_ret|apply ow_calm, writeHeader_total]. }
  intros _. apply calm_bind; [apply ow_calm, writeRow_total|]. intros _. cbv zeta. apply calm_bind; [apply calm_ask|].
  intros s. destruct (checkCaps _ s); [|apply again_calm].
  apply calm_bind; [by apply cl_calm, calm_modify|]. intros _. apply abort_calm.
Qed.

Lemma ready_calm mode p a : calm mu (ready_case (W := W) mode p a).
Proof.
  unfold ready_case. apply calm_bind; [by apply cl_calm, calm_modify|]. intros _.
  destruct (r_err a); [apply calm_throw|]. apply calm_bind.
  { destruct (headerWritten a); [apply calm_ret|apply ow_calm, writeHeader_total]. }
  intros _. apply calm_bind; [apply ow_calm, writeFooter_total|]. intros _.
  apply calm_bind; [apply ow_calm, FlushOut_total|]. intros _. apply leave_calm.
Qed.

Hint Resolve cl_calm load_calm data_row_calm ready_calm again_calm on_notice_calm on_parameter_calm calm_modify : calm.

Lemma set_plan_calm r p : calm left_in (set_plan r p).
Proof. by apply calm_modify. Qed.
Lemma execute_step_calm mode r a t b : calm mu (execute_step (W := W) mode r a t b).
Proof. unfold execute_step. calm_tac. all: try apply cl_calm, set_plan_calm. Qed.
Lemma text_step_calm mode a t b : calm mu (text_step (W := W) mode a t b).
Proof. unfold text_step. destruct a as [p a]. calm_tac. Qed.

Lemma silent_of_sum {A} (r : gerror + A) : silent (of_sum r).
Proof. destruct r; [apply silent_throw|apply silent_ret]. Qed.
Hint Resolve silent_of_sum : calm.
Lemma silent_bInt16 n : silent (bInt16 n).
Proof. apply silent_append. Qed.
Lemma silent_bInt32 n : silent (bInt32 n).
Proof. apply silent_append. Qed.
Lemma silent_bCString s : silent (bCString s).
Proof. eapply silent_writes, writes_bCString. Qed.
Lemma silent_bByte s : silent (bByte s).
Proof. apply silent_append. Qed.
Lemma silent_bBytes s : silent (bBytes s).
Proof. apply silent_append. Qed.
Lemma silent_bString s : silent (bString s).
Proof. apply silent_append. Qed.
Lemma silent_message t m : silent m → silent (message t m).
Proof. intros Hm. unfold message. auto using silent_bind, silent_Begin, silent_Finish. Qed.
Hint Resolve silent_bInt16 silent_bInt32 silent_bCString silent_bByte silent_bBytes silent_bString silent_message : calm.

Lemma silent_write_value oids i a : silent (write_value oids i a).
Proof.
  assert (silent (appendParamText a)) as Ht by (unfold appendParamText; calm_tac).
  assert (silent (appendParamBinary (oid_at oids i) a)) as Hb by (unfold appendParamBinary; calm_tac).
  unfold write_value. destruct a; cbv zeta; try apply silent_bInt32; by destruct (paramBinary _ _).
Qed.
Lemma silent_each f i l : (∀ i a, silent (f i a)) → silent (each f i l).
Proof. intros Hf. revert i. induction l; intros i; cbn [each]; auto using silent_ret, silent_bind. Qed.
Lemma silent_bindParams oids args : silent (writeBindParams oids args).
Proof.
  unfold writeBindParams. destruct args; [auto with calm|].
  repeat (apply silent_bind; intros; [auto with calm; apply silent_each; intros; case_match; auto with calm|]).
  apply silent_each, silent_write_value.
Qed.
Lemma silent_bindMessages st args : silent (bindMessages st args).
Proof.
  unfold bindMessages. apply silent_bind; [apply silent_message|]; intros.
  - repeat (apply silent_bind; intros; [auto using silent_bindParams with calm|]).
    unfold resultFormats. destruct (allBinary _); auto 10 with calm.
  - unfold executeMessage, syncMessage. auto with calm.
Qed.
Lemma bindExecute_calm mode r args : calm mu (bindExecute (W := W) mode r args).
Proof.
  unfold bindExecute. apply calm_bind; [auto with calm|]. intros st.
  apply calm_bind; [apply cl_calm, silent_calm, silent_bindMessages|]. intros _.
  apply loop_query_calm, execute_step_calm.
Qed.

Lemma prepareAndDescribe_calm sql : calm left_in (prepareAndDescribe sql).
Proof.
  unfold prepareAndDescribe, next_name, take_pending. apply calm_bind.
  { intros c. unfold left_in. by destruct (nextName (stmts c)). }
  intros name. apply calm_bind; [intros c; unfold left_in; by destruct (takePendingClose (stmts c))|].
  intros dead. apply calm_bind.
  { apply silent_calm. unfold closeMessages, parseMessages, syncMessage. auto 10 with calm. }
  intros _. apply for_messages_calm. intros a t b. unfold describe_step.
  repeat case_match; auto with calm.
  all: apply calm_bind; intros; auto with calm.
  case_match. apply calm_bind; intros; auto with calm. intros c. unfold left_in, new_stmt. by destruct (alloc _ _).
Qed.

Lemma obtain_calm sql : calm mu (obtain (W := W) sql).
Proof.
  unfold obtain. apply calm_bind; [apply cl_calm, calm_gets|]. intros [r|]; [apply calm_ret|].
  apply calm_bind; [apply calm_catch, cl_calm, prepareAndDescribe_calm|]. intros [e|r]; apply calm_bind; intros;
    auto with calm; apply cl_calm; by apply calm_modify.
Qed.

Lemma cached_loop_calm n : ∀ first mode sql args, calm mu (cached_loop (W := W) n first mode sql args).
Proof.
  induction n as [|n IH]; intros first mode sql args; cbn [cached_loop]; [apply calm_ret|].
  apply calm_bind; [apply obtain_calm|]. intros [r b]. cbn [fst snd].
  apply calm_bind; [apply calm_catch, bindExecute_calm|]. intros [e|]; [|apply calm_ret].
  apply calm_bind; [apply calm_gets|]. intros out. destruct (_ && _); [|apply calm_throw].
  apply calm_bind; [by apply cl_calm, calm_modify|]. intros _. apply calm_bind; [by apply ow_calm|]. intros _. apply IH.
Qed.

Lemma run_once_calm mode sql args : calm mu (run_once (W := W) mode sql args).
Proof.
  unfold run_once. apply calm_bind; [apply calm_gets|]. intros c. destruct (_ && _); [|apply cached_loop_calm].
  unfold runSimple, consumeText. apply calm_bind; [apply cl_calm, silent_calm; auto 10 with calm|]. intros _.
  apply loop_query_calm, text_step_calm.
Qed.

Lemma retry_loop_calm n : ∀ k ctx mode sql args, calm mu (retry_loop (W := W) n k ctx mode sql args).
Proof.
  induction n as [|n IH]; intros k ctx mode sql args; cbn [retry_loop]; [apply calm_ret|].
  apply calm_bind; [apply calm_catch, run_once_calm|]. intros [e|]; [|apply calm_ret].
  apply calm_bind; [apply calm_ask|]. intros s. repeat (case_match; auto with calm).
  all: apply calm_bind; [by apply ow_calm|]; intros _; apply calm_bind; [by apply cl_calm, calm_modify|]; intros _;
    first [apply IH | apply calm_throw].
Qed.

Lemma with_record_calm sql dur m : calm mu m → calm mu (with_record (W := W) sql dur m).
Proof.
  intros Hm s. unfold with_record. destruct (Hm s) as [H1 H2]. destruct (m s) as [r s1]. cbn [fst snd] in *.
  set (err := match r with Err e => Some e | _ => None end).
  pose proof (recordEnd_calm sql (lastRows s1.1) (BytesOut s1.2) dur err s1.1) as [_ H3].
  unfold cl, zoom. destruct (recordEnd sql _ _ dur err s1.1) as [r2 c2]. unfold mu in *. cbn [fst snd] in *. split; [done|lia].
Qed.

(** Every query terminates: whatever bytes the server sends, whatever the
    writer, the mode, the arguments and the context, the describe loop, the
    execution loop, the drain and the retries all finish (with a result, an
    error or a Go panic), having read no more than there was to read.  Answers
    says that it also waits for nothing it is not owed. *)
Theorem runQueryInner_terminates (ctx : context) (dur : Z) (mode : Mode) (sql : bytes) (args : list goarg) (s : Client * W) :
  fst (runQueryInner ctx dur mode sql args s) ≠ Stuck ∧
  (length (inbound (conn (fst (snd (runQueryInner ctx dur mode sql args s))))) <= length (inbound (conn (fst s))))%nat.
Proof.
  assert (calm mu (runQueryInner (W := W) ctx dur mode sql args)) as Hc; [|exact (Hc s)].
  unfold runQueryInner. apply calm_bind; [by apply cl_calm, calm_modify|]. intros _. apply with_record_calm.
  apply calm_bind; [apply cl_calm, attachContext_calm|]. intros _. apply retry_loop_calm.
Qed.
End Total.

(** ** Retries *)

Section Retry.
Context {W : Type} {OW : OutWriter W} {OL : OutWriterLaws W} {MO : MapOrder} {h : bool}.
Abbreviation query := (prog (Client * W)).

(** The writer is sound after [m], unless [m] failed with its error. *)
Definition sound_after {A} (r : res A) (w : W) : Prop :=
  match r with Ret _ => writer_ok h w | Err e => as_pg e = None ∨ writer_ok h w | _ => True end.
Definition sound {A} (m : query A) : Prop :=
  triple (λ s, writer_ok h (snd s)) m (λ r s, sound_after r (snd s)).

(** [m] does not touch the writer. *)
Definition same_writer (s s' : Client * W) : Prop := snd s = snd s'.
#[local] Instance same_writer_pre : PreOrder same_writer.
Proof. split; [done|]. intros x y z. unfold same_writer. congruence. Qed.

Lemma keeps_sound {A} (m : query A) : stable same_writer m → sound m.
Proof.
  intros Hm s Hs. specialize (Hm s). unfold same_writer in Hm. destruct (m s) as [[a|e| |] s']; cbn in *; rewrite <- ?Hm; auto.
Qed.
Lemma cl_keeps {A} (m : client A) : stable same_writer (cl m).
Proof. intros s. unfold cl, zoom, same_writer. by destruct (m (fst s)). Qed.
Lemma sound_bind {A B} (m : query A) (f : A → query B) : sound m → (∀ a, sound (f a)) → sound (m ≫= f).
Proof.
  intros Hm Hf. eapply (triple_bind _ m f); [exact Hm| |done|done|done]. intros a s Hs. by apply Hf.
Qed.
Lemma sound_ret {A} (a : A) : sound (mret a).
Proof. by apply keeps_sound, stable_ret, _. Qed.
Lemma sound_throw {A} e : sound (throw (A := A) e).
Proof. by apply keeps_sound, stable_throw, _. Qed.
Lemma sound_of_sum {A} (r : gerror + A) : sound (of_sum r).
Proof. by apply keeps_sound, stable_of_sum, _. Qed.
Lemma sound_ask : sound ask.
Proof. by apply keeps_sound, stable_ask, _. Qed.
Lemma sound_panic {A} : sound (panic (A := A)).
Proof. by apply keeps_sound, stable_panic, _. Qed.
Lemma sound_cl {A} (m : client A) : sound (cl m).
Proof. apply keeps_sound, cl_keeps. Qed.

Lemma sound_puts {A} p (a : A) m : puts (h := h) p a m → sound m.
Proof.
  intros Hm [c w] Hw. destruct (Hm c w Hw) as [(w' & -> & Hw' & _)|(_ & e & w' & k & -> & He & _)]; [done|by left].
Qed.

Lemma sound_header mode p : sound (ow (writeHeader mode p)).
Proof.
  destruct p as [p|]; [apply (sound_puts (opening mode p) tt), puts_header|].
  destruct mode; cbn [writeHeader]; try apply (sound_puts _ _ _ (puts_WriteByte _));
    apply keeps_sound; intros s; done.
Qed.
Lemma sound_row mode p b i : sound (ow (writeRow mode p b i)).
Proof.
  intros [c w] Hw. unfold ow, zoom. cbn [fst snd] in *. unfold writeRow. destruct p as [p|]; [|done].
  unfold mbind, prog_bind, gets. cbv beta zeta iota. destruct (row_bytes mode p b i (Buf w)) as [s [e|]]; [by right|].
  set (n := Zlen s - Zlen (Buf w)). unfold modify.
  assert (writer_ok h (if i =? 0 then GrowForRow n (SetBuf s w) else SetBuf s w)) as Hw1.
  { pose proof (proj2 (proj2 (proj2 (buf_set h s w))) Hw) as H1.
    destruct (i =? 0); [|done]. by apply (grow_spec h n (SetBuf s w)). }
  set (w1 := if i =? 0 then _ else _) in *.
  assert ((if i =? 0 then λ s0 : W, (Ret (), GrowForRow n s0) else mret ()) (SetBuf s w) = (Ret tt, w1)) as ->
    by (unfold w1; by destruct (i =? 0)).
  cbv iota. destruct (maybe_spec h w1 Hw1) as [(w' & -> & Hw' & _)|(_ & e & w' & k & -> & He & _)]; [done|by left].
Qed.

Lemma drain_keeps : stable same_writer (drain (W := W)).
Proof.
  intros s. unfold drain. apply (read_loop_stable _ _ _ same_writer); [apply cl_keeps| |intros; apply stable_ret, _].
  intros a t b. unfold drain_step. repeat (case_match; try apply stable_ret, _).
  all: apply stable_bind; [apply _|apply cl_keeps|intros; apply stable_ret, _].
Qed.
Lemma sound_abort {A} e : sound (abortOversize (A := A) e).
Proof.
  apply keeps_sound. unfold abortOversize. apply stable_bind; [apply _|apply stable_catch, cl_keeps|].
  intros _. apply stable_bind; [apply _|apply drain_keeps|]. intros _. apply stable_throw, _.
Qed.

Lemma sound_data_row mode p a b : sound (data_row_case mode p a b).
Proof.
  unfold data_row_case. apply sound_bind; [destruct (headerWritten a); [apply sound_ret|apply sound_header]|]. intros _.
  apply sound_bind; [apply sound_row|]. intros _. cbv zeta. apply sound_bind; [apply sound_ask|]. intros s.
  destruct (checkCaps _ s); [|apply sound_ret]. apply sound_bind; [apply sound_cl|]. intros _. apply sound_abort.
Qed.
Lemma sound_ready mode p a : sound (ready_case mode p a).
Proof.
  unfold ready_case. apply sound_bind; [apply sound_cl|]. intros _. destruct (r_err a); [apply sound_throw|].
  apply sound_bind; [destruct (headerWritten a); [apply sound_ret|apply sound_header]|]. intros _.
  apply sound_bind; [apply (sound_puts (closing mode) tt), puts_footer|]. intros _.
  apply sound_bind; [apply (sound_puts [] tt), puts_flush, (flush_spec h)|]. intros _. apply sound_ret.
Qed.

Lemma sound_loop {A R} (stp : A → byte → bytes → query (A + R)) a :
  (∀ a t b, sound (stp a t b)) → sound (loop_query stp a).
Proof.
  intros Hs s Hw. unfold loop_query.
  destruct (read_loop_inv (cl (wire ReadMessage)) stp (λ _ e, throw e) (λ _ s, writer_ok h (snd s))
    (λ r s, sound_after r (snd s))) with (fuel := rounds (fst s)) (a := a) (s := s) as [E|E]; [|done| |exact E].
  - clear - Hs. intros a s Hw. unfold cl, zoom. destruct (wire ReadMessage (fst s)) as [[[t b]|e| |] c']; cbn; try tauto.
    specialize (Hs a t b (c', snd s) Hw). by destruct (stp a t b (c', snd s)) as [[[]| | |] s'].
  - by rewrite E.
Qed.

Create HintDb sound.
#[local] Hint Resolve sound_ret sound_throw sound_of_sum sound_cl sound_data_row sound_ready sound_panic : sound.

Lemma sound_execute mode r args : sound (bindExecute mode r args).
Proof.
  unfold bindExecute. apply sound_bind; [apply sound_cl|]. intros st. apply sound_bind; [apply sound_cl|]. intros _.
  apply sound_loop. intros a t b. unfold execute_step.
  repeat (case_match; auto with sound); repeat (apply sound_bind; intros; auto with sound); apply sound_ret.
Qed.
Lemma sound_simple mode sql : sound (runSimple mode sql).
Proof.
  unfold runSimple, consumeText. apply sound_bind; [apply sound_cl|]. intros _. apply sound_loop. intros [p a] t b.
  unfold text_step. repeat (case_match; auto with sound); repeat (apply sound_bind; intros; auto with sound);
    apply sound_ret.
Qed.

(** One execution of a query, which retries nothing. *)
Definition simply (c : Client) (args : list goarg) : bool := (StmtCacheSize (cfg c) <? 0) && bool_decide (args = []).
Definition execution (mode : Mode) (sql : bytes) (args : list goarg) : query unit :=
  c ← gets fst;
  if simply c args then runSimple mode sql else rc ← obtain sql; bindExecute mode (fst rc) args.

(** The writer holds nothing and has delivered nothing. *)
Definition clean (s : Client * W) : Prop := writer_ok h (snd s) ∧ output (snd s) = [].

(** Going on after a failed execution: it was a stale statement, now dropped, or
    a serialization failure the configuration says to retry; nothing of it has
    reached the caller, and nothing of it is left to. *)
Inductive resumes (sql : bytes) (e : gerror) (s : Client * W) : Client * W → Prop :=
| resumes_stale w : isStaleStmtError e = true → delivered (snd s) = [] →
    clean (set_stmts (invalidate sql (stmts (fst s))) (fst s), w) →
    resumes sql e s (set_stmts (invalidate sql (stmts (fst s))) (fst s), w)
| resumes_serial w : isRetryableSerialization e = true → RetryOnSerialization (cfg (fst s)) = true → delivered (snd s) = [] →
    clean (set_lastRetries (lastRetries (fst s) + 1) (fst s), w) →
    resumes sql e s (set_lastRetries (lastRetries (fst s) + 1) (fst s), w).

(** Executions one after the other, each from a clean writer and from the client
    the failed one before it left; the last one's outcome is the outcome. *)
Inductive tried (mode : Mode) (sql : bytes) (args : list goarg) : Client * W → res unit → Client * W → Prop :=
| tried_last s r s' : clean s → execution mode sql args s = (r, s') → tried mode sql args s r s'
| tried_again s e s1 s2 r s' : clean s → execution mode sql args s = (Err e, s1) → resumes sql e s1 s2 →
    tried mode sql args s2 r s' → tried mode sql args s r s'.

(** And then, perhaps, the context ended before the next one. *)
Definition outcome mode sql args (s : Client * W) (r : res unit) (s' : Client * W) : Prop :=
  tried mode sql args s r s' ∨ ∃ e s1, r = Err e ∧ tried mode sql args s (Err e) s1 ∧ resumes sql e s1 s'.

Lemma tried_app mode sql args s e s1 s2 r s' : tried mode sql args s (Err e) s1 → resumes sql e s1 s2 →
  tried mode sql args s2 r s' → tried mode sql args s r s'.
Proof.
  intros H. remember (Err e : res unit) as x eqn:Ex. induction H as [s x s1 Hc E|s e' s3 s4 x s1 Hc E Hr _ IH]; intros H1 H2; subst x.
  - by eapply tried_again.
  - eapply tried_again; [done..|]. by apply IH.
Qed.
Lemma outcome_app mode sql args s e s1 s2 r s' : tried mode sql args s (Err e) s1 → resumes sql e s1 s2 →
  outcome mode sql args s2 r s' → outcome mode sql args s r s'.
Proof.
  intros H1 H2 [H|(e' & s3 & -> & H & Hr)]; [left; by eapply tried_app|].
  right. exists e', s3. split; [done|]. split; [by eapply tried_app|done].
Qed.

(** What [catch]-ing an attempt leaves the retry with. *)
Lemma reset_clean e w : sound_after (Err e : res unit) w → as_pg e ≠ None → Committed w = false →
  delivered w = [] ∧ writer_ok h (Reset w) ∧ output (Reset w) = [].
Proof.
  intros [He|Hw] Hpg Hc; [done|]. destruct (reset_spec h w Hc) as (B & D & _ & Hr). pose proof (committed_spec h w Hw Hc) as Hd.
  split; [done|]. split; [auto|]. unfold output. by rewrite B, D, Hd.
Qed.

Lemma stale_pg e : isStaleStmtError e = true → as_pg e ≠ None.
Proof. by destruct e. Qed.
Lemma retryable_pg e : isRetryableSerialization e = true → as_pg e ≠ None.
Proof. by destruct e. Qed.

Lemma obtain_keeps sql : stable same_writer (obtain (W := W) sql).
Proof.
  unfold obtain. repeat (apply stable_bind; [apply _|first [apply cl_keeps | apply stable_catch, cl_keeps]|]; intros).
  case_match; [apply stable_ret, _|].
  apply stable_bind; [apply _|apply stable_catch, cl_keeps|]. intros [e|r];
    (apply stable_bind; [apply _|apply cl_keeps|]; intros); [apply stable_throw, _|apply stable_ret, _].
Qed.

(** The configuration never changes. *)
Definition same_cfg (c c' : Client) : Prop := cfg c' = cfg c.
#[local] Instance same_cfg_pre : PreOrder same_cfg.
Proof. split; [done|]. intros x y z. unfold same_cfg. congruence. Qed.
#[local] Instance same_cfg_footprint : Footprint same_cfg.
Proof. split; [apply _|done..]. Qed.

(** The judgement of a retry loop's outcome. *)
Definition judged mode sql args (s : Client * W) (r : res unit) (s' : Client * W) : Prop :=
  tried mode sql args s r s' ∧ sound_after r (snd s').

Lemma bind_case {A B} (P : res B → Client * W → Prop) (m : query A) f s :
  match m s with
  | (Ret a, s1) => P (fst (f a s1)) (snd (f a s1))
  | (Err e, s1) => P (Err e) s1
  | (Panic, s1) => P Panic s1
  | (Stuck, s1) => P Stuck s1
  end → P (fst ((m ≫= f) s)) (snd ((m ≫= f) s)).
Proof. unfold mbind, prog_bind. by destruct (m s) as [[] s1]. Qed.

Lemma sound_obtain sql : sound (obtain sql).
Proof. apply keeps_sound, obtain_keeps. Qed.
Lemma sound_execution mode sql args : sound (execution mode sql args).
Proof.
  unfold execution. apply sound_bind; [apply keeps_sound, stable_gets, _|]. intros c. destruct (simply c args); [apply sound_simple|].
  apply sound_bind; [apply sound_obtain|]. intros rc. apply sound_execute.
Qed.

(** An execution from a clean state, as it finishes. *)
Lemma judged_last mode sql args r (s s' : Client * W) : clean s → execution mode sql args s = (r, s') → judged mode sql args s r s'.
Proof.
  intros Hc E. split; [by apply tried_last|]. pose proof (sound_execution mode sql args s (proj1 Hc)) as Hs. by rewrite E in Hs.
Qed.

Lemma cached_loop_S n first mode sql args : cached_loop (W := W) (S n) first mode sql args =
  (rc ← obtain sql;
   x ← catch (bindExecute mode (fst rc) args);
   match x with
   | inr _ => mret tt
   | inl e =>
       out ← gets snd;
       if first && (snd rc : bool) && isStaleStmtError e && negb (Committed out) then
         _ ← cl (cache_invalidate sql); _ ← ow (modify Reset); cached_loop n false mode sql args
       else throw e
   end).
Proof. done. Qed.

Lemma execution_prepared mode sql args s : simply (fst s) args = false →
  execution mode sql args s = (rc ← obtain sql; bindExecute mode (fst rc) args) s.
Proof. intros H. unfold execution. step (eq_refl : gets fst s = (Ret (fst s), s)). by rewrite H. Qed.

(** What a prepared execution comes from, and that it keeps the configuration. *)
Lemma execution_bind mode sql args s r fc s1 x s2 : simply (fst s) args = false → obtain sql s = (Ret (r, fc), s1) →
  bindExecute mode r args s1 = (x, s2) → execution mode sql args s = (x, s2) ∧ cfg (fst s2) = cfg (fst s).
Proof.
  intros Hs Eo Eb. split; [rewrite execution_prepared by done; by step Eo|].
  pose proof (b_obtain same_cfg sql s) as H1. pose proof (b_bindExecute same_cfg mode r args s1) as H2.
  rewrite Eo in H1. rewrite Eb in H2. unfold beside, same_cfg in *. cbn [fst snd] in *. congruence.
Qed.

Lemma cached_clean n : ∀ first mode sql args s, (first = true → (0 < n)%nat) → clean s → simply (fst s) args = false →
  judged mode sql args s (fst (cached_loop (S n) first mode sql args s)) (snd (cached_loop (S n) first mode sql args s)).
Proof.
  induction n as [|n IH]; intros first mode sql args s Hn Hc Hs; rewrite cached_loop_S.
  all: destruct (obtain sql s) as [[[r fc]|e| |] s1] eqn:Eo;
    [|rewrite (bind_Err _ _ _ _ _ Eo); apply judged_last; [done|]; rewrite execution_prepared by done; by apply bind_Err
     |unfold mbind, prog_bind; rewrite Eo; apply judged_last; [done|]; rewrite execution_prepared by done; unfold mbind, prog_bind; by rewrite Eo..].
  all: step Eo; cbn [fst snd]; apply bind_case; unfold catch; destruct (bindExecute mode r args s1) as [x s2] eqn:Eb;
    destruct (execution_bind mode sql args s r fc s1 x s2 Hs Eo Eb) as [E Hcf]; pose proof (judged_last _ _ _ _ _ _ Hc E) as Hj;
    destruct x as [[]|e| |]; cbn [fst snd]; try exact Hj.
  all: apply bind_case; cbn [gets fst snd]; destruct first; cbn [andb]; [|exact Hj].
  - by specialize (Hn eq_refl); lia.
  - destruct (fc && isStaleStmtError e && negb (Committed (snd s2))) eqn:Er; [|exact Hj].
    apply andb_prop in Er as [Er Hcm]. apply andb_prop in Er as [_ Hst]. apply negb_true_iff in Hcm.
    do 2 (apply bind_case; cbn [cl ow zoom cache_invalidate modify fst snd]).
    destruct Hj as [_ Hsa]. destruct (reset_clean e _ Hsa (stale_pg e Hst) Hcm) as (Hd & Hw & Ho).
    destruct (IH false mode sql args (set_stmts (invalidate sql (stmts (fst s2))) (fst s2), Reset (snd s2))) as [Ht Hl]; [done|by split| |].
    { unfold simply in *. cbn [fst cfg set_stmts]. by rewrite Hcf. }
    split; [|exact Hl]. eapply tried_again; [exact Hc|exact E| |exact Ht]. by apply resumes_stale.
Qed.

Lemma run_once_clean mode sql args s : clean s →
  judged mode sql args s (fst (run_once mode sql args s)) (snd (run_once mode sql args s)).
Proof.
  intros Hc. unfold run_once. apply bind_case. cbn [gets]. fold (simply (fst s) args). destruct (simply (fst s) args) eqn:Es.
  - destruct (runSimple mode sql s) as [r s'] eqn:E. apply judged_last; [done|]. unfold execution.
    step (eq_refl : gets fst s = (Ret (fst s), s)). by rewrite Es.
  - apply cached_clean; [lia|done|done].
Qed.

Lemma retry_loop_S n k ctx mode sql args : retry_loop (W := W) (S n) k ctx mode sql args =
  (x ← catch (run_once mode sql args);
   match x with
   | inr _ => mret tt
   | inl e =>
       s ← ask;
       if negb (RetryOnSerialization (cfg (fst s))) then throw e
       else if bool_decide (n = O) || negb (isRetryableSerialization e) || Committed (snd s) then throw e
       else match ctx_err ctx k with
            | Some _ => throw e
            | None =>
                _ ← ow (modify Reset);
                _ ← cl (modify (λ c, set_lastRetries (lastRetries c + 1) c));
                match ctx_err ctx (S k) with
                | Some _ => throw e
                | None => retry_loop n (S (S k)) ctx mode sql args
                end
            end
   end).
Proof. done. Qed.

Lemma retry_clean_loop n : ∀ k ctx mode sql args s, clean s →
  outcome mode sql args s (fst (retry_loop (S n) k ctx mode sql args s)) (snd (retry_loop (S n) k ctx mode sql args s)).
Proof.
  induction n as [|n IH]; intros k ctx mode sql args s Hc; rewrite retry_loop_S.
  all: apply bind_case; unfold catch; pose proof (run_once_clean mode sql args s Hc) as Hj;
    destruct (run_once mode sql args s) as [[[]|e| |] s2]; cbn [fst snd] in *; try (left; apply Hj).
  all: apply bind_case; cbn [ask]; destruct (negb (RetryOnSerialization _)) eqn:Ey; [left; apply Hj|]; cbn [bool_decide decide].
  - left. apply Hj.
  - apply negb_false_iff in Ey.
    destruct (bool_decide (S n = 0%nat) || negb (isRetryableSerialization e) || Committed (snd s2)) eqn:Er; [left; apply Hj|].
    apply orb_false_iff in Er as [Er Hcm]. apply orb_false_iff in Er as [_ Hrt]. apply negb_false_iff in Hrt.
    destruct (ctx_err ctx k); [left; apply Hj|].
    do 2 (apply bind_case; cbn [cl ow zoom modify fst snd]).
    destruct Hj as [Ht Hs]. destruct (reset_clean e _ Hs (retryable_pg e Hrt) Hcm) as (Hd & Hw & Ho).
    assert (resumes sql e s2 (set_lastRetries (lastRetries (fst s2) + 1) (fst s2), Reset (snd s2))) as Hr by (by apply resumes_serial).
    destruct (ctx_err ctx (S k)); [|eapply outcome_app; [exact Ht|exact Hr|]; apply IH; by split].
    right. by exists e, s2.
Qed.

(** C4. Retrying a query (after a serialization failure, or after a cached
    statement went stale) never mixes attempts: whatever the server sends, what
    the caller gets is the outcome of executions run one after the other, each
    from a writer that holds nothing and has delivered nothing and from the client
    the failed one before it left, on the messages that follow; the last one's
    output is the whole output, every one before it had delivered nothing, and
    the only other outcomes are a context that ended before the first or
    between two of them, with nothing delivered. *)
Theorem retries_never_mix (ctx : context) (dur : Z) (mode : Mode) (sql : bytes) (args : list goarg) (c c' : Client) (w w' : W) (r : res unit)
  (Hw : writer_ok h w) (Hempty : output w = []) (Hrun : runQueryInner ctx dur mode sql args (c, w) = (r, (c', w'))) :
  (∃ e, ctx_err ctx 0 = Some e ∧ r = Err e ∧ w' = w) ∨
  (ctx_err ctx 0 = None ∧ ∃ c1, outcome mode sql args (observe (OnQueryStart sql) c, w) r (c1, w') ∧
     conn c' = conn c1 ∧ stmts c' = stmts c1).
Proof.
  unfold runQueryInner in Hrun. rewrite (bind_Ret _ _ _ tt (observe (OnQueryStart sql) c, w)) in Hrun by done.
  unfold with_record in Hrun. set (s := (observe (OnQueryStart sql) c, w)) in *.
  assert (∀ n nb e k, conn (snd (recordEnd sql n nb dur e k)) = conn k ∧ stmts (snd (recordEnd sql n nb dur e k)) = stmts k) as Hre.
  { intros n nb e k. unfold recordEnd, modify. cbn [snd]. by destruct (_ && _), e. }
  destruct (ctx_err ctx 0) as [e|] eqn:Ectx.
  - left. exists e. split; [done|]. rewrite (bind_Err _ _ s e s) in Hrun by (unfold cl, zoom, attachContext; by rewrite Ectx).
    unfold cl, zoom in Hrun. cbn [fst snd s] in Hrun. destruct (recordEnd _ _ _ _ _ _). by simplify_eq.
  - right. split; [done|]. rewrite (bind_Ret _ _ s tt s) in Hrun by (unfold cl, zoom, attachContext; by rewrite Ectx).
    pose proof (retry_clean_loop 2 1 ctx mode sql args s (conj Hw Hempty)) as Ho. unfold maxRetries in Hrun.
    destruct (retry_loop 3 1 ctx mode sql args s) as [r1 [c1 w1]]. cbn [fst snd] in *. unfold cl, zoom in Hrun. cbn [fst snd] in Hrun.
    set (er := match r1 with Err e => Some e | _ => None end) in *. pose proof (Hre (lastRows c1) (BytesOut w1) er c1) as [H1 H2].
    destruct (recordEnd sql (lastRows c1) (BytesOut w1) dur er c1) as [x c2]. cbn [snd] in *. simplify_eq. by exists c1.
Qed.
End Retry.

(** *** A serialization failure after a row: the row is dropped, the query runs
    again, and the document is the second execution's *)

Definition retrying_config : Config :=
  mkConfig [] 0 [] (str "me") [] [] 0 0 [] SSLDisable (-1) None 0 0 0 true 0 0 0 0 0 0 [] 0 false.
Definition one_column : bytes := row_description [Build_field_desc (str "a") 0 0 OIDInt4 4 0 0].
Definition serialization_failure : bytes := str "SERROR" ++ x00 :: "C"%byte :: str "40001" ++ [x00; x00].
Definition one_result (last : byte * bytes) : bytes :=
  wire_of [(MsgRowDescription, one_column); (MsgDataRow, data_row [Some (str "1")]); last] ++ frame MsgReadyForQuery (str "I").
Definition retry_inbound : bytes :=
  one_result (MsgErrorResponse, serialization_failure) ++ one_result (MsgCommandComplete, str "SELECT 1" ++ [x00]).
Definition retry_client : Client := newClient retrying_config (New retry_inbound None).
Definition no_context : context := {| ctx_err := λ _, None; ctx_deadline := false |}.
Definition retry_run := runQueryInner (W := bufWriter) no_context 0 ModeArray (str "q") [] (retry_client, demo_buffer).
Definition retry_document : bytes := str "[{" ++ dquote :: str "a" ++ dquote :: str ":1}]".

Lemma retries_never_mix_witness : fst retry_run = Ret tt ∧ output (snd (snd retry_run)) = retry_document ∧
  ((∃ e, ctx_err no_context 0 = Some e ∧ fst retry_run = Err e ∧ snd (snd retry_run) = demo_buffer) ∨
   (ctx_err no_context 0 = None ∧ ∃ c1,
      outcome (h := true) ModeArray (str "q") [] (observe (OnQueryStart (str "q")) retry_client, demo_buffer) (fst retry_run) (c1, snd (snd retry_run)) ∧
      conn (fst (snd retry_run)) = conn c1 ∧ stmts (fst (snd retry_run)) = stmts c1)).
Proof.
  split; [vm_compute; reflexivity|]. split; [vm_compute; reflexivity|].
  apply (retries_never_mix (h := true) no_context 0 ModeArray (str "q") [] retry_client (fst (snd retry_run)) demo_buffer (snd (snd retry_run)) (fst retry_run)).
  - exact I.
  - reflexivity.
  - unfold retry_run. by destruct (runQueryInner _ _ _ _ _ _) as [? [? ?]].
Defined.
