(* ===== verification/QueryFaults.v ===== *)
(** What holds on any input at all: the meaning of a success whatever the
    server sends; and the failures that leave a mark on the connection for
    whoever uses it next. *)
From S2P Require Import Prelude Protocol JsonWriter Errors Effects Wire Rows Args StmtCache Stream Client Query.
From S2P Require Import QuerySpec QueryResult QueryLife.

(** ** Success *)

Definition is_row (m : byte * bytes) : bool := beq m.1 MsgDataRow.
Definition count_rows (msgs : list (byte * bytes)) : Z := Zlen (List.filter is_row msgs).

(** A flush that succeeded was the last thing done to the writer. *)
Definition just_flushed {W} `{OutWriter W} (w' : W) : Prop := ∃ w, FlushOut w = (Ret tt, w').

(** Below the row cap, when there is one. *)
Definition below_cap (c : Client) (n : Z) : Prop := 0 < MaxResponseRows (cfg c) → n < MaxResponseRows (cfg c).

Section Success.
Context {W : Type} {OW : OutWriter W} {MO : MapOrder}.

Lemma cl_inv {A} (m : client A) c (w : W) a s : cl m (c, w) = (Ret a, s) → ∃ c', m c = (Ret a, c') ∧ s = (c', w).
Proof. unfold cl, zoom. cbn [fst snd]. destruct (m c) as [r c']. intros [= -> <-]. by exists c'. Qed.
Lemma ow_inv {A} (m : prog W A) c w a s : ow m (c, w) = (Ret a, s) → ∃ w', m w = (Ret a, w') ∧ s = (c, w').
Proof. unfold ow, zoom. cbn [fst snd]. destruct (m w) as [r w']. intros [= -> <-]. by exists w'. Qed.

Lemma header_inv (a : running) mode p c (w : W) u s :
  (if headerWritten a then mret tt else ow (writeHeader mode p)) (c, w) = (Ret u, s) → ∃ w', s = (c, w').
Proof.
  destruct (headerWritten a); intros E; [injection E as _ <-; by exists w|]. apply ow_inv in E as (w' & _ & ->). by exists w'.
Qed.

Lemma abort_never {A} e s (a : A) s' : abortOversize (W := W) e s ≠ (Ret a, s').
Proof.
  intros E. unfold abortOversize in E. apply bind_inv in E as (? & ? & _ & E). apply bind_inv in E as (? & ? & _ & E). done.
Qed.

Lemma data_row_Ret mode p a b c (w : W) x c' w' : data_row_case mode p a b (c, w) = (Ret x, (c', w')) →
  c' = c ∧ x = inl (mkRun (rowCount a + 1) true (r_err a)) ∧ below_cap c (rowCount a + 1).
Proof.
  intros E. unfold data_row_case in E. apply bind_inv in E as (u & s1 & E1 & E). apply header_inv in E1 as (w1 & ->).
  apply bind_inv in E as (u2 & s2 & E2 & E). apply ow_inv in E2 as (w2 & _ & ->).
  apply bind_inv in E as (s3 & s4 & [= <- <-] & E).
  destruct (checkCaps (rowCount a + 1) (c, w2)) as [ce|] eqn:Ec.
  - apply bind_inv in E as (? & ? & _ & E). by apply abort_never in E.
  - unfold again, mret, prog_ret in E. simplify_eq. split; [done|]. split; [done|].
    intros Hpos. unfold checkCaps in Ec. destruct (Z.ltb_spec 0 (MaxResponseRows (cfg c'))); [|lia].
    destruct (Z.leb_spec (MaxResponseRows (cfg c')) (rowCount a + 1)); [done|lia].
Qed.

Lemma ready_Ret mode p a c (w : W) x c' w' : ready_case mode p a (c, w) = (Ret x, (c', w')) →
  x = inr tt ∧ r_err a = None ∧ c' = set_lastRows (rowCount a) c ∧ just_flushed w'.
Proof.
  intros E. unfold ready_case in E. apply bind_inv in E as (u & s1 & E1 & E). apply cl_inv in E1 as (c1 & [= _ <-] & ->).
  destruct (r_err a); [done|]. apply bind_inv in E as (u2 & s2 & E2 & E). apply header_inv in E2 as (w2 & ->).
  apply bind_inv in E as (u3 & s3 & E3 & E). apply ow_inv in E3 as (w3 & _ & ->).
  apply bind_inv in E as (u4 & s4 & E4 & E). apply ow_inv in E4 as (w4 & Ef & ->).
  unfold leave, mret, prog_ret in E. simplify_eq. destruct u4. by repeat split; exists w3.
Qed.

(** What one round of the execution loop can do when it does not fail. *)
Definition round_ok (a : running) (t : byte) (c c' : Client) (w' : W) (x : running + unit) : Prop :=
  inbound (conn c') = inbound (conn c) ∧ cfg c' = cfg c ∧
  match x with
  | inl a' =>
      t ≠ MsgReadyForQuery ∧ rowCount a' = rowCount a + (if beq t MsgDataRow then 1 else 0) ∧
      (below_cap c (rowCount a) → below_cap c (rowCount a')) ∧
      (r_err a' = None → r_err a = None ∧ t ≠ MsgErrorResponse)
  | inr _ => t = MsgReadyForQuery ∧ r_err a = None ∧ lastRows c' = rowCount a ∧ just_flushed w'
  end.

Lemma execute_step_Ret mode r a t b c (w : W) x c' w' :
  execute_step mode r a t b (c, w) = (Ret x, (c', w')) → round_ok a t c c' w' x.
Proof.
  intros E. unfold execute_step in E.
  assert (∀ c1, inbound (conn c1) = inbound (conn c) → cfg c1 = cfg c → t ≠ MsgReadyForQuery → t ≠ MsgErrorResponse →
    beq t MsgDataRow = false → round_ok a t c c1 w' (inl a)) as Hsame.
  { intros c1 H1 H2 H3 H4 H5. unfold round_ok. rewrite H5, Z.add_0_r. by repeat split. }
  destruct (beq t MsgBindComplete) eqn:E1.
  { apply beq_true in E1 as ->. unfold again, mret, prog_ret in E. simplify_eq. by apply Hsame. }
  destruct (beq t MsgDataRow) eqn:E2.
  { apply bind_inv in E as (st & s1 & El & E). apply cl_inv in El as (c1 & [= <- <-] & ->).
    apply data_row_Ret in E as (-> & -> & Hc). apply beq_true in E2 as ->. repeat split; try done. }
  destruct (_ || _) eqn:E3.
  { unfold again, mret, prog_ret in E. simplify_eq. apply Hsame; try done; intros ->; done. }
  destruct (beq t MsgRowDescription) eqn:E4.
  { apply beq_true in E4 as ->. apply bind_inv in E as (st & s1 & El & E). apply cl_inv in El as (c1 & [= <- <-] & ->).
    apply bind_inv in E as (p & s2 & Ep & E). unfold of_sum in Ep.
    destruct (ParseRowDescriptionForFormats _ _); [done|]. unfold mret, prog_ret in Ep. simplify_eq.
    apply bind_inv in E as (u & s3 & Es & E). apply cl_inv in Es as (c2 & [= _ <-] & ->).
    unfold again, mret, prog_ret in E. simplify_eq. by apply Hsame. }
  destruct (beq t MsgNoticeResponse) eqn:E5.
  { apply beq_true in E5 as ->. apply bind_inv in E as (u & s3 & Es & E). apply cl_inv in Es as (c2 & [= _ <-] & ->).
    unfold again, mret, prog_ret in E. simplify_eq. by apply Hsame. }
  destruct (beq t MsgParameterStatus) eqn:E6.
  { apply beq_true in E6 as ->. apply bind_inv in E as (u & s3 & Es & E). apply cl_inv in Es as (c2 & [= _ <-] & ->).
    unfold again, mret, prog_ret in E. destruct (splitParameter b). simplify_eq. by apply Hsame. }
  destruct (beq t MsgErrorResponse) eqn:E7.
  { apply beq_true in E7 as ->. unfold again, mret, prog_ret in E. simplify_eq. unfold round_ok. cbn. by rewrite Z.add_0_r. }
  destruct (beq t MsgReadyForQuery) eqn:E8; [|done].
  apply bind_inv in E as (st & s1 & El & E). apply cl_inv in El as (c1 & [= <- <-] & ->).
  apply ready_Ret in E as (-> & He & -> & Hf). apply beq_true in E8. by repeat split.
Qed.

Lemma execute_loop_Ret mode r fuel : ∀ a c (w : W) c' w',
  read_loop (cl (wire ReadMessage)) (execute_step mode r) (λ _ e, throw e) fuel a (c, w) = (Ret tt, (c', w')) →
  below_cap c (rowCount a) →
  ∃ msgs z, inbound (conn c) = wire_of msgs ++ frame MsgReadyForQuery z ++ inbound (conn c') ∧
    Forall (λ m, m.1 ≠ MsgReadyForQuery ∧ m.1 ≠ MsgErrorResponse) msgs ∧ r_err a = None ∧
    lastRows c' = rowCount a + count_rows msgs ∧ below_cap c (lastRows c') ∧ just_flushed w'.
Proof.
  induction fuel as [|fuel IH]; intros a c w c' w' E Hcap; [done|]. cbn [read_loop] in E.
  apply bind_inv in E as (m & s1 & Em & E). unfold catch, cl, zoom, wire, zoom in Em. cbn [fst snd] in Em.
  destruct (ReadMessage (conn c)) as [[[t b]|e| |] k] eqn:Er; simplify_eq; try done.
  apply ReadMessage_inv in Er as (Hin & _ & _).
  apply bind_inv in E as (x & [c2 w2] & Es & E). apply execute_step_Ret in Es as (Hi & Hc & Hx). cbn [conn cfg set_conn] in *.
  destruct x as [a'|[]].
  - destruct Hx as (Hz & Hn & Hb & He). apply IH in E as (msgs & z & Hin2 & Hall & Hr & Hl & Hlc & Hf).
    2:{ unfold below_cap in *. rewrite Hc. cbn [cfg set_conn] in *. auto. }
    exists ((t, b) :: msgs), z. destruct (He Hr) as [Hra Ht]. split.
    { unfold wire_of. cbn [map concat]. rewrite Hin, <- app_assoc. f_equal. by rewrite <- Hi. }
    split; [by constructor|]. split; [done|]. split; [|split; [unfold below_cap in *; by rewrite <- Hc|done]].
    rewrite Hl, Hn. unfold count_rows, is_row. cbn [List.filter fst]. destruct (beq t MsgDataRow); rewrite ?Zlen_cons; lia.
  - destruct Hx as (-> & He & Hl & Hf). unfold mret, prog_ret in E. simplify_eq.
    exists [], b. cbn [wire_of map concat app]. rewrite Hin, Hi, Hl. split; [done|]. split; [constructor|].
    split; [done|]. split; [unfold count_rows, Zlen; cbn; lia|by split].
Qed.

(** C5. Whatever the server sends and whatever the writer does, a prepared
    execution that reports success has consumed whole messages up to and
    including a ReadyForQuery, none of them an ErrorResponse; the row count it
    records is the number of DataRow messages; that number is below
    MaxResponseRows when a cap is configured; and the last thing done to the
    writer was a flush that succeeded. *)
Theorem success_means_complete (mode : Mode) (r : nat) (args : list goarg) (c c' : Client) (w w' : W)
  (Hrun : bindExecute mode r args (c, w) = (Ret tt, (c', w'))) :
  ∃ msgs z, inbound (conn c) = wire_of msgs ++ frame MsgReadyForQuery z ++ inbound (conn c') ∧
    Forall (λ m, m.1 ≠ MsgReadyForQuery ∧ m.1 ≠ MsgErrorResponse) msgs ∧
    lastRows c' = count_rows msgs ∧ below_cap c (lastRows c') ∧ just_flushed w'.
Proof.
  unfold bindExecute in Hrun. apply bind_inv in Hrun as (st & s1 & El & E). apply cl_inv in El as (c1 & [= <- <-] & ->).
  apply bind_inv in E as (u & s2 & Eb & E). apply cl_inv in Eb as (c1 & Eb & ->).
  unfold wire, zoom in Eb. pose proof (silent_bindMessages (deref r (stmts c)) args (conn c)) as [_ Hi].
  destruct (bindMessages (deref r (stmts c)) args (conn c)) as [[[]|e| |] k]; simplify_eq. cbn [snd] in Hi.
  unfold loop_query in E. apply execute_loop_Ret in E as (msgs & z & Hin & Hall & _ & Hl & Hb & Hf).
  - exists msgs, z. cbn [conn set_conn] in Hin. by rewrite <- Hi.
  - cbn. unfold below_cap. cbn. lia.
Qed.
End Success.

Definition row_client : Client :=
  strict_client (wire_of [(MsgDataRow, data_row [None])] ++ frame MsgReadyForQuery [] ++ str "x").

Lemma success_means_complete_witness :
  ∃ c' w', bindExecute ModeArray 0 [] (row_client, eager_stream) = (Ret tt, (c', w')) ∧
  ∃ msgs z, inbound (conn row_client) = wire_of msgs ++ frame MsgReadyForQuery z ++ inbound (conn c') ∧
    Forall (λ m, m.1 ≠ MsgReadyForQuery ∧ m.1 ≠ MsgErrorResponse) msgs ∧
    lastRows c' = count_rows msgs ∧ below_cap row_client (lastRows c') ∧ just_flushed w'.
Proof.
  assert (fst (bindExecute ModeArray 0 [] (row_client, eager_stream)) = Ret tt) as Hr by (vm_compute; reflexivity).
  destruct (bindExecute ModeArray 0 [] (row_client, eager_stream)) as [r [c' w']] eqn:E. cbn [fst] in Hr. subst r.
  exists c', w'. split; [reflexivity|]. exact (success_means_complete ModeArray 0 [] row_client c' eager_stream w' E).
Defined.

(** ** Failures that leave a mark *)

Section Marks.
Context {W : Type} {OW : OutWriter W} {OL : OutWriterLaws W} {MO : MapOrder}.

(** A query refused because its context is already done is still reported
    and counted with the rows of the connection's previous query: the event
    and the row counter take [lastRows], which nothing has reset. *)
Theorem refused_query_counts_stale_rows (ctx : context) (dur : Z) (mode : Mode) (sql : bytes) (args : list goarg)
    (c : Client) (w : W) (e : gerror) (Hctx : ctx_err ctx 0 = Some e) :
  ∃ c' ev slow, runQueryInner ctx dur mode sql args (c, w) = (Err e, (c', w)) ∧
    log c' = log c ++ OnQueryStart sql :: OnQueryEnd ev :: slow ∧ ev_rows ev = lastRows c ∧
    rows (cnt c') = u64 (rows (cnt c) + u64 (lastRows c)).
Proof.
  unfold runQueryInner, with_record, attachContext, cl, zoom, mbind, prog_bind, modify. cbn [fst snd]. rewrite Hctx.
  unfold throw, recordEnd, modify. cbn [fst snd lastRows observe].
  destruct (_ && _); [eexists _, _, [OnQuerySlow _]|eexists _, _, []]; (split; [reflexivity|]); cbn;
    rewrite <- !app_assoc; done.
Qed.

(** What a failed Bind leaves in the write buffer. *)
Definition half_bind (st : preparedStmt) : bytes :=
  MsgBind :: [x00; x00; x00; x00] ++ [x00] ++ (st_name st ++ [x00]) ++ be_put 2 1 ++ be_put 2 0 ++ be_put 2 1.

(** An argument that cannot be sent leaves the half-built Bind message,
    with length 0, in the write buffer: nothing is sent and the call fails,
    but the next message of the connection is sent behind it, so the server
    receives a malformed stream. *)
Theorem bad_argument_corrupts_next (st : preparedStmt) (a : goarg) (e : gerror) (k : Conn)
  (Ha : a ≠ ANil ∧ paramBinary (oid_at (st_paramOIDs st) 0) a = false ∧ encodeArg a = inl e) (Hroom : room k = None) :
  ∃ k', bindMessages st [a] k = (Err e, k') ∧ sent k' = sent k ∧
    ∀ t payload p, writes payload p →
      ∃ k'', (_ ← message t payload; Flush) k' = (Ret tt, k'') ∧
        sent k'' = sent k ++ writeBuf k ++ half_bind st ++ frame t p.
Proof.
  destruct Ha as (Hn & Hb & He).
  assert (bindMessages st [a] k = (Err e, set_writeBuf (writeBuf k ++ half_bind st) k)) as E.
  { unfold bindMessages. apply bind_Err. unfold message, Begin.
    set (k1 := set_writeBuf (writeBuf k ++ MsgBind :: [x00; x00; x00; x00]) k).
    assert ((start ← gets (λ c, length (writeBuf c)); _ ← append [MsgBind]; _ ← append [x00; x00; x00; x00];
      mret {| noType := false; startOff := start |}) k = (Ret {| noType := false; startOff := length (writeBuf k) |}, k1)) as E1.
    { unfold mbind, prog_bind, gets, append, modify, mret, prog_ret. cbn. unfold k1. by rewrite <- app_assoc. }
    step E1. apply bind_Err. step (writes_bCString [] k1). step (writes_bCString (st_name st) (set_writeBuf (writeBuf k1 ++ [] ++ [x00]) k1)).
    apply bind_Err. unfold writeBindParams. change (Zlen [a]) with 1.
    set (k2 := set_writeBuf _ _). step (writes_bInt16 1 k2). set (k3 := set_writeBuf _ _).
    assert (each (λ i a, if paramBinary (oid_at (st_paramOIDs st) i) a then bInt16 1 else bInt16 0) 0 [a] k3 =
      (Ret tt, set_writeBuf (writeBuf k3 ++ be_put 2 0) k3)) as E2.
    { cbn [each]. rewrite Hb. step (writes_bInt16 0 k3). done. }
    step E2. set (k4 := set_writeBuf _ _). step (writes_bInt16 1 k4). set (k5 := set_writeBuf _ _).
    cbn [each]. rewrite (bind_Err _ _ _ e k5).
    - f_equal. unfold k5, k4, k3, k2, k1, half_bind. cbn. rewrite <- !app_assoc. done.
    - unfold write_value. rewrite Hb. unfold appendParamText. rewrite He. by destruct a. }
  eexists. split; [exact E|]. split; [done|]. intros t payload p Hp.
  step (writes_message t payload p Hp (set_writeBuf (writeBuf k ++ half_bind st) k)).
  eexists. split; [by apply Flush_ok|]. cbn -[frame half_bind]. by rewrite <- !app_assoc.
Qed.

Lemma sends_message t p c : room (conn c) = None →
  wire (_ ← message t (bCString p); Flush) c =
  (Ret tt, set_conn (set_writeBuf [] (set_socket (sent (conn c) ++ writeBuf (conn c) ++ frame t (p ++ [x00])) None (conn c))) c).
Proof.
  intros Hr. unfold wire, zoom. step (writes_message t _ _ (writes_bCString p) (conn c)). by rewrite Flush_ok.
Qed.

(** A simple query that finds a ReadyForQuery at the front of the stream. *)
Lemma simple_ready mode sql z rest c (w : W) : room (conn c) = None → writer_ok true w →
  inbound (conn c) = frame MsgReadyForQuery z ++ rest → msg_ok (MsgReadyForQuery, z) →
  ∃ c2 w', runSimple mode sql (c, w) = (Ret tt, (c2, w')) ∧ inbound (conn c2) = rest ∧
    output w' = output w ++ opening mode emptyPlan ++ closing mode.
Proof.
  intros Hr Hw Hin Hz. unfold runSimple.
  set (k0 := set_writeBuf [] (set_socket (sent (conn c) ++ writeBuf (conn c) ++ frame MsgQuery (sql ++ [x00])) None (conn c))).
  assert ((cl (wire (_ ← message MsgQuery (bCString sql); Flush)) : prog (Client * W) unit) (c, w) =
    (Ret tt, (set_conn k0 c, w))) as E.
  { unfold cl, zoom. cbn [fst snd]. by rewrite sends_message. }
  step E. unfold consumeText, loop_query, rounds. cbn [fst conn set_conn].
  destruct (loop_round (text_step mode) (λ _ e, throw e) (length (inbound k0)) (None, mkRun 0 false None)
    (set_conn k0 c) w _ _ _ Hin Hz) as (k1 & K1 & E1). rewrite E1, set_conn_twice.
  destruct (puts_ready (h := true) mode emptyPlan (mkRun 0 false None) (set_conn k1 c) w Hw) as
    [(w' & E2 & _ & O & _)|[? _]]; [|done].
  assert (text_step mode (None, mkRun 0 false None) MsgReadyForQuery z (set_conn k1 c, w) =
    (Ret (inr tt), (set_lastRows 0 (set_conn k1 c), w'))) as ->.
  { unfold text_step. cbn -[ready_case]. unfold mbind, prog_bind. by rewrite E2. }
  cbn [after]. eexists _, w'. split; [done|]. split; [|exact O]. by destruct K1.
Qed.

(** Ping stops at an ErrorResponse without reading the ReadyForQuery that
    follows; the next simple query takes that one for its own and reports an
    empty success before its reply has been read. *)
Theorem ping_error_desyncs (ctx : context) (c : Client) (w : W) (body z rest sql : bytes) (mode : Mode)
  (Hctx : ctx_err ctx 0 = None) (Hroom : room (conn c) = None)
  (Hin : inbound (conn c) = frame MsgErrorResponse body ++ frame MsgReadyForQuery z ++ rest)
  (Hok : msg_ok (MsgErrorResponse, body) ∧ msg_ok (MsgReadyForQuery, z)) (Hw : writer_ok true w) :
  ∃ c1 c2 w', Ping ctx c = (Err (EPg (Parse body)), c1) ∧ inbound (conn c1) = frame MsgReadyForQuery z ++ rest ∧
    runSimple mode sql (c1, w) = (Ret tt, (c2, w')) ∧ inbound (conn c2) = rest ∧
    output w' = output w ++ opening mode emptyPlan ++ closing mode.
Proof.
  destruct Hok as [He Hz]. unfold Ping, attachContext. rewrite Hctx, bind_ret.
  step (sends_message MsgQuery [] c Hroom). set (k0 := set_writeBuf [] _).
  destruct (ReadMessage_frame k0 MsgErrorResponse body _ Hin He) as [cap Er].
  set (k1 := set_readCap cap _) in Er. unfold for_messages, rounds. cbn [read_loop conn set_conn].
  assert (catch (wire ReadMessage) (set_conn k0 c) = (Ret (inr (MsgErrorResponse, body)), set_conn k1 c)) as E.
  { unfold catch, wire, zoom. cbn [conn set_conn]. by rewrite Er. }
  step E. eexists (set_conn k1 c).
  destruct (simple_ready mode sql z rest (set_conn k1 c) w) as (c2 & w' & E2 & R2 & O2); try done.
  exists c2, w'. split; [done|]. split; [done|]. by repeat split.
Qed.
End Marks.

Definition idle : context := {| ctx_err := λ _, None; ctx_deadline := false |}.
Definition cancelled : context := {| ctx_err := λ _, Some (EUser "context canceled"); ctx_deadline := false |}.

Lemma refused_query_counts_stale_rows_witness :
  ∃ c' ev slow, runQueryInner cancelled 0 ModeArray (str "q") [] (set_lastRows 5 (demo_client []), demo_buffer) =
      (Err (EUser "context canceled"), (c', demo_buffer)) ∧
    log c' = [] ++ OnQueryStart (str "q") :: OnQueryEnd ev :: slow ∧ ev_rows ev = 5 ∧ rows (cnt c') = u64 (0 + u64 5).
Proof.
  apply (refused_query_counts_stale_rows cancelled 0 ModeArray (str "q") [] (set_lastRows 5 (demo_client [])) demo_buffer).
  reflexivity.
Defined.

Lemma bad_argument_corrupts_next_witness :
  ∃ k', bindMessages demo_stmt [AOther] (New [] None) = (Err (EFmt "pgz: unsupported parameter type" []), k') ∧
    sent k' = [] ∧
    ∀ t payload p, writes payload p →
      ∃ k'', (_ ← message t payload; Flush) k' = (Ret tt, k'') ∧ sent k'' = [] ++ [] ++ half_bind demo_stmt ++ frame t p.
Proof.
  apply (bad_argument_corrupts_next demo_stmt AOther (EFmt "pgz: unsupported parameter type" []) (New [] None)).
  - split; [discriminate|]. split; reflexivity.
  - reflexivity.
Defined.

Definition failing_ping : Client :=
  demo_client (frame MsgErrorResponse [x00] ++ frame MsgReadyForQuery (str "I") ++ str "late").

Lemma ping_error_desyncs_witness :
  ∃ c1 c2 w', Ping idle failing_ping = (Err (EPg (Parse [x00])), c1) ∧
    inbound (conn c1) = frame MsgReadyForQuery (str "I") ++ str "late" ∧
    runSimple ModeArray (str "select 1") (c1, demo_buffer) = (Ret tt, (c2, w')) ∧ inbound (conn c2) = str "late" ∧
    output w' = output demo_buffer ++ opening ModeArray emptyPlan ++ closing ModeArray.
Proof.
  apply (ping_error_desyncs idle failing_ping demo_buffer [x00] (str "I") (str "late") (str "select 1") ModeArray);
    first [reflexivity | exact I | split; discriminate].
Defined.
