(* ===== verification/Exec.v ===== *)
(** pgz/exec.go: statements that return no rows.  The partial ExecResult that
    accompanies an error is not modelled: an error is just the error. *)
From S2P Require Import Prelude Protocol JsonWriter Errors Effects Wire Rows Args StmtCache Stream Client Query.
From S2P Require Import QuerySpec QueryResult.

(** ** parseRowsAffected *)

(** [tag[strings.LastIndexByte(tag, ' ')+1:]], [None] without a space. *)
Fixpoint last_token (tag : bytes) : option bytes :=
  match tag with
  | [] => None
  | c :: r =>
      match last_token r with
      | Some t => Some t
      | None => if beq c x20 then Some r else None
      end
  end.

Definition parseRowsAffected (tag : bytes) : Z :=
  match last_token tag with
  | None => 0
  | Some t => match ParseInt64 t with Some n => n | None => 0 end
  end.

(** ** Preparing and executing *)

Record ExecResult := mkRes { RowsAffected : Z; Tag : bytes }.
Definition emptyResult : ExecResult := mkRes 0 [].

Record preparing := mkPrep { p_plan : option Plan; p_noData : bool; p_err : option PGError; p_oids : list OID }.

Definition prepare_step (name : bytes) (a : preparing) (t : byte) (body : bytes) : client (preparing + nat) :=
  if beq t MsgParseComplete || beq t MsgCloseComplete then again a
  else if beq t MsgParameterDescription then again (mkPrep (p_plan a) (p_noData a) (p_err a) (parseParamOIDs body))
  else if beq t MsgNoData then again (mkPrep (p_plan a) true (p_err a) (p_oids a))
  else if beq t MsgRowDescription then
    p ← of_sum (ParseRowDescription body);
    again (mkPrep (Some p) (p_noData a) (p_err a) (p_oids a))
  else if beq t MsgErrorResponse then again (mkPrep (p_plan a) (p_noData a) (Some (Parse body)) (p_oids a))
  else if beq t MsgNoticeResponse then _ ← on_notice body; again a
  else if beq t MsgParameterStatus then _ ← on_parameter body; again a
  else if beq t MsgReadyForQuery then
    match p_err a with
    | Some e => throw (EPg e)
    | None =>
        if p_noData a then r ← new_stmt (mkStmt name None [] (p_oids a)); leave r
        else
          match p_plan a with
          | None => throw (EFmt "pgz: exec prepare returned neither NoData nor RowDescription" [])
          | Some p =>
              cf ← gets cfg;
              let '(fmts, p) := negotiate cf p in
              r ← new_stmt (mkStmt name (Some p) fmts (p_oids a));
              leave r
          end
    end
  else throw (EFmt "pgz: unexpected msg during exec prepare" [byteZ t]).

Definition execPrepare (sql : bytes) : client nat :=
  name ← next_name;
  dead ← take_pending;
  _ ← wire (_ ← closeMessages dead; _ ← parseMessages name sql; _ ← syncMessage; Flush);
  for_messages (prepare_step name) (mkPrep None false None []).

Record executing := mkExec { x_res : ExecResult; x_err : option PGError }.

Definition exec_step (a : executing) (t : byte) (body : bytes) : client (executing + ExecResult) :=
  if beq t MsgBindComplete then again a
  else if beq t MsgCommandComplete then
    match body with
    | [] => panic        (* body[:len(body)-1] *)
    | _ => let tag := removelast body in again (mkExec (mkRes (parseRowsAffected tag) tag) (x_err a))
    end
  else if beq t MsgEmptyQueryResponse then again a
  else if beq t MsgNoticeResponse then _ ← on_notice body; again a
  else if beq t MsgParameterStatus then _ ← on_parameter body; again a
  else if beq t MsgErrorResponse then again (mkExec (x_res a) (Some (Parse body)))
  else if beq t MsgReadyForQuery then
    match x_err a with Some e => throw (EPg e) | None => leave (x_res a) end
  else throw (EFmt "pgz: unexpected msg during exec" [byteZ t]).

Definition execMessages (st : preparedStmt) (args : list goarg) : io unit :=
  _ ← message MsgBind
        (_ ← bCString [];
         _ ← bCString (st_name st);
         _ ← writeBindParams (st_paramOIDs st) args;
         bInt16 0);
  _ ← executeMessage;
  _ ← syncMessage;
  Flush.

Definition execBind (r : nat) (args : list goarg) : client ExecResult :=
  st ← load r;
  _ ← wire (execMessages st args);
  for_messages exec_step (mkExec emptyResult None).

Section Exec.
Context {MO : MapOrder}.

Definition exec_obtain (sql : bytes) : client (nat * bool) :=
  o ← cache_get sql;
  match o with
  | Some r => mret (r, true)
  | None =>
      x ← catch (execPrepare sql);
      match x with
      | inl e => _ ← cache_invalidate sql; throw e
      | inr r => _ ← cache_put sql r; mret (r, false)
      end
  end.

Fixpoint exec_cached_loop (attempts : nat) (first : bool) (sql : bytes) (args : list goarg) : client ExecResult :=
  match attempts with
  | O => mret emptyResult
  | S attempts =>
      rc ← exec_obtain sql;
      let fromCache : bool := snd rc in
      x ← catch (execBind (fst rc) args);
      match x with
      | inr res => mret res
      | inl e =>
          if first && fromCache && isStaleStmtError e then
            _ ← cache_invalidate sql; exec_cached_loop attempts false sql args
          else throw e
      end
  end.

Definition execCached (sql : bytes) (args : list goarg) : client ExecResult := exec_cached_loop 2 true sql args.

Fixpoint exec_retry_loop (attempts k : nat) (ctx : context) (sql : bytes) (args : list goarg) : client ExecResult :=
  match attempts with
  | O => mret emptyResult
  | S attempts =>
      x ← catch (execCached sql args);
      match x with
      | inr res => mret res
      | inl e =>
          c ← ask;
          if negb (RetryOnSerialization (cfg c)) then throw e
          else if bool_decide (attempts = O) || negb (isRetryableSerialization e) then throw e
          else
            match ctx_err ctx k with
            | Some _ => throw e
            | None =>
                match ctx_err ctx (S k) with
                | Some _ => throw e
                | None => exec_retry_loop attempts (S (S k)) ctx sql args
                end
            end
      end
  end.

(** [defer func() { c.recordEnd(sql, 0, 0, ..., err) }()] *)
Definition exec_record {A} (sql : bytes) (dur : Z) (m : client A) : client A := λ c,
  let '(r, c') := m c in
  let err := match r with Err e => Some e | _ => None end in
  let '(_, c'') := recordEnd sql 0 0 dur err c' in
  (r, c'').

Definition Exec (ctx : context) (dur : Z) (sql : bytes) (args : list goarg) : client ExecResult :=
  _ ← modify (observe (OnQueryStart sql));
  exec_record sql dur (_ ← attachContext ctx; exec_retry_loop 3 1 ctx sql args).
End Exec.

(** ** Specification *)

Definition exec_known (m : byte * bytes) : Prop :=
  msg_ok m ∧
  (m.1 = MsgBindComplete ∨ (m.1 = MsgCommandComplete ∧ m.2 ≠ []) ∨ m.1 = MsgEmptyQueryResponse ∨
   m.1 = MsgNoticeResponse ∨ m.1 = MsgParameterStatus ∨ m.1 = MsgErrorResponse).

(** The tag of the last CommandComplete and the last error. *)
Fixpoint last_tag (tag : bytes) (ms : list (byte * bytes)) : bytes :=
  match ms with
  | [] => tag
  | m :: ms => last_tag (if beq m.1 MsgCommandComplete then removelast m.2 else tag) ms
  end.
Fixpoint last_error (e : option PGError) (ms : list (byte * bytes)) : option PGError :=
  match ms with
  | [] => e
  | m :: ms => last_error (if beq m.1 MsgErrorResponse then Some (Parse m.2) else e) ms
  end.

Definition exec_body (st : preparedStmt) (args : list goarg) (vals : list (option bytes)) : bytes :=
  x00 :: st_name st ++ x00 :: params_wire (st_paramOIDs st) args vals ++ be_put 2 0.

(** ** Lemmas *)

Definition exec_next (a : executing) (m : byte * bytes) : executing :=
  if beq m.1 MsgCommandComplete then
    mkExec (mkRes (parseRowsAffected (removelast m.2)) (removelast m.2)) (x_err a)
  else if beq m.1 MsgErrorResponse then mkExec (x_res a) (Some (Parse m.2))
  else a.

Lemma exec_step_known m : exec_known m → ∀ a c, exec_step a m.1 m.2 c = (Ret (inl (exec_next a m)), absorb c m).
Proof.
  intros [_ Hm] a c. destruct m as [t b]. cbn [fst snd] in *.
  destruct Hm as [-> |[[-> Hb]|[-> |[-> |[-> | ->]]]]]; try done.
  - by destruct b.
Qed.

Lemma exec_next_fold ms : ∀ a tag, x_res a = mkRes (parseRowsAffected tag) tag →
  fold_left exec_next ms a =
  mkExec (mkRes (parseRowsAffected (last_tag tag ms)) (last_tag tag ms)) (last_error (x_err a) ms).
Proof.
  induction ms as [|m ms IH]; intros a tag Ha; cbn [fold_left last_tag last_error]; [by destruct a; cbn in *; subst|].
  unfold exec_next at 2. destruct (beq m.1 MsgCommandComplete) eqn:E1.
  - rewrite (IH _ (removelast m.2)) by done. cbn [x_err].
    apply beq_true in E1. rewrite E1. done.
  - destruct (beq m.1 MsgErrorResponse); by rewrite (IH _ tag).
Qed.

Lemma execMessages_ok st args vals c : room c = None → arg_values (st_paramOIDs st) 0 args = Some vals →
  execMessages st args c = (Ret tt, set_writeBuf [] (set_socket (sent c ++ writeBuf c ++
    frame MsgBind (exec_body st args vals) ++ frame MsgExecute [x00; x00; x00; x00; x00] ++ frame MsgSync []) None c)).
Proof.
  intros Hr Ha. unfold execMessages.
  assert (writes (message MsgBind (_ ← bCString []; _ ← bCString (st_name st);
      _ ← writeBindParams (st_paramOIDs st) args; bInt16 0)) (frame MsgBind (exec_body st args vals))) as Hb.
  { apply writes_message. eapply writes_eq.
    - apply writes_seq; [apply writes_bCString|]. apply writes_seq; [apply writes_bCString|].
      apply writes_seq; [by apply writes_bind_params|apply writes_bInt16].
    - unfold exec_body. cbn [app]. by rewrite <- app_assoc. }
  by apply pipeline_ok.
Qed.

(** A number in a tag is read back. *)
Lemma last_token_snoc w s : x20 ∉ s → last_token (w ++ x20 :: s) = Some s.
Proof.
  intros Hs. induction w as [|c w IH]; cbn [app last_token]; [|by rewrite IH].
  assert (last_token s = None) as ->.
  { clear -Hs. induction s as [|c s IH]; [done|]. cbn [last_token]. rewrite not_elem_of_cons in Hs. destruct Hs as [Hc Hs].
    rewrite IH by done. destruct (beq c x20) eqn:E; [|done]. by apply beq_true in E. }
  by cbn.
Qed.

Lemma parseRowsAffected_dec w n : 0 <= n < 2 ^ 63 → parseRowsAffected (w ++ x20 :: AppendInt [] n) = n.
Proof.
  intros Hn. unfold parseRowsAffected. rewrite last_token_snoc; [by rewrite ParseInt64_dec|].
  intros Hc. pose proof (AppendInt_digits n ltac:(lia)) as Hd. rewrite forallb_forall in Hd.
  apply list_elem_of_In in Hc. specialize (Hd _ Hc). done.
Qed.

(** What an execution without rows returns for the messages of its reply. *)
Definition exec_result (ms : list (byte * bytes)) : res ExecResult :=
  match last_error None ms with
  | Some e => Err (EPg e)
  | None => Ret (mkRes (parseRowsAffected (last_tag [] ms)) (last_tag [] ms))
  end.

Lemma execBind_runs r args c st vals ms z rest :
  deref r (stmts c) = st → arg_values (st_paramOIDs st) 0 args = Some vals → room (conn c) = None →
  inbound (conn c) = wire_of ms ++ frame MsgReadyForQuery z ++ rest → Forall exec_known ms → msg_ok (MsgReadyForQuery, z) →
  ∃ k, execBind r args c = (exec_result ms, set_conn k (fold_left absorb ms c)) ∧
    inbound k = rest ∧ writeBuf k = [] ∧ room k = None ∧
    sent k = sent (conn c) ++ writeBuf (conn c) ++ frame MsgBind (exec_body st args vals) ++
      frame MsgExecute [x00; x00; x00; x00; x00] ++ frame MsgSync [].
Proof.
  intros Hst Hargs Hroom Hin Hms Hz. unfold execBind.
  step (eq_refl : load r c = (Ret (deref r (stmts c)), c)). rewrite Hst.
  set (k0 := set_writeBuf [] (set_socket (sent (conn c) ++ writeBuf (conn c) ++ frame MsgBind (exec_body st args vals) ++
      frame MsgExecute [x00; x00; x00; x00; x00] ++ frame MsgSync []) None (conn c))).
  assert (wire (execMessages st args) c = (Ret tt, set_conn k0 c)) as E.
  { unfold wire, zoom. by rewrite (execMessages_ok st args vals (conn c) Hroom Hargs). }
  step E.
  destruct (for_messages_script exec_step exec_next absorb MsgReadyForQuery z rest (exec_result ms) id ms
    (mkExec emptyResult None) (set_conn k0 c)) as (k & Hk & E'); try done.
  - apply absorb_conn.
  - eapply Forall_impl; [exact Hms|]. intros m Hm. split; [apply Hm|by apply exec_step_known].
  - intros c'. rewrite (exec_next_fold ms (mkExec emptyResult None) []) by done. unfold exec_step, exec_result. cbn -[fold_left].
    by destruct (last_error None ms).
  - exists k. destruct Hk as (K1 & K2 & K3 & K4 & K5). rewrite E'. cbn [id].
    split; [by rewrite fold_touch_conn by apply absorb_conn|]. split; [done|]. split; [by rewrite K5|].
    split; [by rewrite K3|]. by rewrite K2.
Qed.

(** C36. Executing a prepared statement without rows over a healthy connection
    sends exactly Bind, Execute and Sync, absorbs notices and parameter changes,
    consumes the reply through ReadyForQuery, and returns the last
    CommandComplete tag with its row count, or the last error; and the count is
    the number that ends the tag. *)
Theorem execBind_exact (r : nat) (args : list goarg) (c : Client) (st : preparedStmt) (vals : list (option bytes))
    (ms : list (byte * bytes)) (z rest : bytes)
  (Hst : deref r (stmts c) = st) (Hargs : arg_values (st_paramOIDs st) 0 args = Some vals)
  (Hroom : room (conn c) = None)
  (Hin : inbound (conn c) = wire_of ms ++ frame MsgReadyForQuery z ++ rest)
  (Hms : Forall exec_known ms ∧ msg_ok (MsgReadyForQuery, z)) :
  (∃ k, execBind r args c =
      (match last_error None ms with
       | Some e => Err (EPg e)
       | None => Ret (mkRes (parseRowsAffected (last_tag [] ms)) (last_tag [] ms))
       end, set_conn k (fold_left absorb ms c)) ∧
    inbound k = rest ∧ writeBuf k = [] ∧
    sent k = sent (conn c) ++ writeBuf (conn c) ++ frame MsgBind (exec_body st args vals) ++
      frame MsgExecute [x00; x00; x00; x00; x00] ++ frame MsgSync []) ∧
  (∀ w n, last_tag [] ms = w ++ x20 :: AppendInt [] n → 0 <= n < 2 ^ 63 → parseRowsAffected (last_tag [] ms) = n).
Proof.
  destruct Hms as [Hms Hz]. split; [|intros w n -> Hn; by apply parseRowsAffected_dec].
  destruct (execBind_runs r args c st vals ms z rest Hst Hargs Hroom Hin Hms Hz) as (k & E & H1 & H2 & _ & H3). by exists k.
Qed.

Definition insert_reply : list (byte * bytes) :=
  [(MsgBindComplete, []); (MsgNoticeResponse, [x00]); (MsgCommandComplete, str "INSERT 0 5" ++ [x00])].

Lemma execBind_exact_witness :
  (∃ k, execBind 0 [ANil] (demo_client (wire_of insert_reply ++ frame MsgReadyForQuery (str "I") ++ str "x")) =
      (Ret (mkRes (parseRowsAffected (str "INSERT 0 5")) (str "INSERT 0 5")),
       set_conn k (fold_left absorb insert_reply
         (demo_client (wire_of insert_reply ++ frame MsgReadyForQuery (str "I") ++ str "x")))) ∧
    inbound k = str "x" ∧ writeBuf k = [] ∧
    sent k = [] ++ [] ++ frame MsgBind (exec_body demo_stmt [ANil] [None]) ++
      frame MsgExecute [x00; x00; x00; x00; x00] ++ frame MsgSync []) ∧
  (∀ w n, str "INSERT 0 5" = w ++ x20 :: AppendInt [] n → 0 <= n < 2 ^ 63 → parseRowsAffected (str "INSERT 0 5") = n).
Proof.
  apply (execBind_exact 0 [ANil] (demo_client (wire_of insert_reply ++ frame MsgReadyForQuery (str "I") ++ str "x"))
    demo_stmt [None] insert_reply (str "I") (str "x")); try reflexivity.
  split; [|discriminate]. unfold insert_reply.
  constructor; [split; [discriminate|left; reflexivity]|].
  constructor; [split; [discriminate|right; right; right; left; reflexivity]|].
  constructor; [split; [discriminate|right; left; split; [reflexivity|discriminate]]|]. constructor.
Defined.
