(* ===== verification/Crypto.v ===== *)
(** The standard-library cryptography and encodings the driver authenticates
    with: SHA-256, HMAC-SHA-256, MD5, hexadecimal and Base64, as executable
    functions on byte strings. *)
From S2P Require Import Prelude.

(** ** 32-bit words *)

Definition rotr (n x : Z) : Z := Z.lor (Z.shiftr x n) (u32 (Z.shiftl x (32 - n))).
Definition rotl (n x : Z) : Z := rotr (32 - n) x.
Definition not32 (x : Z) : Z := Z.lxor x 0xffffffff.

(** The message padded to whole 64-byte blocks, the bit length last. *)
Definition padded (len_bytes : bytes) (m : bytes) : bytes :=
  m ++ [x80] ++ repeat x00 (Z.to_nat ((55 - Zlen m) mod 64)) ++ len_bytes.

Fixpoint chunks (fuel n : nat) (l : bytes) : list bytes :=
  match fuel with
  | O => []
  | S fuel => match l with [] => [] | _ => take n l :: chunks fuel n (drop n l) end
  end.

(** ** SHA-256 *)
Module Sha256.

(** The constants are the first 32 fractional bits of the square roots of the
    first eight primes and of the cube roots of the first 64. *)
Definition primes : list Z :=
  filter (λ p, Forall (λ d, p mod d ≠ 0) (map Z.of_nat (seq 2 (Z.to_nat p - 2)))) (map Z.of_nat (seq 2 310)).

(** The largest [r + d] below the cube root of [n], [d] below [2 ^ b]. *)
Fixpoint cube_root (b : nat) (n r : Z) : Z :=
  match b with
  | O => r
  | S b => let r' := r + 2 ^ Z.of_nat b in cube_root b n (if r' ^ 3 <=? n then r' else r)
  end.

Definition K : list Z := Eval vm_compute in map (λ p, u32 (cube_root 40 (Z.shiftl p 96) 0)) primes.

Record state := mk { sa : Z; sb : Z; sc : Z; sd : Z; se : Z; sf : Z; sg : Z; sh : Z }.
Definition init : state :=
  Eval vm_compute in
  let h i := u32 (Z.sqrt (Z.shiftl (nth i primes 0) 64)) in
  mk (h 0%nat) (h 1%nat) (h 2%nat) (h 3%nat) (h 4%nat) (h 5%nat) (h 6%nat) (h 7%nat).

Definition sigma0 x := Z.lxor (Z.lxor (rotr 7 x) (rotr 18 x)) (Z.shiftr x 3).
Definition sigma1 x := Z.lxor (Z.lxor (rotr 17 x) (rotr 19 x)) (Z.shiftr x 10).
Definition Sigma0 x := Z.lxor (Z.lxor (rotr 2 x) (rotr 13 x)) (rotr 22 x).
Definition Sigma1 x := Z.lxor (Z.lxor (rotr 6 x) (rotr 11 x)) (rotr 25 x).
Definition ch x y z := Z.lxor (Z.land x y) (Z.land (not32 x) z).
Definition maj x y z := Z.lxor (Z.lxor (Z.land x y) (Z.land x z)) (Z.land y z).

(** The message schedule, latest word first. *)
Fixpoint schedule (n : nat) (ws : list Z) : list Z :=
  match n with
  | O => ws
  | S n =>
      let w := u32 (sigma1 (nth 1 ws 0) + nth 6 ws 0 + sigma0 (nth 14 ws 0) + nth 15 ws 0) in
      schedule n (w :: ws)
  end.

Definition round (s : state) (kw : Z * Z) : state :=
  let t1 := sh s + Sigma1 (se s) + ch (se s) (sf s) (sg s) + fst kw + snd kw in
  let t2 := Sigma0 (sa s) + maj (sa s) (sb s) (sc s) in
  mk (u32 (t1 + t2)) (sa s) (sb s) (sc s) (u32 (sd s + t1)) (se s) (sf s) (sg s).

Definition words (block : bytes) : list Z := map be_get (chunks 16 4 block).

Definition compress (s : state) (block : bytes) : state :=
  let t := fold_left round (combine K (rev (schedule 48 (rev (words block))))) s in
  mk (u32 (sa s + sa t)) (u32 (sb s + sb t)) (u32 (sc s + sc t)) (u32 (sd s + sd t))
     (u32 (se s + se t)) (u32 (sf s + sf t)) (u32 (sg s + sg t)) (u32 (sh s + sh t)).

Definition digest (s : state) : bytes :=
  be_put 4 (sa s) ++ be_put 4 (sb s) ++ be_put 4 (sc s) ++ be_put 4 (sd s) ++
  be_put 4 (se s) ++ be_put 4 (sf s) ++ be_put 4 (sg s) ++ be_put 4 (sh s).

Definition Sum256 (m : bytes) : bytes :=
  let p := padded (be_put 8 (8 * Zlen m)) m in
  digest (fold_left compress (chunks (length p) 64 p) init).
End Sha256.

(** ** HMAC-SHA-256 *)

Definition xorBytes (a b : bytes) : bytes := zip_with (λ x y, mkbyte (Z.lxor (byteZ x) (byteZ y))) a b.

(** The key, hashed when longer than a block, zero-filled to one. *)
Definition hmac_key (key : bytes) : bytes :=
  let k := if 64 <? Zlen key then Sha256.Sum256 key else key in
  k ++ repeat x00 (64 - length k).
Definition hmacSHA256 (key msg : bytes) : bytes :=
  let k := hmac_key key in
  Sha256.Sum256 (xorBytes k (repeat x5c 64) ++ Sha256.Sum256 (xorBytes k (repeat x36 64) ++ msg)).

(** ** MD5 *)
Module Md5.

Definition T : list Z :=
  [0xd76aa478; 0xe8c7b756; 0x242070db; 0xc1bdceee; 0xf57c0faf; 0x4787c62a; 0xa8304613; 0xfd469501;
    0x698098d8; 0x8b44f7af; 0xffff5bb1; 0x895cd7be; 0x6b901122; 0xfd987193; 0xa679438e; 0x49b40821;
    0xf61e2562; 0xc040b340; 0x265e5a51; 0xe9b6c7aa; 0xd62f105d; 0x02441453; 0xd8a1e681; 0xe7d3fbc8;
    0x21e1cde6; 0xc33707d6; 0xf4d50d87; 0x455a14ed; 0xa9e3e905; 0xfcefa3f8; 0x676f02d9; 0x8d2a4c8a;
    0xfffa3942; 0x8771f681; 0x6d9d6122; 0xfde5380c; 0xa4beea44; 0x4bdecfa9; 0xf6bb4b60; 0xbebfbc70;
    0x289b7ec6; 0xeaa127fa; 0xd4ef3085; 0x04881d05; 0xd9d4d039; 0xe6db99e5; 0x1fa27cf8; 0xc4ac5665;
    0xf4292244; 0x432aff97; 0xab9423a7; 0xfc93a039; 0x655b59c3; 0x8f0ccc92; 0xffeff47d; 0x85845dd1;
    0x6fa87e4f; 0xfe2ce6e0; 0xa3014314; 0x4e0811a1; 0xf7537e82; 0xbd3af235; 0x2ad7d2bb; 0xeb86d391].
Definition S : list Z :=
  [7; 12; 17; 22; 7; 12; 17; 22; 7; 12; 17; 22; 7; 12; 17; 22; 5; 9; 14; 20; 5; 9; 14; 20; 5; 9; 14; 20; 5; 9; 14; 20; 4; 11; 16; 23; 4; 11; 16; 23; 4; 11; 16; 23; 4; 11; 16; 23; 6; 10; 15; 21; 6; 10; 15; 21; 6; 10; 15; 21; 6; 10; 15; 21].

Record state := mk { ma : Z; mb : Z; mc : Z; md : Z }.
Definition init : state := mk 0x67452301 0xefcdab89 0x98badcfe 0x10325476.

Fixpoint le_get (l : bytes) : Z := match l with [] => 0 | b :: l => byteZ b + 256 * le_get l end.
Definition le_put (n : nat) (z : Z) : bytes := rev (be_put n z).

(** Step [i] mixes message word [g]. *)
Definition step (ws : list Z) (s : state) (its : nat * (Z * Z)) : state :=
  let '(i, (t, r)) := its in
  let '(f, g) :=
    if (i <? 16)%nat then (Z.lor (Z.land (mb s) (mc s)) (Z.land (not32 (mb s)) (md s)), i)
    else if (i <? 32)%nat then (Z.lor (Z.land (md s) (mb s)) (Z.land (not32 (md s)) (mc s)), (5 * i + 1) mod 16)%nat
    else if (i <? 48)%nat then (Z.lxor (Z.lxor (mb s) (mc s)) (md s), (3 * i + 5) mod 16)%nat
    else (Z.lxor (mc s) (Z.lor (mb s) (not32 (md s))), (7 * i) mod 16)%nat in
  mk (md s) (u32 (mb s + rotl r (u32 (ma s + f + t + nth g ws 0)))) (mb s) (mc s).

Definition compress (s : state) (block : bytes) : state :=
  let ws := map le_get (chunks 16 4 block) in
  let t := fold_left (step ws) (combine (seq 0 64) (combine T S)) s in
  mk (u32 (ma s + ma t)) (u32 (mb s + mb t)) (u32 (mc s + mc t)) (u32 (md s + md t)).

Definition Sum (m : bytes) : bytes :=
  let p := padded (le_put 8 (8 * Zlen m)) m in
  let s := fold_left compress (chunks (length p) 64 p) init in
  le_put 4 (ma s) ++ le_put 4 (mb s) ++ le_put 4 (mc s) ++ le_put 4 (md s).
End Md5.

(** [hex.EncodeToString]. *)
Definition hex (l : bytes) : bytes :=
  concat (map (λ b, [digit_char (Z.shiftr (byteZ b) 4); digit_char (Z.land (byteZ b) 15)]) l).

Example sha256_abc : hex (Sha256.Sum256 (str "abc")) =
  str "ba7816bf8f01cfea414140de5dae2223b00361a396177a9cb410ff61f20015ad".
Proof. vm_compute. reflexivity. Qed.
Example md5_abc : hex (Md5.Sum (str "abc")) = str "900150983cd24fb0d6963f7d28e17f72".
Proof. vm_compute. reflexivity. Qed.
Example hmac_vector : hex (hmacSHA256 (str "key") (str "The quick brown fox jumps over the lazy dog")) =
  str "f7bc83f430538424b13298e6aa6fb143ef4d59a14946175997479dbc2d1a3cd8".
Proof. vm_compute. reflexivity. Qed.

(** ** Base64, standard alphabet with padding *)
Module Base64.

Definition alphabet : bytes := str "ABCDEFGHIJKLMNOPQRSTUVWXYZabcdefghijklmnopqrstuvwxyz0123456789+/".
Definition char (v : Z) : byte := nth (Z.to_nat v) alphabet x00.
Definition pad : byte := "="%byte.

(** Position in the alphabet. *)
Fixpoint index (c : byte) (l : bytes) (i : Z) : option Z :=
  match l with [] => None | a :: l => if beq a c then Some i else index c l (i + 1) end.
Definition value (c : byte) : option Z := index c alphabet 0.

Fixpoint EncodeToString (l : bytes) : bytes :=
  match l with
  | [] => []
  | [a] => [char (Z.shiftr (byteZ a) 2); char (Z.shiftl (Z.land (byteZ a) 3) 4); pad; pad]
  | [a; b] =>
      [char (Z.shiftr (byteZ a) 2);
       char (Z.lor (Z.shiftl (Z.land (byteZ a) 3) 4) (Z.shiftr (byteZ b) 4));
       char (Z.shiftl (Z.land (byteZ b) 15) 2); pad]
  | a :: b :: c :: l =>
      char (Z.shiftr (byteZ a) 2) ::
      char (Z.lor (Z.shiftl (Z.land (byteZ a) 3) 4) (Z.shiftr (byteZ b) 4)) ::
      char (Z.lor (Z.shiftl (Z.land (byteZ b) 15) 2) (Z.shiftr (byteZ c) 6)) ::
      char (Z.land (byteZ c) 63) :: EncodeToString l
  end.

(** Quanta of four characters; padding only closes the last one. *)
Fixpoint quanta (s : bytes) : option bytes :=
  match s with
  | [] => Some []
  | a :: b :: c :: d :: r =>
      match value a, value b with
      | Some va, Some vb =>
          let x := mkbyte (Z.lor (Z.shiftl va 2) (Z.shiftr vb 4)) in
          if beq c pad then (if beq d pad then match r with [] => Some [x] | _ => None end else None)
          else
            match value c with
            | Some vc =>
                let y := mkbyte (Z.lor (Z.shiftl vb 4) (Z.shiftr vc 2)) in
                if beq d pad then match r with [] => Some [x; y] | _ => None end
                else
                  match value d, quanta r with
                  | Some vd, Some rest => Some (x :: y :: mkbyte (Z.lor (Z.shiftl vc 6) vd) :: rest)
                  | _, _ => None
                  end
            | None => None
            end
      | _, _ => None
      end
  | _ => None
  end.

(** The decoder skips line breaks. *)
Definition DecodeString (s : bytes) : option bytes :=
  quanta (List.filter (λ c, negb (beq c x0a || beq c x0d)) s).

(** *** Lemmas *)

Lemma value_char v : 0 <= v < 64 → value (char v) = Some v ∧ beq (char v) pad = false ∧ char v ∈ alphabet.
Proof.
  intros Hv. assert (∀ n, (n < 64)%nat → value (char (Z.of_nat n)) = Some (Z.of_nat n) ∧ beq (char (Z.of_nat n)) pad = false) as H.
  { intros n Hn. do 64 (destruct n as [|n]; [vm_compute; done|]). lia. }
  destruct (H (Z.to_nat v) ltac:(lia)) as [H1 H2]. rewrite Z2Nat.id in H1, H2 by lia. split; [done|]. split; [done|].
  unfold char. apply list_elem_of_In, nth_In. change (length alphabet) with 64%nat. lia.
Qed.

(** Joining a number shifted up with bits below it. *)
Lemma lor_shift k p q : 0 <= k → 0 <= q < 2 ^ k → Z.lor (Z.shiftl p k) q = p * 2 ^ k + q.
Proof.
  intros Hk Hq. rewrite <- (Z.shiftl_mul_pow2 p k Hk), <- Z.add_lor_land.
  assert (Z.land (Z.shiftl p k) q = 0) as ->; [|lia].
  apply Z.bits_inj'. intros n Hn. rewrite Z.land_spec, Z.bits_0.
  destruct (Z.lt_ge_cases n k); [by rewrite Z.shiftl_spec_low|].
  rewrite <- (Z.mod_small q (2 ^ k)) by done. by rewrite Z.mod_pow2_bits_high, andb_false_r by lia.
Qed.

Lemma land3 x : Z.land x 3 = x mod 4.
Proof. exact (Z.land_ones x 2 ltac:(lia)). Qed.
Lemma land15 x : Z.land x 15 = x mod 16.
Proof. exact (Z.land_ones x 4 ltac:(lia)). Qed.
Lemma land63 x : Z.land x 63 = x mod 64.
Proof. exact (Z.land_ones x 6 ltac:(lia)). Qed.

(** The three seams of a quantum: each is in range and gives the byte back. *)
Ltac dlia := first [lia | Z.to_euclidean_division_equations; lia].

Lemma seam1 a q : 0 <= q < 16 →
  let va := Z.shiftr (byteZ a) 2 in let vb := Z.lor (Z.shiftl (Z.land (byteZ a) 3) 4) q in
  0 <= va < 64 ∧ 0 <= vb < 64 ∧ mkbyte (Z.lor (Z.shiftl va 2) (Z.shiftr vb 4)) = a ∧ vb mod 16 = q.
Proof.
  intros Hq. cbn zeta. rewrite land3, (lor_shift 4) by dlia. rewrite !Z.shiftr_div_pow2 by dlia.
  change (2 ^ 2) with 4. change (2 ^ 4) with 16. pose proof (byteZ_range a).
  replace ((byteZ a mod 4 * 16 + q) / 16) with (byteZ a mod 4) by dlia.
  rewrite (lor_shift 2) by dlia. change (2 ^ 2) with 4.
  split; [dlia|]. split; [dlia|]. split; [|dlia]. rewrite <- (mkbyte_byteZ a) at 3. f_equal. dlia.
Qed.

Lemma seam2 b vb q : vb mod 16 = Z.shiftr (byteZ b) 4 → 0 <= vb → 0 <= q < 4 →
  let vc := Z.lor (Z.shiftl (Z.land (byteZ b) 15) 2) q in
  0 <= vc < 64 ∧ mkbyte (Z.lor (Z.shiftl vb 4) (Z.shiftr vc 2)) = b ∧ vc mod 4 = q.
Proof.
  intros Hb Hvb Hq. cbn zeta. rewrite land15, (lor_shift 2) by dlia. rewrite !Z.shiftr_div_pow2 in * by dlia.
  change (2 ^ 2) with 4 in *. change (2 ^ 4) with 16 in *. pose proof (byteZ_range b).
  replace ((byteZ b mod 16 * 4 + q) / 4) with (byteZ b mod 16) by dlia. rewrite (lor_shift 4) by dlia.
  change (2 ^ 4) with 16. split; [dlia|]. split; [|dlia].
  rewrite <- (mkbyte_byteZ b) at 2. apply mkbyte_mod_eq. dlia.
Qed.

Lemma seam3 c vc : vc mod 4 = Z.shiftr (byteZ c) 6 →
  0 <= Z.land (byteZ c) 63 < 64 ∧ mkbyte (Z.lor (Z.shiftl vc 6) (Z.land (byteZ c) 63)) = c.
Proof.
  intros Hc. rewrite land63, (lor_shift 6) by dlia. rewrite Z.shiftr_div_pow2 in Hc by dlia. change (2 ^ 6) with 64 in *.
  pose proof (byteZ_range c). split; [dlia|]. rewrite <- (mkbyte_byteZ c) at 2. apply mkbyte_mod_eq. dlia.
Qed.

Lemma quanta_encode l : quanta (EncodeToString l) = Some l.
Proof.
  assert (∀ n l, (length l < n)%nat → quanta (EncodeToString l) = Some l) as H; [|apply (H (S (length l))); lia].
  clear l. intros n. induction n as [|n IH]; [lia|]. intros l Hl. destruct l as [|a [|b [|c l]]]; [done| | |].
  - cbn [EncodeToString quanta]. pose proof (seam1 a 0 ltac:(lia)) as (H1 & H2 & H3 & _). cbn zeta in *.
    rewrite Z.lor_0_r in *. rewrite (proj1 (value_char _ H1)), (proj1 (value_char _ H2)), H3. done.
  - cbn [EncodeToString quanta]. pose proof (byteZ_range b) as Hb.
    assert (0 <= Z.shiftr (byteZ b) 4 < 16) as Hq by (rewrite Z.shiftr_div_pow2 by dlia; change (2 ^ 4) with 16; dlia).
    pose proof (seam1 a _ Hq) as (H1 & H2 & H3 & H4). cbn zeta in *.
    pose proof (seam2 b _ 0 H4 (proj1 H2) ltac:(lia)) as (H5 & H6 & _). cbn zeta in *. rewrite Z.lor_0_r in *.
    destruct (value_char _ H5) as (V1 & V2 & _).
    rewrite (proj1 (value_char _ H1)), (proj1 (value_char _ H2)), V2, V1, H3, H6. done.
  - cbn [EncodeToString quanta]. pose proof (byteZ_range b) as Hb. pose proof (byteZ_range c) as Hc.
    assert (0 <= Z.shiftr (byteZ b) 4 < 16) as Hq by (rewrite Z.shiftr_div_pow2 by dlia; change (2 ^ 4) with 16; dlia).
    assert (0 <= Z.shiftr (byteZ c) 6 < 4) as Hq2 by (rewrite Z.shiftr_div_pow2 by dlia; change (2 ^ 6) with 64; dlia).
    pose proof (seam1 a _ Hq) as (H1 & H2 & H3 & H4). cbn zeta in *.
    pose proof (seam2 b _ _ H4 (proj1 H2) Hq2) as (H5 & H6 & H7). cbn zeta in *.
    pose proof (seam3 c _ H7) as [H8 H9].
    destruct (value_char _ H5) as (V1 & V2 & _), (value_char _ H8) as (V3 & V4 & _).
    rewrite (proj1 (value_char _ H1)), (proj1 (value_char _ H2)), V2, V1, V4, V3, H3, H6, H9.
    rewrite IH by (cbn in Hl; lia). done.
Qed.

(** An encoding uses only the alphabet and the padding. *)
Definition safe (c : byte) : bool := existsb (beq c) (pad :: alphabet).
Lemma safe_char v : 0 <= v < 64 → safe (char v) = true.
Proof.
  intros Hv. unfold safe. apply existsb_exists. exists (char v). split; [|by apply beq_true].
  right. apply list_elem_of_In. by destruct (value_char v Hv) as (_ & _ & ?).
Qed.
Lemma encode_safe l : forallb safe (EncodeToString l) = true.
Proof.
  assert (∀ n l, (length l < n)%nat → forallb safe (EncodeToString l) = true) as H; [|apply (H (S (length l))); lia].
  clear l. intros n. induction n as [|n IH]; [lia|]. intros l Hl.
  assert (∀ a q, 0 <= q < 16 → safe (char (Z.shiftr (byteZ a) 2)) = true ∧
    safe (char (Z.lor (Z.shiftl (Z.land (byteZ a) 3) 4) q)) = true) as S1.
  { intros a q Hq. pose proof (seam1 a q Hq) as (H1 & H2 & _). split; by apply safe_char. }
  assert (∀ b q, 0 <= q < 4 → safe (char (Z.lor (Z.shiftl (Z.land (byteZ b) 15) 2) q)) = true) as S2.
  { intros b q Hq. apply safe_char. rewrite land15, (lor_shift 2) by dlia. change (2 ^ 2) with 4. pose proof (byteZ_range b). dlia. }
  assert (∀ b, 0 <= Z.shiftr (byteZ b) 4 < 16) as Hq
    by (intros b; rewrite Z.shiftr_div_pow2 by dlia; change (2 ^ 4) with 16; pose proof (byteZ_range b); dlia).
  assert (∀ b, 0 <= Z.shiftr (byteZ b) 6 < 4) as Hq2
    by (intros b; rewrite Z.shiftr_div_pow2 by dlia; change (2 ^ 6) with 64; pose proof (byteZ_range b); dlia).
  destruct l as [|a [|b [|c l]]]; cbn [EncodeToString forallb]; [done| | |].
  - destruct (S1 a 0 ltac:(lia)) as [-> H2]. rewrite Z.lor_0_r in H2. by rewrite H2.
  - destruct (S1 a _ (Hq b)) as [-> ->]. pose proof (S2 b 0 ltac:(lia)) as H2. rewrite Z.lor_0_r in H2. by rewrite H2.
  - destruct (S1 a _ (Hq b)) as [-> ->]. rewrite (S2 b _ (Hq2 c)).
    rewrite safe_char by (rewrite land63; dlia). apply IH. cbn in Hl. lia.
Qed.

Lemma decode_encode l : DecodeString (EncodeToString l) = Some l.
Proof.
  unfold DecodeString. etransitivity; [|apply quanta_encode]. f_equal. pose proof (encode_safe l) as Hs.
  induction (EncodeToString l) as [|c s IH]; [done|]. cbn [forallb] in Hs. apply andb_prop in Hs as [Hc Hs].
  cbn [List.filter]. assert (negb (beq c x0a || beq c x0d) = true) as ->; [|by rewrite IH].
  apply negb_true_iff, orb_false_iff. split; apply beq_false; intros ->; vm_compute in Hc; done.
Qed.
End Base64.
