(* ===== verification/Auth.v ===== *)
(** internal/auth: the MD5 response and the SCRAM-SHA-256 client, with the
    server side of RFC 5802 as its specification, SASLprep being a parameter. *)
From S2P Require Import Prelude Errors Effects Crypto.

(** ** md5.go *)

Definition MD5Password (user password salt : bytes) : bytes :=
  let innerHex := hex (Md5.Sum (password ++ user)) in
  str "md5" ++ hex (Md5.Sum (innerHex ++ salt)).

(** ** scram.go *)

Definition MechSCRAMSHA256 : bytes := str "SCRAM-SHA-256".
Definition MechSCRAMSHA256Plus : bytes := str "SCRAM-SHA-256-PLUS".

Record SCRAM := mkSCRAM {
  password : bytes;
  clientNon : bytes;
  clientFirstBare : bytes;
  serverFirst : bytes;
  serverSig : bytes
}.

(** [nonce] is what [rand.Read] produced, or its error. *)
Definition NewSCRAM (nonce : gerror + bytes) (pw : bytes) : gerror + SCRAM :=
  match nonce with
  | inl e => inl e
  | inr n => inr (mkSCRAM pw (Base64.EncodeToString n) [] [] [])
  end.

(** The loop of splitNulList; [cur] is [b[start:i]]. *)
Fixpoint nul_list (cur b : bytes) : list bytes :=
  match b with
  | [] => []
  | c :: b =>
      if beq c x00 then match cur with [] => nul_list [] b | _ => cur :: nul_list [] b end
      else nul_list (cur ++ [c]) b
  end.
Definition splitNulList (b : bytes) : list bytes := nul_list [] b.

Definition PickMechanism (body : bytes) : gerror + bytes :=
  if existsb (λ m, bool_decide (m = MechSCRAMSHA256)) (splitNulList body) then inr MechSCRAMSHA256
  else inl (EFmt "auth: server offered no supported SCRAM mechanism" []).

Definition ClientFirst : prog SCRAM bytes :=
  _ ← modify (λ s, mkSCRAM (password s) (clientNon s) (str "n=,r=" ++ clientNon s) (serverFirst s) (serverSig s));
  gets (λ s, str "n,," ++ clientFirstBare s).

(** [strings.Split(s, ",")]. *)
Fixpoint split_comma (s : bytes) : list bytes :=
  match s with
  | [] => [[]]
  | c :: s =>
      if beq c ","%byte then [] :: split_comma s
      else match split_comma s with x :: l => (c :: x) :: l | [] => [[c]] end
  end.

(** The loop of parseServerFirst over the attributes. *)
Fixpoint server_fields (kvs : list bytes) (r salt : bytes) (iter : Z) : gerror + (bytes * bytes * Z) :=
  match kvs with
  | [] => inr (r, salt, iter)
  | (k :: e :: v) :: kvs =>
      if negb (beq e "="%byte) then server_fields kvs r salt iter
      else if beq k "r"%byte then server_fields kvs v salt iter
      else if beq k "s"%byte then server_fields kvs r v iter
      else if beq k "i"%byte then
        match ParseInt64 v with
        | Some n => server_fields kvs r salt n
        | None => inl (EFmt "auth: bad iteration count" [])
        end
      else server_fields kvs r salt iter
  | _ :: kvs => server_fields kvs r salt iter
  end.

Definition parseServerFirst (s : bytes) : gerror + (bytes * bytes * Z) :=
  match server_fields (split_comma s) [] [] 0 with
  | inl e => inl e
  | inr (r, salt, iter) =>
      if bool_decide (r = []) || bool_decide (salt = []) || (iter <=? 0)
      then inl (EFmt "auth: malformed server-first-message" [])
      else inr (r, salt, iter)
  end.

(** [for i := 1; i < iter; i++ { U = prf(U); T ^= U }] *)
Fixpoint pbkdf2_loop (n : nat) (password U T : bytes) : bytes :=
  match n with
  | O => T
  | S n => let U := hmacSHA256 password U in pbkdf2_loop n password U (xorBytes T U)
  end.

Definition pbkdf2_block (password salt : bytes) (iter block : Z) : bytes :=
  let U := hmacSHA256 password (salt ++ be_put 4 block) in
  pbkdf2_loop (Z.to_nat (iter - 1)) password U U.

Definition pbkdf2HMACSHA256 (password salt : bytes) (iter keyLen : Z) : bytes :=
  let numBlocks := (keyLen + 32 - 1) / 32 in
  take (Z.to_nat keyLen)
    (concat (map (λ b, pbkdf2_block password salt iter (Z.of_nat b)) (seq 1 (Z.to_nat numBlocks)))).

Definition ClientFinal (sf : bytes) : prog SCRAM bytes :=
  _ ← modify (λ s, mkSCRAM (password s) (clientNon s) (clientFirstBare s) sf (serverSig s));
  s ← ask;
  fields ← of_sum (parseServerFirst (serverFirst s));
  let '(r, salt, iter) := fields : bytes * bytes * Z in
  if negb (HasPrefix (clientNon s) r) then throw (EFmt "auth: server nonce does not extend client nonce" [])
  else
    match Base64.DecodeString salt with
    | None => throw (EWrapped "auth: bad salt" (EFmt "illegal base64 data" []))
    | Some saltBytes =>
        let salted := pbkdf2HMACSHA256 (password s) saltBytes iter 32 in
        let clientKey := hmacSHA256 salted (str "Client Key") in
        let storedKey := Sha256.Sum256 clientKey in
        let clientFinalNoProof := str "c=biws,r=" ++ r in
        let authMsg := clientFirstBare s ++ str "," ++ serverFirst s ++ str "," ++ clientFinalNoProof in
        let clientSig := hmacSHA256 storedKey authMsg in
        let clientProof := xorBytes clientKey clientSig in
        let serverKey := hmacSHA256 salted (str "Server Key") in
        _ ← modify (λ s, mkSCRAM (password s) (clientNon s) (clientFirstBare s) (serverFirst s) (hmacSHA256 serverKey authMsg));
        mret (clientFinalNoProof ++ str ",p=" ++ Base64.EncodeToString clientProof)
    end.

(** The loop of Verify; the comparison is hmac.Equal. *)
Fixpoint verify_fields (sig : bytes) (kvs : list bytes) : gerror + unit :=
  match kvs with
  | [] => inl (EFmt "auth: server-final-message missing v=" [])
  | kv :: kvs =>
      if HasPrefix (str "v=") kv then
        match Base64.DecodeString (drop 2 kv) with
        | None => inl (EWrapped "auth: bad server signature encoding" (EFmt "illegal base64 data" []))
        | Some got => if bool_decide (got = sig) then inr tt else inl (EFmt "auth: server signature mismatch" [])
        end
      else if HasPrefix (str "e=") kv then inl (EFmt "auth: SCRAM error" [])
      else verify_fields sig kvs
  end.
Definition Verify (s : SCRAM) (serverFinal : bytes) : gerror + unit :=
  verify_fields (serverSig s) (split_comma serverFinal).

(** ** Specification: RFC 5802 *)

(** Hi(str, salt, i): the exclusive or of the first [i] iterates. *)
Fixpoint iterates (n : nat) (password U : bytes) : list bytes :=
  match n with O => [] | S n => let U := hmacSHA256 password U in U :: iterates n password U end.
Definition Hi (password salt : bytes) (i : Z) : bytes :=
  match iterates (Z.to_nat i) password (salt ++ be_put 4 1) with
  | [] => []
  | U1 :: Us => fold_left xorBytes Us U1
  end.

(** What the server keeps for a user: SaltedPassword is Hi(Normalize(password),
    salt, i), where Normalize is SASLprep (RFC 4013), a parameter. *)
Record credentials := { cr_salt : bytes; cr_iter : Z; StoredKey : bytes; ServerKey : bytes }.
Definition enrol (Normalize : bytes → bytes) (password salt : bytes) (i : Z) : credentials :=
  let salted := Hi (Normalize password) salt i in
  {| cr_salt := salt; cr_iter := i;
     StoredKey := Sha256.Sum256 (hmacSHA256 salted (str "Client Key"));
     ServerKey := hmacSHA256 salted (str "Server Key") |}.

Definition server_first (cr : credentials) (clientNonce serverNonce : bytes) : bytes :=
  str "r=" ++ clientNonce ++ serverNonce ++ str ",s=" ++ Base64.EncodeToString (cr_salt cr) ++
  str ",i=" ++ AppendInt [] (cr_iter cr).

(** The server recovers the client key from the proof and checks its hash. *)
Definition server_accepts (cr : credentials) (authMessage proof : bytes) : Prop :=
  Sha256.Sum256 (xorBytes proof (hmacSHA256 (StoredKey cr) authMessage)) = StoredKey cr.
Definition server_final (cr : credentials) (authMessage : bytes) : bytes :=
  str "v=" ++ Base64.EncodeToString (hmacSHA256 (ServerKey cr) authMessage).

(** ** Lemmas *)

Lemma length_Sum256 m : length (Sha256.Sum256 m) = 32%nat.
Proof. unfold Sha256.Sum256, Sha256.digest. by rewrite !length_app, !length_be_put. Qed.
Lemma length_hmac k m : length (hmacSHA256 k m) = 32%nat.
Proof. apply length_Sum256. Qed.
Lemma length_xorBytes a b : length (xorBytes a b) = Nat.min (length a) (length b).
Proof. apply length_zip_with. Qed.

Lemma xor_byte_cancel x y : mkbyte (Z.lxor (Z.lxor x y mod 256) y) = mkbyte x.
Proof.
  apply mkbyte_mod_eq. change 256 with (2 ^ 8). apply Z.bits_inj'. intros n Hn.
  destruct (Z.lt_ge_cases n 8).
  - rewrite !Z.mod_pow2_bits_low, !Z.lxor_spec, !Z.mod_pow2_bits_low, !Z.lxor_spec by lia.
    by destruct (Z.testbit x n), (Z.testbit y n).
  - by rewrite !Z.mod_pow2_bits_high by lia.
Qed.

Lemma xorBytes_cancel a b : (length a <= length b)%nat → xorBytes (xorBytes a b) b = a.
Proof.
  revert b. induction a as [|x a IH]; intros [|y b] Hl; cbn in *; try done; [lia|].
  f_equal; [|apply IH; lia]. by rewrite byteZ_mkbyte, xor_byte_cancel, mkbyte_byteZ.
Qed.

(** *** PBKDF2 *)

Lemma pbkdf2_loop_eq n pw : ∀ U T, pbkdf2_loop n pw U T = fold_left xorBytes (iterates n pw U) T.
Proof. induction n as [|n IH]; intros U T; [done|]. cbn [pbkdf2_loop iterates fold_left]. by rewrite IH. Qed.

Lemma length_pbkdf2_loop n pw : ∀ U T, length T = 32%nat → length (pbkdf2_loop n pw U T) = 32%nat.
Proof.
  induction n as [|n IH]; intros U T HT; [done|]. cbn [pbkdf2_loop]. apply IH.
  by rewrite length_xorBytes, length_hmac, HT.
Qed.

Lemma pbkdf2_Hi pw salt i : 1 <= i → pbkdf2HMACSHA256 pw salt i 32 = Hi pw salt i ∧ length (Hi pw salt i) = 32%nat.
Proof.
  intros Hiter. unfold pbkdf2HMACSHA256. change (Z.to_nat ((32 + 32 - 1) / 32)) with 1%nat. cbn [seq map concat].
  rewrite app_nil_r. unfold pbkdf2_block. change (be_put 4 (Z.of_nat 1)) with (be_put 4 1).
  set (U := hmacSHA256 pw _).
  assert (pbkdf2_loop (Z.to_nat (i - 1)) pw U U = Hi pw salt i) as E.
  { unfold Hi. replace (Z.to_nat i) with (S (Z.to_nat (i - 1))) by lia. cbn [iterates]. apply pbkdf2_loop_eq. }
  assert (length (Hi pw salt i) = 32%nat) as Hl by (rewrite <- E; apply length_pbkdf2_loop, length_hmac).
  split; [|done]. rewrite E. apply take_ge. rewrite Hl. done.
Qed.

(** *** Attributes *)

Lemma split_comma_app x s : (","%byte ∉ x) → split_comma (x ++ ","%byte :: s) = x :: split_comma s.
Proof.
  induction x as [|c x IH]; intros Hx; [done|]. rewrite not_elem_of_cons in Hx. destruct Hx as [Hc Hx].
  cbn [app split_comma]. assert (beq c ","%byte = false) as -> by (apply beq_false; congruence). by rewrite IH.
Qed.
Lemma split_comma_one x : (","%byte ∉ x) → split_comma x = [x].
Proof.
  induction x as [|c x IH]; intros Hx; [done|]. rewrite not_elem_of_cons in Hx. destruct Hx as [Hc Hx].
  cbn [split_comma]. assert (beq c ","%byte = false) as -> by (apply beq_false; congruence). by rewrite IH.
Qed.

Lemma no_comma_forallb (f : byte → bool) x : f ","%byte = false → forallb f x = true → (","%byte ∉ x).
Proof. intros Hf Hx Hin. rewrite forallb_forall in Hx. apply list_elem_of_In in Hin. specialize (Hx _ Hin). congruence. Qed.
Lemma encode_no_comma l : (","%byte ∉ Base64.EncodeToString l).
Proof. by apply (no_comma_forallb Base64.safe); [|apply Base64.encode_safe]. Qed.
Lemma decimal_no_comma n : 0 <= n → (","%byte ∉ AppendInt [] n).
Proof. intros Hn. by apply (no_comma_forallb is_digit); [|apply AppendInt_digits]. Qed.

(** Literals and concatenations without a comma. *)
Ltac no_comma :=
  repeat (apply not_elem_of_app; split);
  first [done | apply encode_no_comma | by apply decimal_no_comma
        | by apply (no_comma_forallb (λ c, negb (beq c ","%byte)))].

Lemma encode_nonempty l : l ≠ [] → Base64.EncodeToString l ≠ [].
Proof. by destruct l as [|a [|b [|c l]]]. Qed.

Lemma parse_server_first cr cn sn : (","%byte ∉ cn ++ sn) → cn ++ sn ≠ [] → cr_salt cr ≠ [] → 1 <= cr_iter cr < 2 ^ 63 →
  parseServerFirst (server_first cr cn sn) = inr (cn ++ sn, Base64.EncodeToString (cr_salt cr), cr_iter cr).
Proof.
  intros Hn Hne Hs Hiter. unfold parseServerFirst, server_first.
  assert (str "r=" ++ cn ++ sn ++ str ",s=" ++ Base64.EncodeToString (cr_salt cr) ++ str ",i=" ++ AppendInt [] (cr_iter cr) =
    (str "r=" ++ cn ++ sn) ++ ","%byte :: (str "s=" ++ Base64.EncodeToString (cr_salt cr)) ++ ","%byte ::
      (str "i=" ++ AppendInt [] (cr_iter cr))) as -> by (by rewrite <- !app_assoc).
  apply not_elem_of_app in Hn as [Hcn Hsn]. pose proof (decimal_no_comma (cr_iter cr) ltac:(lia)).
  rewrite split_comma_app by no_comma. rewrite split_comma_app by no_comma. rewrite split_comma_one by no_comma.
  cbn -[ParseInt64 AppendInt]. rewrite ParseInt64_dec by lia.
  rewrite (bool_decide_false _ Hne), (bool_decide_false _ (encode_nonempty _ Hs)).
  by destruct (Z.leb_spec (cr_iter cr) 0); [lia|].
Qed.

(** A verified final message carries the expected signature. *)
Lemma verify_sound sig kvs : verify_fields sig kvs = inr tt →
  ∃ x, (str "v=" ++ x) ∈ kvs ∧ Base64.DecodeString x = Some sig.
Proof.
  induction kvs as [|kv kvs IH]; [done|]. cbn [verify_fields]. destruct (HasPrefix (str "v=") kv) eqn:E.
  - apply HasPrefix_inv in E as [x ->]. change (drop 2 (str "v=" ++ x)) with x.
    destruct (Base64.DecodeString x) as [got|] eqn:Ed; [|done]. case_bool_decide; [subst|done]. intros _.
    exists x. split; [by left|done].
  - destruct (HasPrefix (str "e=") kv); [done|]. intros H. destruct (IH H) as (x & Hx & Hd). exists x. split; [by right|done].
Qed.

(** C39. SCRAM-SHA-256 against an RFC 5802 server: for every password that
    SASLprep leaves as it is (the client does not normalize: see
    unprepared_password_rejected), salt, iteration count and pair of nonces, the
    client's final message carries a
    proof the server accepts, the client accepts the server's signature, and
    it accepts no message without a v= attribute that decodes to exactly that
    signature. *)
Theorem scram_honest_server (Normalize : bytes → bytes) (pw rnd salt snonce : bytes) (i : Z) (s0 : SCRAM)
  (Hprep : Normalize pw = pw) (Hs0 : NewSCRAM (inr rnd) pw = inr s0) (Hrnd : rnd ≠ []) (Hsalt : salt ≠ []) (Hiter : 1 <= i < 2 ^ 63)
  (Hsn : ","%byte ∉ snonce) :
  let cn := Base64.EncodeToString rnd in
  let cr := enrol Normalize pw salt i in
  let sf := server_first cr cn snonce in
  let wp := str "c=biws,r=" ++ cn ++ snonce in
  let am := (str "n=,r=" ++ cn) ++ str "," ++ sf ++ str "," ++ wp in
  ∃ s1 s2 proof,
    ClientFirst s0 = (Ret (str "n,,n=,r=" ++ cn), s1) ∧
    ClientFinal sf s1 = (Ret (wp ++ str ",p=" ++ Base64.EncodeToString proof), s2) ∧
    server_accepts cr am proof ∧ Verify s2 (server_final cr am) = inr tt ∧
    ∀ m, Verify s2 m = inr tt →
      ∃ x, (str "v=" ++ x) ∈ split_comma m ∧ Base64.DecodeString x = Some (hmacSHA256 (ServerKey cr) am).
Proof.
  assert (enrol Normalize pw salt i = enrol id pw salt i) as -> by (unfold enrol; by rewrite Hprep).
  intros cn cr sf wp am. injection Hs0 as <-.
  pose proof (encode_no_comma rnd) as Hcn. fold cn in Hcn. pose proof (encode_nonempty rnd Hrnd) as Hne. fold cn in Hne.
  destruct (pbkdf2_Hi pw salt i ltac:(lia)) as [Hp _].
  set (ck := hmacSHA256 (Hi pw salt i) (str "Client Key")).
  set (proof := xorBytes ck (hmacSHA256 (Sha256.Sum256 ck) am)).
  eexists _, _, proof. split; [reflexivity|]. split; [|split; [|split]].
  - unfold ClientFinal, mbind, prog_bind, modify, ask, of_sum. cbn [serverFirst clientNon clientFirstBare password].
    assert (parseServerFirst sf = inr (cn ++ snonce, Base64.EncodeToString salt, i)) as ->.
    { apply (parse_server_first cr cn snonce); [by apply not_elem_of_app|by destruct cn|done|done]. }
    cbn [mret prog_ret]. rewrite HasPrefix_app. cbn [negb]. rewrite Base64.decode_encode.
    rewrite Hp. reflexivity.
  - unfold server_accepts. change (StoredKey cr) with (Sha256.Sum256 ck). unfold proof.
    rewrite xorBytes_cancel; [done|]. by rewrite !length_hmac.
  - unfold Verify, server_final. rewrite split_comma_one.
    2:{ no_comma. }
    unfold verify_fields. rewrite HasPrefix_app.
    change (drop 2 (str "v=" ++ ?x)) with x. rewrite Base64.decode_encode. cbn [serverSig].
    by rewrite bool_decide_true.
  - intros m Hm. exact (verify_sound _ _ Hm).
Qed.

(** Two rules of SASLprep: U+00AA stands for a, the soft hyphen for nothing. *)
Fixpoint two_rules (s : bytes) : bytes :=
  match s with
  | xc2 :: xaa :: s => "a"%byte :: two_rules s
  | xc2 :: xad :: s => two_rules s
  | c :: s => c :: two_rules s
  | [] => []
  end.

Lemma scram_honest_server_witness :
  let cn := Base64.EncodeToString (str "0123456789abcdefgh") in
  let cr := enrol two_rules (str "pencil") (str "salt") 2 in
  let sf := server_first cr cn (str "xyz") in
  let wp := str "c=biws,r=" ++ cn ++ str "xyz" in
  let am := (str "n=,r=" ++ cn) ++ str "," ++ sf ++ str "," ++ wp in
  ∃ s1 s2 proof,
    ClientFirst (mkSCRAM (str "pencil") cn [] [] []) = (Ret (str "n,,n=,r=" ++ cn), s1) ∧
    ClientFinal sf s1 = (Ret (wp ++ str ",p=" ++ Base64.EncodeToString proof), s2) ∧
    server_accepts cr am proof ∧ Verify s2 (server_final cr am) = inr tt ∧
    ∀ m, Verify s2 m = inr tt →
      ∃ x, (str "v=" ++ x) ∈ split_comma m ∧ Base64.DecodeString x = Some (hmacSHA256 (ServerKey cr) am).
Proof.
  apply (scram_honest_server two_rules (str "pencil") (str "0123456789abcdefgh") (str "salt") (str "xyz") 2
    (mkSCRAM (str "pencil") (Base64.EncodeToString (str "0123456789abcdefgh")) [] [] [])).
  - reflexivity.
  - reflexivity.
  - discriminate.
  - discriminate.
  - split; [discriminate|reflexivity].
  - apply (no_comma_forallb (λ c, negb (beq c ","%byte))); reflexivity.
Defined.

(** A password that SASLprep changes: the server prepares it when the user is
    created, this client sends the proof of the bytes as they are, and the right
    password is refused. *)
Definition unprepared : bytes := [xc2; xaa].
Definition unprepared_cr : credentials := enrol two_rules unprepared (str "salt") 1.
Definition unprepared_first : bytes := server_first unprepared_cr (str "YWJj") (str "xyz").
Definition unprepared_message : bytes :=
  (str "n=,r=YWJj") ++ str "," ++ unprepared_first ++ str "," ++ str "c=biws,r=YWJjxyz".
Lemma unprepared_password_rejected : ∃ s1 s2 proof,
  ClientFirst (mkSCRAM unprepared (str "YWJj") [] [] []) = (Ret (str "n,,n=,r=YWJj"), s1) ∧
  ClientFinal unprepared_first s1 = (Ret (str "c=biws,r=YWJjxyz,p=" ++ Base64.EncodeToString proof), s2) ∧
  ~ server_accepts unprepared_cr unprepared_message proof.
Proof.
  set (ck := hmacSHA256 (Hi unprepared (str "salt") 1) (str "Client Key")).
  eexists _, _, (xorBytes ck (hmacSHA256 (Sha256.Sum256 ck) unprepared_message)).
  split; [reflexivity|]. split; [vm_compute; reflexivity|]. eapply (bool_decide_eq_false_1 (_ = _)). vm_compute. reflexivity.
Qed.
