(* ===== verification/Conn.v ===== *)
(** pgz/conn.go: the handshake (TLS negotiation, startup, authentication) and
    the SELECT-only guard.  The TLS library is a parameter: what it makes of
    the connection after the server's 'S'. *)
From S2P Require Import Prelude Protocol JsonWriter Errors Effects Wire Rows Args StmtCache Client Crypto Auth.

(** ** Authentication *)

(** [auth] runs the client of the SASL exchange in progress. *)
Definition with_scram {A} (sc : option SCRAM) (missing : string) (m : prog SCRAM A) : client (A * option SCRAM) :=
  match sc with
  | None => throw (EFmt missing [])
  | Some s =>
      match m s with
      | (Ret a, s) => mret (a, Some s)
      | (Err e, _) => throw e
      | (Panic, _) => panic
      | (Stuck, _) => stuck
      end
  end.

Definition sendPassword (payload : io unit) : client unit := wire (_ ← message MsgPassword payload; Flush).

(** [c.scram] is the accumulator [sc]; [rnd] is what rand.Read yields for a new
    exchange. *)
Definition handleAuth (rnd : gerror + bytes) (sc : option SCRAM) (body : bytes) : client (option SCRAM) :=
  if Zlen body <? 4 then throw (EFmt "pgz: short Authentication msg" [])
  else
    let code := int32 (beU32 body) in
    if code =? AuthOK then mret sc
    else if code =? AuthCleartextPassword then
      c ← gets cfg; _ ← sendPassword (bCString (Password c)); mret sc
    else if code =? AuthMD5Password then
      if Zlen body <? 8 then throw (EFmt "pgz: short MD5 salt" [])
      else
        c ← gets cfg;
        _ ← sendPassword (bCString (MD5Password (User c) (Password c) (slice 4 8 body)));
        mret sc
    else if code =? AuthSASL then
      mech ← of_sum (PickMechanism (drop 4 body));
      c ← gets cfg;
      s ← of_sum (NewSCRAM rnd (Password c));
      first ← with_scram (Some s) "" ClientFirst;
      _ ← sendPassword (_ ← bCString mech; _ ← bInt32 (int32 (Zlen first.1)); bBytes first.1);
      mret first.2
    else if code =? AuthSASLContinue then
      final ← with_scram sc "pgz: SASLContinue without SASL init" (ClientFinal (drop 4 body));
      _ ← sendPassword (bBytes final.1);
      mret final.2
    else if code =? AuthSASLFinal then
      r ← with_scram sc "pgz: SASLFinal without SASL init" (s ← ask; of_sum (Verify s (drop 4 body)));
      mret r.2
    else throw (EFmt "pgz: unsupported auth code" [code]).

(** ** Startup *)

Definition startupPayload (c : Config) : io unit :=
  _ ← bInt32 ProtocolVersion3;
  _ ← bCString (str "user");
  _ ← bCString (User c);
  _ ← match Database c with [] => mret tt | d => _ ← bCString (str "database"); bCString d end;
  _ ← bCString (str "application_name");
  _ ← bCString (ApplicationName c);
  _ ← bCString (str "client_encoding");
  _ ← bCString (str "UTF8");
  _ ← mapM_ (λ kv : bytes * bytes, _ ← bCString kv.1; bCString kv.2) (RuntimeParams c);
  bByte x00.

Definition startup_step (rnd : gerror + bytes) (sc : option SCRAM) (t : byte) (body : bytes) : client (option SCRAM + unit) :=
  if beq t MsgAuthentication then sc ← handleAuth rnd sc body; again sc
  else if beq t MsgParameterStatus then _ ← on_parameter body; again sc
  else if beq t MsgBackendKeyData then
    _ ← (if 8 <=? Zlen body
         then modify (set_key (int32 (beU32 body)) (int32 (beU32 (drop 4 body))))
         else mret tt);
    again sc
  else if beq t MsgReadyForQuery then leave tt
  else if beq t MsgErrorResponse then throw (EPg (Parse body))
  else if beq t MsgNoticeResponse then _ ← on_notice body; again sc
  else if beq t MsgNegotiateProtocol then again sc
  else throw (EFmt "pgz: unexpected startup msg" [byteZ t]).

Definition startup_loop (rnd : gerror + bytes) : client unit := λ s,
  read_loop (wire ReadMessage) (startup_step rnd) (λ _ e, throw (EWrapped "pgz: read startup reply" e)) (rounds s) None s.

Definition startup (rnd : gerror + bytes) : client unit :=
  c ← gets cfg;
  _ ← wrap "pgz: send startup" (wire (b ← BeginNoType; _ ← startupPayload c; Send b));
  startup_loop rnd.

(** ** TLS negotiation *)

(** readErrorBody's two [nc.Read] calls, [raw] being what is in the socket: each
    returns what has arrived, at most [n1] and [n2] bytes of what it asks for,
    and what it does not fill stays zero. *)
Definition readErrorBody (n1 n2 : nat) (raw : bytes) : gerror + bytes :=
  match take (Nat.min 4 n1) raw with
  | [] => inl (EEOF false)
  | hdr =>
      let length := be_get (hdr ++ repeat x00 (4 - Datatypes.length hdr)) in
      if length <? 4 then inl (EFmt "pgz: bogus error length" [length])
      else
        let n := Z.to_nat (length - 4) in
        let body := take (Nat.min n n2) (drop (Datatypes.length hdr) raw) in
        match n, body with
        | S _, [] => inl (EEOF false)
        | _, _ => inr (body ++ repeat x00 (n - Datatypes.length body))
        end
  end.

Section Tls.
(** The TLS handshake over the socket, and what the two reads of an error reply
    find in it. *)
Context (handshake : bytes * tls_check → Conn → gerror + Conn) (n1 n2 : nat).

Definition maybeNegotiateTLS : client unit :=
  c ← gets cfg;
  match buildTLS c with
  | None => mret tt
  | Some tlsCfg =>
      _ ← wrap "pgz: SSLRequest" (wire (b ← BeginNoType; _ ← bInt32 sslRequestCode; Send b));
      resp ← wrap "pgz: SSLRequest reply" (wire ReadByte);
      if beq resp "S"%byte then
        k ← gets conn;
        match handshake tlsCfg k with
        | inl e => throw (EWrapped "pgz: TLS handshake" e)
        | inr t => modify (λ c, set_conn (SwapNet t (conn c)) c)
        end
      else if beq resp "N"%byte then
        if 2 <=? ssl_rank (sslMode c) then throw (EFmt "pgz: server refused TLS but ssl mode is require/verify-*" [])
        else mret tt
      else if beq resp "E"%byte then
        k ← gets conn;
        body ← wrap "pgz: SSLRequest error reply" (of_sum (readErrorBody n1 n2 (inbound k)));
        throw (EPg (Parse body))
      else throw (EFmt "pgz: unexpected SSLRequest reply byte" [byteZ resp])
  end.

(** Open, from the dialed socket [nc] on. *)
Definition Open (rnd : gerror + bytes) (c : Config) (nc : Conn) : res unit * Client :=
  (_ ← maybeNegotiateTLS; startup rnd) (newClient c nc).
End Tls.

(** ** The guard *)

Definition is_blank (c : byte) : bool := beq c x20 || beq c x09 || beq c x0a || beq c x0d.
Fixpoint trim (s : bytes) : bytes := match s with c :: r => if is_blank c then trim r else s | [] => [] end.

(** What follows the first line break; [None] without one. *)
Fixpoint after_newline (s : bytes) : option bytes :=
  match s with [] => None | c :: r => if beq c x0a then Some r else after_newline r end.

Fixpoint skip_line_comments (fuel : nat) (s : bytes) : bytes :=
  match fuel with
  | O => s
  | S fuel =>
      if HasPrefix (str "--") s then
        match after_newline s with
        | Some r => skip_line_comments fuel (trim r)
        | None => []
        end
      else s
  end.

(** What follows the first occurrence of the end of comment. *)
Fixpoint after_close (s : bytes) : option bytes :=
  match s with
  | [] => None
  | c :: r => if HasPrefix ["*"%byte; "/"%byte] s then Some (drop 1 r) else after_close r
  end.

Fixpoint skip_block_comments (fuel : nat) (s : bytes) : bytes :=
  match fuel with
  | O => s
  | S fuel =>
      if HasPrefix ["/"%byte; "*"%byte] s then
        match after_close s with
        | Some r => skip_block_comments fuel (trim r)
        | None => []
        end
      else s
  end.

(** strings.ToUpper as far as ASCII keywords can see: the dotless i and the
    long s are the two other characters whose upper case is ASCII. *)
Fixpoint ToUpper (s : bytes) : bytes :=
  match s with
  | xc4 :: xb1 :: r => "I"%byte :: ToUpper r
  | xc5 :: xbf :: r => "S"%byte :: ToUpper r
  | c :: r => (if (97 <=? byteZ c) && (byteZ c <=? 122) then mkbyte (byteZ c - 32) else c) :: ToUpper r
  | [] => []
  end.

Definition keywords : list bytes := [str "SELECT"; str "WITH"; str "VALUES"; str "TABLE"; str "SHOW"].

Definition strip (sql : bytes) : bytes :=
  let s := trim sql in
  let s := skip_line_comments (S (length s)) s in
  skip_block_comments (S (length s)) s.

Definition rejectNonSelect (sql : bytes) : gerror + unit :=
  let upper := ToUpper (strip sql) in
  if existsb (λ k, HasPrefix k upper) keywords then inr tt
  else inl (EFmt "pgz: only SELECT-shaped queries are accepted" []).

(** ** Specification *)

(** The parameters of the startup message. *)
Definition startup_params (c : Config) : list (bytes * bytes) :=
  [(str "user", User c)] ++ match Database c with [] => [] | d => [(str "database", d)] end ++
  [(str "application_name", ApplicationName c); (str "client_encoding", str "UTF8")] ++ RuntimeParams c.
Definition cstring (s : bytes) : bytes := s ++ [x00].
Definition startup_body (c : Config) : bytes :=
  be_put 4 ProtocolVersion3 ++ concat (map (λ kv : bytes * bytes, cstring kv.1 ++ cstring kv.2) (startup_params c)) ++ [x00].

(** The messages of a trusting server: AuthOK, parameters, the cancel key. *)
Definition greeting (m : byte * bytes) : Prop :=
  msg_ok m ∧
  ((m.1 = MsgAuthentication ∧ m.2 = be_put 4 AuthOK) ∨ m.1 = MsgParameterStatus ∨
   (m.1 = MsgBackendKeyData ∧ 8 <= Zlen m.2) ∨ m.1 = MsgNoticeResponse ∨ m.1 = MsgNegotiateProtocol).

Definition greet (c : Client) (m : byte * bytes) : Client :=
  if beq m.1 MsgBackendKeyData then set_key (int32 (beU32 m.2)) (int32 (beU32 (drop 4 m.2))) c else absorb c m.

(** ** Lemmas *)

Lemma greet_conn k c m : greet (set_conn k c) m = set_conn k (greet c m).
Proof. unfold greet. destruct (beq _ _); [done|apply absorb_conn]. Qed.

Lemma startup_step_greeting rnd m : greeting m → ∀ sc c, startup_step rnd sc m.1 m.2 c = (Ret (inl sc), greet c m).
Proof.
  intros [_ Hm] sc c. destruct m as [t b]. cbn [fst snd] in *.
  destruct Hm as [[-> ->]|[-> |[[-> Hl]|[-> | ->]]]]; try done.
  unfold startup_step, greet. cbn -[Z.leb beU32]. by destruct (Z.leb_spec 8 (Zlen b)); [|lia].
Qed.

Lemma writes_startupPayload c : writes (startupPayload c) (startup_body c).
Proof.
  unfold startupPayload, startup_body, startup_params.
  assert (∀ s, writes (bCString s) (cstring s)) as Hs by (intros s; apply writes_bCString).
  eapply writes_eq.
  - apply writes_seq; [apply writes_bInt32|]. do 2 (apply writes_seq; [apply Hs|]).
    apply (writes_seq _ _ (match Database c with [] => [] | d => cstring (str "database") ++ cstring d end)).
    { destruct (Database c); [apply writes_nil|apply writes_seq; apply Hs]. }
    do 4 (apply writes_seq; [apply Hs|]). apply writes_seq; [|apply writes_bByte].
    apply (writes_mapM _ (λ kv : bytes * bytes, cstring kv.1 ++ cstring kv.2)). intros kv. apply writes_seq; apply Hs.
  - destruct (Database c); cbn [app map concat fst snd]; rewrite <- ?app_assoc; cbn [app]; rewrite ?map_app, ?concat_app;
      cbn [map concat fst snd app]; rewrite <- ?app_assoc; done.
Qed.

Lemma sends_startup c : room (conn c) = None → writeBuf (conn c) = [] →
  wrap "pgz: send startup" (wire (b ← BeginNoType; _ ← startupPayload (cfg c); Send b)) c =
  (Ret tt, set_conn (set_writeBuf [] (set_socket (sent (conn c) ++ frameNoType (startup_body (cfg c))) None (conn c))) c).
Proof.
  intros Hr Hb. unfold wrap, wire, zoom.
  assert ((b ← BeginNoType; _ ← startupPayload (cfg c); Send b) (conn c) =
    (_ ← (b ← BeginNoType; _ ← startupPayload (cfg c); Finish b); Flush) (conn c)) as ->.
  { rewrite bind_assoc. unfold mbind at 1 3, prog_bind at 1 3. destruct (BeginNoType (conn c)) as [[b|e| |] k]; try done.
    by rewrite bind_assoc. }
  step (writes_messageNoType _ _ (writes_startupPayload (cfg c)) (conn c) Hb). rewrite Flush_ok by done. by destruct (conn c).
Qed.

(** *** The guard *)

Lemma not_in_forallb a x : forallb (λ c, negb (beq c a)) x = true → (a ∉ x).
Proof.
  intros Hx Hin. rewrite forallb_forall in Hx. apply list_elem_of_In in Hin. specialize (Hx _ Hin).
  by assert (beq a a = true) as E by (by apply beq_true); rewrite E in Hx.
Qed.

Definition starts_blank (s : bytes) : bool := match s with c :: _ => is_blank c | [] => false end.

Lemma trim_app b s : forallb is_blank b = true → starts_blank s = false → trim (b ++ s) = s.
Proof.
  intros Hb Hs. induction b as [|c b IH]; cbn in *; [destruct s as [|c s]; [done|]; cbn in *; by rewrite Hs|].
  apply andb_prop in Hb as [-> Hb]. by apply IH.
Qed.

Lemma after_newline_app x r : (x0a ∉ x) → after_newline (x ++ x0a :: r) = Some r.
Proof.
  induction x as [|c x IH]; intros Hx; [done|]. rewrite not_elem_of_cons in Hx. destruct Hx as [Hc Hx].
  cbn. assert (beq c x0a = false) as -> by (apply beq_false; congruence). by apply IH.
Qed.

(** The first end of comment in a text with none earlier. *)
Lemma after_close_app a r : after_close (a ++ ["*"%byte]) = None →
  after_close (a ++ "*"%byte :: "/"%byte :: r) = Some r.
Proof.
  induction a as [|c a IH]; intros Ha; [done|]. cbn [app after_close] in *.
  assert (HasPrefix ["*"%byte; "/"%byte] (c :: a ++ "*"%byte :: "/"%byte :: r) =
    HasPrefix ["*"%byte; "/"%byte] (c :: a ++ ["*"%byte])) as -> by (destruct a; cbn; by destruct (beq "*" c)).
  destruct (HasPrefix _ _); [done|]. by apply IH.
Qed.

Definition line_comment (c : bytes * bytes) : bytes := str "--" ++ c.1 ++ [x0a] ++ c.2.
Definition line_ok (c : bytes * bytes) : Prop := (x0a ∉ c.1) ∧ forallb is_blank c.2 = true.
Definition block_comment (c : bytes * bytes) : bytes :=
  ["/"%byte; "*"%byte] ++ c.1 ++ ["*"%byte; "/"%byte] ++ c.2.
Definition block_ok (c : bytes * bytes) : Prop :=
  after_close ("*"%byte :: c.1 ++ ["*"%byte]) = None ∧ forallb is_blank c.2 = true.

(** Where a statement may start: not a blank, nor a comment of the kind given. *)
Definition starts_line (s : bytes) : bool := HasPrefix (str "--") s.
Definition starts_block (s : bytes) : bool := HasPrefix ["/"%byte; "*"%byte] s.

Lemma skip_lines ls s : Forall line_ok ls → starts_blank s = false → starts_line s = false → ∀ fuel,
  (length ls < fuel)%nat → skip_line_comments fuel (concat (map line_comment ls) ++ s) = s.
Proof.
  intros Hls Hb Hl. induction Hls as [|[x b] ls [Hx Hbl] _ IH]; intros fuel Hf; destruct fuel as [|fuel];
    try (cbn in Hf; lia).
  - cbn [map concat app skip_line_comments]. unfold starts_line in Hl. by rewrite Hl.
  - cbn [map concat]. unfold line_comment at 1. cbn [fst snd] in *. rewrite <- !app_assoc.
    cbn [skip_line_comments]. rewrite HasPrefix_app. cbn [app].
    change ("-"%byte :: "-"%byte :: ?k) with (str "--" ++ k).
    assert (after_newline (str "--" ++ x ++ x0a :: b ++ concat (map line_comment ls) ++ s) =
      Some (b ++ concat (map line_comment ls) ++ s)) as ->.
    { rewrite (app_assoc (str "--")). apply after_newline_app. apply not_elem_of_app. split; [|done].
      repeat (apply not_elem_of_cons; split; [done|]). apply not_elem_of_nil. }
    rewrite trim_app; [apply IH; cbn in Hf; lia|done|]. by destruct ls.
Qed.

Lemma skip_blocks bs s : Forall block_ok bs → starts_blank s = false → starts_block s = false → ∀ fuel,
  (length bs < fuel)%nat → skip_block_comments fuel (concat (map block_comment bs) ++ s) = s.
Proof.
  intros Hbs Hb Hl. induction Hbs as [|[x b] bs [Hx Hbl] _ IH]; intros fuel Hf; destruct fuel as [|fuel];
    try (cbn in Hf; lia).
  - cbn [map concat app skip_block_comments]. unfold starts_block in Hl. by rewrite Hl.
  - cbn [map concat]. unfold block_comment at 1. cbn [fst snd] in *. rewrite <- !app_assoc.
    cbn [skip_block_comments]. rewrite HasPrefix_app. cbn [app].
    assert (after_close ("/"%byte :: "*"%byte :: x ++ "*"%byte :: "/"%byte :: b ++ concat (map block_comment bs) ++ s) =
      Some (b ++ concat (map block_comment bs) ++ s)) as ->.
    { exact (after_close_app ("/"%byte :: "*"%byte :: x) _ Hx). }
    rewrite trim_app; [apply IH; cbn in Hf; lia|done|]. by destruct bs.
Qed.

Lemma length_concat_le {A} (f : A → bytes) l s : (∀ a, (0 < length (f a))%nat) →
  (length l <= length (concat (map f l) ++ s))%nat.
Proof. intros Hf. induction l as [|a l IH]; cbn; [lia|]. rewrite <- app_assoc, length_app. specialize (Hf a). lia. Qed.

Lemma strip_eq b ls bs s : forallb is_blank b = true → Forall line_ok ls → Forall block_ok bs →
  starts_blank s = false → starts_block s = false → (bs = [] → starts_line s = false) →
  strip (b ++ concat (map line_comment ls) ++ concat (map block_comment bs) ++ s) = s.
Proof.
  intros Hb Hls Hbs Hs Hsb Hsl. unfold strip.
  set (t := concat (map block_comment bs) ++ s).
  assert (starts_blank t = false ∧ starts_line t = false) as [Ht1 Ht2] by (destruct bs; [by split; [|apply Hsl]|done]).
  rewrite trim_app; [|done|by destruct ls].
  rewrite skip_lines; [|done|done|done|].
  2:{ pose proof (length_concat_le line_comment ls t). lapply H; [lia|]. intros [x y]. cbn. lia. }
  unfold t. rewrite skip_blocks; [done|done|done|done|].
  pose proof (length_concat_le block_comment bs s). lapply H; [lia|]. intros [x y]. cbn. lia.
Qed.

(** The SELECT-only guard: behind any blanks, then line comments, then
    block comments, a statement is accepted exactly when its upper case starts
    with one of the five keywords; so a line comment behind a block comment
    makes it refuse a query the server would run. *)
Theorem guard_exact (b : bytes) (ls bs : list (bytes * bytes)) (s : bytes)
  (Hlead : forallb is_blank b = true ∧ Forall line_ok ls ∧ Forall block_ok bs)
  (Hs : starts_blank s = false ∧ starts_block s = false ∧ (bs = [] → starts_line s = false)) :
  let sql := b ++ concat (map line_comment ls) ++ concat (map block_comment bs) ++ s in
  (rejectNonSelect sql = inr tt ↔ Exists (λ k, HasPrefix k (ToUpper s) = true) keywords) ∧
  (starts_line s = true → rejectNonSelect sql ≠ inr tt).
Proof.
  destruct Hlead as (Hb & Hls & Hbs), Hs as (H1 & H2 & H3). cbn zeta. unfold rejectNonSelect. rewrite strip_eq by done.
  split.
  - rewrite Exists_exists. destruct (existsb _ keywords) eqn:E.
    + apply existsb_exists in E as (k & Hk & Hp). split; [|done]. intros _. exists k. by rewrite list_elem_of_In.
    + split; [done|]. intros (k & Hk & Hp). assert (existsb (λ k, HasPrefix k (ToUpper s)) keywords = true); [|congruence].
      apply existsb_exists. exists k. by rewrite <- list_elem_of_In.
  - intros Hl. apply HasPrefix_inv in Hl as [r ->]. done.
Qed.

Lemma guard_exact_witness :
  let sql := str " " ++ concat (map line_comment [(str "c", [])]) ++
    concat (map block_comment [(str " x ", str " ")]) ++ str "-- y" in
  (rejectNonSelect sql = inr tt ↔ Exists (λ k, HasPrefix k (ToUpper (str "-- y")) = true) keywords) ∧
  (starts_line (str "-- y") = true → rejectNonSelect sql ≠ inr tt).
Proof.
  apply (guard_exact (str " ") [(str "c", [])] [(str " x ", str " ")] (str "-- y")).
  - split; [reflexivity|]. split; repeat constructor.
    apply not_in_forallb. reflexivity.
  - split; [reflexivity|]. split; [reflexivity|]. discriminate.
Defined.

(** Startup against a trusting server: exactly one startup message with
    the configured parameters is sent, and for any mix of AuthOK, parameters,
    cancel keys and notices the handshake succeeds, the client ending with the
    parameters and the key the server gave last. *)
Theorem startup_exact (rnd : gerror + bytes) (c : Client) (ms : list (byte * bytes)) (z rest : bytes)
  (Hroom : room (conn c) = None ∧ writeBuf (conn c) = [])
  (Hin : inbound (conn c) = wire_of ms ++ frame MsgReadyForQuery z ++ rest)
  (Hms : Forall greeting ms ∧ msg_ok (MsgReadyForQuery, z)) :
  ∃ k, startup rnd c = (Ret tt, set_conn k (fold_left greet ms c)) ∧ inbound k = rest ∧ writeBuf k = [] ∧ room k = None ∧
    sent k = sent (conn c) ++ frameNoType (startup_body (cfg c)).
Proof.
  destruct Hroom as [Hr Hb], Hms as [Hms Hz]. unfold startup.
  step (eq_refl : gets cfg c = (Ret (cfg c), c)). step (sends_startup c Hr Hb).
  set (k0 := set_writeBuf [] _). unfold startup_loop.
  destruct (script_loop (startup_step rnd) (λ sc _, sc) greet (λ _ e, throw (EWrapped "pgz: read startup reply" e)) greet_conn
    MsgReadyForQuery z rest (Ret tt) id ms None (rounds (set_conn k0 c)) (set_conn k0 c)) as (k & Hk & E); try done.
  - unfold rounds. cbn [conn set_conn]. change (inbound k0) with (inbound (conn c)). rewrite Hin, length_app.
    pose proof (length_wire_of ms). lia.
  - eapply Forall_impl; [exact Hms|]. intros m Hm. split; [apply Hm|]. by apply startup_step_greeting.
  - exists k. destruct Hk as (K1 & K2 & K3 & K4 & K5). rewrite E, (fold_touch_conn greet greet_conn). cbn [id].
    split; [done|]. split; [done|]. split; [by rewrite K5|]. split; [by rewrite K3|]. by rewrite K2.
Qed.

Definition demo_greeting : list (byte * bytes) :=
  [(MsgAuthentication, be_put 4 AuthOK); (MsgParameterStatus, str "TimeZone" ++ x00 :: str "UTC" ++ [x00]);
   (MsgBackendKeyData, be_put 4 77 ++ be_put 4 88)].

Lemma startup_exact_witness :
  ∃ k, startup (inr []) (newClient zero_config (New (wire_of demo_greeting ++ frame MsgReadyForQuery (str "I") ++ str "x") None)) =
      (Ret tt, set_conn k (fold_left greet demo_greeting
        (newClient zero_config (New (wire_of demo_greeting ++ frame MsgReadyForQuery (str "I") ++ str "x") None)))) ∧
    inbound k = str "x" ∧ writeBuf k = [] ∧ room k = None ∧ sent k = [] ++ frameNoType (startup_body (applyDefaults zero_config)).
Proof.
  apply (startup_exact (inr [])
    (newClient zero_config (New (wire_of demo_greeting ++ frame MsgReadyForQuery (str "I") ++ str "x") None))
    demo_greeting (str "I") (str "x")).
  - split; reflexivity.
  - reflexivity.
  - split; [|discriminate]. unfold demo_greeting.
    constructor; [split; [discriminate|left; split; reflexivity]|].
    constructor; [split; [discriminate|right; left; reflexivity]|].
    constructor; [split; [discriminate|right; right; left; split; [reflexivity|discriminate]]|]. constructor.
Defined.

(** *** TLS *)

Definition sslRequest : bytes := frameNoType (be_put 4 sslRequestCode).

Lemma sends_sslRequest k : writeBuf k = [] →
  ∃ r k', (b ← BeginNoType; _ ← bInt32 sslRequestCode; Send b) k = (r, k') ∧ sent k' `prefix_of` sent k ++ sslRequest ∧
    inbound k' = inbound k ∧ (r = Ret tt ∨ r = Err EWrite).
Proof.
  destruct k as [i s r bs rc w]. cbn. intros ->. destruct r as [n|].
  - destruct (Nat.leb_spec 8 n) as [H|H].
    + exists (Ret tt), (mkConn i (s ++ sslRequest) (Some (n - 8)%nat) bs rc []). split; [|split; [done|auto]].
      do 8 (destruct n as [|n]; [lia|]). reflexivity.
    + exists (Err EWrite), (mkConn i (s ++ take n sslRequest) (Some O) bs rc []). split; [|split; [|auto]].
      * do 8 (destruct n as [|n]; [reflexivity|]). lia.
      * apply prefix_app, prefix_take.
  - exists (Ret tt), (mkConn i (s ++ sslRequest) None bs rc []). split; [reflexivity|]. split; [done|auto].
Qed.

(** C38. When TLS is required, nothing but the SSLRequest ever crosses the socket in
    the clear: unless a TLS handshake succeeds, Open fails, whatever the server
    sends, and neither the startup message nor a password was written. *)
Theorem tls_required (handshake : bytes * tls_check → Conn → gerror + Conn) n1 n2 rnd c nc
  (Hmode : 2 <= ssl_rank (sslMode c))
  (Hno : ∀ rest, inbound nc = "S"%byte :: rest → ∀ tls k, ∃ e, handshake tls k = inl e) :
  ∃ e cl, Open handshake n1 n2 rnd c nc = (Err e, cl) ∧ sent (conn cl) `prefix_of` sslRequest.
Proof.
  assert (∃ e cl, maybeNegotiateTLS handshake n1 n2 (newClient c nc) = (Err e, cl) ∧ sent (conn cl) `prefix_of` sslRequest) as (e & cl & E & H).
  2: { exists e, cl. split; [|done]. unfold Open. by rewrite (bind_Err _ _ _ _ _ E). }
  unfold maybeNegotiateTLS. step (eq_refl : gets cfg (newClient c nc) = (Ret (applyDefaults c), newClient c nc)).
  destruct (buildTLS (applyDefaults c)) as [t|] eqn:Et.
  2: { exfalso. revert Et. unfold buildTLS. change (sslMode (applyDefaults c)) with (sslMode c). destruct (sslMode c); cbn in Hmode; try lia;
       by destruct (TLSConfig (applyDefaults c)). }
  destruct (sends_sslRequest (conn (newClient c nc)) eq_refl) as (r & k & Es & Hs & Hi & Hr). cbn [newClient conn NewSized sent inbound app] in Hs, Hi.
  assert (wire (b ← BeginNoType; _ ← bInt32 sslRequestCode; Send b) (newClient c nc) = (r, set_conn k (newClient c nc))) as Ew
    by (unfold wire, zoom; by rewrite Es).
  destruct Hr as [-> | ->].
  2: { eexists _, (set_conn k (newClient c nc)). split; [|exact Hs]. apply bind_Err. unfold wrap. by rewrite Ew. }
  assert (wrap "pgz: SSLRequest" (wire (b ← BeginNoType; _ ← bInt32 sslRequestCode; Send b)) (newClient c nc) =
    (Ret tt, set_conn k (newClient c nc))) as Ew1 by (unfold wrap; by rewrite Ew). step Ew1.
  destruct (inbound nc) as [|x rest] eqn:Ei.
  { eexists _, _. split; [apply bind_Err; unfold wrap, wire, zoom, ReadByte, mbind, prog_bind, ReadFull; cbn [conn set_conn]; rewrite Hi; reflexivity|exact Hs]. }
  set (c1 := set_conn (set_inbound rest k) (newClient c nc)).
  assert (wrap "pgz: SSLRequest reply" (wire ReadByte) (set_conn k (newClient c nc)) = (Ret x, c1)) as Er
    by (unfold wrap, wire, zoom, ReadByte, mbind, prog_bind, ReadFull; cbn [conn set_conn]; by rewrite Hi).
  step Er.
  destruct (beq x "S"%byte) eqn:E1.
  { apply beq_true in E1 as ->. step (eq_refl : gets conn c1 = (Ret (set_inbound rest k), c1)).
    destruct (Hno rest eq_refl t (set_inbound rest k)) as [e ->]. by exists (EWrapped "pgz: TLS handshake" e), c1. }
  destruct (beq x "N"%byte) eqn:E2.
  { change (sslMode (applyDefaults c)) with (sslMode c). rewrite (proj2 (Z.leb_le _ _)) by done. by eexists _, c1. }
  destruct (beq x "E"%byte) eqn:E3; [|by eexists _, c1].
  step (eq_refl : gets conn c1 = (Ret (set_inbound rest k), c1)). destruct (readErrorBody _ _ _) as [e|body].
  - eexists _, c1. split; [reflexivity|exact Hs].
  - step (eq_refl : wrap "pgz: SSLRequest error reply" (of_sum (inr body)) c1 = (Ret body, c1)). by eexists _, c1.
Qed.


Lemma tls_required_witness :
  let c := mkConfig [] 0 [] [] (str "secret") [] 0 0 [] SSLRequire 0 None 0 0 0 false 0 0 0 0 0 0 [] 0 false in
  ∃ e cl, Open (λ _ k, inr k) 4 100 (inr []) c (New (str "N" ++ wire_of demo_greeting) None) = (Err e, cl) ∧
    sent (conn cl) `prefix_of` sslRequest.
Proof. apply tls_required; [cbn; lia|discriminate]. Defined.
