(* ===== verification/Ctx.v ===== *)
(** pgz/ctx.go: the goroutine that watches a call's context, interleaved with
    the call itself.  The other files see a context only where the driver asks
    it ([Client.context]); here it may end at any moment, its watcher then
    sends a CancelRequest and puts the socket's deadline in the past, and
    detachContext has to leave nothing of that to the next call. *)
From S2P Require Import Prelude Errors Client.

(** ** The default timeout *)

(** [if d := c.cfg.DefaultQueryTimeout; d > 0 { if _, hasDL := ctx.Deadline(); !hasDL { ctx, cancel = context.WithTimeout(ctx, d) } }]:
    [fired] is whether the timer has run out at each point the context is asked. *)
Definition deadline_exceeded : gerror := EUser "context deadline exceeded".
Definition withDefaultTimeout (d : Z) (fired : nat → bool) (ctx : context) : context :=
  if (0 <? d) && negb (ctx_deadline ctx) then
    {| ctx_err := λ n, match ctx_err ctx n with
                       | Some e => Some e
                       | None => if fired n then Some deadline_exceeded else None
                       end;
       ctx_deadline := true |}
  else ctx.

(** ** The system *)

(** A context: nil, one that cannot end, or a cancellable one. *)
Inductive goctx := CNil | CBackground | CCancel (id : nat).

(** Where a watcher is: in its select; in SendCancel; before SetDeadline; gone
    (its [wg.Done()] has run). *)
Inductive wpoint := WSelect | WCancel | WDeadline | WGone.
(** [w_op] numbers the call the watcher was started for. *)
Record ctxState := mkState { w_ctx : nat; w_op : nat; w_stop : bool; w_at : wpoint }.

(** Where the caller is: between calls; inside one, after attachContext; in
    detachContext's [st.wg.Wait()]; before its [SetDeadline]. *)
Inductive cpoint := Idle | Running | Waiting (i : nat) | Clearing.

Record Sys := mkSys {
  ended : list nat;                (* the contexts that have ended *)
  ctxStates : option nat;          (* the entry for this client, an index into [watchers] *)
  watchers : list ctxState;        (* every watcher ever started *)
  past : bool;                     (* the socket's deadline is in the past *)
  packets : list nat;              (* CancelRequests on their way, by the call they are meant for *)
  caller : cpoint;
  op : nat                         (* the number of the current call *)
}.
Definition start : Sys := mkSys [] None [] false [] Idle 0.

Definition set_caller (p : cpoint) (s : Sys) : Sys := mkSys (ended s) (ctxStates s) (watchers s) (past s) (packets s) p (op s).
Definition set_past (b : bool) (s : Sys) : Sys := mkSys (ended s) (ctxStates s) (watchers s) b (packets s) (caller s) (op s).
Definition set_watcher (i : nat) (w : ctxState) (s : Sys) : Sys :=
  mkSys (ended s) (ctxStates s) (<[i := w]> (watchers s)) (past s) (packets s) (caller s) (op s).
Definition at_point (p : wpoint) (w : ctxState) : ctxState := mkState (w_ctx w) (w_op w) (w_stop w) p.

(** ** The calls *)

(** attachContext, as a call's first act: [false] when it refuses the call. *)
Definition attach (ctx : goctx) (s : Sys) : bool * Sys :=
  let s := mkSys (ended s) (ctxStates s) (watchers s) (past s) (packets s) (caller s) (S (op s)) in
  match ctx with
  | CNil | CBackground => (true, set_caller Running s)
  | CCancel id =>
      if bool_decide (id ∈ ended s) then (false, s)
      else
        (true, mkSys (ended s) (Some (length (watchers s))) (watchers s ++ [mkState id (op s) false WSelect])
                 (past s) (packets s) Running (op s))
  end.

(** detachContext up to [st.wg.Wait()]: without an entry it returns. *)
Definition detach (s : Sys) : Sys :=
  match ctxStates s with
  | None => set_caller Idle s
  | Some i =>
      mkSys (ended s) None (alter (λ w, mkState (w_ctx w) (w_op w) true (w_at w)) i (watchers s)) (past s) (packets s) (Waiting i) (op s)
  end.
(** The rest of it: Wait returns when the watcher is gone; then SetDeadline. *)
Definition detach_wait (s : Sys) : option Sys :=
  match caller s with
  | Waiting i => match watchers s !! i with
                 | Some w => match w_at w with WGone => Some (set_caller Clearing s) | _ => None end
                 | None => None
                 end
  | _ => None
  end.
Definition detach_clear (s : Sys) : option Sys :=
  match caller s with Clearing => Some (set_caller Idle (set_past false s)) | _ => None end.

(** One step of watcher [i].  In the select both cases may be ready, and [stop]
    picks one; SendCancel hands its packet to the network if [sent]. *)
Definition watch (i : nat) (stop sent : bool) (s : Sys) : option Sys :=
  match watchers s !! i with
  | None => None
  | Some w =>
      match w_at w with
      | WSelect =>
          if stop then if w_stop w then Some (set_watcher i (at_point WGone w) s) else None
          else if bool_decide (w_ctx w ∈ ended s) then Some (set_watcher i (at_point WCancel w) s) else None
      | WCancel =>
          let s := set_watcher i (at_point WDeadline w) s in
          Some (if sent then mkSys (ended s) (ctxStates s) (watchers s) (past s) (packets s ++ [w_op w]) (caller s) (op s) else s)
      | WDeadline => Some (set_past true (set_watcher i (at_point WGone w) s))
      | WGone => None
      end
  end.

(** A read of the call in progress fails at once while the deadline is past. *)
Definition read_fails (s : Sys) : bool := past s.

(** A client is used by one call at a time: a call attaches, runs, and detaches
    before the next; contexts end, watchers run and the network delivers when
    they like. *)
Inductive step (s : Sys) : Sys → Prop :=
| step_attach ctx : caller s = Idle → step s (attach ctx s).2
| step_detach : caller s = Running → step s (detach s)
| step_wait s' : detach_wait s = Some s' → step s s'
| step_clear s' : detach_clear s = Some s' → step s s'
| step_watch i stop sent s' : watch i stop sent s = Some s' → step s s'
| step_end id : step s (mkSys (id :: ended s) (ctxStates s) (watchers s) (past s) (packets s) (caller s) (op s))
| step_deliver k : step s (mkSys (ended s) (ctxStates s) (watchers s) (past s) (delete k (packets s)) (caller s) (op s)).
Definition reachable (s : Sys) : Prop := rtc step start s.

(** ** Invariant *)

(** The watcher of the call in progress. *)
Definition current (s : Sys) : option nat :=
  match caller s with Running => ctxStates s | Waiting i => Some i | _ => None end.

Record ctx_ok (s : Sys) : Prop := {
  co_gone : ∀ j w, watchers s !! j = Some w → current s ≠ Some j → w_at w = WGone;
  co_current : ∀ j, current s = Some j → ∃ w, watchers s !! j = Some w ∧ w_op w = op s ∧
    (w_at w = WCancel ∨ w_at w = WDeadline → w_ctx w ∈ ended s) ∧
    (w_at w = WSelect → past s = false) ∧ (past s = true → w_ctx w ∈ ended s) ∧
    w_stop w = match caller s with Waiting _ => true | _ => false end;
  co_past : past s = true → caller s = Clearing ∨ is_Some (current s);
  co_entry : caller s ≠ Running → ctxStates s = None;
  co_packets : ∀ p, p ∈ packets s → (p <= op s)%nat ∧ ∃ j w, watchers s !! j = Some w ∧ w_op w = p ∧ w_ctx w ∈ ended s
}.

(** ** Lemmas *)

(** Watchers that are all gone do not hold up a new call. *)
Lemma ok_no_current s : (∀ j w, watchers s !! j = Some w → w_at w = WGone) → current s = None → past s = false →
  (caller s ≠ Running → ctxStates s = None) →
  (∀ p, p ∈ packets s → (p <= op s)%nat ∧ ∃ j w, watchers s !! j = Some w ∧ w_op w = p ∧ w_ctx w ∈ ended s) → ctx_ok s.
Proof. intros Hg Hc Hp He Hk. split; try done; [by intros j w Hw _; apply (Hg j)|by intros j; rewrite Hc|by rewrite Hp]. Qed.

Lemma idle_facts s : ctx_ok s → caller s = Idle → (∀ j w, watchers s !! j = Some w → w_at w = WGone) ∧ past s = false.
Proof.
  intros Hs Hi. split.
  - intros j w Hw. apply (co_gone s Hs j w Hw). unfold current. by rewrite Hi.
  - destruct (past s) eqn:E; [|done]. destruct (co_past s Hs E) as [H|[j H]]; [congruence|]. unfold current in H. by rewrite Hi in H.
Qed.

Lemma attach_ok ctx s : ctx_ok s → caller s = Idle → ctx_ok (attach ctx s).2.
Proof.
  intros Hs Hi. destruct (idle_facts s Hs Hi) as [Hg Hp]. pose proof (co_entry s Hs ltac:(congruence)) as He.
  assert (∀ p, p ∈ packets s → (p <= S (op s))%nat ∧ ∃ j w, watchers s !! j = Some w ∧ w_op w = p ∧ w_ctx w ∈ ended s) as Hk.
  { intros p Hin. destruct (co_packets s Hs p Hin) as [H1 H2]. split; [lia|done]. }
  destruct ctx as [| |id]; cbn [attach snd]; [by apply ok_no_current|by apply ok_no_current|].
  destruct (bool_decide (id ∈ ended _)) eqn:E; cbn [snd ended] in *.
  { apply ok_no_current; try done. unfold current. cbn. by rewrite Hi. }
  set (w0 := mkState id _ false WSelect). split; cbn [current caller ctxStates watchers ended past op packets].
  - intros j w Hw Hj. apply lookup_app_Some in Hw as [Hw|[Hle Hw]]; [by apply (Hg j)|].
    destruct (j - length (watchers s))%nat eqn:Ej; [|done]. exfalso. apply Hj. f_equal. lia.
  - intros j [= <-]. exists w0. rewrite lookup_app_r, Nat.sub_diag by lia. split; [done|]. split; [done|]. split; [by intros [?|?]|]. split; [done|]. split; [by rewrite Hp|done].
  - by rewrite Hp.
  - done.
  - intros p Hin. destruct (Hk p Hin) as (H1 & j & w & Hw & H2). split; [done|]. exists j, w. split; [by apply lookup_app_l_Some|done].
Qed.

Lemma detach_ok s : ctx_ok s → caller s = Running → ctx_ok (detach s).
Proof.
  intros Hs Hr. unfold detach. destruct (ctxStates s) as [i|] eqn:E.
  - assert (current s = Some i) as Hc by (unfold current; by rewrite Hr).
    destruct (co_current s Hs i Hc) as (w & Hw & H1 & H2 & H3 & H4 & H5). rewrite Hr in H5.
    assert (∀ j, alter (λ w, mkState (w_ctx w) (w_op w) true (w_at w)) i (watchers s) !! j =
      if decide (j = i) then Some (mkState (w_ctx w) (w_op w) true (w_at w)) else watchers s !! j) as Hl.
    { intros j. destruct (decide (j = i)) as [->|Hne]; [by rewrite list_lookup_alter_eq, Hw|by rewrite list_lookup_alter_ne]. }
    split; cbn [current caller ctxStates watchers ended past op packets].
    + intros j w' Hw' Hj. rewrite Hl in Hw'. destruct (decide (j = i)) as [->|Hne]; [done|]. apply (co_gone s Hs j w' Hw'). rewrite Hc. congruence.
    + intros j [= <-]. exists (mkState (w_ctx w) (w_op w) true (w_at w)). rewrite Hl, decide_True by done. done.
    + intros _. right. by eexists.
    + done.
    + intros p Hin. destruct (co_packets s Hs p Hin) as (G1 & j & w' & G2 & G3 & G4). split; [done|].
      destruct (decide (j = i)) as [->|Hne].
      * exists i, (mkState (w_ctx w) (w_op w) true (w_at w)). rewrite Hl, decide_True by done. simplify_eq. done.
      * exists j, w'. by rewrite Hl, decide_False.
  - assert (current s = None) as Hc by (unfold current; by rewrite Hr). apply ok_no_current; try done; cbn.
    + intros j w Hw. apply (co_gone s Hs j w Hw). by rewrite Hc.
    + destruct (past s) eqn:Ep; [|done]. destruct (co_past s Hs Ep) as [H|[j H]]; congruence.
    + apply (co_packets s Hs).
Qed.

Lemma wait_ok s s' : ctx_ok s → detach_wait s = Some s' → ctx_ok s'.
Proof.
  intros Hs. unfold detach_wait. destruct (caller s) as [| |i|] eqn:Ec; try done. destruct (watchers s !! i) as [w|] eqn:Ew; [|done].
  destruct (w_at w) eqn:Ea; try done. intros [= <-]. split; cbn.
  - intros j w' Hw' _. destruct (decide (j = i)) as [->|Hne]; [congruence|]. apply (co_gone s Hs j w' Hw'). unfold current. rewrite Ec. congruence.
  - done.
  - by left.
  - intros _. apply (co_entry s Hs). congruence.
  - apply (co_packets s Hs).
Qed.

Lemma clear_ok s s' : ctx_ok s → detach_clear s = Some s' → ctx_ok s'.
Proof.
  intros Hs. unfold detach_clear. destruct (caller s) eqn:Ec; try done. intros [= <-]. apply ok_no_current; try done; cbn.
  - intros j w Hw. apply (co_gone s Hs j w Hw). unfold current. by rewrite Ec.
  - intros _. apply (co_entry s Hs). congruence.
  - apply (co_packets s Hs).
Qed.

(** Only the current watcher has a step, and it acts for an ended context. *)
Lemma watch_current i stop sent s s' : ctx_ok s → watch i stop sent s = Some s' →
  current s = Some i ∧ ∃ w, watchers s !! i = Some w ∧ w_op w = op s ∧ w_at w ≠ WGone.
Proof.
  intros Hs. unfold watch. destruct (watchers s !! i) as [w|] eqn:Ew; [|done]. intros H.
  assert (w_at w ≠ WGone) as Hn by (intros E; by rewrite E in H).
  assert (current s = Some i) as Hc.
  { destruct (decide (current s = Some i)) as [|Hne]; [done|]. by destruct Hn, (co_gone s Hs i w Ew Hne). }
  split; [done|]. destruct (co_current s Hs i Hc) as (w' & Hw' & H1 & _). exists w. simplify_eq. done.
Qed.

Lemma watch_ok i stop sent s s' : ctx_ok s → watch i stop sent s = Some s' → ctx_ok s'.
Proof.
  intros Hs Hw. destruct (watch_current i stop sent s s' Hs Hw) as (Hc & w & Ew & Hop & _).
  destruct (co_current s Hs i Hc) as (w' & Hw' & _ & H2 & H3 & H4 & H5). simplify_eq.
  assert (i < length (watchers s))%nat as Hlt by (by apply lookup_lt_Some in Ew).
  assert (∀ p, (p = WCancel ∨ p = WDeadline → w_ctx w ∈ ended s) → (p = WSelect → past s = false) →
    ctx_ok (set_watcher i (at_point p w) s)) as Hmove.
  { intros p Hp1 Hp2. split; cbn [current caller ctxStates watchers ended past op packets set_watcher].
    - intros j w1 Hw1 Hj. change (current s ≠ Some j) in Hj. rewrite list_lookup_insert_ne in Hw1 by congruence. by apply (co_gone s Hs j w1).
    - intros j Hj. change (current s = Some j) in Hj. assert (j = i) as -> by congruence. exists (at_point p w).
      rewrite list_lookup_insert_eq by done. cbn. done.
    - intros Hp. right. by exists i.
    - apply (co_entry s Hs).
    - intros q Hin. destruct (co_packets s Hs q Hin) as (G1 & j & w1 & G2 & G3 & G4). split; [done|].
      destruct (decide (j = i)) as [->|Hne]; [exists i, (at_point p w); rewrite list_lookup_insert_eq by done; by simplify_eq|].
      exists j, w1. by rewrite list_lookup_insert_ne. }
  unfold watch in Hw. rewrite Ew in Hw. destruct (w_at w) eqn:Ea; [| | |done].
  - destruct stop.
    + destruct (w_stop w) eqn:Est; [|done]. injection Hw as <-. apply Hmove; [by intros [?|?]|done].
    + destruct (bool_decide_reflect (w_ctx w ∈ ended s)) as [He|]; [|done]. injection Hw as <-. by apply Hmove.
  - assert (w_ctx w ∈ ended s) as He by (apply H2; auto).
    pose proof (Hmove WDeadline ltac:(done) ltac:(done)) as H. injection Hw as <-. destruct sent; [|done].
    destruct H as [K1 K2 K3 K4 K5]. split; try done. cbn [packets]. intros p Hp. apply elem_of_app in Hp as [Hp|Hp]; [by apply K5|].
    apply list_elem_of_singleton in Hp as ->. cbn. split; [by rewrite Hop|]. exists i, (at_point WDeadline w).
    rewrite list_lookup_insert_eq by done. done.
  - assert (w_ctx w ∈ ended s) as He by (apply H2; auto).
    destruct (Hmove WGone ltac:(by intros [?|?]) ltac:(done)) as [K1 K2 K3 K4 K5]. injection Hw as <-. split; try done.
    + intros j Hj. destruct (K2 j Hj) as (w1 & G1 & G2 & G3 & G4 & G5 & G6). exists w1. split; [done|]. split; [done|]. split; [done|].
      cbn in Hj. change (current s = Some j) in Hj. assert (j = i) as -> by congruence. cbn in G1. rewrite list_lookup_insert_eq in G1 by done.
      simplify_eq. done.
    + intros _. right. by exists i.
Qed.

Lemma ended_ok id s : ctx_ok s → ctx_ok (mkSys (id :: ended s) (ctxStates s) (watchers s) (past s) (packets s) (caller s) (op s)).
Proof.
  intros [H1 H2 H3 H4 H5]. split; try done; cbn.
  - intros j Hj. destruct (H2 j Hj) as (w & G1 & G2 & G3 & G4 & G5 & G6). exists w. split; [done|]. split; [done|].
    split; [intros; right; auto|]. split; [done|]. split; [intros; right; auto|done].
  - intros p Hp. destruct (H5 p Hp) as (G1 & j & w & G2 & G3 & G4). split; [done|]. exists j, w. split; [done|]. split; [done|]. by right.
Qed.
Lemma deliver_ok k s : ctx_ok s → ctx_ok (mkSys (ended s) (ctxStates s) (watchers s) (past s) (delete k (packets s)) (caller s) (op s)).
Proof.
  intros [H1 H2 H3 H4 H5]. split; try done. cbn. intros p Hp. apply H5. eapply elem_of_submseteq; [exact Hp|]. apply sublist_submseteq, sublist_delete.
Qed.

Lemma step_ok s s' : step s s' → ctx_ok s → ctx_ok s'.
Proof.
  intros Hst Hs. destruct Hst as [ctx Hi|Hr|s' H|s' H|i stop sent s' H|id|k].
  - by apply attach_ok.
  - by apply detach_ok.
  - by apply (wait_ok s).
  - by apply (clear_ok s).
  - by apply (watch_ok i stop sent s).
  - by apply ended_ok.
  - by apply deliver_ok.
Qed.
Lemma start_ok : ctx_ok start.
Proof. apply ok_no_current; try done. intros p Hp. by apply elem_of_nil in Hp. Qed.
Lemma ctx_reachable_ok s : reachable s → ctx_ok s.
Proof. intros Hr. refine (rtc_ind_r (R := step) ctx_ok start start_ok _ s Hr). intros y z _ Hst. by apply step_ok. Qed.

(** ** Theorems *)

(** C37. Whatever contexts end and in whatever order the goroutines run: a call's
    read is only ever failed by its own context, which has ended; only the
    watcher of the call in progress can act; when the call has returned the
    deadline is clear and no watcher is left; and every CancelRequest was sent
    for a call whose context had ended. *)
Theorem ctx_isolated s : reachable s →
  (caller s = Running → read_fails s = true →
     ∃ i w, ctxStates s = Some i ∧ watchers s !! i = Some w ∧ w_op w = op s ∧ w_ctx w ∈ ended s) ∧
  (∀ i stop sent s', watch i stop sent s = Some s' → ∃ w, watchers s !! i = Some w ∧ w_op w = op s) ∧
  (caller s = Idle → read_fails s = false ∧ ∀ i stop sent, watch i stop sent s = None) ∧
  (∀ p, p ∈ packets s → ∃ i w, watchers s !! i = Some w ∧ w_op w = p ∧ w_ctx w ∈ ended s).
Proof.
  intros Hr. pose proof (ctx_reachable_ok s Hr) as Hs. split; [|split; [|split]].
  - intros Hc Hp. destruct (co_past s Hs Hp) as [H|[i Hi]]; [congruence|]. destruct (co_current s Hs i Hi) as (w & H1 & H2 & _ & _ & H3 & _).
    unfold current in Hi. rewrite Hc in Hi. exists i, w. auto.
  - intros i stop sent s' H. destruct (watch_current i stop sent s s' Hs H) as (_ & w & H1 & H2 & _). by exists w.
  - intros Hi. destruct (idle_facts s Hs Hi) as [Hg Hp]. split; [done|]. intros i stop sent.
    destruct (watch i stop sent s) as [s'|] eqn:E; [|done]. destruct (watch_current i stop sent s s' Hs E) as (Hc & _).
    unfold current in Hc. by rewrite Hi in Hc.
  - intros p Hp. by apply (co_packets s Hs).
Qed.

(** How far a watcher is from gone. *)
Definition left_of (p : wpoint) : nat := match p with WSelect => 3 | WCancel => 2 | WDeadline => 1 | WGone => 0 end.
Definition left (i : nat) (s : Sys) : nat := match watchers s !! i with Some w => left_of (w_at w) | None => 0 end.

(** detachContext returns: while it waits its watcher always has a step, every
    one of the at most three brings it closer to gone, nothing else moves it
    back, and once it is gone the wait is over and the call returns. *)
Theorem detach_returns s i : reachable s → caller s = Waiting i →
  (left i s <= 3)%nat ∧
  (left i s = 0%nat → ∃ s1 s2, detach_wait s = Some s1 ∧ detach_clear s1 = Some s2 ∧ caller s2 = Idle) ∧
  (left i s ≠ 0%nat → ∃ stop, ∀ sent, ∃ s', watch i stop sent s = Some s' ∧ (left i s' < left i s)%nat ∧ caller s' = Waiting i) ∧
  (∀ s', step s s' → (left i s' <= left i s)%nat).
Proof.
  intros Hr Hw. pose proof (ctx_reachable_ok s Hr) as Hs.
  assert (current s = Some i) as Hc by (unfold current; by rewrite Hw).
  destruct (co_current s Hs i Hc) as (w & Ew & Hop & H2 & H3 & H4 & H5). rewrite Hw in H5.
  assert (i < length (watchers s))%nat as Hlt by (by apply lookup_lt_Some in Ew).
  unfold left. rewrite Ew. split; [destruct (w_at w); cbn; lia|]. split; [|split].
  - intros H0. destruct (w_at w) eqn:Ea; try done. exists (set_caller Clearing s), (set_caller Idle (set_past false (set_caller Clearing s))).
    unfold detach_wait. by rewrite Hw, Ew, Ea.
  - intros H0. exists true. intros sent. unfold watch. rewrite Ew, H5. destruct (w_at w) eqn:Ea; cbn in H0; try done;
      (eexists; split; [reflexivity|]); [|destruct sent|]; cbn; rewrite list_lookup_insert_eq by done; cbn; (split; [lia|done]).
  - intros s' Hst. destruct Hst as [ctx Hi|Hr'|s' H|s' H|k stop sent s' H|id|k]; try congruence.
    + unfold detach_wait in H. rewrite Hw, Ew in H. destruct (w_at w) eqn:Ea; try done. injection H as <-. cbn. rewrite Ew, Ea. cbn. lia.
    + unfold detach_clear in H. by rewrite Hw in H.
    + destruct (watch_current k stop sent s s' Hs H) as (Hk & _). assert (k = i) as -> by congruence. unfold watch in H. rewrite Ew, H5 in H.
      destruct (w_at w) eqn:Ea; [destruct stop; [|case_bool_decide; [|done]]|destruct sent| |done]; injection H as <-; cbn;
        rewrite list_lookup_insert_eq by done; cbn; lia.
    + cbn. by rewrite Ew.
    + cbn. by rewrite Ew.
Qed.

(** ** Runs *)

(** Schedules: the caller's moves where it can make them, and everyone else's. *)
Definition calls (ctx : goctx) (s : Sys) : option Sys := match caller s with Idle => Some (attach ctx s).2 | _ => None end.
Definition returns (s : Sys) : option Sys := match caller s with Running => Some (detach s) | _ => None end.
Definition ends (id : nat) (s : Sys) : option Sys :=
  Some (mkSys (id :: ended s) (ctxStates s) (watchers s) (past s) (packets s) (caller s) (op s)).

Fixpoint run (l : list (Sys → option Sys)) (s : Sys) : option Sys :=
  match l with [] => Some s | f :: l => match f s with Some s => run l s | None => None end end.

Definition sound (f : Sys → option Sys) : Prop := ∀ s s', f s = Some s' → step s s'.

Lemma calls_sound ctx : sound (calls ctx).
Proof. intros s s'. unfold calls. destruct (caller s) eqn:E; try done. intros [= <-]. by apply step_attach. Qed.
Lemma returns_sound : sound returns.
Proof. intros s s'. unfold returns. destruct (caller s) eqn:E; try done. intros [= <-]. by apply step_detach. Qed.
Lemma ends_sound id : sound (ends id).
Proof. intros s s' [= <-]. apply step_end. Qed.
Lemma wait_sound : sound detach_wait.
Proof. intros s s'. apply step_wait. Qed.
Lemma clear_sound : sound detach_clear.
Proof. intros s s'. apply step_clear. Qed.
Lemma watch_sound i stop sent : sound (watch i stop sent).
Proof. intros s s'. apply step_watch. Qed.

Create HintDb schedule.
#[export] Hint Resolve calls_sound returns_sound ends_sound wait_sound clear_sound watch_sound : schedule.
#[export] Hint Constructors List.Forall : schedule.

Lemma run_reachable l : Forall sound l → ∀ s s', reachable s → run l s = Some s' → reachable s'.
Proof.
  induction 1 as [|f l Hf _ IH]; intros s s' Hs H; [by injection H as <-|]. cbn in H. destruct (f s) as [s1|] eqn:E; [|done].
  apply (IH s1); [|done]. unfold reachable in *. eapply rtc_r; [exact Hs|by apply Hf].
Qed.

(** A call whose context ends while it runs, up to its detachContext; then its
    return, and the next call. *)
Definition cancelled_call : list (Sys → option Sys) :=
  [calls (CCancel 7); ends 7; watch 0 false true; watch 0 false true; watch 0 false true].
Definition next_calls : list (Sys → option Sys) := cancelled_call ++ [returns; detach_wait; detach_clear; calls (CCancel 8)].
Definition after_call : Sys := default start (run cancelled_call start).
Definition next_call : Sys := default start (run next_calls start).

Lemma after_call_reachable : reachable after_call.
Proof. apply (run_reachable cancelled_call) with (s := start); [unfold cancelled_call; auto 10 with schedule|apply rtc_refl|vm_compute; reflexivity]. Qed.
Lemma next_call_reachable : reachable next_call.
Proof. apply (run_reachable next_calls) with (s := start); [unfold next_calls; cbn [app cancelled_call]; auto 15 with schedule|apply rtc_refl|vm_compute; reflexivity]. Qed.

(** SendCancel does not wait for the server to have taken its packet: the
    CancelRequest of a call that was cancelled late can still be on its way
    when the next call runs, which it then hits, though that call's context has
    not ended. *)
Theorem late_cancel_hits_next : ∃ s, reachable s ∧ caller s = Running ∧ op s = 2%nat ∧ packets s = [1%nat] ∧
  (∃ i w, ctxStates s = Some i ∧ watchers s !! i = Some w ∧ w_op w = 2%nat ∧ ¬ w_ctx w ∈ ended s).
Proof.
  assert (next_call = mkSys [7%nat] (Some 1%nat) [mkState 7 1 true WGone; mkState 8 2 false WSelect] false [1%nat] Running 2) as E
    by (vm_compute; reflexivity).
  exists next_call. split; [apply next_call_reachable|]. rewrite E. repeat (split; [reflexivity|]).
  exists 1%nat, (mkState 8 2 false WSelect). repeat (split; [reflexivity|]). cbn. intros H. apply list_elem_of_singleton in H. done.
Qed.

(** The default timeout only ever ends a context that has no deadline of its
    own, and leaves every other one alone. *)
Lemma withDefaultTimeout_spec d fired ctx n :
  (ctx_deadline ctx = true ∨ d <= 0 → withDefaultTimeout d fired ctx = ctx) ∧
  (ctx_err (withDefaultTimeout d fired ctx) n = None → ctx_err ctx n = None) ∧
  (ctx_err ctx n = None → 0 < d → ctx_deadline ctx = false → fired n = true →
     ctx_err (withDefaultTimeout d fired ctx) n = Some deadline_exceeded).
Proof.
  unfold withDefaultTimeout. split; [|split].
  - intros [->|H]; [by rewrite andb_false_r|]. by rewrite (proj2 (Z.ltb_ge 0 d)).
  - destruct (_ && _); cbn; [by destruct (ctx_err ctx n)|done].
  - intros H Hd -> Hf. rewrite (proj2 (Z.ltb_lt 0 d)) by done. cbn. by rewrite H, Hf.
Qed.

Lemma ctx_isolated_witness :
  (caller after_call = Running → read_fails after_call = true →
     ∃ i w, ctxStates after_call = Some i ∧ watchers after_call !! i = Some w ∧ w_op w = op after_call ∧ w_ctx w ∈ ended after_call) ∧
  (∀ i stop sent s', watch i stop sent after_call = Some s' → ∃ w, watchers after_call !! i = Some w ∧ w_op w = op after_call) ∧
  (caller after_call = Idle → read_fails after_call = false ∧ ∀ i stop sent, watch i stop sent after_call = None) ∧
  (∀ p, p ∈ packets after_call → ∃ i w, watchers after_call !! i = Some w ∧ w_op w = p ∧ w_ctx w ∈ ended after_call).
Proof. exact (ctx_isolated after_call after_call_reachable). Defined.

Lemma detach_returns_witness : let s := detach (attach (CCancel 3) start).2 in
  (left 0 s <= 3)%nat ∧
  (left 0 s = 0%nat → ∃ s1 s2, detach_wait s = Some s1 ∧ detach_clear s1 = Some s2 ∧ caller s2 = Idle) ∧
  (left 0 s ≠ 0%nat → ∃ stop, ∀ sent, ∃ s', watch 0 stop sent s = Some s' ∧ (left 0 s' < left 0 s)%nat ∧ caller s' = Waiting 0) ∧
  (∀ s', step s s' → (left 0 s' <= left 0 s)%nat).
Proof.
  apply detach_returns; [|reflexivity].
  apply (run_reachable [calls (CCancel 3); returns]) with (s := start); [auto with schedule|apply rtc_refl|vm_compute; reflexivity].
Defined.
