(* ===== verification/Dsn.v ===== *)
(** pgz/config.go: ParseDSN, over the parts of net/url and strconv it uses
    (Go 1.25.0, the version go.mod names), with a writer of connection strings
    as its specification. *)
From S2P Require Import Prelude Errors JsonWriter JsonGrammar Client.

(** ** strconv.Atoi *)

(** The digits of [strconv.ParseUint(s, 10, 64)] from [n] on: the value, or
    whether the error is a range error. *)
Fixpoint parse_uint (n : Z) (s : bytes) : bool + Z :=
  match s with
  | [] => inr n
  | c :: s =>
      if negb (is_digit c) then inl false
      else if (2 ^ 64 - 1) / 10 + 1 <=? n then inl true
      else
        let n1 := n * 10 + digit_val c in
        if 2 ^ 64 - 1 <? n1 then inl true else parse_uint n1 s
  end.

(** [n, _ := strconv.Atoi(s)]: 0 for what is no number, the nearest int for
    one out of range. *)
Definition atoi (s : bytes) : Z :=
  let '(neg, ds) := match s with
                    | c :: r => if beq c "-"%byte then (true, r) else if beq c "+"%byte then (false, r) else (false, s)
                    | [] => (false, [])
                    end in
  match ds with
  | [] => 0
  | _ =>
      match parse_uint 0 ds with
      | inl false => 0
      | inl true => if neg : bool then - 2 ^ 63 else 2 ^ 63 - 1
      | inr n => if neg then Z.max (- n) (- 2 ^ 63) else Z.min n (2 ^ 63 - 1)
      end
  end.

(** ** net/url *)

Module Url.
Record URL := mkURL {
  user : option (bytes * option bytes);   (* the name, and the password if there is one *)
  host : bytes;
  path : bytes;
  rawQuery : bytes
}.

(** [strings.Cut(s, c)], [None] when the separator does not occur. *)
Fixpoint cut (c : byte) (s : bytes) : option (bytes * bytes) :=
  match s with
  | [] => None
  | b :: s => if beq b c then Some ([], s) else match cut c s with Some (l, r) => Some (b :: l, r) | None => None end
  end.
(** The split at the last occurrence, the separator dropped. *)
Fixpoint cut_last (c : byte) (s : bytes) : option (bytes * bytes) :=
  match s with
  | [] => None
  | b :: s =>
      match cut_last c s with
      | Some (l, r) => Some (b :: l, r)
      | None => if beq b c then Some ([], s) else None
      end
  end.
Definition before (c : byte) (s : bytes) : bytes := match cut c s with Some (l, _) => l | None => s end.
Definition after (c : byte) (s : bytes) : bytes := match cut c s with Some (_, r) => r | None => [] end.
Definition contains (c : byte) (s : bytes) : bool := existsb (λ b, beq b c) s.

Definition is_alpha (c : byte) : bool :=
  ((97 <=? byteZ c) && (byteZ c <=? 122)) || ((65 <=? byteZ c) && (byteZ c <=? 90)).
Definition is_alnum (c : byte) : bool := is_alpha c || is_digit c.
Definition one_of (s : string) (c : byte) : bool := contains c (str s).

Inductive encoding := encodePath | encodeHost | encodeZone | encodeUserPassword | encodeQueryComponent | encodeFragment.

(** [shouldEscape], for the modes unescape asks about: a host's or a zone's. *)
Definition shouldEscape (c : byte) : bool :=
  if is_alnum c then false
  else if one_of "!$&'()*+,;=:[]<>" c || beq c x22 then false
  else negb (one_of "-_.~" c).

Definition is_host_mode (m : encoding) : bool := match m with encodeHost | encodeZone => true | _ => false end.

Definition escape_refused (m : encoding) (h1 h2 : byte) : bool :=
  let pct := beq h1 x32 && beq h2 x35 in
  match m with
  | encodeHost => (hex_val h1 <? 8) && negb pct
  | encodeZone =>
      let v := mkbyte (hex_val h1 * 16 + hex_val h2) in
      negb pct && negb (beq v x20) && shouldEscape v
  | _ => false
  end.

(** unescape, [None] for an error. *)
Fixpoint unescape (m : encoding) (s : bytes) : option bytes :=
  match s with
  | [] => Some []
  | c :: s =>
      if beq c "%"%byte then
        match s with
        | h1 :: h2 :: s =>
            if is_hex h1 && is_hex h2 && negb (escape_refused m h1 h2) then
              cons (mkbyte (hex_val h1 * 16 + hex_val h2)) <$> unescape m s
            else None
        | _ => None
        end
      else if beq c "+"%byte then cons (match m with encodeQueryComponent => x20 | _ => c end) <$> unescape m s
      else if is_host_mode m && (byteZ c <? 128) && shouldEscape c then None
      else cons c <$> unescape m s
  end.

(** getScheme, [None] for an error: the scheme and the rest. *)
Fixpoint scheme_end (first : bool) (s : bytes) : option (option (bytes * bytes)) :=
  match s with
  | [] => Some None
  | c :: s =>
      if is_alpha c then option_map (option_map (λ x, (c :: x.1, x.2))) (scheme_end false s)
      else if is_digit c || one_of "+-." c then
        if first then Some None else option_map (option_map (λ x, (c :: x.1, x.2))) (scheme_end false s)
      else if beq c ":"%byte then if first then None else Some (Some ([], s))
      else Some None
  end.
Definition getScheme (s : bytes) : option (bytes * bytes) :=
  match scheme_end true s with None => None | Some None => Some ([], s) | Some (Some x) => Some x end.

Definition validOptionalPort (p : bytes) : bool :=
  match p with [] => true | c :: ds => beq c ":"%byte && forallb is_digit ds end.
Definition validUserinfo (s : bytes) : bool := forallb (λ c, is_alnum c || one_of "-._:~!$&'()*+,;=%@" c) s.

(** The split before the first ["%25"], as [strings.Index] finds it. *)
Fixpoint zone_at (s : bytes) : option (bytes * bytes) :=
  if HasPrefix (str "%25") s then Some ([], s)
  else match s with [] => None | c :: s => match zone_at s with Some (l, r) => Some (c :: l, r) | None => None end end.

Definition parseHost (h : bytes) : option bytes :=
  match h with
  | c :: _ =>
      if beq c "["%byte then
        match cut_last "]"%byte h with
        | None => None
        | Some (l, colonPort) =>
            if negb (validOptionalPort colonPort) then None
            else
              match zone_at l with
              | Some (l1, l2) =>
                  match unescape encodeHost l1, unescape encodeZone l2, unescape encodeHost ("]"%byte :: colonPort) with
                  | Some a, Some b, Some c => Some (a ++ b ++ c)
                  | _, _, _ => None
                  end
              | None => unescape encodeHost h
              end
        end
      else
        match cut_last ":"%byte h with
        | Some (_, p) => if validOptionalPort (":"%byte :: p) then unescape encodeHost h else None
        | None => unescape encodeHost h
        end
  | [] => Some []
  end.

Definition parseUser (info : bytes) : option (bytes * option bytes) :=
  if negb (validUserinfo info) then None
  else
    match cut ":"%byte info with
    | None => (λ u, (u, None)) <$> unescape encodeUserPassword info
    | Some (u, p) =>
        match unescape encodeUserPassword u, unescape encodeUserPassword p with
        | Some u, Some p => Some (u, Some p)
        | _, _ => None
        end
    end.
Definition parseAuthority (a : bytes) : option (option (bytes * option bytes) * bytes) :=
  match cut_last "@"%byte a with
  | None => (λ h, (None, h)) <$> parseHost a
  | Some (info, h) =>
      match parseHost h with
      | None => None
      | Some h => (λ u, (Some u, h)) <$> parseUser info
      end
  end.

(** What follows the scheme: authority and path. *)
Definition parse_rest (scheme rest query : bytes) : option URL :=
  let at_path user host p := (λ p, mkURL user host p query) <$> unescape encodePath p in
  if negb (HasPrefix (str "/") rest) then
    match scheme with
    | _ :: _ => Some (mkURL None [] [] query)           (* opaque *)
    | [] => if contains ":"%byte (before "/"%byte rest) then None else at_path None [] rest
    end
  else if (match scheme with [] => negb (HasPrefix (str "///") rest) | _ => true end) && HasPrefix (str "//") rest then
    let authority := drop 2 rest in
    let p := match cut "/"%byte authority with Some (_, p) => "/"%byte :: p | None => [] end in
    match parseAuthority (before "/"%byte authority) with
    | Some (user, host) => at_path user host p
    | None => None
    end
  else at_path None [] rest.

(** [url.Parse], [None] for an error. *)
Definition Parse (raw : bytes) : option URL :=
  let u := before "#"%byte raw in
  if existsb (λ c, (byteZ c <? 32) || beq c x7f) u then None
  else
    let url :=
      if bool_decide (u = str "*") then Some (mkURL None [] (str "*") [])
      else match getScheme u with
           | None => None
           | Some (scheme, rest) => parse_rest scheme (before "?"%byte rest) (after "?"%byte rest)
           end in
    match url, unescape encodeFragment (after "#"%byte raw) with
    | Some url, Some _ => Some url
    | _, _ => None
    end.

(** [u.Hostname()] and [u.Port()]. *)
Definition splitHostPort (h : bytes) : bytes * bytes :=
  let '(h, p) := match cut_last ":"%byte h with
                 | Some (l, r) => if validOptionalPort (":"%byte :: r) then (l, r) else (h, [])
                 | None => (h, [])
                 end in
  (match h with
   | c :: t => if beq c "["%byte && match last t with Some d => beq d "]"%byte | None => false end then removelast t else h
   | [] => h
   end, p).
Definition Hostname (u : URL) : bytes := (splitHostPort (host u)).1.
Definition Port (u : URL) : bytes := (splitHostPort (host u)).2.

(** [u.Query()]: the pairs that parse, in order; the errors are dropped. *)
Fixpoint query_fuel (fuel : nat) (q : bytes) : list (bytes * bytes) :=
  match fuel, q with
  | S fuel, _ :: _ =>
      let kv := before "&"%byte q in
      let rest := query_fuel fuel (after "&"%byte q) in
      if contains ";"%byte kv then rest
      else
        match kv with
        | [] => rest
        | _ =>
            match unescape encodeQueryComponent (before "="%byte kv), unescape encodeQueryComponent (after "="%byte kv) with
            | Some k, Some v => (k, v) :: rest
            | _, _ => rest
            end
        end
  | _, _ => []
  end.
Definition Query (u : URL) : list (bytes * bytes) := query_fuel (S (length (rawQuery u))) (rawQuery u).
(** [q.Get(key)] *)
Fixpoint Get (key : bytes) (q : list (bytes * bytes)) : bytes :=
  match q with
  | [] => []
  | (k, v) :: q => if bool_decide (k = key) then v else Get key q
  end.
End Url.

(** ** ParseDSN *)

(** [if v := q.Get(key); v != "" { field, _ = strconv.Atoi(v) }] *)
Definition int_param (key : string) (q : list (bytes * bytes)) (zero : Z) : Z :=
  match Url.Get (str key) q with [] => zero | v => atoi v end.

(** The [switch q.Get("sslmode")]; any other word leaves the zero value. *)
Definition parse_sslmode (v : bytes) : SSLMode :=
  if bool_decide (v = str "disable") then SSLDisable
  else if bool_decide (v = []) || bool_decide (v = str "prefer") then SSLPrefer
  else if bool_decide (v = str "require") then SSLRequire
  else if bool_decide (v = str "verify-ca") then SSLVerifyCA
  else if bool_decide (v = str "verify-full") then SSLVerifyFull
  else SSLDisable.

Definition TrimSlash (p : bytes) : bytes := match p with c :: r => if beq c "/"%byte then r else p | [] => [] end.

(** A Config with the fields a connection string can set. *)
Definition dsn_config (host : bytes) (port : Z) (user password database app : bytes) (recv send wire : Z) (mode : SSLMode) : Config :=
  mkConfig host port database user password app 0 0 [] mode 0 None 0 0 0 false 0 0 0 wire recv send [] 0 false.

Definition config_of (u : Url.URL) : Config :=
  let q := Url.Query u in
  dsn_config (Url.Hostname u)
    (match Url.Port u with [] => 0 | p => atoi p end)
    (match Url.user u with Some (name, _) => name | None => [] end)
    (match Url.user u with Some (_, Some pw) => pw | _ => [] end)
    (TrimSlash (Url.path u))
    (Url.Get (str "application_name") q)
    (int_param "tcp_recv_buffer" q 0) (int_param "tcp_send_buffer" q 0) (int_param "wire_read_buffer" q 0)
    (parse_sslmode (Url.Get (str "sslmode") q)).

Definition ParseDSN (dsn : bytes) : gerror + Config :=
  match Url.Parse dsn with
  | None => inl (EFmt "parse" [])
  | Some u => inr (applyDefaults (config_of u))
  end.

(** ** Specification: a writer of connection strings *)

(** Every byte but letters and digits percent-encoded. *)
Definition escape (s : bytes) : bytes :=
  concat (map (λ c, if Url.is_alnum c then [c] else ["%"%byte; hexdig (Z.shiftr (byteZ c) 4); hexdig (Z.land (byteZ c) 15)]) s).
Definition mode_word (m : SSLMode) : bytes :=
  str (match m with SSLDisable => "disable" | SSLPrefer => "prefer" | SSLRequire => "require" | SSLVerifyCA => "verify-ca" | SSLVerifyFull => "verify-full" end).
Definition param (p : bytes * bytes) : bytes := escape p.1 ++ ["="%byte] ++ escape p.2.
Definition dsn_of (host : bytes) (port : Z) (user password database app : bytes) (recv send wire : Z) (mode : SSLMode) : bytes :=
  str "postgres://" ++ escape user ++ [":"%byte] ++ escape password ++ ["@"%byte] ++ host ++ [":"%byte] ++ AppendInt [] port ++
  ["/"%byte] ++ escape database ++ ["?"%byte] ++
  join ["&"%byte] (map param [(str "application_name", app); (str "tcp_recv_buffer", AppendInt [] recv);
    (str "tcp_send_buffer", AppendInt [] send); (str "wire_read_buffer", AppendInt [] wire); (str "sslmode", mode_word mode)]).

(** A name or an IPv4 address; an IPv6 address between its brackets. *)
Definition is_name (h : bytes) : bool := forallb (λ c, Url.is_alnum c || Url.one_of "-._~" c) h.
Definition is_ipv6 (h : bytes) : bool := forallb (λ c, is_hex c || beq c ":"%byte || beq c "."%byte) h.
Inductive host_text : bytes → bytes → Prop :=
| host_name h : is_name h = true → host_text h h
| host_ipv6 h : is_ipv6 h = true → host_text h (["["%byte] ++ h ++ ["]"%byte]).

(** ** Lemmas *)

Import Url.

Lemma cut_none c s : contains c s = false → cut c s = None.
Proof. induction s as [|b s IH]; [done|]. cbn. intros H. apply orb_false_iff in H as [-> H]. by rewrite IH. Qed.
Lemma cut_app c l r : contains c l = false → cut c (l ++ c :: r) = Some (l, r).
Proof.
  induction l as [|b l IH]; cbn; intros H; [by rewrite beq_refl|]. apply orb_false_iff in H as [-> H]. by rewrite IH.
Qed.
Lemma before_app c l r : contains c l = false → before c (l ++ c :: r) = l.
Proof. intros H. unfold before. by rewrite cut_app. Qed.
Lemma after_app c l r : contains c l = false → after c (l ++ c :: r) = r.
Proof. intros H. unfold after. by rewrite cut_app. Qed.
Lemma before_none c s : contains c s = false → before c s = s.
Proof. intros H. unfold before. by rewrite cut_none. Qed.
Lemma after_none c s : contains c s = false → after c s = [].
Proof. intros H. unfold after. by rewrite cut_none. Qed.
Lemma cut_last_none c s : contains c s = false → cut_last c s = None.
Proof. induction s as [|b s IH]; [done|]. cbn. intros H. apply orb_false_iff in H as [-> H]. by rewrite IH. Qed.
Lemma cut_last_app c l r : contains c r = false → cut_last c (l ++ c :: r) = Some (l, r).
Proof. intros H. induction l as [|b l IH]; cbn; [by rewrite cut_last_none, beq_refl|by rewrite IH]. Qed.
Lemma contains_app c l r : contains c (l ++ r) = contains c l || contains c r.
Proof. apply existsb_app. Qed.

(** A class of bytes a separator is not of. *)
Lemma contains_class (P : byte → bool) c s : forallb P s = true → P c = false → contains c s = false.
Proof.
  intros H Hc. induction s as [|b s IH]; [done|]. cbn in H. apply andb_prop in H as [Hb H].
  change (beq b c || contains c s = false). rewrite IH by done. rewrite orb_false_r. apply beq_false. intros ->. congruence.
Qed.
Lemma forallb_impl {A} (P Q : A → bool) l : (∀ a, P a = true → Q a = true) → forallb P l = true → forallb Q l = true.
Proof. intros H. induction l as [|a l IH]; [done|]. cbn. intros H1. apply andb_prop in H1 as [H1 H2]. by rewrite (H a), IH. Qed.

Lemma forallb_and {A} (P Q : A → bool) l : forallb (λ a, P a && Q a) l = true → forallb P l = true ∧ forallb Q l = true.
Proof. intros H. split; revert H; apply forallb_impl; intros a H; by apply andb_prop in H as [? ?]. Qed.

Definition esc_char (c : byte) : bool := is_alnum c || beq c "%"%byte.
Lemma escape_cons c s : escape (c :: s) = escape [c] ++ escape s.
Proof. unfold escape. cbn [map concat]. by rewrite app_nil_r. Qed.
Lemma escape_chars s : forallb esc_char (escape s) = true.
Proof.
  induction s as [|c s IH]; [done|]. rewrite escape_cons, forallb_app, IH, andb_true_r. destruct c; reflexivity.
Qed.
Lemma escape_plain s c : esc_char c = false → contains c (escape s) = false.
Proof. intros H. by apply (contains_class esc_char); [apply escape_chars|]. Qed.

Lemma unescape_escaped m s r : is_host_mode m = false → unescape m (escape s ++ r) = option_map (app s) (unescape m r).
Proof.
  intros Hm. induction s as [|c s IH]; [cbn; by destruct (unescape m r)|]. rewrite escape_cons, <- app_assoc.
  assert (unescape m (escape [c] ++ escape s ++ r) = cons c <$> unescape m (escape s ++ r)) as ->.
  { destruct m; try done; destruct c; reflexivity. }
  rewrite IH. by destruct (unescape m r).
Qed.
Lemma unescape_escaped_all m s : is_host_mode m = false → unescape m (escape s) = Some s.
Proof. intros Hm. rewrite <- (app_nil_r (escape s)), unescape_escaped by done. cbn. by rewrite app_nil_r. Qed.

(** What unescape leaves alone. *)
Definition kept (c : byte) : bool := negb (beq c "%"%byte) && negb (beq c "+"%byte) && negb (shouldEscape c).
Lemma unescape_kept m s : forallb kept s = true → unescape m s = Some s.
Proof.
  induction s as [|c s IH]; [done|]. cbn [forallb unescape]. intros H. apply andb_prop in H as [Hc H].
  unfold kept in Hc. apply andb_prop in Hc as [Hc H3]. apply andb_prop in Hc as [H1 H2].
  apply negb_true_iff in H1, H2, H3. rewrite H1, H2, H3, andb_false_r. by rewrite IH.
Qed.

(** The bytes no part of a connection string holds: a control character or the
    fragment's mark; and the separators of its authority. *)
Definition visible (c : byte) : bool := negb ((byteZ c <? 32) || beq c x7f) && negb (beq c "#"%byte).
Definition clean (c : byte) : bool := visible c && negb (one_of "/@?" c).

Lemma digit_class c : is_digit c = true → kept c && clean c = true.
Proof. destruct c; (done || reflexivity). Qed.
Lemma esc_clean c : esc_char c = true → clean c = true.
Proof. destruct c; (done || reflexivity). Qed.
Lemma name_class c : is_alnum c || one_of "-._~" c = true → kept c && clean c && negb (beq c "["%byte) = true.
Proof. destruct c; (done || reflexivity). Qed.
Lemma ipv6_class c : is_hex c || beq c ":"%byte || beq c "."%byte = true → kept c && clean c && negb (beq c "]"%byte) = true.
Proof. destruct c; (done || reflexivity). Qed.

Lemma zone_none s : contains "%"%byte s = false → zone_at s = None.
Proof.
  induction s as [|c s IH]; [done|]. change (beq c "%"%byte || contains "%"%byte s = false → zone_at (c :: s) = None).
  intros H. apply orb_false_iff in H as [Hc H]. cbn [zone_at].
  assert (HasPrefix (str "%25") (c :: s) = false) as ->.
  { apply beq_false in Hc. change (beq "%"%byte c && HasPrefix (str "25") s = false).
    by rewrite (proj2 (beq_false "%"%byte c)). }
  by rewrite IH.
Qed.

Lemma port_digits port : 0 <= port → let d := AppendInt [] port in
  contains ":"%byte d = false ∧ contains "]"%byte d = false ∧ forallb is_digit d = true ∧ forallb kept d = true ∧ forallb clean d = true.
Proof.
  intros Hp d. pose proof (AppendInt_digits port Hp) as Hd. fold d in Hd.
  split; [by apply (contains_class _ _ _ Hd)|]. split; [by apply (contains_class _ _ _ Hd)|]. split; [done|].
  apply forallb_and. revert Hd. apply forallb_impl, digit_class.
Qed.

Lemma host_ok h t port : host_text h t → 0 <= port →
  let hp := t ++ ":"%byte :: AppendInt [] port in
  forallb clean t = true ∧ parseHost hp = Some hp ∧ splitHostPort hp = (h, AppendInt [] port).
Proof.
  intros Ht Hp. destruct (port_digits port Hp) as (D1 & D2 & D3 & D4 & D5). set (d := AppendInt [] port) in *. cbv zeta.
  inversion Ht as [h' Hn|h' Hn]; subst.
  - assert (forallb (λ c, kept c && clean c && negb (beq c "["%byte)) t = true) as Hc by (revert Hn; apply forallb_impl, name_class).
    destruct (forallb_and _ _ _ (proj1 (forallb_and _ _ _ Hc))) as [Hk Hcl].
    assert (∀ l, (match t ++ ":"%byte :: l with c :: _ => beq c "["%byte | [] => false end) = false) as Hb.
    { intros l. destruct t as [|c t']; [done|]. cbn in Hc |- *. apply andb_prop in Hc as [[_ H]%andb_prop _]. by apply negb_true_iff in H. }
    split; [done|]. split.
    + unfold parseHost. specialize (Hb d). destruct (t ++ ":"%byte :: d) as [|c l] eqn:E; [by destruct t|]. rewrite Hb, <- E.
      rewrite cut_last_app by done. cbn [validOptionalPort]. rewrite beq_refl, D3. cbn [andb].
      apply unescape_kept. by rewrite forallb_app, Hk; cbn [forallb andb]; rewrite D4.
    + unfold splitHostPort. rewrite cut_last_app by done. cbn [validOptionalPort]. rewrite beq_refl, D3. cbn [andb].
      destruct t as [|c t']; [done|]. cbn in Hc. apply andb_prop in Hc as [[_ H]%andb_prop _]. apply negb_true_iff in H. by rewrite H.
  - assert (forallb (λ c, kept c && clean c && negb (beq c "]"%byte)) h = true) as Hc by (revert Hn; apply forallb_impl, ipv6_class).
    destruct (forallb_and _ _ _ (proj1 (forallb_and _ _ _ Hc))) as [Hk Hcl].
    assert ((["["%byte] ++ h ++ ["]"%byte]) ++ ":"%byte :: d = ("["%byte :: h) ++ "]"%byte :: ":"%byte :: d) as -> by (cbn; by rewrite <- app_assoc).
    split; [cbn; by rewrite forallb_app, Hcl|]. split.
    + unfold parseHost. cbn [app]. rewrite beq_refl. change ("["%byte :: h ++ ?x) with (("["%byte :: h) ++ x).
      rewrite cut_last_app by (change (beq ":"%byte "]"%byte || contains "]"%byte d = false); by rewrite D2).
      cbn [validOptionalPort]. rewrite beq_refl, D3. cbn [andb negb]. rewrite zone_none.
      2: { change (beq "["%byte "%"%byte || contains "%"%byte h = false). by apply (contains_class kept). }
      apply unescape_kept. rewrite forallb_app. cbn [forallb]. rewrite Hk, D4. done.
    + unfold splitHostPort. change ("]"%byte :: ":"%byte :: d) with (["]"%byte] ++ ":"%byte :: d). rewrite app_assoc, cut_last_app by done.
      cbn [validOptionalPort]. rewrite beq_refl, D3. cbn [andb app]. rewrite last_snoc. cbn [beq]. by rewrite removelast_last.
Qed.

(** *** Query parameters *)

Lemma param_chars p c : esc_char c = false → beq "="%byte c = false → contains c (param p) = false.
Proof. intros H1 H2. unfold param. rewrite !contains_app, !escape_plain by done.
  change (contains c ["="%byte]) with (beq "="%byte c || false). by rewrite H2. Qed.

Lemma pair_step p n rest q : before "&"%byte q = param p → after "&"%byte q = rest → q ≠ [] →
  query_fuel (S n) q = p :: query_fuel n rest.
Proof.
  intros Hb Ha Hq. destruct q as [|c q]; [done|]. cbn [query_fuel]. rewrite Hb, Ha, param_chars by done.
  destruct (param p) as [|d l] eqn:E; [by unfold param in E; destruct (escape p.1)|]. rewrite <- E. unfold param. cbn [app].
  rewrite before_app, after_app, !unescape_escaped_all by (done || by apply escape_plain). by destruct p.
Qed.

Lemma param_nonempty p : (0 < length (param p))%nat.
Proof. unfold param. rewrite !length_app. cbn. lia. Qed.

Lemma query_params l : ∀ fuel, (length l <= fuel)%nat → query_fuel fuel (join ["&"%byte] (map param l)) = l.
Proof.
  induction l as [|p l IH]; intros fuel Hf; [by destruct fuel|]. destruct fuel as [|fuel]; [cbn in Hf; lia|]. cbn in Hf.
  pose proof (param_nonempty p) as Hn.
  destruct l as [|p2 l].
  - cbn [map join]. rewrite (pair_step p _ []); [by destruct fuel| | |intros E; rewrite E in Hn; cbn in Hn; lia].
    + by apply before_none, param_chars.
    + by apply after_none, param_chars.
  - change (join ["&"%byte] (map param (p :: p2 :: l))) with (param p ++ "&"%byte :: join ["&"%byte] (map param (p2 :: l))).
    rewrite (pair_step p _ (join ["&"%byte] (map param (p2 :: l)))).
    + f_equal. apply IH. lia.
    + by apply before_app, param_chars.
    + by apply after_app, param_chars.
    + by destruct (param p).
Qed.
Lemma params_length l : (length l <= length (join ["&"%byte] (map param l)))%nat.
Proof.
  induction l as [|p l IH]; [done|]. pose proof (param_nonempty p). destruct l as [|p2 l]; [cbn; lia|].
  change (join ["&"%byte] (map param (p :: p2 :: l))) with (param p ++ "&"%byte :: join ["&"%byte] (map param (p2 :: l))).
  rewrite length_app. cbn [length] in *. lia.
Qed.

(** *** Numbers *)

Lemma parse_uint_ok s : forallb is_digit s = true → ∀ n, 0 <= n →
  fold_left (λ a d, a * 10 + d) (digit_val <$> s) n < 2 ^ 64 →
  parse_uint n s = inr (fold_left (λ a d, a * 10 + d) (digit_val <$> s) n).
Proof.
  induction s as [|c s IH]; [done|]. cbn [forallb]. intros H n Hn Hlt. apply andb_prop in H as [Hc Hs].
  rewrite fmap_cons in *. cbn [fold_left] in *. cbn [parse_uint].
  assert (0 <= digit_val c) as Hd by (unfold is_digit in Hc; unfold digit_val; lia).
  assert (∀ l a, Forall (λ d, 0 <= d) l → 0 <= a → a <= fold_left (λ a d, a * 10 + d) l a) as Hmono.
  { clear. induction l as [|d l IH]; intros a Hl Ha; [cbn; lia|]. apply Forall_cons in Hl as [Hd Hl]. cbn.
    etransitivity; [|apply IH; [done|lia]]. lia. }
  assert (n * 10 + digit_val c < 2 ^ 64) as Hm.
  { eapply Z.le_lt_trans; [|exact Hlt]. apply Hmono; [|lia]. apply Forall_fmap, Forall_forall. intros d Hin. apply forallb_forall with (x := d) in Hs; [|by apply list_elem_of_In].
    unfold is_digit in Hs. unfold compose, digit_val. lia. }
  rewrite Hc. cbn [negb]. change ((2 ^ 64 - 1) / 10 + 1) with 1844674407370955162. destruct (Z.leb_spec 1844674407370955162 n); [lia|]. destruct (Z.ltb_spec (2 ^ 64 - 1) (n * 10 + digit_val c)); [lia|].
  apply IH; [done|lia|done].
Qed.

Lemma atoi_AppendInt v : - 2 ^ 63 <= v < 2 ^ 63 → atoi (AppendInt [] v) = v.
Proof.
  intros Hv. assert (∀ n, 0 <= n → n <= 2 ^ 63 → ∃ c l, digit_char <$> digits 10 n = c :: l ∧ is_digit c = true ∧
    parse_uint 0 (c :: l) = inr n) as Hd.
  { intros n H0 H1. destruct (digits_cons 10 n ltac:(lia) H0) as (d & l & E & _).
    pose proof (AppendInt_digits n H0) as Ha. unfold AppendInt, AppendUintBase in Ha. destruct (Z.ltb_spec n 0); [lia|]. cbn [app] in Ha.
    pose proof (dec_value_digits n H0) as Hn. rewrite E, fmap_cons in *. exists (digit_char d), (digit_char <$> l). split; [done|].
    split; [cbn in Ha; by apply andb_prop in Ha as [? _]|]. rewrite parse_uint_ok; [|done|lia|].
    - by unfold dec_value, undigits in Hn; rewrite Hn.
    - unfold dec_value, undigits in Hn. rewrite Hn. lia. }
  assert (∀ c, is_digit c = true → beq c "-"%byte = false ∧ beq c "+"%byte = false) as Hs by (intros c; destruct c; (done || by split)).
  unfold AppendInt, AppendUintBase, atoi. destruct (Z.ltb_spec v 0).
  - destruct (Hd (- v) ltac:(lia) ltac:(lia)) as (c & l & E & Hc & P). cbn [app]. rewrite beq_refl, E, P. cbv iota. lia.
  - destruct (Hd v ltac:(lia) ltac:(lia)) as (c & l & E & Hc & P). cbn [app]. rewrite E. destruct (Hs c Hc) as [-> ->]. rewrite P. cbv iota. lia.
Qed.
Lemma AppendInt_nonempty v : AppendInt [] v ≠ [].
Proof.
  unfold AppendInt, AppendUintBase. destruct (v <? 0) eqn:E; [done|]. cbn [app].
  destruct (digits_cons 10 v ltac:(lia) ltac:(lia)) as (d & l & -> & _). done.
Qed.

(** *** The whole string *)

Lemma visible_ok s : forallb visible s = true → existsb (λ c, (byteZ c <? 32) || beq c x7f) s = false ∧ contains "#"%byte s = false.
Proof.
  intros H. split; [|by apply (contains_class visible)]. induction s as [|c s IH]; [done|]. cbn [forallb existsb] in *.
  apply andb_prop in H as [Hc H]. unfold visible in Hc. apply andb_prop in Hc as [Hc _]. apply negb_true_iff in Hc. by rewrite Hc, IH.
Qed.
Lemma clean_visible s : forallb clean s = true → forallb visible s = true.
Proof. intros H. by apply forallb_and in H as [H _]. Qed.
Lemma clean_free c s : forallb clean s = true → clean c = false → contains c s = false.
Proof. apply contains_class. Qed.
Lemma escape_clean s : forallb clean (escape s) = true.
Proof. apply (forallb_impl _ _ _ esc_clean), escape_chars. Qed.
Lemma params_visible l : forallb visible (join ["&"%byte] (map param l)) = true.
Proof.
  assert (∀ p, forallb visible (param p) = true) as Hp.
  { intros p. unfold param. rewrite !forallb_app, (clean_visible (escape p.1)), (clean_visible (escape p.2)) by apply escape_clean. reflexivity. }
  induction l as [|p [|q l] IH]; [done|apply Hp|].
  change (join ["&"%byte] (map param (p :: q :: l))) with (param p ++ "&"%byte :: join ["&"%byte] (map param (q :: l))).
  rewrite forallb_app. cbn [forallb]. by rewrite Hp, IH.
Qed.

Lemma user_ok u p : parseUser (escape u ++ ":"%byte :: escape p) = Some (u, Some p).
Proof.
  assert (∀ s, forallb (λ c, is_alnum c || one_of "-._:~!$&'()*+,;=%@" c) (escape s) = true) as Hv.
  { intros s. eapply forallb_impl; [|apply escape_chars]. intros c. destruct c; (done || reflexivity). }
  unfold parseUser, validUserinfo. rewrite forallb_app. cbn [forallb]. rewrite !Hv. cbn [andb negb].
  rewrite cut_app by by apply escape_plain. by rewrite !unescape_escaped_all.
Qed.

(** The URL a written connection string parses to. *)
Lemma parse_written h t port u p db l : host_text h t → 0 <= port →
  Parse (str "postgres://" ++ (escape u ++ ":"%byte :: escape p) ++ "@"%byte :: (t ++ ":"%byte :: AppendInt [] port) ++
         "/"%byte :: escape db ++ "?"%byte :: join ["&"%byte] (map param l)) =
  Some (mkURL (Some (u, Some p)) (t ++ ":"%byte :: AppendInt [] port) ("/"%byte :: db) (join ["&"%byte] (map param l))).
Proof.
  intros Ht Hp. destruct (host_ok h t port Ht Hp) as (H1 & H2 & _), (port_digits port Hp) as (D1 & D2 & D3 & D4 & D5).
  set (info := escape u ++ ":"%byte :: escape p). set (hp := t ++ ":"%byte :: AppendInt [] port) in *. set (q := join _ _).
  assert (forallb clean hp = true) as Hhp by (unfold hp; rewrite forallb_app; cbn [forallb]; by rewrite H1, D5).
  assert (forallb clean info = true) as Hi by (unfold info; rewrite forallb_app; cbn [forallb]; by rewrite !escape_clean).
  pose proof (escape_clean db) as Hdb. set (rest := info ++ "@"%byte :: hp ++ "/"%byte :: escape db).
  assert (forallb visible (str "postgres://" ++ info ++ "@"%byte :: hp ++ "/"%byte :: escape db ++ "?"%byte :: q) = true) as Hvis.
  { rewrite !forallb_app. cbn [forallb]. rewrite !forallb_app. cbn [forallb]. rewrite !forallb_app. cbn [forallb].
    rewrite (clean_visible info), (clean_visible hp), (clean_visible (escape db)) by done. unfold q. by rewrite params_visible. }
  destruct (visible_ok _ Hvis) as [V1 V2]. unfold Parse. rewrite before_none, after_none by done. rewrite V1.
  rewrite bool_decide_eq_false_2 by done.
  assert (∀ x, getScheme (str "postgres://" ++ x) = Some (str "postgres", str "//" ++ x)) as Hg by done. rewrite Hg.
  assert (str "//" ++ info ++ "@"%byte :: hp ++ "/"%byte :: escape db ++ "?"%byte :: q = (str "//" ++ rest) ++ "?"%byte :: q) as ->.
  { unfold rest. rewrite <- !app_assoc. cbn [app]. rewrite <- !app_assoc. cbn [app]. done. }
  assert (contains "?"%byte (str "//" ++ rest) = false) as Hq.
  { unfold rest. rewrite !contains_app. rewrite (clean_free _ info) by done. change ("@"%byte :: ?x) with (["@"%byte] ++ x).
    rewrite !contains_app, (clean_free _ hp) by done. change ("/"%byte :: ?x) with (["/"%byte] ++ x). by rewrite contains_app, (clean_free _ (escape db)). }
  rewrite before_app, after_app by done.
  assert (∀ x, parse_rest (str "postgres") (str "//" ++ x) q =
    match parseAuthority (before "/"%byte x) with
    | Some (user, host) => (λ p, mkURL user host p q) <$>
        unescape encodePath (match cut "/"%byte x with Some (_, p) => "/"%byte :: p | None => [] end)
    | None => None
    end) as Hpr by done. rewrite Hpr.
  assert (rest = (info ++ "@"%byte :: hp) ++ "/"%byte :: escape db) as -> by (unfold rest; by rewrite <- app_assoc).
  assert (contains "/"%byte (info ++ "@"%byte :: hp) = false) as Hs.
  { rewrite contains_app, (clean_free _ info) by done. change ("@"%byte :: ?x) with (["@"%byte] ++ x). by rewrite contains_app, (clean_free _ hp). }
  rewrite cut_app, before_app by done. unfold parseAuthority. rewrite cut_last_app by by apply clean_free. rewrite H2.
  unfold info. rewrite user_ok. cbn.
  rewrite unescape_escaped_all by done. done.
Qed.

(** ** Theorems *)

(** C40. A connection string written with every byte of its parts percent-encoded,
    for a name, an IPv4 or a bracketed IPv6 host and any other settings, parses
    back to exactly those settings, with Open's defaults applied. *)
Theorem dsn_roundtrip h t port user password database app recv send wire mode
  (Hhost : host_text h t) (Hport : 0 <= port < 2 ^ 63)
  (Hints : Forall (λ v, - 2 ^ 63 <= v < 2 ^ 63) [recv; send; wire]) :
  ParseDSN (dsn_of t port user password database app recv send wire mode) =
  inr (applyDefaults (dsn_config h port user password database app recv send wire mode)).
Proof.
  destruct (host_ok h t port Hhost ltac:(lia)) as (_ & _ & Hs).
  apply Forall_cons in Hints as [Hr Hints]. apply Forall_cons in Hints as [Hse Hints]. apply Forall_cons in Hints as [Hw _].
  unfold ParseDSN, dsn_of. set (l := [(str "application_name", app); _; _; _; _]).
  replace (str "postgres://" ++ _) with (str "postgres://" ++ (escape user ++ ":"%byte :: escape password) ++ "@"%byte ::
    (t ++ ":"%byte :: AppendInt [] port) ++ "/"%byte :: escape database ++ "?"%byte :: join ["&"%byte] (map param l)).
  2: { rewrite <- !app_assoc. done. }
  rewrite (parse_written h) by (done || lia). do 2 f_equal. unfold config_of. cbn [Url.user Url.path].
  assert (Query (mkURL (Some (user, Some password)) (t ++ ":"%byte :: AppendInt [] port) ("/"%byte :: database) (join ["&"%byte] (map param l))) = l) as ->.
  { unfold Query. cbn [rawQuery]. apply query_params. pose proof (params_length l). lia. }
  unfold Hostname, Port. cbn [Url.host]. rewrite Hs. cbn [fst snd TrimSlash]. rewrite beq_refl.
  assert (∀ v, - 2 ^ 63 <= v < 2 ^ 63 → match AppendInt [] v with [] => 0 | _ => atoi (AppendInt [] v) end = v) as Ha.
  { intros v Hv. pose proof (AppendInt_nonempty v). destruct (AppendInt [] v) eqn:E; [done|]. rewrite <- E. by apply atoi_AppendInt. }
  assert (∀ v, match AppendInt [] v with [] => 0 | p => atoi p end = match AppendInt [] v with [] => 0 | _ => atoi (AppendInt [] v) end) as Hb
    by (intros v; by destruct (AppendInt [] v)).
  unfold int_param.
  assert (Get (str "application_name") l = app ∧ Get (str "tcp_recv_buffer") l = AppendInt [] recv ∧ Get (str "tcp_send_buffer") l = AppendInt [] send ∧
    Get (str "wire_read_buffer") l = AppendInt [] wire ∧ Get (str "sslmode") l = mode_word mode) as (-> & -> & -> & -> & ->) by done.
  rewrite !Hb, !Ha by (done || lia). by destruct mode.
Qed.

(** An sslmode ParseDSN does not know is no error: whatever else the string
    says, the connection it configures runs without TLS. *)
Theorem unknown_sslmode_is_plaintext dsn u : Parse dsn = Some u →
  Get (str "sslmode") (Query u) ∉ [[]; str "disable"; str "prefer"; str "require"; str "verify-ca"; str "verify-full"] →
  ∃ c, ParseDSN dsn = inr c ∧ buildTLS c = None.
Proof.
  intros Hp Hm. unfold ParseDSN. rewrite Hp. eexists. split; [done|].
  assert (sslMode (applyDefaults (config_of u)) = SSLDisable) as E.
  { change (parse_sslmode (Get (str "sslmode") (Query u)) = SSLDisable). unfold parse_sslmode.
    repeat (rewrite bool_decide_eq_false_2 by (intros E; apply Hm; rewrite E; set_solver)). done. }
  unfold buildTLS. by rewrite E.
Qed.

(** ** Witnesses and runs *)

Lemma dsn_roundtrip_witness :
  ParseDSN (dsn_of (str "[fe80::1]") 5433 (str "a@b:/") (str "%?#&") (str "d/b") (str " x&y=;z") 0 (-7) 8192 SSLVerifyFull) =
  inr (applyDefaults (dsn_config (str "fe80::1") 5433 (str "a@b:/") (str "%?#&") (str "d/b") (str " x&y=;z") 0 (-7) 8192 SSLVerifyFull)).
Proof.
  apply (dsn_roundtrip (str "fe80::1")); [by apply (host_ipv6 (str "fe80::1"))|lia|repeat constructor; lia].
Defined.

Lemma unknown_sslmode_is_plaintext_witness :
  let dsn := str "postgres://me@db.example/app?sslmode=verify_full" in
  ∃ c, ParseDSN dsn = inr c ∧ buildTLS c = None.
Proof.
  apply (unknown_sslmode_is_plaintext _ (mkURL (Some (str "me", None)) (str "db.example") (str "/app") (str "sslmode=verify_full"))); [reflexivity|].
  vm_compute. intros H. repeat (apply elem_of_cons in H as [H|H]; [discriminate|]). by apply elem_of_nil in H.
Defined.

(** The keyword form of libpq parses, to the defaults: localhost, no password. *)
Example keyword_form_ignored :
  ParseDSN (str "host=db.example user=me password=x") = inr (applyDefaults (dsn_config [] 0 [] [] (str "host=db.example user=me password=x") [] 0 0 0 SSLPrefer)).
Proof. reflexivity. Qed.
