(* ===== verification/Api.v ===== *)
(** The exported query surface of pgz/query.go and pgz/exec.go: QueryJSON, the
    Stream functions, ExecReturning and ExecReturningJSON, which put the guard
    and an output writer around the engine of Query.v; and what a Parse and a
    Describe do, whatever the driver makes of the server's answer. *)
From S2P Require Import Prelude Protocol JsonWriter JsonGrammar Encoders Errors Effects Wire Rows Args.
From S2P Require Import StmtCache Stream Client Query QuerySpec QueryResult QueryLife Exec Conn.

(** ** The wrappers *)

(** A query over a client and a writer of its own, the writer being returned;
    scratch buffers come from the pool empty and go back whatever happens. *)
Definition with_writer {W A} (w : W) (m : prog (Client * W) A) : client (A * W) := λ c,
  match m (c, w) with
  | (Ret a, (c, w)) => (Ret (a, w), c)
  | (Err e, (c, _)) => (Err e, c)
  | (Panic, (c, _)) => (Panic, c)
  | (Stuck, (c, _)) => (Stuck, c)
  end.

(** The buffered calls: the bytes are copied out of the pooled buffer. *)
Definition buffered (m : prog (Client * bufWriter) unit) : client bytes :=
  cf ← gets cfg;
  r ← with_writer (mkBufWriter [] (RowsHint cf) false) m;
  mret (b_p r.2).

Definition newFlushWriter (elapsed : nat → bool) (w : sink) (c : Client) : flushingWriter :=
  mkFlushing w (FlushBytes (cfg c)) (FlushInterval (cfg c)) elapsed 0 [] true false 0 (RowsHint (cfg c)) false.

(** The streaming calls: a program over the client and the caller's writer. *)
Definition streamed (elapsed : nat → bool) (m : prog (Client * flushingWriter) unit) : prog (Client * sink) unit := λ s,
  match m (fst s, newFlushWriter elapsed (snd s) (fst s)) with
  | (r, (c, f)) => (r, (c, f_w f))
  end.

Section Api.
Context {MO : MapOrder} (elapsed : nat → bool) (ctx : context) (dur : Z).

Definition runQuery {W} `{OutWriter W} (mode : Mode) (sql : bytes) (args : list goarg) : prog (Client * W) unit :=
  _ ← of_sum (rejectNonSelect sql);
  runQueryInner ctx dur mode sql args.

Definition QueryJSON (sql : bytes) (args : list goarg) : client bytes := buffered (runQuery ModeArray sql args).

Definition StreamJSON (sql : bytes) (args : list goarg) : prog (Client * sink) unit := streamed elapsed (runQuery ModeArray sql args).
Definition StreamNDJSON (sql : bytes) (args : list goarg) : prog (Client * sink) unit := streamed elapsed (runQuery ModeNDJSON sql args).
Definition StreamColumnar (sql : bytes) (args : list goarg) : prog (Client * sink) unit := streamed elapsed (runQuery ModeColumnar sql args).
Definition StreamTOON (sql : bytes) (args : list goarg) : prog (Client * sink) unit := streamed elapsed (runQuery ModeTOON sql args).

Definition ExecReturning (sql : bytes) (args : list goarg) : prog (Client * sink) unit := streamed elapsed (runQueryInner ctx dur ModeNDJSON sql args).
Definition ExecReturningJSON (sql : bytes) (args : list goarg) : client bytes := buffered (runQueryInner ctx dur ModeNDJSON sql args).
End Api.

(** ** Specification: the reply to Parse and Describe *)

(** The messages a Parse and a Describe are answered with. *)
Definition describe_known (m : byte * bytes) : Prop :=
  msg_ok m ∧
  (m.1 = MsgParseComplete ∨ m.1 = MsgCloseComplete ∨ m.1 = MsgParameterDescription ∨
   (m.1 = MsgRowDescription ∧ ∃ p, ParseRowDescription m.2 = inr p) ∨
   m.1 = MsgErrorResponse ∨ m.1 = MsgNoticeResponse ∨ m.1 = MsgParameterStatus ∨ m.1 = MsgNoData).

Definition describe_next (a : describing) (m : byte * bytes) : describing :=
  if beq m.1 MsgParameterDescription then mkDesc (d_plan a) (d_err a) (parseParamOIDs m.2)
  else if beq m.1 MsgRowDescription then
    match ParseRowDescription m.2 with inr p => mkDesc (Some p) (d_err a) (d_oids a) | inl _ => a end
  else if beq m.1 MsgErrorResponse then mkDesc (d_plan a) (Some (Parse m.2)) (d_oids a)
  else a.
Definition described (ms : list (byte * bytes)) : describing := fold_left describe_next ms (mkDesc None None []).

(** What is sent to prepare [sql] under [name], closing [dead] on the way. *)
Definition close_wire (name : bytes) : bytes := frame MsgClose ("S"%byte :: name ++ [x00]).
Definition prepare_wire (dead : list bytes) (name sql : bytes) : bytes :=
  concat (map close_wire dead) ++ frame MsgParse (name ++ x00 :: sql ++ x00 :: [x00; x00]) ++
  frame MsgDescribe ("S"%byte :: name ++ [x00]) ++ frame MsgSync [].

(** The statement a description becomes, and the client that holds it. *)
Definition prepared (cf : Config) (sc : stmtCache) (p : Plan) (oids : list OID) : preparedStmt :=
  mkStmt (fst (nextName sc)) (Some (snd (negotiate cf p))) (fst (negotiate cf p)) oids.
Definition stmts_named (sc : stmtCache) : stmtCache := snd (takePendingClose (snd (nextName sc))).
Definition stmts_prepared (st : preparedStmt) (sc : stmtCache) : stmtCache := snd (alloc st (stmts_named sc)).

(** What the driver makes of a description, the statements being [sc]. *)
Definition describes (cf : Config) (sc : stmtCache) (ms : list (byte * bytes)) : gerror + preparedStmt :=
  let a := described ms in
  match d_err a, d_plan a with
  | Some e, _ => inl (EPg e)
  | None, None => inl (EFmt "pgz: prepare returned no row description" [])
  | None, Some p => inr (prepared cf sc p (d_oids a))
  end.
Definition noted (sc : stmtCache) (x : gerror + preparedStmt) : stmtCache :=
  match x with inl _ => stmts_named sc | inr st => stmts_prepared st sc end.

(** ** Lemmas *)

Lemma describe_step_known name m : describe_known m → ∀ a c,
  describe_step name a m.1 m.2 c = (Ret (inl (describe_next a m)), absorb c m).
Proof.
  intros [_ Hm] a c. destruct m as [t b]. cbn [fst snd] in *.
  destruct Hm as [-> |[-> |[-> |[[-> [p Hp]]|[-> |[-> |[-> | ->]]]]]]]; try done.
  unfold describe_next, describe_step, absorb. cbn -[ParseRowDescription]. unfold of_sum. by rewrite Hp.
Qed.

Lemma writes_prepare dead name sql :
  writes (_ ← closeMessages dead; _ ← parseMessages name sql; syncMessage) (prepare_wire dead name sql).
Proof.
  unfold prepare_wire. eapply writes_eq.
  - apply writes_seq; [apply (writes_mapM _ close_wire)|apply writes_seq; [apply writes_seq|]].
    + intros n. apply writes_message. eapply writes_eq; [apply writes_seq; [apply writes_bByte|apply writes_bCString]|done].
    + apply writes_message. eapply writes_eq; [apply writes_seq; [apply writes_bCString|apply writes_seq; [apply writes_bCString|apply writes_bInt16]]|].
      instantiate (1 := name ++ x00 :: sql ++ x00 :: [x00; x00]). by rewrite <- !app_assoc.
    + apply writes_message. eapply writes_eq; [apply writes_seq; [apply writes_bByte|apply writes_bCString]|done].
    + apply writes_message. apply writes_nil.
  - by rewrite <- !app_assoc.
Qed.

(** Grouping the writes in front of a flush. *)
Lemma bind_group {S} (m1 m2 m3 : prog S unit) {A} (f : prog S A) s :
  (_ ← m1; _ ← m2; _ ← m3; f) s = (_ ← (_ ← m1; _ ← m2; m3); f) s.
Proof.
  unfold mbind, prog_bind. destruct (m1 s) as [[[]|e| |] s1]; [|done..]. by destruct (m2 s1) as [[[]|e| |] s2].
Qed.

Lemma absorb_stmts x c m : absorb (set_stmts x c) m = set_stmts x (absorb c m).
Proof. unfold absorb. destruct (beq _ _); [by destruct (splitParameter _)|]. by destruct (beq _ _). Qed.
Lemma absorb_same c m : cfg (absorb c m) = cfg c ∧ stmts (absorb c m) = stmts c.
Proof. unfold absorb. destruct (beq _ _); [by destruct (splitParameter _)|]. by destruct (beq _ _). Qed.
Lemma absorbs_stmts x ms : ∀ c, fold_left absorb ms (set_stmts x c) = set_stmts x (fold_left absorb ms c).
Proof. induction ms as [|m ms IH]; intros c; [done|]. cbn [fold_left]. by rewrite absorb_stmts, IH. Qed.
Lemma absorbs_same ms : ∀ c, cfg (fold_left absorb ms c) = cfg c ∧ stmts (fold_left absorb ms c) = stmts c.
Proof.
  induction ms as [|m ms IH]; intros c; [done|]. cbn [fold_left]. destruct (IH (absorb c m)) as [-> ->]. apply absorb_same.
Qed.

(** A Parse and a Describe, whatever the driver makes of the reply ([out]). *)
Lemma prepare_script {A} (stp : bytes → A → byte → bytes → client (A + nat)) (next : A → byte * bytes → A) a0
    (out : gerror + preparedStmt) sql c ms z rest :
  let name := fst (nextName (stmts c)) in
  room (conn c) = None → inbound (conn c) = wire_of ms ++ frame MsgReadyForQuery z ++ rest →
  Forall (λ m, msg_ok m ∧ ∀ a c, stp name a m.1 m.2 c = (Ret (inl (next a m)), absorb c m)) ms → msg_ok (MsgReadyForQuery, z) →
  (∀ c', cfg c' = cfg c → stp name (fold_left next ms a0) MsgReadyForQuery z c' =
    match out with inl e => (Err e, c') | inr st => (r ← new_stmt st; leave r) c' end) →
  ∃ k, (name ← next_name; dead ← take_pending;
        _ ← wire (_ ← closeMessages dead; _ ← parseMessages name sql; _ ← syncMessage; Flush);
        for_messages (stp name) a0) c =
      (match out with inl e => Err e | inr _ => Ret (length (heap (stmts c))) end,
       set_conn k (set_stmts (noted (stmts c) out) (fold_left absorb ms c))) ∧
    inbound k = rest ∧ writeBuf k = [] ∧ room k = None ∧
    sent k = sent (conn c) ++ writeBuf (conn c) ++ prepare_wire (closed (stmts c)) name sql.
Proof.
  intros name Hr Hin Hms Hz Hend. set (sc := stmts_named (stmts c)).
  step (eq_refl : next_name c = (Ret name, set_stmts (snd (nextName (stmts c))) c)).
  step (eq_refl : take_pending (set_stmts (snd (nextName (stmts c))) c) = (Ret (closed (stmts c)), set_stmts sc c)).
  set (req := prepare_wire (closed (stmts c)) name sql).
  set (k0 := set_writeBuf [] (set_socket (sent (conn c) ++ writeBuf (conn c) ++ req) None (conn c))).
  assert (wire (_ ← closeMessages (closed (stmts c)); _ ← parseMessages name sql; _ ← syncMessage; Flush) (set_stmts sc c) =
    (Ret tt, set_conn k0 (set_stmts sc c))) as E.
  { unfold wire, zoom. cbn [conn set_stmts].
    assert ((_ ← closeMessages (closed (stmts c)); _ ← parseMessages name sql; _ ← syncMessage; Flush) (conn c) =
      (_ ← (_ ← closeMessages (closed (stmts c)); _ ← parseMessages name sql; syncMessage); Flush) (conn c)) as -> by apply bind_group.
    step (writes_prepare (closed (stmts c)) name sql (conn c)). rewrite Flush_ok by done. unfold k0, req. by destruct (conn c). }
  step E.
  destruct (for_messages_script (stp name) next absorb MsgReadyForQuery z rest
    (match out with inl e => Err e | inr _ => Ret (length (heap (stmts c))) end) (λ c', set_stmts (noted (stmts c) out) c') ms a0
    (set_conn k0 (set_stmts sc c))) as (k & Hk & E'); try done.
  - apply absorb_conn.
  - intros k. rewrite (fold_touch_conn absorb absorb_conn), absorbs_stmts, set_conn_twice.
    set (c1 := set_conn k (set_stmts sc (fold_left absorb ms c))). rewrite Hend by apply (absorbs_same ms c).
    by destruct out.
  - exists k. destruct Hk as (K1 & K2 & K3 & K4 & K5). rewrite E'.
    rewrite (fold_touch_conn absorb absorb_conn), absorbs_stmts, set_conn_twice.
    split; [done|]. split; [done|]. split; [by rewrite K5|]. split; [by rewrite K3|]. by rewrite K2.
Qed.

Lemma prepareAndDescribe_said sql c ms z rest :
  let out := describes (cfg c) (stmts c) ms in
  room (conn c) = None → inbound (conn c) = wire_of ms ++ frame MsgReadyForQuery z ++ rest →
  Forall describe_known ms → msg_ok (MsgReadyForQuery, z) →
  ∃ k, prepareAndDescribe sql c =
      (match out with inl e => Err e | inr _ => Ret (length (heap (stmts c))) end,
       set_conn k (set_stmts (noted (stmts c) out) (fold_left absorb ms c))) ∧
    inbound k = rest ∧ writeBuf k = [] ∧ room k = None ∧
    sent k = sent (conn c) ++ writeBuf (conn c) ++ prepare_wire (closed (stmts c)) (fst (nextName (stmts c))) sql.
Proof.
  intros out Hr Hin Hms Hz. apply (prepare_script describe_step describe_next (mkDesc None None []) out sql c ms z rest); try done.
  - eapply Forall_impl; [exact Hms|]. intros m Hm. split; [apply Hm|by apply describe_step_known].
  - intros c' Hc. change (fold_left describe_next ms (mkDesc None None [])) with (described ms). unfold out, describes.
    destruct (described ms) as [[p|] [e|] oids]; try done. cbn [d_err d_plan d_oids]. unfold describe_step. cbn -[negotiate].
    step (eq_refl : gets cfg c' = (Ret (cfg c'), c')). rewrite Hc. unfold prepared. by destruct (negotiate (cfg c) p).
Qed.

Lemma described_wf ms a p : (∀ p, d_plan a = Some p → plan_wf p) → d_plan (fold_left describe_next ms a) = Some p → plan_wf p.
Proof.
  revert a. induction ms as [|m ms IH]; intros a Ha; [apply Ha|]. cbn [fold_left]. apply IH. unfold describe_next.
  destruct (beq m.1 MsgParameterDescription); [done|]. destruct (beq m.1 MsgRowDescription).
  - destruct (ParseRowDescription m.2) as [|q] eqn:E; [done|]. cbn. intros q' [= <-]. by eapply ParseRowDescription_wf.
  - by destruct (beq m.1 MsgErrorResponse).
Qed.

(** recordEnd touches only the counters and the observer. *)
Lemma recordEnd_same sql n b dur e c : ∃ c', recordEnd sql n b dur e c = (Ret tt, c') ∧
  conn c' = conn c ∧ stmts c' = stmts c ∧ lastRows c' = lastRows c ∧ cfg c' = cfg c.
Proof. unfold recordEnd, modify. eexists. split; [reflexivity|]. cbv zeta. by case_match. Qed.

(** What a first use leaves in the cache: the statement, at a fresh reference. *)
Lemma put_prepared {MO : MapOrder} sql st sc : let r := length (heap sc) in
  get sql (put sql r (stmts_prepared st sc)) = Some r ∧ deref r (put sql r (stmts_prepared st sc)) = st ∧
  heap (put sql r (stmts_prepared st sc)) = heap sc ++ [st].
Proof.
  intros r. assert (heap (put sql r (stmts_prepared st sc)) = heap sc ++ [st]) as Hh.
  { unfold put, evict. by repeat case_match. }
  split; [apply lookup_insert_eq|]. split; [|done]. unfold deref. rewrite Hh, app_nth2 by apply le_n. unfold r. by rewrite Nat.sub_diag.
Qed.

(** *** A description, rows and a client for examples. *)

Definition demo_description : list (byte * bytes) :=
  [(MsgParseComplete, []); (MsgParameterDescription, be_put 2 1 ++ be_put 4 OIDInt4);
   (MsgRowDescription, row_description [demo_field])].
Definition fresh_client (inb : bytes) : Client := newClient zero_config (New inb None).
Definition first_rows : list reply := [RNeutral MsgBindComplete []; RRow [Some (be_put 4 42)]; RRow [None]].
Definition first_inbound : bytes :=
  wire_of demo_description ++ frame MsgReadyForQuery (str "I") ++ wire_of (map reply_msg first_rows) ++
  frame MsgReadyForQuery (str "I") ++ str "x".
Definition background : context := {| ctx_err := λ _, None; ctx_deadline := false |}.
