(* ===== verification/Iter.v ===== *)
(** pgz/iter.go: RawQuery and the Iterator that reads rows one at a time from
    a query in flight.  The state is the client and the iterator together; the
    cancel function of a DefaultQueryTimeout is part of the context. *)
From S2P Require Import Prelude Protocol Errors Effects Wire Rows Args StmtCache Stream Client Query QuerySpec.
From S2P Require Import QueryResult Exec Conn.

(** [it_st] is nil for an iterator a batch made from nothing. *)
Record Iterator := mkIter {
  it_st : option nat;
  it_plan : option Plan;
  it_bound : bool;
  it_done : bool;
  it_err : option gerror;
  it_pgErr : option PGError;
  it_rowCount : Z
}.

Definition set_it_plan x (it : Iterator) := mkIter (it_st it) x (it_bound it) (it_done it) (it_err it) (it_pgErr it) (it_rowCount it).
Definition set_it_bound (it : Iterator) := mkIter (it_st it) (it_plan it) true (it_done it) (it_err it) (it_pgErr it) (it_rowCount it).
Definition set_it_done (it : Iterator) := mkIter (it_st it) (it_plan it) (it_bound it) true (it_err it) (it_pgErr it) (it_rowCount it).
Definition set_it_err x (it : Iterator) := mkIter (it_st it) (it_plan it) (it_bound it) (it_done it) x (it_pgErr it) (it_rowCount it).
Definition set_it_pgErr x (it : Iterator) := mkIter (it_st it) (it_plan it) (it_bound it) (it_done it) (it_err it) x (it_rowCount it).
Definition add_it_row (it : Iterator) := mkIter (it_st it) (it_plan it) (it_bound it) (it_done it) (it_err it) (it_pgErr it) (it_rowCount it + 1).

Abbreviation iter := (prog (Client * Iterator)).

(** [for { t, body, err := it.c.conn.ReadMessage(); ... }] *)
Definition iter_loop {A R} (step : A → byte → bytes → iter (A + R)) (onerr : gerror → iter R) (a : A) : iter R := λ s,
  read_loop (cl (wire ReadMessage)) step (λ _ e, onerr e) (rounds (fst s)) a s.

(** A RowDescription while executing: the statement's and the iterator's plan. *)
Definition redescribe (body : bytes) (onerr : gerror → iter unit) : iter unit :=
  it ← gets snd;
  match it_st it with
  | None => panic               (* it.st.resultFmts of a nil statement *)
  | Some r =>
      st ← cl (load r);
      match ParseRowDescriptionForFormats body (st_resultFmts st) with
      | inl e => _ ← onerr e; throw e
      | inr p => _ ← cl (set_plan r p); ow (modify (set_it_plan (Some p)))
      end
  end.

(** ** drainUntilReady *)

Definition idrain_step (_ : unit) (t : byte) (body : bytes) : iter (unit + unit) :=
  if beq t MsgReadyForQuery then
    _ ← ow (modify set_it_done);
    it ← gets snd;
    match it_pgErr it with Some e => throw (EPg e) | None => leave tt end
  else if beq t MsgErrorResponse then _ ← ow (modify (set_it_pgErr (Some (Parse body)))); again tt
  else if beq t MsgParameterStatus then _ ← cl (on_parameter body); again tt
  else if beq t MsgNoticeResponse then _ ← cl (on_notice body); again tt
  else again tt.

Definition it_drainUntilReady : iter unit :=
  iter_loop idrain_step (λ e, _ ← ow (modify (λ it, set_it_done (set_it_err (Some e) it))); throw e) tt.

(** ** startRawExecute *)

Definition bind_step (_ : unit) (t : byte) (body : bytes) : iter (unit + unit) :=
  if beq t MsgBindComplete then _ ← ow (modify set_it_bound); leave tt
  else if beq t MsgRowDescription then _ ← redescribe body (λ _, mret tt); again tt
  else if beq t MsgParameterStatus then _ ← cl (on_parameter body); again tt
  else if beq t MsgNoticeResponse then _ ← cl (on_notice body); again tt
  else if beq t MsgErrorResponse then
    _ ← ow (modify (set_it_pgErr (Some (Parse body))));
    _ ← it_drainUntilReady;
    it ← gets snd;
    match it_pgErr it with Some e => throw (EPg e) | None => panic (* it was just set *) end
  else throw (EFmt "pgz: unexpected msg during bind phase" [byteZ t]).

Definition startRawExecute (r : nat) (args : list goarg) : client Iterator := λ c,
  match (st ← load r; _ ← wire (bindMessages st args); mret st) c with
  | (Ret st, c) =>
      match iter_loop bind_step throw tt (c, mkIter (Some r) (st_plan st) false false None None 0) with
      | (Ret _, (c, it)) => (Ret it, c)
      | (Err e, (c, _)) => (Err e, c)
      | (Panic, (c, _)) => (Panic, c)
      | (Stuck, (c, _)) => (Stuck, c)
      end
  | (Err e, c) => (Err e, c)
  | (Panic, c) => (Panic, c)
  | (Stuck, c) => (Stuck, c)
  end.

(** ** RawQuery *)

Section Raw.
Context {MO : MapOrder}.

Definition raw_obtain (sql : bytes) : client (nat * bool) :=
  o ← cache_get sql;
  match o with
  | Some r => mret (r, true)
  | None =>
      x ← catch (prepareAndDescribe sql);
      match x with
      | inl e => _ ← cache_invalidate sql; throw e
      | inr r => _ ← cache_put sql r; mret (r, false)
      end
  end.

(** [for attempt := 0; attempt < 2; attempt++]; past the loop, [nil, nil]. *)
Fixpoint raw_loop (attempts : nat) (first : bool) (sql : bytes) (args : list goarg) : client (option Iterator) :=
  match attempts with
  | O => mret None
  | S attempts =>
      rc ← raw_obtain sql;
      let fromCache : bool := snd rc in
      x ← catch (startRawExecute (fst rc) args);
      match x with
      | inr it => mret (Some it)
      | inl e =>
          if first && fromCache && isStaleStmtError e then
            _ ← cache_invalidate sql; raw_loop attempts false sql args
          else throw e
      end
  end.

Definition RawQueryAny (ctx : context) (sql : bytes) (args : list goarg) : client (option Iterator) :=
  _ ← attachContext ctx;
  raw_loop 2 true sql args.

Definition RawQuery (ctx : context) (sql : bytes) (args : list goarg) : client (option Iterator) :=
  _ ← of_sum (rejectNonSelect sql);
  RawQueryAny ctx sql args.
End Raw.

(** ** NextRaw *)

Definition next_step (_ : unit) (t : byte) (body : bytes) : iter (unit + bytes) :=
  if beq t MsgDataRow then _ ← ow (modify add_it_row); leave body
  else if beq t MsgCommandComplete || beq t MsgEmptyQueryResponse || beq t MsgPortalSuspended || beq t MsgCloseComplete
  then again tt
  else if beq t MsgRowDescription then
    _ ← redescribe body (λ e, ow (modify (set_it_err (Some e)))); again tt
  else if beq t MsgParameterStatus then _ ← cl (on_parameter body); again tt
  else if beq t MsgNoticeResponse then _ ← cl (on_notice body); again tt
  else if beq t MsgErrorResponse then _ ← ow (modify (set_it_pgErr (Some (Parse body)))); again tt
  else if beq t MsgReadyForQuery then
    _ ← ow (modify set_it_done);
    it ← gets snd;
    _ ← cl (modify (set_lastRows (it_rowCount it)));
    match it_pgErr it with
    | Some e => _ ← ow (modify (set_it_err (Some (EPg e)))); throw (EPg e)
    | None => throw (EEOF false)
    end
  else
    let e := EFmt "pgz: unexpected msg during iterate" [byteZ t] in
    _ ← ow (modify (set_it_err (Some e))); throw e.

Definition NextRaw : iter bytes :=
  it ← gets snd;
  if it_done it then match it_err it with Some e => throw e | None => throw (EEOF false) end
  else match it_err it with
  | Some e => throw e
  | None => iter_loop next_step (λ e, _ ← ow (modify (set_it_err (Some e))); throw e) tt
  end.

(** ** Close *)

Definition it_Close : iter unit :=
  it ← gets snd;
  if it_done it then mret tt
  else
    c ← gets fst;
    let userCanceled := negb (pid c =? 0) in
    _ ← (if userCanceled then _ ← catch (cl SendCancel); mret tt else mret tt);
    x ← catch it_drainUntilReady;
    match x with
    | inr _ => mret tt
    | inl (EPg pe) => if userCanceled && bool_decide (Code pe = str "57014") then mret tt else throw (EPg pe)
    | inl e => throw e
    end.

(** ** Specification: an iterator is the rest of its reply *)

Definition iterate_neutral (t : byte) : bool :=
  beq t MsgCommandComplete || beq t MsgEmptyQueryResponse || beq t MsgPortalSuspended || beq t MsgCloseComplete.

Definition iter_ok (r : reply) : Prop :=
  msg_ok (reply_msg r) ∧ match r with RNeutral t _ => iterate_neutral t = true | _ => True end.

(** The next row of a reply, the error seen on the way, and what is left. *)
Fixpoint next_row (e : option PGError) (rs : list reply) : option (list (option bytes)) * option PGError * list reply :=
  match rs with
  | [] => (None, e, [])
  | RRow cells :: rs => (Some cells, e, rs)
  | RError b :: rs => next_row (Some (Parse b)) rs
  | _ :: rs => next_row e rs
  end.

(** The replies before the next row. *)
Fixpoint before_row (rs : list reply) : list reply :=
  match rs with
  | [] => []
  | RRow _ :: _ => []
  | r :: rs => r :: before_row rs
  end.

(** The concrete state stands for the replies [rs], ReadyForQuery and [rest]. *)
Definition streaming (rs : list reply) (z rest : bytes) (s : Client * Iterator) : Prop :=
  it_done (snd s) = false ∧ it_err (snd s) = None ∧
  inbound (conn (fst s)) = wire_of (map reply_msg rs) ++ frame MsgReadyForQuery z ++ rest ∧
  Forall iter_ok rs ∧ msg_ok (MsgReadyForQuery, z).

(** How a result set ends, for the caller. *)
Definition last_word (e : option PGError) : gerror := match e with Some e => EPg e | None => EEOF false end.

(** A caller that reads until there is an error. *)
Fixpoint read_all (fuel : nat) : iter (list bytes * gerror) :=
  match fuel with
  | O => stuck
  | S fuel =>
      x ← catch NextRaw;
      match x with
      | inl e => mret ([], e)
      | inr row => r ← read_all fuel; mret (row :: r.1, r.2)
      end
  end.

(** ** Lemmas *)

Lemma next_step_reply r : iter_ok r → (∀ cells, r ≠ RRow cells) → ∀ c it,
  next_step tt (reply_msg r).1 (reply_msg r).2 (c, it) =
  (Ret (inl tt), (react c r, match r with RError b => set_it_pgErr (Some (Parse b)) it | _ => it end)).
Proof.
  intros [_ Hr] Hn c it. destruct r as [cells|t b|b|b|b]; cbn [reply_msg fst snd]; [by destruct (Hn cells)| |done..|].
  - unfold next_step. destruct (beq t MsgDataRow) eqn:E; [by apply beq_true in E as ->|].
    unfold iterate_neutral in Hr. by rewrite Hr.
  - unfold next_step, on_parameter. cbn -[splitParameter]. by destruct (splitParameter b).
Qed.

(** The iterator at the end of its reply. *)
Definition ended (e : option PGError) (it : Iterator) : Iterator :=
  let it := set_it_done (set_it_pgErr e it) in
  match e with Some e => set_it_err (Some (EPg e)) it | None => it end.

(** What one NextRaw does to the client, the iterator and the reply. *)
Definition next_result (rs : list reply) (z rest : bytes) (c : Client) (it : Iterator)
    (x : res bytes * (Client * Iterator)) : Prop :=
  match next_row (it_pgErr it) rs with
  | (Some cells, e, rs') =>
      ∃ k, x = (Ret (data_row cells), (set_conn k (reacts c (before_row rs)), add_it_row (set_it_pgErr e it))) ∧
        conn_at (wire_of (map reply_msg rs') ++ frame MsgReadyForQuery z ++ rest) (conn c) k
  | (None, e, _) =>
      ∃ k, x = (Err (last_word e), (set_lastRows (it_rowCount it) (set_conn k (reacts c rs)), ended e it)) ∧
        conn_at rest (conn c) k
  end.

Lemma next_loop z rest onerr : msg_ok (MsgReadyForQuery, z) → ∀ rs fuel c it, (length rs < fuel)%nat → Forall iter_ok rs →
  inbound (conn c) = wire_of (map reply_msg rs) ++ frame MsgReadyForQuery z ++ rest →
  next_result rs z rest c it (read_loop (cl (wire ReadMessage)) next_step onerr fuel tt (c, it)).
Proof.
  intros Hz rs. induction rs as [|r rs IH]; intros fuel c it Hf Hrs Hin; destruct fuel as [|fuel]; try (cbn in Hf; lia).
  - cbn in Hin. destruct (loop_round next_step onerr fuel tt c it _ _ _ Hin Hz) as (k & Hk & E). rewrite E.
    unfold next_result. cbn [next_row]. exists k. split; [|done].
    by destruct it as [i1 i2 i3 i4 i5 [e|] i7].
  - apply Forall_cons in Hrs as [Hr Hrs]. unfold wire_of in Hin. cbn [map concat] in Hin. rewrite <- app_assoc in Hin.
    fold (wire_of (map reply_msg rs)) in Hin.
    destruct (loop_round next_step onerr fuel tt c it _ _ _ Hin ltac:(destruct Hr; by destruct (reply_msg r))) as (k & Hk & E). rewrite E.
    assert ((∃ cells, r = RRow cells) ∨ ∀ cells, r ≠ RRow cells) as [[cells ->]|Hn] by (destruct r; [left; by eexists|by right..]).
    + unfold next_result. cbn [next_row before_row]. exists k. split; [|done].
      destruct it; done.
    + rewrite next_step_reply by done. cbn [after].
      set (it1 := match r with RError b => _ | _ => it end).
      specialize (IH fuel (react (set_conn k c) r) it1 ltac:(cbn in Hf; lia) Hrs).
      assert (conn (react (set_conn k c) r) = k) as Hc by (rewrite react_conn; done).
      rewrite Hc in IH. specialize (IH (conn_at_in _ _ _ Hk)). unfold next_result in *.
      assert (next_row (it_pgErr it) (r :: rs) = next_row (it_pgErr it1) rs ∧ before_row (r :: rs) = r :: before_row rs ∧
        (∀ e, set_it_pgErr e it1 = set_it_pgErr e it) ∧ it_rowCount it1 = it_rowCount it) as (H1 & H2 & H3 & H4)
        by (destruct r; try (by destruct (Hn cells)); by destruct it).
      rewrite H1, H2. destruct (next_row (it_pgErr it1) rs) as [[[cells|] e] rs'].
      * destruct IH as (k1 & E1 & K1). exists k1. rewrite E1, H3, react_conn, reacts_conn, set_conn_twice. split; [done|].
        rewrite Hc in K1. by eapply conn_at_trans.
      * destruct IH as (k1 & E1 & K1). exists k1. rewrite E1, H4, react_conn, reacts_conn, set_conn_twice. split.
        { unfold ended. by rewrite H3. }
        { rewrite Hc in K1. by eapply conn_at_trans. }
Qed.

Lemma NextRaw_at rs z rest c it : streaming rs z rest (c, it) → next_result rs z rest c it (NextRaw (c, it)).
Proof.
  intros (Hd & He & Hin & Hrs & Hz). unfold NextRaw. cbn [fst snd] in *.
  step (eq_refl : gets snd (c, it) = (Ret it, (c, it))). rewrite Hd, He. unfold iter_loop.
  apply next_loop; [done| |done|done]. unfold rounds. cbn [fst]. rewrite Hin. apply fuel_enough.
Qed.

(** What is left after the next row, seen from the whole reply. *)
Lemma next_row_rest rs : ∀ e, match next_row e rs with
  | (Some cells, e', rs') => rows_of rs = cells :: rows_of rs' ∧ error_of e rs = error_of e' rs' ∧
      (∀ c, reacts (reacts c (before_row rs)) rs' = reacts c rs) ∧ ∀ P : reply → Prop, Forall P rs → Forall P rs'
  | (None, e', _) => rows_of rs = [] ∧ error_of e rs = e'
  end.
Proof.
  induction rs as [|r rs IH]; intros e; [done|].
  destruct r as [cells|t b|b|b|b]; [split; [done|]; split; [done|]; split; [done|]; intros P HP; by inversion HP|..]; cbn [next_row].
  all: match goal with |- context [next_row ?e1 ?l] => specialize (IH e1); destruct (next_row e1 l) as [[[cells|] e'] rs'] end.
  all: cbn [rows_of error_of before_row]; try exact IH.
  all: destruct IH as (H1 & H2 & H3 & H4); split; [exact H1|split; [exact H2|split]];
    [intros c; apply H3|intros P HP; apply Forall_cons in HP as [_ HP]; by apply H4].
Qed.

Lemma read_all_ok z rest : ∀ rs c it, streaming rs z rest (c, it) →
  ∃ k it', read_all (S (length (rows_of rs))) (c, it) =
      (Ret (map data_row (rows_of rs), last_word (error_of (it_pgErr it) rs)),
       (set_lastRows (it_rowCount it + Zlen (rows_of rs)) (set_conn k (reacts c rs)), it')) ∧
    conn_at rest (conn c) k ∧ it_done it' = true ∧
    it_err it' = match error_of (it_pgErr it) rs with Some e => Some (EPg e) | None => None end.
Proof.
  intros rs. remember (length (rows_of rs)) as n eqn:Hn. revert rs Hn.
  induction n as [|n IH]; intros rs Hn c it Hs; pose proof (NextRaw_at rs z rest c it Hs) as H; unfold next_result in H;
    pose proof (next_row_rest rs (it_pgErr it)) as Hr; destruct (next_row (it_pgErr it) rs) as [[[cells|] e] rs'].
  1,4: exfalso; destruct Hr as (Hr & _); rewrite Hr in Hn; cbn in Hn; lia.
  - destruct Hr as [Hr ->], H as (k & E & Hk). exists k. eexists. split.
    + cbn [read_all]. assert (catch NextRaw (c, it) = (Ret (inl (last_word e)), (set_lastRows (it_rowCount it) (set_conn k (reacts c rs)), ended e it))) as E1
        by (unfold catch; by rewrite E).
      step E1. rewrite Hr. cbn [map]. change (Zlen (@nil (list (option bytes)))) with 0. by rewrite Z.add_0_r.
    + split; [done|]. destruct Hs as (_ & He & _). cbn in He. unfold ended. destruct e; by destruct it; cbn in *; subst.
  - destruct Hr as (Hr & He & Hre & Hall), H as (k & E & Hk).
    destruct Hs as (S1 & S2 & S3 & S4 & S5). cbn [fst snd] in *.
    destruct (IH rs' ltac:(rewrite Hr in Hn; cbn in Hn; lia) (set_conn k (reacts c (before_row rs))) (add_it_row (set_it_pgErr e it))) as
      (k1 & it' & E1 & K1 & D1 & D2).
    { split; [by destruct it|]. split; [by destruct it|]. split; [|split; [by apply Hall|done]]. by apply (conn_at_in _ _ _ Hk). }
    exists k1, it'. split; [|split; [by eapply conn_at_trans|]].
    + remember (S n) as m. cbn [read_all]. subst m.
      assert (catch NextRaw (c, it) = (Ret (inr (data_row cells)), (set_conn k (reacts c (before_row rs)), add_it_row (set_it_pgErr e it)))) as E2
        by (unfold catch; by rewrite E).
      step E2. step E1. cbn [fst snd]. rewrite Hr, He, Zlen_cons. destruct it as [i1 i2 i3 i4 i5 i6 i7]. cbn [it_pgErr it_rowCount add_it_row set_it_pgErr map].
      rewrite reacts_conn, Hre, set_conn_twice. by replace (i7 + 1 + Zlen (rows_of rs')) with (i7 + (Zlen (rows_of rs') + 1)) by lia.
    + split; [done|]. rewrite D2, He. by destruct it.
Qed.

(** What may come before BindComplete. *)
Definition bind_quiet (r : reply) : Prop := msg_ok (reply_msg r) ∧ match r with RParam _ | RNotice _ => True | _ => False end.

Lemma bind_prefix onerr it tail : ∀ rs fuel c, (length rs < fuel)%nat → Forall bind_quiet rs →
  inbound (conn c) = wire_of (map reply_msg rs) ++ tail →
  ∃ k fuel', read_loop (cl (wire ReadMessage)) bind_step onerr fuel tt (c, it) =
    read_loop (cl (wire ReadMessage)) bind_step onerr (S fuel') tt (set_conn k (reacts c rs), it) ∧ conn_at tail (conn c) k.
Proof.
  intros rs. induction rs as [|r rs IH]; intros fuel c Hf Hrs Hin; destruct fuel as [|fuel]; try (cbn in Hf; lia).
  - exists (conn c), fuel. cbn in Hin. split; [by destruct c|by split].
  - apply Forall_cons in Hrs as [[Hm Hq] Hrs]. unfold wire_of in Hin. cbn [map concat] in Hin. rewrite <- app_assoc in Hin.
    fold (wire_of (map reply_msg rs)) in Hin.
    destruct (loop_round bind_step onerr fuel tt c it _ _ _ Hin ltac:(by destruct (reply_msg r))) as (k & Hk & E). rewrite E.
    assert (bind_step tt (reply_msg r).1 (reply_msg r).2 (set_conn k c, it) = (Ret (inl tt), (react (set_conn k c) r, it))) as ->.
    { destruct r as [|t x|x|x|x]; try done. }
    cbn [after]. rewrite react_conn. destruct (IH fuel (set_conn k (react c r))) as (k1 & fuel' & E1 & K1); [cbn in Hf; lia|done|by apply (conn_at_in _ _ _ Hk)|].
    exists k1, fuel'. rewrite E1. rewrite reacts_conn, set_conn_twice. split; [done|]. by eapply conn_at_trans.
Qed.

Lemma bind_loop b rest onerr it : msg_ok (MsgBindComplete, b) → ∀ rs fuel c, (length rs < fuel)%nat → Forall bind_quiet rs →
  inbound (conn c) = wire_of (map reply_msg rs) ++ frame MsgBindComplete b ++ rest →
  ∃ k, read_loop (cl (wire ReadMessage)) bind_step onerr fuel tt (c, it) =
    (Ret tt, (set_conn k (reacts c rs), set_it_bound it)) ∧ conn_at rest (conn c) k.
Proof.
  intros Hb rs fuel c Hf Hrs Hin. destruct (bind_prefix onerr it _ rs fuel c Hf Hrs Hin) as (k1 & fuel' & -> & Hk1).
  destruct (loop_round bind_step onerr fuel' tt (set_conn k1 (reacts c rs)) it _ _ _ (conn_at_in _ _ _ Hk1) Hb) as (k & Hk & E).
  rewrite E. exists k. split; [|by eapply conn_at_trans]. by rewrite set_conn_twice.
Qed.

(** Messages that are not ReadyForQuery, drained; the last error is kept. *)
Lemma idrain_loop z rest onerr : msg_ok (MsgReadyForQuery, z) → ∀ msgs fuel c it, (length msgs < fuel)%nat →
  Forall (λ m, msg_ok m ∧ m.1 ≠ MsgReadyForQuery) msgs →
  inbound (conn c) = wire_of msgs ++ frame MsgReadyForQuery z ++ rest →
  ∃ c' it', read_loop (cl (wire ReadMessage)) idrain_step onerr fuel tt (c, it) =
      (match last_error (it_pgErr it) msgs with Some e => Err (EPg e) | None => Ret tt end, (c', it')) ∧
    inbound (conn c') = rest ∧ it_done it' = true ∧ cancels c' = cancels c ∧ sent (conn c') = sent (conn c) ∧
    conn_at rest (conn c) (conn c') ∧ stmts c' = stmts c ∧ cfg c' = cfg c ∧ it_pgErr it' = last_error (it_pgErr it) msgs.
Proof.
  intros Hz msgs. induction msgs as [|[t b] msgs IH]; intros fuel c it Hf Hok Hin; destruct fuel as [|fuel]; try (cbn in Hf; lia).
  - cbn in Hin. destruct (loop_round idrain_step onerr fuel tt c it _ _ _ Hin Hz) as (k & Hk & E). rewrite E.
    cbn [last_error]. exists (set_conn k c), (set_it_done it). pose proof Hk as (K1 & K2 & _). by destruct it as [i1 i2 i3 i4 i5 [e|] i7].
  - apply Forall_cons in Hok as [[Hm Ht] Hok]. cbn [fst] in Ht. unfold wire_of in Hin. cbn [map concat fst snd] in Hin.
    rewrite <- app_assoc in Hin. fold (wire_of msgs) in Hin.
    destruct (loop_round idrain_step onerr fuel tt c it _ _ _ Hin Hm) as (k & Hk & E). rewrite E. pose proof Hk as (K1 & K2 & _).
    assert (∃ c1 it1, idrain_step tt t b (set_conn k c, it) = (Ret (inl tt), (c1, it1)) ∧ conn c1 = k ∧ cancels c1 = cancels c ∧
      stmts c1 = stmts c ∧ cfg c1 = cfg c ∧ it_pgErr it1 = if beq t MsgErrorResponse then Some (Parse b) else it_pgErr it) as (c1 & it1 & Es & C1 & C2 & C4 & C5 & C3).
    { unfold idrain_step. destruct (beq t MsgReadyForQuery) eqn:Eb; [by apply beq_true in Eb|].
      destruct (beq t MsgErrorResponse); [by eexists _, _|]. destruct (beq t MsgParameterStatus).
      { unfold on_parameter, cl, zoom, modify, mbind, prog_bind, fst. destruct (splitParameter b). by eexists _, _. }
      by destruct (beq t MsgNoticeResponse); eexists _, _. }
    rewrite Es. cbn [after].
    destruct (IH fuel c1 it1) as (c' & it' & E' & D1 & D2 & D3 & D4 & D5 & D6 & D7 & D8); [cbn in Hf; lia|done|by rewrite C1, K1|].
    exists c', it'. rewrite E'. cbn [last_error fst snd]. rewrite C3 in *. split; [done|]. rewrite C1 in *.
    split; [done|]. split; [done|]. split; [congruence|]. split; [congruence|]. split; [by eapply conn_at_trans|]. by rewrite D6, D7.
Qed.

(** A finished iterator touches nothing. *)
Lemma NextRaw_done c it : it_done it = true →
  NextRaw (c, it) = (Err (match it_err it with Some e => e | None => EEOF false end), (c, it)).
Proof. intros Hd. unfold NextRaw. step (eq_refl : gets snd (c, it) = (Ret it, (c, it))). rewrite Hd. by destruct (it_err it). Qed.
Lemma it_Close_done c it : it_done it = true → it_Close (c, it) = (Ret tt, (c, it)).
Proof. intros Hd. unfold it_Close. step (eq_refl : gets snd (c, it) = (Ret it, (c, it))). by rewrite Hd. Qed.

(** Once the request is out, startRawExecute is its read loop. *)
Definition iter_asked (c : Client) (req : bytes) : Conn := set_writeBuf [] (set_socket (sent (conn c) ++ writeBuf (conn c) ++ req) None (conn c)).
Definition iter_request (st : preparedStmt) (args : list goarg) (vals : list (option bytes)) : bytes :=
  frame MsgBind (bind_body st args vals) ++ frame MsgExecute [x00; x00; x00; x00; x00] ++ frame MsgSync [].

Lemma startRawExecute_asked r args c st vals : deref r (stmts c) = st → arg_values (st_paramOIDs st) 0 args = Some vals →
  room (conn c) = None →
  let c1 := set_conn (iter_asked c (iter_request st args vals)) c in
  startRawExecute r args c =
    match read_loop (cl (wire ReadMessage)) bind_step (λ _ e, throw e) (rounds c1) tt (c1, mkIter (Some r) (st_plan st) false false None None 0) with
    | (Ret _, (c, it)) => (Ret it, c)
    | (Err e, (c, _)) => (Err e, c)
    | (Panic, (c, _)) => (Panic, c)
    | (Stuck, (c, _)) => (Stuck, c)
    end.
Proof.
  intros Hst Hargs Hroom c1. unfold startRawExecute.
  assert ((st ← load r; _ ← wire (bindMessages st args); mret st) c = (Ret st, c1)) as ->; [|done].
  step (eq_refl : load r c = (Ret (deref r (stmts c)), c)). rewrite Hst.
  assert (wire (bindMessages st args) c = (Ret tt, c1)) as Eb by (unfold wire, zoom; by rewrite (bindMessages_ok st args vals (conn c) Hroom Hargs)).
  by step Eb.
Qed.

(** Executing a prepared statement, up to its BindComplete. *)
Lemma startRawExecute_ok r args c st vals quiet b tail : deref r (stmts c) = st → arg_values (st_paramOIDs st) 0 args = Some vals →
  room (conn c) = None → inbound (conn c) = wire_of (map reply_msg quiet) ++ frame MsgBindComplete b ++ tail →
  Forall bind_quiet quiet → msg_ok (MsgBindComplete, b) →
  ∃ k, startRawExecute r args c = (Ret (mkIter (Some r) (st_plan st) true false None None 0), set_conn k (reacts c quiet)) ∧
    inbound k = tail ∧ sent k = sent (conn c) ++ writeBuf (conn c) ++ iter_request st args vals ∧ writeBuf k = [] ∧ room k = None.
Proof.
  intros Hst Hargs Hroom Hin Hq Hb. rewrite (startRawExecute_asked r args c st vals Hst Hargs Hroom). cbv zeta.
  set (k0 := iter_asked c _). set (it0 := mkIter (Some r) (st_plan st) false false None None 0).
  destruct (bind_loop b _ (λ _ e, throw e) it0 Hb quiet (rounds (set_conn k0 c)) (set_conn k0 c)
    ltac:(unfold rounds, k0, iter_asked; cbn [conn set_conn inbound set_writeBuf set_socket]; rewrite Hin; apply fuel_enough) Hq Hin) as (k & E & Hk).
  rewrite reacts_conn, set_conn_twice in E. exists k. rewrite E. split; [done|]. by destruct Hk as (-> & -> & -> & _ & ->).
Qed.

(** Or up to the server's refusal to bind, and its ReadyForQuery. *)
Lemma startRawExecute_refused r args c st vals quiet b msgs z rest : deref r (stmts c) = st → arg_values (st_paramOIDs st) 0 args = Some vals →
  room (conn c) = None →
  inbound (conn c) = wire_of (map reply_msg quiet) ++ frame MsgErrorResponse b ++ wire_of msgs ++ frame MsgReadyForQuery z ++ rest →
  Forall bind_quiet quiet → msg_ok (MsgErrorResponse, b) → Forall (λ m, msg_ok m ∧ m.1 ≠ MsgReadyForQuery) msgs → msg_ok (MsgReadyForQuery, z) →
  ∃ e c', last_error (Some (Parse b)) msgs = Some e ∧ startRawExecute r args c = (Err (EPg e), c') ∧ inbound (conn c') = rest ∧
    sent (conn c') = sent (conn c) ++ writeBuf (conn c) ++ iter_request st args vals ∧ writeBuf (conn c') = [] ∧ room (conn c') = None ∧
    stmts c' = stmts c ∧ cfg c' = cfg c.
Proof.
  intros Hst Hargs Hroom Hin Hq Hb Hms Hz. rewrite (startRawExecute_asked r args c st vals Hst Hargs Hroom). cbv zeta.
  set (k0 := iter_asked c _). set (it0 := mkIter (Some r) (st_plan st) false false None None 0).
  destruct (bind_prefix (λ _ e, throw e) it0 _ quiet (rounds (set_conn k0 c)) (set_conn k0 c)
    ltac:(unfold rounds, k0, iter_asked; cbn [conn set_conn inbound set_writeBuf set_socket]; rewrite Hin; apply fuel_enough) Hq Hin) as (k & fuel & -> & Hk).
  rewrite reacts_conn, set_conn_twice.
  destruct (loop_round bind_step (λ _ e, throw e) fuel tt (set_conn k (reacts c quiet)) it0 _ _ _ (conn_at_in _ _ _ Hk) Hb) as (k1 & Hk1 & ->).
  rewrite set_conn_twice. set (c1 := set_conn k1 (reacts c quiet)). set (it1 := set_it_pgErr (Some (Parse b)) it0).
  destruct (idrain_loop z rest (λ _ e, _ ← ow (modify (λ it, set_it_done (set_it_err (Some e) it))); throw e) Hz msgs
    (rounds c1) c1 it1) as (c' & it' & E' & D1 & D2 & D3 & D4 & D5 & D6 & D7 & D8); [|done|by apply (conn_at_in _ _ _ Hk1)|].
  { unfold rounds. unfold c1. cbn [conn set_conn]. rewrite (conn_at_in _ _ _ Hk1), length_app. pose proof (length_wire_of msgs). lia. }
  assert (∃ e, last_error (Some (Parse b)) msgs = Some e) as [e He].
  { clear. generalize (Parse b). induction msgs as [|m msgs IH]; intros e; [by eexists|]. cbn. destruct (beq m.1 MsgErrorResponse); apply IH. }
  exists e, c'. split; [done|]. change (it_pgErr it1) with (Some (Parse b)) in E'. rewrite He in E'.
  assert (bind_step tt MsgErrorResponse b (c1, it0) = (Err (EPg e), (c', it'))) as ->.
  { change (bind_step tt MsgErrorResponse b (c1, it0)) with
      ((_ ← it_drainUntilReady; it ← gets snd; match it_pgErr it with Some e => throw (EPg e) | None => panic end) (c1, it1) : res (unit + unit) * (Client * Iterator)).
    unfold it_drainUntilReady, iter_loop, mbind, prog_bind. cbn [fst]. unfold mbind, prog_bind in E'. by rewrite E'. }
  cbn [after]. split; [done|]. destruct D5 as (_ & S2 & S3 & _ & S5). destruct Hk1 as (_ & T2 & T3 & _ & T5), Hk as (_ & U2 & U3 & _ & U5).
  split; [done|]. rewrite S2, S3, S5, D6, D7. unfold c1. cbn [conn set_conn stmts cfg] in *.
  rewrite T2, T3, T5, U2, U3, U5, (reacts_stmts c quiet), (proj1 (reacts_same c quiet)). done.
Qed.

(** ** The contract *)

(** C7. RawQuery's promise, as a refinement of "the rows of the reply, one at a
    time": executing a prepared statement sends exactly Bind, Execute and Sync
    and, behind any notices and parameter changes, BindComplete leaves an
    iterator that stands for the rest of the reply; every NextRaw on such an
    iterator returns the next row and leaves one that stands for what follows
    it, or ends with the server's last error or io.EOF; so reading to the end
    gives exactly the rows in order and consumes the reply exactly, and from
    then on NextRaw repeats its last word and touches nothing. *)
Theorem iterator_refines (r : nat) (args : list goarg) (c : Client) (st : preparedStmt) (vals : list (option bytes))
    (quiet rs : list reply) (b z rest : bytes)
  (Hst : deref r (stmts c) = st) (Hargs : arg_values (st_paramOIDs st) 0 args = Some vals) (Hroom : room (conn c) = None)
  (Hin : inbound (conn c) = wire_of (map reply_msg quiet) ++ frame MsgBindComplete b ++
     wire_of (map reply_msg rs) ++ frame MsgReadyForQuery z ++ rest)
  (Hok : Forall bind_quiet quiet ∧ msg_ok (MsgBindComplete, b) ∧ Forall iter_ok rs ∧ msg_ok (MsgReadyForQuery, z)) :
  ∃ c1 it, startRawExecute r args c = (Ret it, c1) ∧ streaming rs z rest (c1, it) ∧
    sent (conn c1) = sent (conn c) ++ writeBuf (conn c) ++ frame MsgBind (bind_body st args vals) ++
      frame MsgExecute [x00; x00; x00; x00; x00] ++ frame MsgSync [] ∧
    (∀ rs' c2 it2, streaming rs' z rest (c2, it2) → next_result rs' z rest c2 it2 (NextRaw (c2, it2))) ∧
    ∃ c3 it3, read_all (S (length (rows_of rs))) (c1, it) =
        (Ret (map data_row (rows_of rs), last_word (error_of None rs)), (c3, it3)) ∧
      inbound (conn c3) = rest ∧ sent (conn c3) = sent (conn c1) ∧ lastRows c3 = Zlen (rows_of rs) ∧
      NextRaw (c3, it3) = (Err (last_word (error_of None rs)), (c3, it3)) ∧ it_Close (c3, it3) = (Ret tt, (c3, it3)).
Proof.
  destruct Hok as (Hq & Hb & Hrs & Hz).
  destruct (startRawExecute_ok r args c st vals quiet b _ Hst Hargs Hroom Hin Hq Hb) as (k & Es & Hki & Hks & _).
  assert (streaming rs z rest (set_conn k (reacts c quiet), mkIter (Some r) (st_plan st) true false None None 0)) as S1 by done.
  eexists _, _. split; [exact Es|]. split; [exact S1|]. split; [exact Hks|]. split.
  { intros rs' c2 it2. apply NextRaw_at. }
  destruct (read_all_ok z rest rs _ _ S1) as (k3 & it3 & E3 & (K1 & K2 & _) & D1 & D2).
  eexists _, it3. split; [exact E3|]. split; [exact K1|]. split; [exact K2|]. split; [done|].
  split; [|by apply it_Close_done]. rewrite NextRaw_done by done. cbn [it_pgErr] in D2. rewrite D2.
  by destruct (error_of None rs).
Qed.

(** The connection's key, for Close's cancel. *)
Definition cancel_sent (c : Client) : list bytes :=
  if pid c =? 0 then [] else [beU32put 16 ++ beU32put cancelRequestCode ++ beU32put (pid c) ++ beU32put (skey c)].

Lemma SendCancel_client c (it : Iterator) : ∃ c1, conn c1 = conn c ∧ cancels c1 = cancels c ++ cancel_sent c ∧
  (if negb (pid c =? 0) then _ ← catch (cl SendCancel); mret tt else mret tt) (c, it) = (Ret tt, (c1, it)).
Proof.
  unfold cancel_sent. destruct (pid c =? 0) eqn:Hp; cbn [negb]; [exists c; by rewrite app_nil_r|].
  assert (SendCancel c = (Ret tt, add_cancel (beU32put 16 ++ beU32put cancelRequestCode ++ beU32put (pid c) ++ beU32put (skey c)) c)) as E
    by (unfold SendCancel, mbind, prog_bind, ask; by rewrite Hp).
  eexists. split; [|split; [|unfold catch, cl, zoom, mbind, prog_bind; cbn [fst snd]; by rewrite E]]; done.
Qed.

(** Closing an iterator in the middle of its result set, whatever the
    server still sends: a CancelRequest with this backend's key goes out when
    there is one, everything through ReadyForQuery is consumed so that the
    connection is usable again, the error of our own cancel is swallowed, any
    other server error is returned, and a second Close does nothing. *)
Theorem close_restores (c : Client) (it : Iterator) (msgs : list (byte * bytes)) (z rest : bytes)
  (Hopen : it_done it = false)
  (Hin : inbound (conn c) = wire_of msgs ++ frame MsgReadyForQuery z ++ rest)
  (Hok : Forall (λ m, msg_ok m ∧ m.1 ≠ MsgReadyForQuery) msgs ∧ msg_ok (MsgReadyForQuery, z)) :
  ∃ c' it', it_Close (c, it) =
      (match last_error (it_pgErr it) msgs with
       | Some e => if negb (pid c =? 0) && bool_decide (Code e = str "57014") then Ret tt else Err (EPg e)
       | None => Ret tt
       end, (c', it')) ∧
    inbound (conn c') = rest ∧ sent (conn c') = sent (conn c) ∧ cancels c' = cancels c ++ cancel_sent c ∧
    it_done it' = true ∧ it_Close (c', it') = (Ret tt, (c', it')).
Proof.
  destruct Hok as [Hok Hz]. unfold it_Close at 1.
  step (eq_refl : gets snd (c, it) = (Ret it, (c, it))). rewrite Hopen.
  step (eq_refl : gets fst (c, it) = (Ret c, (c, it))). cbv zeta.
  destruct (SendCancel_client c it) as (c1 & C1 & C2 & E1). step E1.
  destruct (idrain_loop z rest (λ _ e, _ ← ow (modify (λ it, set_it_done (set_it_err (Some e) it))); throw e) Hz msgs
    (rounds c1) c1 it) as (c' & it' & E & D1 & D2 & D3 & D4 & _); [|done|by rewrite C1|].
  { unfold rounds. rewrite C1, Hin, length_app. pose proof (length_wire_of msgs). lia. }
  exists c', it'. split; [|split; [done|split; [by rewrite D4, C1|split; [by rewrite D3, C2|split; [done|by apply it_Close_done]]]]].
  assert (catch it_drainUntilReady (c1, it) =
    (Ret (match last_error (it_pgErr it) msgs with Some e => inl (EPg e) | None => inr tt end), (c', it'))) as E2.
  { unfold catch, it_drainUntilReady, iter_loop. cbn [fst]. rewrite E. by destruct (last_error _ _). }
  step E2. destruct (last_error (it_pgErr it) msgs) as [e|]; [|done]. by destruct (negb _ && _).
Qed.

Definition demo_rows : list reply := [RRow [Some (str "1")]; RNotice [x00]; RRow [None]; RNeutral MsgCommandComplete (str "SELECT 2" ++ [x00])].
Definition demo_iter_client : Client :=
  demo_client (wire_of (map reply_msg [RNotice [x00]]) ++ frame MsgBindComplete [] ++
    wire_of (map reply_msg demo_rows) ++ frame MsgReadyForQuery (str "I") ++ str "x").

Lemma demo_rows_ok : Forall iter_ok demo_rows.
Proof. repeat constructor; discriminate. Qed.

Lemma iterator_refines_witness :
  ∃ c1 it, startRawExecute 0 [AInt KInt 7] demo_iter_client = (Ret it, c1) ∧ streaming demo_rows (str "I") (str "x") (c1, it) ∧
    sent (conn c1) = [] ++ [] ++ frame MsgBind (bind_body demo_stmt [AInt KInt 7] [Some (be_put 4 7)]) ++
      frame MsgExecute [x00; x00; x00; x00; x00] ++ frame MsgSync [] ∧
    (∀ rs' c2 it2, streaming rs' (str "I") (str "x") (c2, it2) → next_result rs' (str "I") (str "x") c2 it2 (NextRaw (c2, it2))) ∧
    ∃ c3 it3, read_all 3 (c1, it) =
        (Ret (map data_row [[Some (str "1")]; [None]], EEOF false), (c3, it3)) ∧
      inbound (conn c3) = str "x" ∧ sent (conn c3) = sent (conn c1) ∧ lastRows c3 = 2 ∧
      NextRaw (c3, it3) = (Err (EEOF false), (c3, it3)) ∧ it_Close (c3, it3) = (Ret tt, (c3, it3)).
Proof.
  apply (iterator_refines 0 [AInt KInt 7] demo_iter_client demo_stmt [Some (be_put 4 7)] [RNotice [x00]] demo_rows
    [] (str "I") (str "x")).
  - reflexivity.
  - reflexivity.
  - reflexivity.
  - reflexivity.
  - split; [repeat constructor; discriminate|]. split; [discriminate|]. split; [apply demo_rows_ok|discriminate].
Defined.

Definition fresh_conn (inb : bytes) : Client := newClient zero_config (Wire.New inb None).
Definition canceled_reply : list (byte * bytes) :=
  [(MsgDataRow, data_row [None]); (MsgErrorResponse, error_wire [("C"%byte, str "57014")])].

Lemma close_restores_witness :
  let c := set_key 7 8 (fresh_conn (wire_of canceled_reply ++ frame MsgReadyForQuery (str "I") ++ str "x")) in
  let it := mkIter (Some 0%nat) None true false None None 0 in
  ∃ c' it', it_Close (c, it) = (Ret tt, (c', it')) ∧
    inbound (conn c') = str "x" ∧ sent (conn c') = [] ∧ cancels c' = [] ++ cancel_sent c ∧
    it_done it' = true ∧ it_Close (c', it') = (Ret tt, (c', it')).
Proof.
  apply (close_restores (set_key 7 8 (fresh_conn (wire_of canceled_reply ++ frame MsgReadyForQuery (str "I") ++ str "x")))
    (mkIter (Some 0%nat) None true false None None 0) canceled_reply (str "I") (str "x")).
  - reflexivity.
  - reflexivity.
  - split; [|discriminate]. repeat constructor; discriminate.
Defined.
