(* ===== verification/Talk.v ===== *)
(** A judgement for the exchanges of COPY and of the other scripted parts of the
    protocol: from a healthy connection with given bytes to read, a computation
    finishes with a result, sends exactly some bytes, reads up to a rest and
    does to the client what the asynchronous messages it met do.  The rules
    compose exchanges the way the code composes calls. *)
From S2P Require Import Prelude Protocol Errors Effects Wire Client Query.

(** ** Definitions *)

(** [if err := m; err != nil { return onerr }]. *)
Definition check {S A R} (m : prog S A) (onerr : gerror → prog S R) (f : A → prog S R) : prog S R :=
  x ← catch m;
  match x with inl e => onerr e | inr a => f a end.

Definition healthy (k : Conn) : Prop := room k = None ∧ writeBuf k = [].

Definition runs {A} (m : client A) (i : bytes) (r : res A) (ms : list (byte * bytes)) (p rest : bytes) : Prop :=
  ∀ c, healthy (conn c) → inbound (conn c) = i →
    ∃ k, m c = (r, set_conn k (fold_left absorb ms c)) ∧
      healthy k ∧ sent k = sent (conn c) ++ p ∧ inbound k = rest.

(** ** Rules *)

Lemma runs_ret {A} (a : A) i : runs (mret a) i (Ret a) [] [] i.
Proof. intros c Hh Hi. exists (conn c). rewrite app_nil_r. split; [by destruct c|done]. Qed.
Lemma runs_throw {A} e i : runs (A := A) (throw e) i (Err e) [] [] i.
Proof. intros c Hh Hi. exists (conn c). rewrite app_nil_r. split; [by destruct c|done]. Qed.

Lemma absorb_fold_conn k ms c : fold_left absorb ms (set_conn k c) = set_conn k (fold_left absorb ms c).
Proof. apply (fold_touch_conn absorb absorb_conn). Qed.

Lemma runs_bind {A B} (m : client A) (f : A → client B) i a ms1 p1 r1 r ms2 p2 r2 :
  runs m i (Ret a) ms1 p1 r1 → runs (f a) r1 r ms2 p2 r2 → runs (m ≫= f) i r (ms1 ++ ms2) (p1 ++ p2) r2.
Proof.
  intros Hm Hf c Hh Hi. destruct (Hm c Hh Hi) as (k1 & E1 & H1 & S1 & I1).
  destruct (Hf (set_conn k1 (fold_left absorb ms1 c)) H1 I1) as (k2 & E2 & H2 & S2 & I2).
  exists k2. rewrite (bind_Ret _ _ _ _ _ E1), E2, absorb_fold_conn, set_conn_twice, <- fold_left_app.
  split; [done|]. split; [done|]. split; [|done]. cbn [conn set_conn] in S2. by rewrite S2, S1, app_assoc.
Qed.

Lemma runs_catch {A} (m : client A) i a ms p rest : runs m i (Ret a) ms p rest → runs (catch m) i (Ret (inr a)) ms p rest.
Proof. intros Hm c Hh Hi. destruct (Hm c Hh Hi) as (k & E & H). exists k. unfold catch. by rewrite E. Qed.
Lemma runs_catch_err {A} (m : client A) i e ms p rest : runs m i (Err e) ms p rest → runs (catch m) i (Ret (inl e)) ms p rest.
Proof. intros Hm c Hh Hi. destruct (Hm c Hh Hi) as (k & E & H). exists k. unfold catch. by rewrite E. Qed.

Lemma runs_check {A B} (m : client A) onerr (f : A → client B) i a ms1 p1 r1 r ms2 p2 r2 :
  runs m i (Ret a) ms1 p1 r1 → runs (f a) r1 r ms2 p2 r2 → runs (check m onerr f) i r (ms1 ++ ms2) (p1 ++ p2) r2.
Proof. intros Hm Hf. eapply runs_bind; [by apply runs_catch|done]. Qed.
Lemma runs_check_err {A B} (m : client A) (onerr : gerror → client B) f i e ms1 p1 r1 r ms2 p2 r2 :
  runs m i (Err e) ms1 p1 r1 → runs (onerr e) r1 r ms2 p2 r2 → runs (check m onerr f) i r (ms1 ++ ms2) (p1 ++ p2) r2.
Proof. intros Hm Hf. eapply runs_bind; [by apply runs_catch_err|done]. Qed.

Lemma runs_conv {A} (m : client A) i r ms ms' p p' rest : runs m i r ms' p' rest → ms' = ms → p' = p → runs m i r ms p rest.
Proof. by intros H -> ->. Qed.

(** One message sent by itself. *)
Lemma runs_send t m p i : writes m p → runs (wire (_ ← message t m; Flush)) i (Ret tt) [] (frame t p) i.
Proof.
  intros Hm c [Hr Hb] Hi. unfold wire, zoom. step (writes_message t m p Hm (conn c)). rewrite Flush_ok by done.
  eexists. split; [reflexivity|]. cbn. by rewrite Hb.
Qed.
Lemma runs_write p i : runs (wire (WriteRaw p)) i (Ret tt) [] p i.
Proof.
  intros c [Hr Hb] Hi. unfold wire, zoom, WriteRaw. rewrite Hr. eexists. split; [reflexivity|]. by split.
Qed.

(** A loop over messages it only absorbs, up to the one that ends it. *)
Lemma runs_messages {A R} (stp : A → byte → bytes → client (A + R)) (next : A → byte * bytes → A) a ms t b r rest :
  Forall (λ m, msg_ok m ∧ ∀ a c, stp a m.1 m.2 c = (Ret (inl (next a m)), absorb c m)) ms → msg_ok (t, b) →
  (∀ c, stp (fold_left next ms a) t b c = (ending r, c)) →
  runs (for_messages stp a) (wire_of ms ++ frame t b ++ rest) r ms [] rest.
Proof.
  intros Hms Hb Hend c [Hr Hw] Hi.
  destruct (for_messages_script stp next absorb t b rest r id ms a c) as (k & (K1 & K2 & K3 & _ & K4) & E); try done.
  - apply absorb_conn.
  - exists k. rewrite E. split; [done|]. rewrite app_nil_r. by repeat split; try congruence.
Qed.

(** ** A client next to some other state *)

Section Beside.
Context {W : Type}.

Definition runsw {A} (m : prog (Client * W) A) (i : bytes) (w : W) (r : res A) (w' : W) (ms : list (byte * bytes)) (p rest : bytes) : Prop :=
  ∀ c, healthy (conn c) → inbound (conn c) = i →
    ∃ k, m (c, w) = (r, (set_conn k (fold_left absorb ms c), w')) ∧
      healthy k ∧ sent k = sent (conn c) ++ p ∧ inbound k = rest.

Lemma runsw_conv {A} (m : prog (Client * W) A) i w r w' ms ms' p p' rest :
  runsw m i w r w' ms' p' rest → ms' = ms → p' = p → runsw m i w r w' ms p rest.
Proof. by intros H -> ->. Qed.
Lemma runsw_ret {A} (a : A) i w : runsw (mret a) i w (Ret a) w [] [] i.
Proof. intros c Hh Hi. exists (conn c). rewrite app_nil_r. split; [by destruct c|done]. Qed.
Lemma runsw_cl {A} (m : client A) i w r ms p rest : runs m i r ms p rest → runsw (cl m) i w r w ms p rest.
Proof. intros Hm c Hh Hi. destruct (Hm c Hh Hi) as (k & E & Hk). exists k. unfold cl, zoom. cbn [fst snd]. by rewrite E. Qed.

Lemma runsw_bind {A B} (m : prog (Client * W) A) (f : A → prog (Client * W) B) i w a w1 ms1 p1 r1 r w2 ms2 p2 r2 :
  runsw m i w (Ret a) w1 ms1 p1 r1 → runsw (f a) r1 w1 r w2 ms2 p2 r2 → runsw (m ≫= f) i w r w2 (ms1 ++ ms2) (p1 ++ p2) r2.
Proof.
  intros Hm Hf c Hh Hi. destruct (Hm c Hh Hi) as (k1 & E1 & H1 & S1 & I1).
  destruct (Hf (set_conn k1 (fold_left absorb ms1 c)) H1 I1) as (k2 & E2 & H2 & S2 & I2).
  exists k2. rewrite (bind_Ret _ _ _ _ _ E1), E2, absorb_fold_conn, set_conn_twice, <- fold_left_app.
  split; [done|]. split; [done|]. split; [|done]. cbn [conn set_conn] in S2. by rewrite S2, S1, app_assoc.
Qed.
Lemma runsw_check {A B} (m : prog (Client * W) A) onerr (f : A → prog (Client * W) B) i w a w1 ms1 p1 r1 r w2 ms2 p2 r2 :
  runsw m i w (Ret a) w1 ms1 p1 r1 → runsw (f a) r1 w1 r w2 ms2 p2 r2 →
  runsw (check m onerr f) i w r w2 (ms1 ++ ms2) (p1 ++ p2) r2.
Proof.
  intros Hm Hf. apply (runsw_bind _ _ _ _ (inr a) w1 _ _ r1); [|exact Hf]. intros c Hh Hi. destruct (Hm c Hh Hi) as (k & E & Hk). exists k.
  unfold catch. by rewrite E.
Qed.

(** The messages a loop goes round on, with what they do to its variables and
    to the other state. *)
Inductive visits {A R} (stp : A → byte → bytes → prog (Client * W) (A + R)) : A → W → list (byte * bytes) → A → W → Prop :=
  | visits_nil a w : visits stp a w [] a w
  | visits_cons a w m a1 w1 ms a2 w2 : msg_ok m →
      (∀ c, stp a m.1 m.2 (c, w) = (Ret (inl a1), (absorb c m, w1))) →
      visits stp a1 w1 ms a2 w2 → visits stp a w (m :: ms) a2 w2.

(** Such a loop ends with the first message its step leaves on, which may read
    on by itself. *)
Lemma runsw_loop {A R} (stp : A → byte → bytes → prog (Client * W) (A + R)) onerr t b rest0 r w2 ms2 p rest :
  msg_ok (t, b) → ∀ a w ms a1 w1, visits stp a w ms a1 w1 → runsw (stp a1 t b) rest0 w1 (ending r) w2 ms2 p rest →
  ∀ fuel, (length ms < fuel)%nat →
  runsw (read_loop (cl (wire ReadMessage)) stp onerr fuel a) (wire_of ms ++ frame t b ++ rest0) w r w2 (ms ++ ms2) p rest.
Proof.
  intros Hb a w ms a1 w1 Hv Hend. induction Hv as [a w|a w m a1 w1 ms a2 w3 Hm Hs Hv IH]; intros [|fuel] Hf; try (cbn in Hf; lia);
    intros c Hh Hi; cbn [read_loop].
  - cbn in Hi. destruct (wire_read_frame c t b rest0 Hi Hb) as (k & E & K1 & K2 & K3 & _ & K4).
    destruct (Hend (set_conn k c)) as (k2 & E2 & H2 & S2 & I2); [destruct Hh; split; cbn; congruence|done|].
    exists k2. unfold mbind, prog_bind, catch, cl, zoom. cbn [fst snd]. rewrite E, E2.
    cbn [conn set_conn] in S2. rewrite K2 in S2. rewrite absorb_fold_conn, set_conn_twice. split; [by destruct r|done].
  - unfold wire_of in Hi. cbn [map concat] in Hi. rewrite <- app_assoc in Hi. fold (wire_of ms) in Hi.
    destruct m as [t1 b1]. cbn [fst snd] in *.
    destruct (wire_read_frame c t1 b1 _ Hi Hm) as (k & E & K1 & K2 & K3 & _ & K4).
    destruct (IH Hend fuel ltac:(cbn in Hf; lia) (absorb (set_conn k c) (t1, b1))) as (k2 & E2 & H2 & S2 & I2).
    { rewrite absorb_conn. destruct Hh. split; cbn; congruence. }
    { by rewrite absorb_conn. }
    exists k2. unfold mbind, prog_bind, catch, cl, zoom. cbn [fst snd]. rewrite E, Hs.
    fold (cl (W := W) (wire ReadMessage)). unfold cl, zoom in E2. rewrite E2. rewrite absorb_conn, absorb_fold_conn, set_conn_twice.
    split; [done|]. split; [done|]. rewrite absorb_conn in S2. cbn [conn set_conn] in S2. split; [by rewrite S2, K2|done].
Qed.

(** A loop whose steps change the client in ways of their own ([touch]), up to
    the message [t] it leaves on; the connection is told apart from the rest. *)
Lemma loopw {A R} (stp : A → byte → bytes → prog (Client * W) (A + R)) (next : A → byte * bytes → A)
    (touch : Client → byte * bytes → Client) onerr t b rest r w w' (f : Client → Client) :
  (∀ k c m, touch (set_conn k c) m = set_conn k (touch c m)) → msg_ok (t, b) →
  ∀ ms a fuel c, (length ms < fuel)%nat → inbound (conn c) = wire_of ms ++ frame t b ++ rest →
  Forall (λ m, msg_ok m ∧ ∀ a c, stp a m.1 m.2 (c, w) = (Ret (inl (next a m)), (touch c m, w))) ms →
  (∀ c, stp (fold_left next ms a) t b (c, w) = (ending r, (f c, w'))) →
  ∃ k, conn_at rest (conn c) k ∧
    read_loop (cl (wire ReadMessage)) stp onerr fuel a (c, w) = (r, (f (set_conn k (fold_left touch ms c)), w')).
Proof.
  intros Ht Hb ms. induction ms as [|m ms IH]; intros a fuel c Hf Hi Hms Hend; destruct fuel as [|fuel]; try (cbn in Hf; lia);
    cbn [read_loop].
  - cbn in Hi. destruct (wire_read_frame c t b rest Hi Hb) as (k & E & Hk). exists k. split; [done|].
    unfold mbind, prog_bind, catch, cl, zoom. cbn [fst snd fold_left] in *. rewrite E, Hend. by destruct r.
  - apply Forall_cons in Hms as [[Hm Hs] Hms]. unfold wire_of in Hi. cbn [map concat] in Hi. rewrite <- app_assoc in Hi.
    fold (wire_of ms) in Hi. destruct m as [t1 b1]. cbn [fst snd] in *.
    destruct (wire_read_frame c t1 b1 _ Hi Hm) as (k1 & E & Hk1).
    destruct (IH (next a (t1, b1)) fuel (set_conn k1 (touch c (t1, b1)))) as (k & Hk & E'); try done.
    { cbn in Hf. lia. }
    { by apply (conn_at_in _ _ _ Hk1). }
    exists k. split; [by eapply conn_at_trans|]. unfold mbind, prog_bind, catch, cl, zoom. cbn [fst snd]. rewrite E, Hs, Ht.
    fold (cl (W := W) (wire ReadMessage)). unfold cl, zoom in E'. rewrite E'. cbn [fold_left].
    by rewrite (fold_touch_conn touch Ht), set_conn_twice.
Qed.
End Beside.

(** Put the pieces of an exchange together: what was sent and absorbed is the
    concatenation, up to units and associativity. *)
Ltac talk := eapply runs_conv; [| |].
Ltac pieces := rewrite ?app_nil_l, ?app_nil_r, <- ?app_assoc; reflexivity.
Ltac talkw := eapply runsw_conv; [| |].
