(* ===== verification/Answers.v ===== *)
(** Nobody waits in vain: a query reads no more of the server's messages than
    the requests it has sent are answered with.  A request is a Sync or a simple
    Query, an answer is whatever messages come up to the next ReadyForQuery; a
    server that gives one for every request is never waited for. *)
From S2P Require Import Prelude Protocol Errors Effects Wire Rows Args StmtCache Stream Client Query Footprint.
From S2P Require Import QuerySpec QueryResult QueryLife Api Talk.

(** ** Requests and answers *)

Definition is_answer (m : byte * bytes) : bool := beq m.1 MsgReadyForQuery.
Definition is_request (m : byte * bytes) : bool := beq m.1 MsgSync || beq m.1 MsgQuery.
Definition answers (ms : list (byte * bytes)) : nat := length (List.filter is_answer ms).
Definition requests (ms : list (byte * bytes)) : nat := length (List.filter is_request ms).

Lemma answers_app l k : answers (l ++ k) = (answers l + answers k)%nat.
Proof. unfold answers. by rewrite List.filter_app, length_app. Qed.
Lemma requests_app l k : requests (l ++ k) = (requests l + requests k)%nat.
Proof. unfold requests. by rewrite List.filter_app, length_app. Qed.
Lemma wire_of_app l k : wire_of (l ++ k) = wire_of l ++ wire_of k.
Proof. unfold wire_of. by rewrite map_app, concat_app. Qed.


Section Served.
Context {S : Type} (cn : S → Conn).

(** A computation that starts with [k] answers outstanding and for which the
    server still has [n] more answers in store: it finishes, it reads no more
    than is outstanding, nor more than [n] answers, and when it succeeds [j] are
    still outstanding.  Only an error that is not the server's can leave the
    connection unfit for another request. *)
Definition fair {A} (k n : nat) (m : prog S A) (j : nat) : Prop :=
  ∀ s ms rest, healthy (cn s) → inbound (cn s) = wire_of ms ++ rest → Forall msg_ok ms → (n <= answers ms)%nat →
    let x := m s in
    fst x ≠ Stuck ∧
    (match fst x with Ret _ => healthy (cn (snd x)) | Err e => as_pg e = None ∨ healthy (cn (snd x)) | _ => True end) ∧
    ∃ read unread outs, ms = read ++ unread ∧ inbound (cn (snd x)) = wire_of unread ++ rest ∧
      sent (cn (snd x)) = sent (cn s) ++ wire_of outs ∧ (answers read <= n)%nat ∧
      (answers read + (match fst x with Ret _ => j | _ => 0 end) <= k + requests outs)%nat.

(** A computation that leaves the connection alone. *)
Definition apart {A} (m : prog S A) : Prop := ∀ s, fst (m s) ≠ Stuck ∧ cn (snd (m s)) = cn s.

Lemma fair_apart {A} (m : prog S A) k : apart m → fair k 0 m k.
Proof.
  intros Hm s ms rest Hh Hin Hok _. destruct (Hm s) as [H1 H2]. split; [done|]. split; [rewrite H2; by destruct (fst (m s)); auto|].
  exists [], ms, []. rewrite H2, app_nil_r. repeat split; try done; try (cbn; lia). cbn. destruct (fst (m s)); lia.
Qed.

Lemma fair_bind {A B} k n1 j n2 l (m : prog S A) (f : A → prog S B) : fair k n1 m j → (∀ a, fair j n2 (f a) l) →
  fair k (n1 + n2) (m ≫= f) l.
Proof.
  intros Hm Hf s ms rest Hh Hin Hok Hn. specialize (Hm s ms rest Hh Hin Hok ltac:(lia)).
  unfold mbind, prog_bind. destruct (m s) as [[a|e| |] s1]; cbn [fst snd] in *; destruct Hm as (H1 & H2 & read & unread & outs & E & I1 & I2 & I3 & I4); try done.
  2:{ split; [done|]. split; [done|]. exists read, unread, outs. repeat split; try done; lia. }
  2:{ split; [done|]. split; [done|]. exists read, unread, outs. repeat split; try done; lia. }
  subst ms. apply Forall_app in Hok as [Hok1 Hok2]. rewrite answers_app in Hn.
  specialize (Hf a s1 unread rest H2 I1 Hok2 ltac:(lia)). destruct (f a s1) as [r s2]. cbn [fst snd] in *.
  destruct Hf as (G1 & G2 & read2 & unread2 & outs2 & -> & J1 & J2 & J3 & J4). split; [done|]. split; [done|].
  exists (read ++ read2), unread2, (outs ++ outs2). rewrite answers_app, requests_app, wire_of_app, J2, I2, <- !app_assoc.
  repeat split; try done; lia.
Qed.

(** The error becomes a value: the server's leaves the connection fit, any
    other must end the call. *)
Lemma fair_catch {A B} k n1 n2 l (m : prog S A) (f : gerror + A → prog S B) : fair k n1 m 0 →
  (∀ x, (∀ e, x = inl e → as_pg e ≠ None) → fair 0 n2 (f x) l) →
  (∀ e s, as_pg e = None → fst (f (inl e) s) = Err e ∧ cn (snd (f (inl e) s)) = cn s) →
  fair k (n1 + n2) (catch m ≫= f) l.
Proof.
  intros Hm Hf He s ms rest Hh Hin Hok Hn. specialize (Hm s ms rest Hh Hin Hok ltac:(lia)).
  unfold mbind, prog_bind, catch. destruct (m s) as [r s1]. cbn [fst snd] in Hm.
  destruct Hm as (H1 & H2 & read & unread & outs & -> & I1 & I2 & I3 & I4). rewrite answers_app in Hn.
  apply Forall_app in Hok as [Hok1 Hok2].
  assert (∀ x, (∀ e, x = inl e → as_pg e ≠ None) → healthy (cn s1) → (answers read <= k + requests outs)%nat →
    let y := f x s1 in fst y ≠ Stuck ∧
    (match fst y with Ret _ => healthy (cn (snd y)) | Err e => as_pg e = None ∨ healthy (cn (snd y)) | _ => True end) ∧
    ∃ read' unread' outs', read ++ unread = read' ++ unread' ∧ inbound (cn (snd y)) = wire_of unread' ++ rest ∧
      sent (cn (snd y)) = sent (cn s) ++ wire_of outs' ∧ (answers read' <= n1 + n2)%nat ∧
      (answers read' + (match fst y with Ret _ => l | _ => 0 end) <= k + requests outs')%nat) as Hgo.
  { intros x Hx Hh1 Hk. specialize (Hf x Hx s1 unread rest Hh1 I1 Hok2 ltac:(lia)). destruct (f x s1) as [r2 s2]. cbn [fst snd] in *.
    destruct Hf as (G1 & G2 & read2 & unread2 & outs2 & -> & J1 & J2 & J3 & J4). split; [done|]. split; [done|].
    exists (read ++ read2), unread2, (outs ++ outs2). rewrite answers_app, requests_app, wire_of_app, J2, I2, <- !app_assoc.
    repeat split; try done; lia. }
  destruct r as [a|e| |]; cbn [fst snd] in *; try done.
  - apply (Hgo (inr a)); [done|done|lia].
  - destruct (as_pg e) as [pe|] eqn:Ee.
    + apply (Hgo (inl e)); [by intros e' [= <-]; rewrite Ee|by destruct H2|lia].
    + destruct (He e s1 Ee) as [Hr Hc]. destruct (f (inl e) s1) as [r2 s2]. cbn [fst snd] in *. subst r2. rewrite Hc.
      split; [done|]. split; [by left|]. exists read, unread, outs. repeat split; try done; lia.
  - split; [done|]. split; [done|]. exists read, unread, outs. repeat split; try done; lia.
Qed.

Lemma fair_weaken {A} k n j n' (m : prog S A) : fair k n m j → (n <= n')%nat → fair k n' m j.
Proof.
  intros Hm Hn s ms rest Hh Hin Hok Hr. destruct (Hm s ms rest Hh Hin Hok ltac:(lia)) as (H1 & H2 & read & unread & outs & E & I1 & I2 & I3 & I4).
  split; [done|]. split; [done|]. exists read, unread, outs. repeat split; try done; lia.
Qed.

Lemma apart_ret {A} (a : A) : apart (mret a).
Proof. done. Qed.
Lemma apart_throw {A} e : apart (throw (A := A) e).
Proof. done. Qed.
Lemma apart_panic {A} : apart (panic (A := A)).
Proof. done. Qed.
Lemma apart_gets {A} (f : S → A) : apart (gets f).
Proof. done. Qed.
Lemma apart_ask : apart ask.
Proof. done. Qed.
Lemma apart_of_sum {A} (r : gerror + A) : apart (of_sum r).
Proof. by destruct r. Qed.
Lemma apart_modify (f : S → S) : (∀ s, cn (f s) = cn s) → apart (modify f).
Proof. intros H s. split; [done|apply H]. Qed.
Lemma apart_bind {A B} (m : prog S A) (f : A → prog S B) : apart m → (∀ a, apart (f a)) → apart (m ≫= f).
Proof.
  intros Hm Hf s. unfold mbind, prog_bind. destruct (Hm s) as [H1 H2]. destruct (m s) as [[a|e| |] s1]; cbn in *; try done.
  destruct (Hf a s1) as [H3 H4]. split; [done|congruence].
Qed.
Lemma apart_catch {A} (m : prog S A) : apart m → apart (catch m).
Proof. intros Hm s. unfold catch. destruct (Hm s) as [H1 H2]. by destruct (m s) as [[] s1]. Qed.

(** A step inside an answer: it leaves the connection alone, or it reads the
    rest of the answer and fails. *)
Definition inside {A} (m : prog S A) : Prop := ∀ s,
  (fst (m s) ≠ Stuck ∧ cn (snd (m s)) = cn s) ∨
  ∃ (d : prog S A) s1, m s = d s1 ∧ cn s1 = cn s ∧ fair 1 1 d 0 ∧ ∀ s x, fst (d s) ≠ Ret x.

Lemma inside_apart {A} (m : prog S A) : apart m → inside m.
Proof. intros H s. left. apply H. Qed.
Lemma inside_fair {A} (m : prog S A) : fair 1 1 m 0 → (∀ s x, fst (m s) ≠ Ret x) → inside m.
Proof. intros H Hr s. right. by exists m, s. Qed.
Lemma inside_after {A B} (m : prog S A) (f : A → prog S B) : apart m → (∀ a, inside (f a)) → inside (m ≫= f).
Proof.
  intros Hm Hf s. destruct (Hm s) as [H1 H2]. unfold mbind, prog_bind. destruct (m s) as [[a|e| |] s1]; cbn in *; try by left.
  destruct (Hf a s1) as [[G1 G2]|(d & s2 & E & Ec & Hd)]; [left; split; [done|congruence]|].
  right. exists d, s2. split; [done|]. split; [congruence|done].
Qed.
Lemma inside_then {A B} (m : prog S A) (f : A → prog S B) : inside m → (∀ a, apart (f a)) → inside (m ≫= f).
Proof.
  intros Hm Hf s. destruct (Hm s) as [[H1 H2]|(d & s1 & E & Ec & Hd & Hr)].
  - left. unfold mbind, prog_bind. destruct (m s) as [[a|e| |] s1]; cbn in *; try done. destruct (Hf a s1) as [G1 G2]. split; [done|congruence].
  - right. exists (d ≫= f), s1. split; [unfold mbind, prog_bind; by rewrite E|]. split; [done|]. split.
    + apply (fair_bind 1 1 0 0 0); [done|]. intros a. by apply fair_apart.
    + intros s0 x. unfold mbind, prog_bind. specialize (Hr s0). destruct (d s0) as [[y|e| |] s2]; cbn in *; try done. by destruct (Hr y).
Qed.

(** *** Reading an answer *)

Context {R A : Type} (read : prog S (byte * bytes)) (stp : A → byte → bytes → prog S (A + R)) (onerr : A → gerror → prog S R).
Context (Hread : ∀ s t b rest, inbound (cn s) = frame t b ++ rest → msg_ok (t, b) →
  ∃ s', read s = (Ret (t, b), s') ∧ conn_at rest (cn s) (cn s')).

(** A round of the loop: ReadyForQuery ends it; any other message is dealt with
    without reading, or ends the call fairly. *)
Definition round_fair (a : A) (t : byte) (b : bytes) : Prop :=
  if beq t MsgReadyForQuery then apart (stp a t b) ∧ ∀ s a', fst (stp a t b s) ≠ Ret (inl a')
  else inside (stp a t b).

Lemma read_loop_fair : (∀ a t b, round_fair a t b) → ∀ fuel a s ms rest,
  healthy (cn s) → inbound (cn s) = wire_of ms ++ rest → Forall msg_ok ms → (1 <= answers ms)%nat → (length ms < fuel)%nat →
  let x := read_loop read stp onerr fuel a s in
  fst x ≠ Stuck ∧
  (match fst x with Ret _ => healthy (cn (snd x)) | Err e => as_pg e = None ∨ healthy (cn (snd x)) | _ => True end) ∧
  ∃ rd unread outs, ms = rd ++ unread ∧ inbound (cn (snd x)) = wire_of unread ++ rest ∧
    sent (cn (snd x)) = sent (cn s) ++ wire_of outs ∧ (answers rd <= 1)%nat ∧ (answers rd <= 1 + requests outs)%nat.
Proof.
  intros Hs fuel. induction fuel as [|fuel IH]; intros a s ms rest Hh Hin Hok Hn Hf; [lia|].
  destruct ms as [|[t b] ms]; [cbn in Hn; lia|]. apply Forall_cons in Hok as [Hm Hok].
  assert (inbound (cn s) = frame t b ++ wire_of ms ++ rest) as Hin' by (rewrite Hin; unfold wire_of; cbn [map concat fst snd]; by rewrite <- app_assoc).
  destruct (Hread s t b _ Hin' Hm) as (s1 & E & C1 & C2 & C3 & C4 & C5).
  assert (healthy (cn s1)) as Hh1 by (destruct Hh; split; congruence).
  cbn [read_loop]. unfold mbind, prog_bind, catch, mret, prog_ret. rewrite E. specialize (Hs a t b). unfold round_fair in Hs.
  destruct (beq t MsgReadyForQuery) eqn:Et.
  - destruct Hs as [Ha Hl]. destruct (Ha s1) as [G1 G2]. specialize (Hl s1). destruct (stp a t b s1) as [[[a'|x]|e| |] s2]; cbn [fst snd] in *;
      try done; try (by destruct (Hl a')).
    all: split; [done|]; split; [first [done | by right; rewrite G2 | by rewrite G2]|].
    all: exists [(t, b)], ms, []; rewrite G2, C1, C2, app_nil_r; repeat split; try done; unfold answers, is_answer; cbn; rewrite Et; cbn; lia.
  - assert (answers ((t, b) :: ms) = answers ms) as Ea by (unfold answers, is_answer; cbn; by rewrite Et). rewrite Ea in Hn.
    destruct (Hs s1) as [[G1 G2]|(d & s2 & Ed & Ec & Hd & Hnr)].
    + destruct (stp a t b s1) as [[[a'|x]|e| |] s2]; cbn [fst snd] in *; try done.
      1: { destruct (IH a' s2 ms rest) as (I1 & I2 & rd & unread & outs & -> & J1 & J2 & J3 & J4); try done; try congruence; [cbn in Hf; lia|].
           split; [done|]. split; [done|]. exists ((t, b) :: rd), unread, outs. rewrite J2, G2, C2. repeat split; try done;
             unfold answers, is_answer in *; cbn; rewrite Et; lia. }
      all: split; [done|]; split; [first [done | by right; rewrite G2 | by rewrite G2]|].
      all: exists [(t, b)], ms, []; rewrite G2, C1, C2, app_nil_r; repeat split; try done; unfold answers, is_answer; cbn; rewrite Et; cbn; lia.
    + rewrite Ed. specialize (Hnr s2). destruct (Hd s2 ms rest) as (I1 & I2 & rd & unread & outs & -> & J1 & J2 & J3 & J4); try done; try congruence.
      destruct (d s2) as [[y|e| |] s3]; cbn [fst snd] in *; try done; try (by destruct (Hnr y)).
      all: split; [done|]; split; [done|]; exists ((t, b) :: rd), unread, outs; rewrite J2, Ec, C2; repeat split; try done;
        unfold answers, is_answer in *; cbn; rewrite Et; lia.
Qed.
End Served.

(** ** Building and sending messages *)

(** A builder's result and the bytes it appends do not depend on the connection;
    its errors are not the server's. *)
Definition builds {A} (m : io A) : Prop :=
  ∃ r p, (∀ c, m c = (r, set_writeBuf (writeBuf c ++ p) c)) ∧ r ≠ Stuck ∧ (∀ e, r = Err e → as_pg e = None).

Lemma builds_append p : builds (append p).
Proof. by exists (Ret tt), p. Qed.
Lemma set_writeBuf_same c : set_writeBuf (writeBuf c ++ []) c = c.
Proof. rewrite app_nil_r. by destruct c. Qed.
Lemma builds_ret {A} (a : A) : builds (mret a).
Proof. exists (Ret a), []. split; [|done]. intros c. by rewrite set_writeBuf_same. Qed.
Lemma builds_throw {A} s l : builds (throw (A := A) (EFmt s l)).
Proof. exists (Err (EFmt s l)), []. split; [|split; [done|by intros e [= <-]]]. intros c. by rewrite set_writeBuf_same. Qed.
Lemma builds_panic {A} : builds (panic (A := A)).
Proof. exists Panic, []. split; [|done]. intros c. by rewrite set_writeBuf_same. Qed.
Lemma builds_bind {A B} (m : io A) (f : A → io B) : builds m → (∀ a, builds (f a)) → builds (m ≫= f).
Proof.
  intros (r & p & Hm & Hs & He) Hf. destruct r as [a|e| |]; [|exists (Err e), p|exists Panic, p|done].
  - destruct (Hf a) as (r2 & p2 & Hm2 & Hs2 & He2). exists r2, (p ++ p2). split; [|done]. intros c.
    rewrite (bind_Ret _ _ _ _ _ (Hm c)), Hm2. cbn. by rewrite <- app_assoc.
  - split; [|split; [done|intros e' [= <-]; by apply He]]. intros c. unfold mbind, prog_bind. by rewrite Hm.
  - split; [|done]. intros c. unfold mbind, prog_bind. by rewrite Hm.
Qed.
Lemma builds_each f i l : (∀ i a, builds (f i a)) → builds (each f i l).
Proof. intros Hf. revert i. induction l; intros i; cbn [each]; [apply builds_ret|]. by apply builds_bind. Qed.
Lemma builds_mapM_ {A} (f : A → io unit) l : (∀ a, builds (f a)) → builds (mapM_ f l).
Proof. intros Hf. induction l; cbn [mapM_]; [apply builds_ret|]. by apply builds_bind. Qed.
Lemma builds_writes m p : writes m p → builds m.
Proof. intros H. by exists (Ret tt), p. Qed.

Create HintDb builds.
#[local] Hint Resolve builds_append builds_ret builds_throw builds_panic : builds.
Lemma builds_bCString s : builds (bCString s).
Proof. eapply builds_writes, writes_bCString. Qed.
Lemma builds_bInt16 n : builds (bInt16 n).
Proof. apply builds_append. Qed.
Lemma builds_bInt32 n : builds (bInt32 n).
Proof. apply builds_append. Qed.
#[local] Hint Resolve builds_bCString builds_bInt16 builds_bInt32 : builds.
Ltac builds :=
  repeat match goal with
  | |- ∀ _, _ => intro
  | |- builds (if ?b then _ else _) => destruct b
  | |- builds (match ?x with _ => _ end) => destruct x
  | |- builds (let _ := _ in _) => cbv zeta
  | |- builds (_ ≫= _) => apply builds_bind
  | |- _ => solve [auto with builds | apply builds_append]
  end.

Lemma builds_toInt64 v : builds (of_sum (toInt64 v)).
Proof. destruct v; cbn [toInt64 of_sum]; auto with builds. Qed.
Lemma builds_toFloat64 v : builds (of_sum (toFloat64 v)).
Proof. destruct v; cbn [toFloat64 of_sum]; auto with builds. Qed.
Lemma builds_encodeArg v : builds (of_sum (encodeArg v)).
Proof. destruct v as [|[]|[]| | | | | |]; cbn [encodeArg of_sum]; auto with builds. Qed.
#[local] Hint Resolve builds_toInt64 builds_toFloat64 builds_encodeArg : builds.
Lemma builds_write_value oids i a : builds (write_value oids i a).
Proof. unfold write_value, appendParamBinary, appendParamText. builds. Qed.
Lemma builds_bindParams oids args : builds (writeBindParams oids args).
Proof.
  unfold writeBindParams. destruct args; [builds|]. builds; apply builds_each; intros; [builds|apply builds_write_value].
Qed.
Lemma builds_bind_payload st args :
  builds (_ ← bCString []; _ ← bCString (st_name st); _ ← writeBindParams (st_paramOIDs st) args; resultFormats (st_resultFmts st)).
Proof.
  pose proof builds_bindParams. unfold resultFormats. builds. apply builds_mapM_. auto with builds.
Qed.

(** A message that cannot be built is not sent. *)
Lemma message_builds t m : builds m →
  (∃ p, writes (message t m) (frame t p)) ∨
  ∃ r q, (∀ c, message t m c = (r, set_writeBuf (writeBuf c ++ q) c)) ∧ r ≠ Stuck ∧ (∀ a, r ≠ Ret a) ∧ (∀ e, r = Err e → as_pg e = None).
Proof.
  intros (r & p & Hm & Hs & He). destruct r as [[]|e| |]; [left; exists p; by apply writes_message|right|right|done].
  all: match goal with |- ∃ r q, _ => exists (match m (New [] None) with (Err e, _) => Err e | _ => Panic end), (t :: [x00; x00; x00; x00] ++ p) end.
  all: rewrite Hm; split; [|by split; [|split]].
  all: intros c; unfold message, Begin; rewrite bind_assoc;
    step (eq_refl : gets (λ c, length (writeBuf c)) c = (Ret (length (writeBuf c)), c)); cbv beta;
    rewrite bind_assoc; step (writes_append [t] c); rewrite bind_assoc;
    step (writes_append [x00; x00; x00; x00] (set_writeBuf (writeBuf c ++ [t]) c)); rewrite bind_ret;
    unfold mbind, prog_bind; rewrite Hm; cbn; by rewrite <- !app_assoc.
Qed.

(** A batch of messages and a flush, from a healthy connection. *)
Lemma flushed m ms c : writes m (wire_of ms) → healthy c →
  (_ ← m; Flush) c = (Ret tt, set_writeBuf [] (set_socket (sent c ++ wire_of ms) None c)).
Proof. intros Hm [Hr Hb]. step (Hm c). rewrite Flush_ok by done. cbn. by rewrite Hb. Qed.

Lemma fair_sends {A} (m : io A) a k ms : (∀ c, healthy c → m c = (Ret a, set_writeBuf [] (set_socket (sent c ++ wire_of ms) None c))) →
  fair conn k 0 (wire m) (k + requests ms).
Proof.
  intros Hm c l rest Hh Hin Hok _. unfold wire, zoom. rewrite (Hm _ Hh). cbn [fst snd conn set_conn]. split; [done|]. split; [by split|].
  exists [], l, ms. repeat split; try done; cbn; lia.
Qed.

Lemma wire_of_cons t b ms : wire_of ((t, b) :: ms) = frame t b ++ wire_of ms.
Proof. done. Qed.
Lemma bindMessages_fair k st args : fair conn k 0 (wire (bindMessages st args)) (k + 1).
Proof.
  destruct (message_builds MsgBind _ (builds_bind_payload st args)) as [[p Hp]|(r & q & Hm & Hs & Hr & He)].
  - apply (fair_sends _ tt k [(MsgBind, p); (MsgExecute, [x00; x00; x00; x00; x00]); (MsgSync, [])]). intros c [Hroom Hb].
    unfold bindMessages. rewrite (pipeline_ok _ p) by done. rewrite Hb, !wire_of_cons. cbn [wire_of map concat]. by rewrite app_nil_r.
  - intros c l rest Hh Hin Hok _. unfold wire, zoom, bindMessages, mbind, prog_bind. unfold mbind, prog_bind in Hm. rewrite Hm.
    destruct r as [a|e| |]; [by destruct (Hr a)| | |done]; cbn [fst snd conn set_conn set_writeBuf inbound sent].
    all: split; [done|]; split; [by auto|]; exists [], l, []; rewrite app_nil_r; repeat split; try done; cbn; lia.
Qed.

(** Close what was evicted, Parse, Describe, Sync: one request. *)
Definition preparation (dead : list bytes) (name sql : bytes) : list (byte * bytes) :=
  map (λ n, (MsgClose, "S"%byte :: n ++ [x00])) dead ++
  [(MsgParse, name ++ x00 :: sql ++ x00 :: [x00; x00]); (MsgDescribe, "S"%byte :: name ++ [x00]); (MsgSync, [])].
Lemma preparation_wire dead name sql : prepare_wire dead name sql = wire_of (preparation dead name sql).
Proof.
  unfold preparation. rewrite wire_of_app, !wire_of_cons. unfold prepare_wire, wire_of. rewrite map_map. cbn [map concat].
  by rewrite app_nil_r.
Qed.
Lemma requests_preparation dead name sql : requests (preparation dead name sql) = 1%nat.
Proof. unfold preparation. rewrite requests_app. induction dead as [|d dead IH]; [done|exact IH]. Qed.

(** ** Apart from the connection *)

Create HintDb apart.
#[export] Hint Resolve apart_ret apart_throw apart_panic apart_gets apart_ask apart_of_sum apart_catch : apart.

Lemma apart_on_notice b : apart conn (on_notice b).
Proof. done. Qed.
Lemma apart_on_parameter b : apart conn (on_parameter b).
Proof. apply apart_modify. intros c. by destruct (splitParameter b). Qed.
Lemma apart_next_name : apart conn next_name.
Proof. intros c. unfold next_name. by destruct (nextName (stmts c)). Qed.
Lemma apart_take_pending : apart conn take_pending.
Proof. intros c. unfold take_pending. by destruct (takePendingClose (stmts c)). Qed.
Lemma apart_new_stmt st : apart conn (new_stmt st).
Proof. intros c. unfold new_stmt. by destruct (alloc st (stmts c)). Qed.
Lemma apart_SendCancel : apart conn SendCancel.
Proof. intros c. unfold SendCancel, mbind, prog_bind, ask. by destruct (pid c =? 0). Qed.
Lemma apart_attach ctx : apart conn (attachContext ctx).
Proof. unfold attachContext. destruct (ctx_err ctx 0); auto with apart. Qed.
#[export] Hint Resolve apart_on_notice apart_on_parameter apart_next_name apart_take_pending apart_new_stmt apart_SendCancel
  apart_attach : apart.

Ltac apart :=
  repeat match goal with
  | |- ∀ _, _ => intro
  | |- apart _ (if ?b then _ else _) => destruct b
  | |- apart _ (match ?x with _ => _ end) => destruct x
  | |- apart _ (let _ := _ in _) => cbv zeta
  | |- apart _ (_ ≫= _) => apply apart_bind
  | |- apart _ (again _) => apply apart_ret
  | |- apart _ (leave _) => apply apart_ret
  | |- apart _ (load _) => apply apart_gets
  | |- apart _ (cache_get _) => apply apart_gets
  | |- apart _ (cache_put _ _) => apply apart_modify; done
  | |- apart _ (cache_invalidate _) => apply apart_modify; done
  | |- apart _ (set_plan _ _) => apply apart_modify; done
  | |- apart _ (modify _) => apply apart_modify; done
  | |- _ => solve [eauto with apart | done]
  end.

Lemma wire_reads c t b rest : inbound (conn c) = frame t b ++ rest → msg_ok (t, b) →
  ∃ c', wire ReadMessage c = (Ret (t, b), c') ∧ conn_at rest (conn c) (conn c').
Proof. intros Hin Hok. destruct (wire_read_frame c t b rest Hin Hok) as (k & E & Hk). by eexists. Qed.

Lemma for_messages_fair {A R} (stp : A → byte → bytes → client (A + R)) a :
  (∀ a t b, round_fair conn stp a t b) → fair conn 1 1 (for_messages stp a) 0.
Proof.
  intros Hs c ms rest Hh Hin Hok Hn. pose proof (length_wire_of ms).
  destruct (read_loop_fair conn (wire ReadMessage) stp (λ _ e, throw e) wire_reads Hs (rounds c) a c ms rest) as
    (I1 & I2 & rd & unread & outs & J); try done.
  { unfold rounds. rewrite Hin, length_app. lia. }
  split; [done|]. split; [done|]. exists rd, unread, outs. destruct J as (-> & J1 & J2 & J3 & J4). repeat split; try done.
  unfold for_messages. case_match; lia.
Qed.

Lemma describe_round name a t b : round_fair conn (describe_step name) a t b.
Proof.
  unfold round_fair. destruct (beq t MsgReadyForQuery) eqn:E.
  - apply beq_true in E as ->. unfold describe_step. cbn -[negotiate]. split.
    + destruct (d_err a); [apart|]. destruct (d_plan a); apart.
    + intros c a'. destruct (d_err a); [done|]. destruct (d_plan a); [|done]. unfold mbind, prog_bind, gets. destruct (negotiate _ _).
      unfold new_stmt. by destruct (alloc _ _).
  - apply inside_apart. unfold describe_step. rewrite E. apart.
Qed.

Lemma prepareAndDescribe_fair sql : fair conn 0 1 (prepareAndDescribe sql) 0.
Proof.
  unfold prepareAndDescribe. apply (fair_bind _ 0 0 0 1); [apply fair_apart, apart_next_name|]. intros name.
  apply (fair_bind _ 0 0 0 1); [apply fair_apart, apart_take_pending|]. intros dead.
  apply (fair_bind _ 0 0 1 1); [|intros _; apply for_messages_fair, describe_round].
  pose proof (fair_sends (_ ← closeMessages dead; _ ← parseMessages name sql; _ ← syncMessage; Flush) tt 0 (preparation dead name sql)) as H.
  rewrite requests_preparation in H. apply H. intros c [Hr Hb].
  pose proof (writes_prepare dead name sql) as Hw. rewrite preparation_wire in Hw.
  rewrite <- (flushed _ _ c Hw) by done. unfold mbind, prog_bind.
  destruct (closeMessages dead c) as [[] c1]; done.
Qed.

(** ** Queries *)

Section Query.
Context {W : Type} {OW : OutWriter W} {OL : OutWriterLaws W} {MO : MapOrder}.
Abbreviation query := (prog (Client * W)).

Definition qconn (s : Client * W) : Conn := conn (fst s).

Lemma apart_cl {A} (m : client A) : apart conn m → apart qconn (cl m).
Proof. intros H [c w]. unfold cl, zoom, qconn. cbn [fst snd]. specialize (H c). by destruct (m c). Qed.
Lemma apart_ow {A} (m : prog W A) : (∀ w, fst (m w) ≠ Stuck) → apart qconn (ow m).
Proof. intros H [c w]. unfold ow, zoom, qconn. cbn [fst snd]. specialize (H w). by destruct (m w). Qed.
Lemma fair_cl {A} k n j (m : client A) : fair conn k n m j → fair qconn k n (cl m) j.
Proof.
  intros H [c w] ms rest Hh Hin Hok Hn. unfold cl, zoom, qconn in *. cbn [fst snd] in *. specialize (H c ms rest Hh Hin Hok Hn).
  by destruct (m c).
Qed.
Lemma cl_reads (s : Client * W) t b rest : inbound (qconn s) = frame t b ++ rest → msg_ok (t, b) →
  ∃ s', cl (wire ReadMessage) s = (Ret (t, b), s') ∧ conn_at rest (qconn s) (qconn s').
Proof.
  destruct s as [c w]. unfold qconn. cbn [fst]. intros Hin Hok. destruct (wire_reads c t b rest Hin Hok) as (c' & E & Hc).
  exists (c', w). unfold cl, zoom. cbn [fst snd]. by rewrite E.
Qed.
Lemma loop_fair {A R} (stp : A → byte → bytes → query (A + R)) onerr a : (∀ a t b, round_fair qconn stp a t b) →
  fair qconn 1 1 (λ s, read_loop (cl (wire ReadMessage)) stp onerr (rounds (fst s)) a s) 0.
Proof.
  intros Hs s ms rest Hh Hin Hok Hn. pose proof (length_wire_of ms).
  destruct (read_loop_fair qconn (cl (wire ReadMessage)) stp onerr cl_reads Hs (rounds (fst s)) a s ms rest) as
    (I1 & I2 & rd & unread & outs & -> & J1 & J2 & J3 & J4); try done.
  { unfold rounds. change (conn (fst s)) with (qconn s). rewrite Hin, length_app. lia. }
  split; [done|]. split; [done|]. exists rd, unread, outs. repeat split; try done. case_match; lia.
Qed.

Lemma drain_fair : fair qconn 1 1 (drain (W := W)) 0.
Proof.
  apply (loop_fair drain_step). intros a t b. unfold round_fair, drain_step. destruct (beq t MsgReadyForQuery); [done|].
  apply inside_apart. repeat case_match; try apply apart_ret; (apply apart_bind; [apply apart_cl; auto with apart|intros; apply apart_ret]).
Qed.
Lemma abort_inside {A} e : inside qconn (abortOversize (W := W) (A := A) e).
Proof.
  apply inside_fair.
  - unfold abortOversize. apply (fair_bind _ 1 0 1 1); [apply fair_apart, apart_catch, apart_cl, apart_SendCancel|]. intros _.
    apply (fair_bind _ 1 1 0 0); [apply drain_fair|]. intros _. apply fair_apart, apart_throw.
  - intros s x. unfold abortOversize, mbind, prog_bind. destruct (catch (cl SendCancel) s) as [[] s1]; try done.
    by destruct (drain s1) as [[] s2].
Qed.

Lemma apart_header mode p (a : running) : apart qconn (if headerWritten a then mret tt else ow (writeHeader (W := W) mode p)).
Proof. destruct (headerWritten a); [apply apart_ret|apply apart_ow, writeHeader_total]. Qed.
Lemma data_row_inside mode p a b : inside qconn (data_row_case (W := W) mode p a b).
Proof.
  unfold data_row_case. apply inside_after; [apply apart_header|]. intros _.
  apply inside_after; [apply apart_ow, writeRow_total|]. intros _. cbv zeta. apply inside_after; [apply apart_ask|]. intros s.
  destruct (checkCaps _ s); [|apply inside_apart, apart_ret].
  apply inside_after; [by apply apart_cl, apart_modify|]. intros _. apply abort_inside.
Qed.
Lemma ready_apart mode p a : apart qconn (ready_case (W := W) mode p a).
Proof.
  unfold ready_case. apply apart_bind; [by apply apart_cl, apart_modify|]. intros _. destruct (r_err a); [apply apart_throw|].
  apply apart_bind; [apply apart_header|]. intros _. apply apart_bind; [apply apart_ow, writeFooter_total|]. intros _.
  apply apart_bind; [apply apart_ow, FlushOut_total|]. intros _. apply apart_ret.
Qed.
Lemma ready_leaves mode p a s a' : fst (ready_case (W := W) mode p a s) ≠ Ret (inl a').
Proof.
  destruct s as [c w]. intros E. destruct (ready_case mode p a (c, w)) as [r [c1 w1]] eqn:Er. cbn [fst] in E. subst r.
  unfold ready_case in Er. apply bind_inv in Er as (? & ? & _ & Er). destruct (r_err a); [done|].
  repeat (apply bind_inv in Er as (? & ? & _ & Er)). done.
Qed.

Ltac inside :=
  repeat match goal with
  | |- ∀ _, _ => intro
  | |- inside _ (if ?b then _ else _) => destruct b
  | |- inside _ (match ?x with _ => _ end) => destruct x
  | |- inside _ (data_row_case _ _ _ _) => apply data_row_inside
  | |- inside _ (data_row_case _ _ _ _ ≫= _) => apply inside_then; [apply data_row_inside|]
  | |- inside _ (cl _ ≫= _) => apply inside_after; [apply apart_cl; apart|]
  | |- inside _ (of_sum _ ≫= _) => apply inside_after; [apply apart_of_sum|]
  | |- inside _ _ => apply inside_apart
  | |- apart _ _ => apart
  end.

Lemma execute_round mode r a t b : round_fair qconn (execute_step (W := W) mode r) a t b.
Proof.
  unfold round_fair. destruct (beq t MsgReadyForQuery) eqn:E.
  - apply beq_true in E as ->. unfold execute_step. cbn -[ready_case]. split.
    + apply apart_bind; [apply apart_cl, apart_gets|]. intros st. apply ready_apart.
    + intros s a'. unfold cl, zoom, load, gets, mbind, prog_bind. cbn [fst snd]. apply ready_leaves.
  - unfold execute_step. rewrite E. inside.
Qed.
Lemma text_round mode a t b : round_fair qconn (text_step (W := W) mode) a t b.
Proof.
  destruct a as [p a]. unfold round_fair. destruct (beq t MsgReadyForQuery) eqn:E.
  - apply beq_true in E as ->. unfold text_step. cbn -[ready_case]. split.
    + apply apart_bind; [apply ready_apart|]. intros x. apply apart_ret.
    + intros s a' Hr. unfold mbind, prog_bind in Hr. pose proof (ready_leaves mode (match p with None => Some emptyPlan | p => p end) a s) as Hl.
      destruct (ready_case _ _ a s) as [[[a1|]| | |] s1]; try done. by apply (Hl a1).
  - unfold text_step. rewrite E. inside.
Qed.

Lemma bindExecute_fair mode r args : fair qconn 0 1 (bindExecute (W := W) mode r args) 0.
Proof.
  unfold bindExecute. apply (fair_bind _ 0 0 0 1); [apply fair_apart, apart_cl, apart_gets|]. intros st.
  apply (fair_bind _ 0 0 1 1); [apply fair_cl, bindMessages_fair|]. intros _.
  apply (loop_fair (execute_step mode r)). intros. apply execute_round.
Qed.
Lemma runSimple_fair mode sql : fair qconn 0 1 (runSimple (W := W) mode sql) 0.
Proof.
  unfold runSimple. apply (fair_bind _ 0 0 1 1); [|intros _; apply (loop_fair (text_step mode)); intros; apply text_round].
  apply fair_cl, (fair_sends _ tt 0 [(MsgQuery, sql ++ [x00])]). intros c Hc. apply flushed; [|done].
  rewrite wire_of_cons. cbn [wire_of map concat]. rewrite app_nil_r. apply writes_message, writes_bCString.
Qed.
Lemma obtain_fair sql : fair qconn 0 1 (obtain (W := W) sql) 0.
Proof.
  unfold obtain. apply (fair_bind _ 0 0 0 1); [apply fair_apart, apart_cl, apart_gets|]. intros [r|].
  { apply (fair_weaken _ 0 0); [apply fair_apart, apart_ret|lia]. }
  apply (fair_catch _ 0 1 0); [apply fair_cl, prepareAndDescribe_fair|intros x _; apply fair_apart|done].
  destruct x; (apply apart_bind; [apply apart_cl; apart|]); intros; [apply apart_throw|apply apart_ret].
Qed.

Lemma not_stale e : as_pg e = None → isStaleStmtError e = false.
Proof. by destruct e. Qed.
Lemma not_serial e : as_pg e = None → isRetryableSerialization e = false.
Proof. by destruct e. Qed.

Lemma cached_loop_fair n : ∀ first mode sql args, fair qconn 0 (2 * n) (cached_loop (W := W) n first mode sql args) 0.
Proof.
  induction n as [|n IH]; intros first mode sql args; [apply fair_apart, apart_ret|]. rewrite cached_loop_S.
  replace (2 * Datatypes.S n)%nat with (1 + (1 + 2 * n))%nat by lia. apply (fair_bind _ 0 1 0); [apply obtain_fair|]. intros rc.
  apply (fair_catch _ 0 1 (2 * n)); [apply bindExecute_fair| |].
  - intros [e|[]] _; [|apply (fair_weaken _ 0 0); [apply fair_apart, apart_ret|lia]].
    apply (fair_bind _ 0 0 0 (2 * n)); [apply fair_apart, apart_gets|]. intros out. destruct (_ && _).
    2: { apply (fair_weaken _ 0 0); [apply fair_apart, apart_throw|lia]. }
    apply (fair_bind _ 0 0 0 (2 * n)); [apply fair_apart, apart_cl; apart|]. intros _.
    apply (fair_bind _ 0 0 0 (2 * n)); [by apply fair_apart, apart_ow|]. intros _. apply IH.
  - intros e s He. unfold mbind, prog_bind, gets. rewrite (not_stale e He), andb_false_r. done.
Qed.
Lemma run_once_fair mode sql args : fair qconn 0 4 (run_once (W := W) mode sql args) 0.
Proof.
  unfold run_once. apply (fair_bind _ 0 0 0 4); [apply fair_apart, apart_gets|]. intros c. destruct (_ && _).
  - apply (fair_weaken _ 0 1); [apply runSimple_fair|lia].
  - apply (cached_loop_fair 2).
Qed.
Lemma retry_loop_fair n : ∀ k ctx mode sql args, fair qconn 0 (4 * n) (retry_loop (W := W) n k ctx mode sql args) 0.
Proof.
  induction n as [|n IH]; intros k ctx mode sql args; [apply fair_apart, apart_ret|]. rewrite retry_loop_S.
  replace (4 * Datatypes.S n)%nat with (4 + 4 * n)%nat by lia. apply (fair_catch _ 0 4 (4 * n)); [apply run_once_fair| |].
  - assert (∀ A (m : query A), apart qconn m → fair qconn 0 (4 * n) m 0) as Ha
      by (intros A m Hm; apply (fair_weaken _ 0 0); [by apply fair_apart|lia]).
    intros [e|[]] _; [|apply Ha, apart_ret].
    apply (fair_bind _ 0 0 0 (4 * n)); [apply fair_apart, apart_ask|]. intros s.
    destruct (negb _); [apply Ha, apart_throw|]. destruct (_ || _); [apply Ha, apart_throw|].
    destruct (ctx_err ctx k); [apply Ha, apart_throw|].
    apply (fair_bind _ 0 0 0 (4 * n)); [by apply fair_apart, apart_ow|]. intros _.
    apply (fair_bind _ 0 0 0 (4 * n)); [by apply fair_apart, apart_cl, apart_modify|]. intros _.
    destruct (ctx_err ctx (Datatypes.S k)); [apply Ha, apart_throw|apply IH].
  - intros e s He. unfold mbind, prog_bind, ask. destruct (negb (RetryOnSerialization _)); [done|].
    by rewrite (not_serial e He), orb_true_r.
Qed.

(** C35. A query is never left waiting: on a healthy connection to a server that
    gives an answer for every request, which may hold any messages at all before its
    ReadyForQuery, for any writer, mode, arguments and context, the query
    returns; it has read whole messages, none behind them, and no more
    answers than the requests (Sync, or a simple Query) that it sent, at most
    twelve: the retries, the preparations, the executions, the draining of what
    a cap cut off included. *)
Theorem runQueryInner_answered (ctx : context) (dur : Z) (mode : Mode) (sql : bytes) (args : list goarg) (c : Client) (w : W)
    (ms : list (byte * bytes)) (rest : bytes)
  (Hc : healthy (conn c)) (Hin : inbound (conn c) = wire_of ms ++ rest) (Hms : Forall msg_ok ms) (Henough : (12 <= answers ms)%nat) :
  let x := runQueryInner ctx dur mode sql args (c, w) in
  let c' := fst (snd x) in
  fst x ≠ Stuck ∧
  ∃ read unread outs, ms = read ++ unread ∧ inbound (conn c') = wire_of unread ++ rest ∧
    sent (conn c') = sent (conn c) ++ wire_of outs ∧ (answers read <= requests outs)%nat ∧ (answers read <= 12)%nat.
Proof.
  cbv zeta. unfold runQueryInner. rewrite (bind_Ret _ _ _ tt (observe (OnQueryStart sql) c, w)) by done.
  set (s := (observe (OnQueryStart sql) c, w)). unfold with_record.
  assert (fair qconn 0 12 (_ ← cl (attachContext ctx); retry_loop (W := W) maxRetries 1 ctx mode sql args) 0) as Hf.
  { apply (fair_bind _ 0 0 0 12); [apply fair_apart, apart_cl, apart_attach|]. intros _. apply (retry_loop_fair 3). }
  destruct (Hf s ms rest Hc Hin Hms Henough) as (H1 & _ & read & unread & outs & E & I1 & I2 & I3 & I4).
  destruct ((_ ← cl (attachContext ctx); retry_loop maxRetries 1 ctx mode sql args) s) as [r [c1 w1]]. cbn [fst snd] in *.
  unfold cl, zoom, qconn in *. cbn [fst snd] in *. set (er := match r with Err e => Some e | _ => None end).
  assert (conn (snd (recordEnd sql (lastRows c1) (BytesOut w1) dur er c1)) = conn c1) as Hre.
  { unfold recordEnd, modify. cbn [snd]. by destruct (_ && _), er. }
  destruct (recordEnd sql (lastRows c1) (BytesOut w1) dur er c1) as [y c2]. cbn [fst snd] in *. rewrite Hre.
  split; [done|]. exists read, unread, outs. repeat split; try done; lia.
Qed.
End Query.

(** *** Two answers for a query that is executed twice, and more to come *)

Definition patient_messages : list (byte * bytes) :=
  [(MsgRowDescription, one_column); (MsgDataRow, data_row [Some (str "1")]); (MsgErrorResponse, serialization_failure)] ++
  repeat (MsgReadyForQuery, str "I") 12.
Definition patient_client : Client := newClient retrying_config (New (wire_of patient_messages ++ str "x") None).
Definition patient_run := runQueryInner (W := bufWriter) no_context 0 ModeArray (str "q") [] (patient_client, demo_buffer).
Lemma runQueryInner_answered_witness : fst patient_run ≠ Stuck ∧
  ∃ read unread outs, patient_messages = read ++ unread ∧ inbound (conn (fst (snd patient_run))) = wire_of unread ++ str "x" ∧
    sent (conn (fst (snd patient_run))) = sent (conn patient_client) ++ wire_of outs ∧
    (answers read <= requests outs)%nat ∧ (answers read <= 12)%nat.
Proof.
  apply (runQueryInner_answered no_context 0 ModeArray (str "q") [] patient_client demo_buffer patient_messages (str "x")).
  - by split.
  - reflexivity.
  - repeat (constructor; [discriminate|]). constructor.
  - vm_compute. lia.
Defined.
(** It reads the two answers of its two requests and leaves ten. *)
Example patient_run_reads : length (inbound (conn (fst (snd patient_run)))) = (10 * 6 + 1)%nat.
Proof. vm_compute. reflexivity. Qed.
