(* ===== verification/Copy.v ===== *)
(** pgz/copy.go: COPY ... FROM STDIN.  The reader a caller hands to CopyFrom is
    what it will deliver and the error it ends with (io.EOF, io.ErrUnexpectedEOF or
    a failure); the callback of CopyFromBinary is the
    list of what its successive calls write and return, io.EOF past its end.
    The text of an error, which goes to the server in CopyFail, is a parameter.
    A result comes with its error, since the observer sees both. *)
From S2P Require Import Prelude Protocol Errors Effects Wire Args Stream Client Talk QuerySpec Exec.

(** ** Shared by both directions *)

(** The count a COPY returns next to its error. *)
Abbreviation counted := (Z * option gerror)%type.
Definition fails {S} (n : Z) (e : gerror) : prog S counted := mret (n, Some e).

(** The deferred recordEnd around attachContext and the copy itself; what the
    copy returns is its rows, the bytes it wrote out and its error. *)
Definition recorded {S} (zoomed : client unit → prog S unit) (sql : bytes) (dur : Z) (ctx : context)
    (m : prog S (Z * Z * option gerror)) : prog S Z := λ s,
  match (_ ← zoomed (modify (observe (OnQueryStart sql))); check (zoomed (attachContext ctx)) (λ e, mret (0, 0, Some e)) (λ _, m)) s with
  | (Ret (rows, bytesOut, err), s) =>
      let '(_, s) := zoomed (recordEnd sql rows bytesOut dur err) s in
      (match err with None => Ret rows | Some e => Err e end, s)
  | (Err e, s) => (Err e, s)
  | (Panic, s) => let '(_, s) := zoomed (recordEnd sql 0 0 dur None) s in (Panic, s)
  | (Stuck, s) => (Stuck, s)
  end.
Definition no_bytes {S} (m : prog S counted) : prog S (Z * Z * option gerror) := x ← m; mret (x.1, 0, x.2).

Definition startCopy (sql : bytes) : client unit := wire (_ ← message MsgQuery (bCString sql); Flush).

(** drainUntilReady: read errors are silent, nothing is looked at. *)
Definition cdrain_step (_ : unit) (t : byte) (body : bytes) : client (unit + unit) :=
  if beq t MsgReadyForQuery then leave tt else again tt.
Definition drainUntilReady : client unit := λ c,
  read_loop (wire ReadMessage) cdrain_step (λ _ _, mret tt) (rounds c) tt c.

(** [string(body[:len(body)-1])] *)
Definition tag_of {S} (body : bytes) : prog S bytes :=
  match body with [] => panic | _ => mret (removelast body) end.

(** ** The messages of COPY FROM *)

Definition copyin_step (a : option PGError) (t : byte) (body : bytes) : client (option PGError + unit) :=
  if beq t MsgCopyInResponse then leave tt
  else if beq t MsgErrorResponse then again (Some (Parse body))
  else if beq t MsgReadyForQuery then
    match a with Some e => throw (EPg e) | None => throw (EFmt "pgz: ReadyForQuery before CopyInResponse" []) end
  else if beq t MsgNoticeResponse then _ ← on_notice body; again a
  else if beq t MsgParameterStatus then _ ← on_parameter body; again a
  else if beq t MsgCommandComplete then throw (EFmt "pgz: COPY completed without accepting data" [])
  else throw (EFmt "pgz: unexpected msg while awaiting CopyInResponse" [byteZ t]).
Definition awaitCopyInResponse : client unit := for_messages copyin_step None.

Definition complete_step (a : Z * option PGError) (t : byte) (body : bytes) : client ((Z * option PGError) + Z) :=
  if beq t MsgCommandComplete then tag ← tag_of body; again (parseRowsAffected tag, snd a)
  else if beq t MsgNoticeResponse then _ ← on_notice body; again a
  else if beq t MsgParameterStatus then _ ← on_parameter body; again a
  else if beq t MsgErrorResponse then again (fst a, Some (Parse body))
  else if beq t MsgReadyForQuery then
    match snd a with Some e => throw (EPg e) | None => leave (fst a) end
  else if beq t MsgEmptyQueryResponse then again a
  else throw (EFmt "pgz: unexpected msg during COPY completion" [byteZ t]).
Definition awaitCopyComplete : client Z := for_messages complete_step (0, None).

Definition sendCopyDone : client unit := wire (_ ← message MsgCopyDone (mret tt); Flush).
Definition sendCopyFail (reason : bytes) : client unit := wire (_ ← message MsgCopyFail (bCString reason); Flush).

Definition copyFlushThreshold : nat := Z.to_nat (256 * 1024).
Definition copyHdrLen : nat := 5.

(** ** CopyFrom *)

(** An io.Reader: the bytes it has, and the error it gives after them; io.EOF
    is [EEOF false]. *)
Record reader := mkReader { r_data : bytes; r_end : gerror }.

(** [io.ReadFull(r, buf)] with a buffer of [n > 0] bytes: io.EOF after some of
    them becomes io.ErrUnexpectedEOF. *)
Definition ReadFull (n : nat) (r : reader) : bytes * option gerror * reader :=
  if (n <=? length (r_data r))%nat then (take n (r_data r), None, mkReader (drop n (r_data r)) (r_end r))
  else
    let err := match r_end r, r_data r with EEOF false, _ :: _ => EEOF true | e, _ => e end in
    (r_data r, Some err, mkReader [] (r_end r)).

(** [for { n, err := io.ReadFull(r, buf) ... }]. *)
Fixpoint pump_loop (fuel n : nat) (r : reader) : client unit :=
  match fuel with
  | O => stuck
  | S fuel =>
      let '(data, err, r) := ReadFull n r in
      _ ← match data with
          | [] => mret tt
          | _ => wire (WriteRaw (MsgCopyData :: be_put 4 (Zlen data + 4) ++ data))
          end;
      match err with
      | Some (EEOF _) => mret tt
      | Some e => throw e
      | None => pump_loop fuel n r
      end
  end.
Definition pumpCopyData (r : reader) : client unit := pump_loop (S (length (r_data r))) copyFlushThreshold r.

Section CopyIn.
Context (errText : gerror → bytes).

Definition abort_copy {R} (e : gerror) (ret : client R) : client R :=
  _ ← catch (sendCopyFail (errText e));
  _ ← drainUntilReady;
  ret.

Definition copyFrom (sql : bytes) (r : reader) : client counted :=
  check (startCopy sql) (fails 0) (λ _,
  check awaitCopyInResponse (fails 0) (λ _,
  check (pumpCopyData r) (λ e, abort_copy e (fails 0 e)) (λ _,
  check sendCopyDone (fails 0) (λ _,
  check awaitCopyComplete (fails 0) (λ rows, mret (rows, None)))))).

Definition CopyFrom (ctx : context) (dur : Z) (sql : bytes) (r : reader) : client Z :=
  recorded id sql dur ctx (no_bytes (copyFrom sql r)).

(** ** CopyFromBinary *)

Record CopyWriter := mkCW { fieldCount : Z; cw_buf : bytes; rowStart : nat; written : Z }.

Definition newCopyWriter (n : Z) : CopyWriter := mkCW n [MsgCopyData; x00; x00; x00; x00] 0 0.

(** One field: its bytes, length first, and one more written. *)
Definition cw_field (p : bytes) (w : CopyWriter) : CopyWriter :=
  mkCW (fieldCount w) (cw_buf w ++ p) (rowStart w) (written w + 1).
Definition writeLen (n : Z) : bytes := be_put 4 (int32 n).

Definition cw_Null : CopyWriter → CopyWriter := cw_field [xff; xff; xff; xff].
Definition cw_Int2 (v : Z) : CopyWriter → CopyWriter :=
  cw_field [x00; x00; x00; x02; mkbyte (Z.shiftr v 8); mkbyte v].
Definition cw_Int4 (v : Z) : CopyWriter → CopyWriter :=
  cw_field [x00; x00; x00; x04; mkbyte (Z.shiftr v 24); mkbyte (Z.shiftr v 16); mkbyte (Z.shiftr v 8); mkbyte v].
Definition bytes8 (v : Z) : bytes :=
  [mkbyte (Z.shiftr v 56); mkbyte (Z.shiftr v 48); mkbyte (Z.shiftr v 40); mkbyte (Z.shiftr v 32);
   mkbyte (Z.shiftr v 24); mkbyte (Z.shiftr v 16); mkbyte (Z.shiftr v 8); mkbyte v].
Definition cw_Int8 (v : Z) : CopyWriter → CopyWriter := cw_field ([x00; x00; x00; x08] ++ bytes8 v).
Definition cw_Bool (v : bool) : CopyWriter → CopyWriter := cw_field [x00; x00; x00; x01; if v then x01 else x00].
(** Floats are their bit patterns. *)
Definition cw_Float4 (u : Z) : CopyWriter → CopyWriter := cw_Int4 u.
Definition cw_Float8 (u : Z) : CopyWriter → CopyWriter := cw_Int8 u.
Definition cw_Text (s : bytes) : CopyWriter → CopyWriter := cw_field (writeLen (Zlen s) ++ s).
Definition cw_Bytes (b : bytes) : CopyWriter → CopyWriter := cw_field (writeLen (Zlen b) ++ b).
Definition cw_UUID (u : bytes) : CopyWriter → CopyWriter := cw_field ([x00; x00; x00; x10] ++ u).
(** The instant in nanoseconds since 2000-01-01, as in Args.v. *)
Definition cw_Timestamp (ns : Z) : CopyWriter → CopyWriter := cw_Int8 (epochMicros ns).
Definition cw_TimestampTZ (ns : Z) : CopyWriter → CopyWriter := cw_Int8 (epochMicros ns).

(** flush: patch the length, write, keep the header. *)
Definition cw_flush (w : CopyWriter) : client CopyWriter :=
  if (length (cw_buf w) <=? copyHdrLen)%nat then mret w
  else
    let buf := patch4 1 (Zlen (cw_buf w) - 1) (cw_buf w) in
    _ ← wire (WriteRaw buf);
    mret (mkCW (fieldCount w) (take copyHdrLen buf) (rowStart w) (written w)).

(** What a callback can do with the writer it is handed. *)
Inductive cfield :=
  | CNull | CInt2 (v : Z) | CInt4 (v : Z) | CInt8 (v : Z) | CBool (v : bool) | CFloat4 (u : Z) | CFloat8 (u : Z)
  | CText (s : bytes) | CBytes (b : bytes) | CUUID (u : bytes) | CTimestamp (ns : Z) | CTimestampTZ (ns : Z).
Definition write_field (f : cfield) : CopyWriter → CopyWriter :=
  match f with
  | CNull => cw_Null | CInt2 v => cw_Int2 v | CInt4 v => cw_Int4 v | CInt8 v => cw_Int8 v | CBool v => cw_Bool v
  | CFloat4 u => cw_Float4 u | CFloat8 u => cw_Float8 u | CText s => cw_Text s | CBytes b => cw_Bytes b
  | CUUID u => cw_UUID u | CTimestamp ns => cw_Timestamp ns | CTimestampTZ ns => cw_TimestampTZ ns
  end.
Definition emitted : Type := list cfield * option gerror.

Definition pgcopy_magic : bytes := str "PGCOPY" ++ [x0a; xff; x0d; x0a; x00].
Definition pgcopy_header : bytes := pgcopy_magic ++ repeat x00 8.

(** [cw.rowStart = len(cw.buf)] and the two bytes of the field count. *)
Definition begin_row (w : CopyWriter) : CopyWriter :=
  mkCW (fieldCount w) (cw_buf w ++ [x00; x00]) (length (cw_buf w)) 0.
Definition roll_back (w : CopyWriter) : CopyWriter := mkCW (fieldCount w) (take (rowStart w) (cw_buf w)) (rowStart w) (written w).
(** [binary.BigEndian.PutUint16(cw.buf[cw.rowStart:cw.rowStart+2], uint16(fieldCount))] *)
Definition patch_row (w : CopyWriter) : CopyWriter :=
  mkCW (fieldCount w) (take (rowStart w) (cw_buf w) ++ be_put 2 (u16 (fieldCount w)) ++ drop (rowStart w + 2) (cw_buf w))
    (rowStart w) (written w).

(** The rows; [inl] is an early return, [inr] the writer and the row count. *)
Fixpoint emit_rows (calls : list emitted) (rows : Z) (w : CopyWriter) : client (counted + (CopyWriter * Z)) :=
  let w := begin_row w in
  match calls with
  | [] => mret (inr (roll_back w, rows))
  | (fields, err) :: calls =>
      let w := fold_left (λ w f, write_field f w) fields w in
      match err with
      | Some (EEOF false) => mret (inr (roll_back w, rows))
      | Some e => abort_copy e (mret (inl (0, Some e)))
      | None =>
          if negb (written w =? fieldCount w) then
            let e := EFmt "pgz: CopyFromBinary: row wrote fields, expected" [rows; written w; fieldCount w] in
            abort_copy e (mret (inl (0, Some e)))
          else
            let w := patch_row w in
            if (copyFlushThreshold <=? length (cw_buf w))%nat then
              check (cw_flush w) (λ e, mret (inl (0, Some e))) (emit_rows calls (rows + 1))
            else emit_rows calls (rows + 1) w
      end
  end.

Definition copyFromBinary (sql : bytes) (n : Z) (emit : list emitted) : client counted :=
  check (startCopy sql) (fails 0) (λ _,
  check awaitCopyInResponse (fails 0) (λ _,
    let cw := newCopyWriter n in
    let cw := mkCW n (cw_buf cw ++ pgcopy_header) (rowStart cw) (written cw) in
    x ← emit_rows emit 0 cw;
    match x with
    | inl r => mret r
    | inr (cw, rows) =>
        let cw := mkCW n (cw_buf cw ++ [xff; xff]) (rowStart cw) (written cw) in
        check (cw_flush cw) (fails 0) (λ _,
        check sendCopyDone (fails 0) (λ _,
          y ← catch awaitCopyComplete;
          mret (rows, match y with inl e => Some e | inr _ => None end)))
    end)).

Definition CopyFromBinary (ctx : context) (dur : Z) (sql : bytes) (n : Z) (emit : list emitted) : client Z :=
  if (n <=? 0) || (2 ^ 15 - 1 <? n) then throw (EFmt "pgz: CopyFromBinary: invalid fieldCount" [n])
  else recorded id sql dur ctx (no_bytes (copyFromBinary sql n emit)).
End CopyIn.

(** ** Specification *)

Definition quiet (m : byte * bytes) : Prop := msg_ok m ∧ (m.1 = MsgNoticeResponse ∨ m.1 = MsgParameterStatus).

(** The messages that may come between CopyDone and ReadyForQuery. *)
Definition complete_known (m : byte * bytes) : Prop :=
  msg_ok m ∧ ((m.1 = MsgCommandComplete ∧ m.2 ≠ []) ∨ m.1 = MsgNoticeResponse ∨ m.1 = MsgParameterStatus ∨
    m.1 = MsgErrorResponse ∨ m.1 = MsgEmptyQueryResponse).

Definition copy_data (chunks : list bytes) : bytes := wire_of (map (λ p, (MsgCopyData, p)) chunks).

(** The bytes of a field, a tuple and a whole file in the binary format. *)
Definition field_data (f : cfield) : option bytes :=
  match f with
  | CNull => None
  | CInt2 v => Some (be_put 2 v)
  | CInt4 v => Some (be_put 4 v)
  | CInt8 v => Some (be_put 8 v)
  | CBool v => Some [if v then x01 else x00]
  | CFloat4 u => Some (be_put 4 u)
  | CFloat8 u => Some (be_put 8 u)
  | CText s | CBytes s => Some s
  | CUUID u => Some u
  | CTimestamp ns | CTimestampTZ ns => Some (be_put 8 (micros_since_2000 ns))
  end.
Definition cfield_ok (f : cfield) : Prop :=
  match f with CText s | CBytes s => Zlen s < 2 ^ 31 | CUUID u => length u = 16%nat | _ => True end.
Definition datum_wire (d : option bytes) : bytes :=
  match d with None => [xff; xff; xff; xff] | Some p => be_put 4 (Zlen p) ++ p end.
Definition tuple (n : Z) (row : list cfield) : bytes := be_put 2 n ++ concat (map (λ f, datum_wire (field_data f)) row).
Definition binary_file (n : Z) (rows : list (list cfield)) : bytes :=
  pgcopy_header ++ concat (map (tuple n) rows) ++ [xff; xff].

(** ** Lemmas *)

Lemma copyin_quiet m : quiet m → ∀ a c, copyin_step a m.1 m.2 c = (Ret (inl a), absorb c m).
Proof. intros [_ Hm] a c. destruct m as [t b]. cbn [fst snd] in *. by destruct Hm as [-> | ->]. Qed.

Lemma awaitCopyInResponse_ok ms b rest : Forall quiet ms → msg_ok (MsgCopyInResponse, b) →
  runs awaitCopyInResponse (wire_of ms ++ frame MsgCopyInResponse b ++ rest) (Ret tt) ms [] rest.
Proof.
  intros Hms Hb. apply (runs_messages copyin_step (λ a _, a)); [|done|done].
  eapply Forall_impl; [exact Hms|]. intros m Hm. split; [apply Hm|]. intros. by apply copyin_quiet.
Qed.

Definition complete_next (a : Z * option PGError) (m : byte * bytes) : Z * option PGError :=
  if beq m.1 MsgCommandComplete then (parseRowsAffected (removelast m.2), a.2)
  else if beq m.1 MsgErrorResponse then (a.1, Some (Parse m.2)) else a.
Lemma complete_next_fold ms : ∀ tag e,
  fold_left complete_next ms (parseRowsAffected tag, e) = (parseRowsAffected (last_tag tag ms), last_error e ms).
Proof.
  induction ms as [|m ms IH]; intros tag e; [done|]. cbn [fold_left last_tag last_error]. rewrite <- IH. f_equal.
  unfold complete_next. cbn [fst snd]. destruct (beq m.1 MsgCommandComplete) eqn:E1.
  - apply beq_true in E1. by rewrite E1.
  - by destruct (beq m.1 MsgErrorResponse).
Qed.

Lemma complete_step_known m : complete_known m → ∀ a c, complete_step a m.1 m.2 c = (Ret (inl (complete_next a m)), absorb c m).
Proof.
  intros [_ Hm] a c. destruct m as [t b]. cbn [fst snd] in *.
  destruct Hm as [[-> Hb]|[-> |[-> |[-> | ->]]]]; try done.
  - by destruct b.
Qed.

(** How a COPY ends. *)
Definition copy_end (ms : list (byte * bytes)) : res Z :=
  match last_error None ms with Some e => Err (EPg e) | None => Ret (parseRowsAffected (last_tag [] ms)) end.

Lemma awaitCopyComplete_ok ms z rest : Forall complete_known ms → msg_ok (MsgReadyForQuery, z) →
  runs awaitCopyComplete (wire_of ms ++ frame MsgReadyForQuery z ++ rest) (copy_end ms) ms [] rest.
Proof.
  intros Hms Hz. apply (runs_messages complete_step complete_next); [|done|].
  - eapply Forall_impl; [exact Hms|]. intros m Hm. split; [apply Hm|by apply complete_step_known].
  - intros c. change (0, @None PGError) with (parseRowsAffected [], @None PGError). rewrite complete_next_fold.
    unfold copy_end. cbn. by destruct (last_error None ms).
Qed.

(** Whatever the server sends, drainUntilReady reads up to ReadyForQuery. *)
Lemma drainUntilReady_ok ms z rest : Forall (λ m, msg_ok m ∧ m.1 ≠ MsgReadyForQuery) ms → msg_ok (MsgReadyForQuery, z) →
  runs drainUntilReady (wire_of ms ++ frame MsgReadyForQuery z ++ rest) (Ret tt) [] [] rest.
Proof.
  intros Hms Hz c [Hr Hw] Hi.
  destruct (script_loop cdrain_step (λ a _, a) (λ c _, c) (λ _ _, mret tt) (λ _ _ _, eq_refl) MsgReadyForQuery z rest
    (Ret tt) id ms tt (rounds c) c) as (k & (K1 & K2 & K3 & _ & K4) & E); try done.
  - unfold rounds. pose proof (length_wire_of ms). rewrite Hi, length_app. lia.
  - eapply Forall_impl; [exact Hms|]. intros [t b] [Hm Ht]. split; [done|]. intros [] c0. cbn [fst snd] in *.
    unfold cdrain_step. destruct (beq t MsgReadyForQuery) eqn:Et; [by apply beq_true in Et|done].
  - exists k. unfold drainUntilReady. rewrite E. split.
    + cbn [id fold_left]. clear. f_equal. f_equal. induction ms as [|m ms IH] in c |- *; [done|apply IH].
    + rewrite app_nil_r. repeat split; congruence.
Qed.

Lemma abort_copy_ok {R} errText e (ret : client R) r ms z rest : Forall (λ m, msg_ok m ∧ m.1 ≠ MsgReadyForQuery) ms →
  msg_ok (MsgReadyForQuery, z) → (∀ i, runs ret i r [] [] i) →
  runs (abort_copy errText e ret) (wire_of ms ++ frame MsgReadyForQuery z ++ rest) r []
    (frame MsgCopyFail (errText e ++ [x00])) rest.
Proof.
  intros Hms Hz Hret.  unfold abort_copy, sendCopyFail. talk; [eapply runs_bind; [eapply runs_catch, runs_send, writes_bCString|]| |].
  - eapply runs_bind; [by apply drainUntilReady_ok|apply Hret].
  - pieces.
  - pieces.
Qed.

(** What pumpCopyData returns for the error its source ends with. *)
Definition pump_end (e : gerror) : res unit := match e with EEOF _ => Ret tt | e => Err e end.

(** Data in nonempty pieces of at most [n] bytes; and the one such cut whose
    pieces are full but for the last. *)
Definition chunked (n : nat) (data : bytes) (chunks : list bytes) : Prop :=
  concat chunks = data ∧ Forall (λ p, p ≠ [] ∧ (length p <= n)%nat) chunks.
Fixpoint cut (fuel n : nat) (data : bytes) : list bytes :=
  match fuel, data with
  | S fuel, _ :: _ => take n data :: cut fuel n (drop n data)
  | _, _ => []
  end.
Definition full_chunks (n : nat) (data : bytes) : list bytes := cut (length data) n data.

Lemma cut_chunked n : (0 < n)%nat → ∀ fuel data, (length data <= fuel)%nat → chunked n data (cut fuel n data).
Proof.
  intros Hn. induction fuel as [|fuel IH]; intros data Hf; destruct data as [|b data]; cbn [cut length] in *; try (by split); [lia|].
  destruct (IH (drop n (b :: data))) as [H1 H2]; [rewrite length_drop; cbn; lia|]. split; [cbn [concat]; by rewrite H1, take_drop|].
  constructor; [|done]. split; [destruct n; [lia|done]|]. rewrite length_take. lia.
Qed.
Lemma cut_enough n : (0 < n)%nat → ∀ f1 f2 data, (length data <= f1)%nat → (length data <= f2)%nat → cut f1 n data = cut f2 n data.
Proof.
  intros Hn. induction f1 as [|f1 IH]; intros [|f2] [|b data] H1 H2; cbn [cut length] in *; try done; try lia.
  f_equal. apply IH; rewrite length_drop; cbn; lia.
Qed.
Lemma full_chunks_chunked n data : (0 < n)%nat → chunked n data (full_chunks n data).
Proof. intros Hn. by apply cut_chunked. Qed.
Lemma full_chunks_more n data : (0 < n)%nat → (n <= length data)%nat → full_chunks n data = take n data :: full_chunks n (drop n data).
Proof.
  intros Hn Hl. unfold full_chunks. destruct data as [|b data]; [cbn in Hl; lia|]. cbn [length cut]. f_equal.
  apply cut_enough; [done|rewrite length_drop; cbn [length]; lia|done].
Qed.
Lemma full_chunks_last n data : (length data < n)%nat → full_chunks n data = match data with [] => [] | _ => [data] end.
Proof.
  intros Hl. unfold full_chunks. destruct data as [|b data]; [done|]. cbn [length cut].
  rewrite take_ge, drop_ge by (cbn in *; lia). by destruct (length data).
Qed.

Lemma copy_data_cons p chunks : copy_data (p :: chunks) = frame MsgCopyData p ++ copy_data chunks.
Proof. done. Qed.
Lemma copy_data_app c1 c2 : copy_data (c1 ++ c2) = copy_data c1 ++ copy_data c2.
Proof. unfold copy_data, wire_of. by rewrite !map_app, concat_app. Qed.

Lemma pump_loop_ok n : (0 < n)%nat → ∀ fuel r, (length (r_data r) < fuel)%nat → ∀ i,
  runs (pump_loop fuel n r) i (pump_end (r_end r)) [] (copy_data (full_chunks n (r_data r))) i.
Proof.
  intros Hn fuel. induction fuel as [|fuel IH]; intros [d e] Hf i; [lia|]. cbn [r_data r_end] in *.
  cbn [pump_loop]. unfold ReadFull. cbn [r_data r_end]. destruct (Nat.leb_spec n (length d)).
  - assert (take n d ≠ []) as Hne.
    { intros E. apply (f_equal length) in E. rewrite length_take in E. cbn in E. lia. }
    rewrite full_chunks_more, copy_data_cons by done. apply (runs_bind _ _ _ tt [] _ i _ [] _ i).
    + destruct (take n d) eqn:Et; [done|]. apply runs_write.
    + apply (IH (mkReader (drop n d) e)). cbn. rewrite length_drop. lia.
  - rewrite full_chunks_last, <- (app_nil_r (copy_data _)) by done. apply (runs_bind _ _ _ tt [] _ i _ [] [] i).
    + destruct d; [apply runs_ret|]. unfold copy_data, wire_of. cbn [map concat fst snd]. rewrite app_nil_r. apply runs_write.
    + destruct e, d; cbn [pump_end]; try apply runs_throw; try destruct partial; apply runs_ret.
Qed.
Lemma pumpCopyData_ok r i :
  runs (pumpCopyData r) i (pump_end (r_end r)) [] (copy_data (full_chunks copyFlushThreshold (r_data r))) i.
Proof. apply pump_loop_ok; [unfold copyFlushThreshold; lia|lia]. Qed.
Lemma threshold_positive : (0 < copyFlushThreshold)%nat.
Proof. unfold copyFlushThreshold. lia. Qed.

Definition counted_of (r : res Z) : counted :=
  match r with Ret n => (n, None) | Err e => (0, Some e) | Panic | Stuck => (0, None) end.
(** The end of every COPY FROM: CopyDone, then the server's verdict. *)
Lemma finish_ok {R} (f : Z → client R) (onerr : gerror → client R) r1 r2 post z rest i :
  Forall complete_known post → msg_ok (MsgReadyForQuery, z) →
  i = wire_of post ++ frame MsgReadyForQuery z ++ rest →
  (∀ n i, runs (f n) i (Ret (r1 n)) [] [] i) → (∀ e i, runs (onerr e) i (Ret (r2 e)) [] [] i) →
  runs (check sendCopyDone onerr (λ _, check awaitCopyComplete onerr f)) i
    (Ret (match copy_end post with Err e => r2 e | Ret n => r1 n | _ => r1 0 end)) post (frame MsgCopyDone []) rest.
Proof.
  intros Hp Hz -> Hf He. pose proof (awaitCopyComplete_ok post z rest Hp Hz) as Ha.
  talk; [eapply runs_check; [apply runs_send, writes_nil|]| |].
  - unfold copy_end in *. destruct (last_error None post); [eapply runs_check_err|eapply runs_check]; first [exact Ha|apply Hf|apply He].
  - pieces.
  - pieces.
Qed.

(** What the server's script, and what is sent, look like. *)
Definition copyin_script (pre : list (byte * bytes)) (b : bytes) (post : list (byte * bytes)) (z rest : bytes) : bytes :=
  wire_of pre ++ frame MsgCopyInResponse b ++ wire_of post ++ frame MsgReadyForQuery z ++ rest.
Definition copyin_said (sql data last : bytes) : bytes :=
  frame MsgQuery (sql ++ [x00]) ++ copy_data (full_chunks copyFlushThreshold data) ++ last.

(** A COPY whose source ends. *)
Lemma copyFrom_runs errText sql r partial pre b post z rest :
  r_end r = EEOF partial → Forall quiet pre → Forall complete_known post →
  msg_ok (MsgCopyInResponse, b) → msg_ok (MsgReadyForQuery, z) →
  runs (copyFrom errText sql r) (copyin_script pre b post z rest) (Ret (counted_of (copy_end post))) (pre ++ post)
    (copyin_said sql (r_data r) (frame MsgCopyDone [])) rest.
Proof.
  intros He Hpre Hpost Hb Hz. pose proof (pumpCopyData_ok r) as Hp. rewrite He in Hp. unfold copyFrom, copyin_script, copyin_said.
  talk; [eapply runs_check; [apply runs_send, writes_bCString|]| |].
  - eapply runs_check; [by apply awaitCopyInResponse_ok|]. eapply runs_check; [exact (Hp _)|].
    assert (counted_of (copy_end post) = match copy_end post with Err e => (0, Some e) | Ret n => (n, None) | _ => (0, None) end) as ->
      by (by destruct (copy_end post)).
    apply (finish_ok (λ n, mret (n, None)) (fails 0) (λ n, (n, None)) (λ e, (0, Some e)) _ z); try done; intros; apply runs_ret.
  - pieces.
  - pieces.
Qed.

(** A COPY whose source fails. *)
Lemma copyFrom_fails errText sql r pre b post z rest :
  (∀ partial, r_end r ≠ EEOF partial) → Forall quiet pre → Forall (λ m, msg_ok m ∧ m.1 ≠ MsgReadyForQuery) post →
  msg_ok (MsgCopyInResponse, b) → msg_ok (MsgReadyForQuery, z) →
  runs (copyFrom errText sql r) (copyin_script pre b post z rest) (Ret (0, Some (r_end r))) pre
    (copyin_said sql (r_data r) (frame MsgCopyFail (errText (r_end r) ++ [x00]))) rest.
Proof.
  intros He Hpre Hpost Hb Hz. pose proof (pumpCopyData_ok r) as Hp.
  assert (pump_end (r_end r) = Err (r_end r)) as Ee by (destruct (r_end r); try done; by destruct (He partial)).
  rewrite Ee in Hp. unfold copyFrom, copyin_script, copyin_said.
  talk; [eapply runs_check; [apply runs_send, writes_bCString|]| |].
  - eapply runs_check; [by apply awaitCopyInResponse_ok|]. eapply runs_check_err; [exact (Hp _)|].
    apply abort_copy_ok; [done..|]. intros i. apply runs_ret.
  - pieces.
  - pieces.
Qed.

(** C16. CopyFrom, from a source that ends, with io.EOF or, which the code takes
    for an end too, with io.ErrUnexpectedEOF: what goes to the server is the
    Query, the source's bytes in nonempty CopyData
    messages of at most 256 KiB, and CopyDone; the result is the count of the
    last CommandComplete or the server's last error; and exactly the reply is
    consumed, so the next statement starts in step with the server. *)
Theorem copyFrom_exact errText sql r partial pre b post z rest :
  r_end r = EEOF partial → Forall quiet pre → Forall complete_known post →
  msg_ok (MsgCopyInResponse, b) → msg_ok (MsgReadyForQuery, z) →
  ∃ chunks, chunked copyFlushThreshold (r_data r) chunks ∧
    runs (copyFrom errText sql r)
      (wire_of pre ++ frame MsgCopyInResponse b ++ wire_of post ++ frame MsgReadyForQuery z ++ rest)
      (Ret (counted_of (copy_end post))) (pre ++ post)
      (frame MsgQuery (sql ++ [x00]) ++ copy_data chunks ++ frame MsgCopyDone []) rest.
Proof.
  intros He Hpre Hpost Hb Hz. exists (full_chunks copyFlushThreshold (r_data r)).
  split; [apply full_chunks_chunked, threshold_positive|by apply (copyFrom_runs errText sql r partial)].
Qed.

(** C17. CopyFrom, from a source that fails with any error but io.EOF and
    io.ErrUnexpectedEOF: the bytes read before the failure may have gone out, in
    nonempty messages of at most 256 KiB, but the server is sent CopyFail with
    the failure's text and never CopyDone, so it rolls the COPY back; the caller
    gets the source's error with a count of 0, and the reply is drained.  The
    one exception among the errors is real: see truncated_source_commits. *)
Theorem copyFrom_aborts errText sql r pre b post z rest
  (Hfails : ∀ partial, r_end r ≠ EEOF partial)
  (Hserver : Forall quiet pre ∧ Forall (λ m, msg_ok m ∧ m.1 ≠ MsgReadyForQuery) post ∧
     msg_ok (MsgCopyInResponse, b) ∧ msg_ok (MsgReadyForQuery, z)) :
  ∃ chunks, chunked copyFlushThreshold (r_data r) chunks ∧
    runs (copyFrom errText sql r)
      (wire_of pre ++ frame MsgCopyInResponse b ++ wire_of post ++ frame MsgReadyForQuery z ++ rest)
      (Ret (0, Some (r_end r))) pre
      (frame MsgQuery (sql ++ [x00]) ++ copy_data chunks ++ frame MsgCopyFail (errText (r_end r) ++ [x00])) rest.
Proof.
  destruct Hserver as (Hpre & Hpost & Hb & Hz). exists (full_chunks copyFlushThreshold (r_data r)).
  split; [apply full_chunks_chunked, threshold_positive|by apply (copyFrom_fails errText sql r)].
Qed.

(** A source cut off half-way, as a decompressor or a request body reports it:
    its error is io.ErrUnexpectedEOF, and what came before it is committed. *)
Lemma truncated_source_commits errText sql data pre b post z rest :
  Forall quiet pre → Forall complete_known post → msg_ok (MsgCopyInResponse, b) → msg_ok (MsgReadyForQuery, z) →
  runs (copyFrom errText sql (mkReader data (EEOF true))) (copyin_script pre b post z rest)
    (Ret (counted_of (copy_end post))) (pre ++ post) (copyin_said sql data (frame MsgCopyDone [])) rest.
Proof. intros. by apply (copyFrom_runs errText sql (mkReader data (EEOF true)) true). Qed.

(** ** The binary writer *)

Definition fields_wire (fs : list cfield) : bytes := concat (map (λ f, datum_wire (field_data f)) fs).

Lemma write_field_ok f w : cfield_ok f →
  write_field f w = cw_field (datum_wire (field_data f)) w.
Proof.
  intros Hf. destruct f; cbn [write_field field_data datum_wire]; rewrite <- ?epochMicros_spec; try done;
    unfold cw_Int2, cw_Int4, cw_Int8, cw_Float4, cw_Float8, cw_Timestamp, cw_TimestampTZ, cw_Text, cw_Bytes, cw_UUID, cw_Int4, cw_Int8,
      bytes8, writeLen; rewrite ?be_put_int32; try done;
    cbn [be_put]; rewrite ?Z.shiftr_0_r; try done.
  cbn in Hf. unfold Zlen. by rewrite Hf.
Qed.

Lemma write_fields_ok fs : ∀ w, Forall cfield_ok fs →
  fold_left (λ w f, write_field f w) fs w =
    mkCW (fieldCount w) (cw_buf w ++ fields_wire fs) (rowStart w) (written w + Zlen fs).
Proof.
  induction fs as [|f fs IH]; intros w Hf; cbn [fold_left].
  - rewrite Zlen_nil, app_nil_r, Z.add_0_r. by destruct w.
  - apply Forall_cons in Hf as [H1 H2]. rewrite IH, write_field_ok by done. unfold cw_field. cbn [fieldCount cw_buf rowStart written].
    rewrite Zlen_cons, <- app_assoc. f_equal. lia.
Qed.

(** A writer with [p] not yet sent, between rows. *)
Definition writer_at (n : Z) (p : bytes) (w : CopyWriter) : Prop :=
  fieldCount w = n ∧ ∃ h, length h = 4%nat ∧ cw_buf w = MsgCopyData :: h ++ p.

Lemma row_ok n p fs w : writer_at n p w → Forall cfield_ok fs → Zlen fs = n →
  let w' := fold_left (λ w f, write_field f w) fs (begin_row w) in
  written w' = n ∧ fieldCount w' = n ∧ writer_at n (p ++ tuple n fs) (patch_row w').
Proof.
  intros (Hn & h & Hh & Hb) Hf Hl. rewrite write_fields_ok by done. cbn [begin_row fieldCount cw_buf rowStart written].
  split; [lia|]. split; [done|]. split; [done|]. exists h. split; [done|].
  cbn [patch_row fieldCount cw_buf rowStart]. rewrite Hn, <- app_assoc, take_app_len by done.
  rewrite (app_assoc (cw_buf w) [x00; x00]), (drop_app_len (length (cw_buf w) + 2)) by (by rewrite length_app).
  unfold u16, wrapu. change (2 ^ 16) with (256 ^ Z.of_nat 2). rewrite be_put_mod, Hb. unfold tuple, fields_wire. cbn [app].
  by rewrite <- !app_assoc.
Qed.

Lemma rolled_back n p fs w : writer_at n p w → Forall cfield_ok fs →
  writer_at n p (roll_back (fold_left (λ w f, write_field f w) fs (begin_row w))).
Proof.
  intros (Hn & h & Hh & Hb) Hf. rewrite write_fields_ok by done. split; [done|]. exists h. split; [done|].
  cbn [roll_back begin_row fieldCount cw_buf rowStart]. by rewrite <- app_assoc, take_app_len, Hb.
Qed.

Lemma cw_flush_ok n p w i : writer_at n p w → p ≠ [] →
  ∃ w', writer_at n [] w' ∧ runs (cw_flush w) i (Ret w') [] (frame MsgCopyData p) i.
Proof.
  intros (Hn & h & Hh & Hb) Hp.
  assert (patch4 1 (Zlen (cw_buf w) - 1) (cw_buf w) = frame MsgCopyData p) as E.
  { rewrite Hb. unfold patch4. rewrite Zlen_cons, Zlen_app. cbn [take drop Nat.add]. rewrite drop_app_len by done.
    unfold frame. cbn [app]. rewrite app_nil_l. repeat f_equal. unfold Zlen. lia. }
  eexists. split; [|].
  2:{ unfold cw_flush. rewrite (proj2 (Nat.leb_gt _ _)) by (rewrite Hb; cbn; rewrite length_app; destruct p; [done|cbn; unfold copyHdrLen; lia]).
      cbv zeta. rewrite E. talk; [eapply runs_bind; [apply runs_write|apply runs_ret]|pieces|pieces]. }
  split; [done|]. exists (be_put 4 (Zlen p + 4)). split; [by rewrite length_be_put|]. by rewrite app_nil_r.
Qed.

(** How a callback says it is done: io.EOF, whatever it wrote before. *)
Definition stops (calls : list emitted) : Prop :=
  calls = [] ∨ ∃ junk more, calls = (junk, Some (EEOF false)) :: more ∧ Forall cfield_ok junk.
Definition row_fits (n M : Z) (row : list cfield) : Prop :=
  Zlen row = n ∧ Forall cfield_ok row ∧ Zlen (tuple n row) <= M.
(** Nonempty pieces no longer than the threshold and one row more. *)
Definition pieces_upto (M : Z) (chunks : list bytes) : Prop :=
  Forall (λ q, q ≠ [] ∧ Zlen q <= Z.of_nat copyFlushThreshold + M) chunks.

Lemma emit_stops errText n p w cnt stop i : stops stop → writer_at n p w →
  ∃ w', writer_at n p w' ∧ runs (emit_rows errText stop cnt w) i (Ret (inr (w', cnt))) [] [] i.
Proof.
  intros [-> | (junk & more & -> & Hj)] Hw; cbn [emit_rows]; eexists; (split; [|apply runs_ret]).
  - by apply (rolled_back n p []).
  - by apply rolled_back.
Qed.

Lemma emit_rows_ok errText n M stop i : stops stop → 0 <= M → ∀ rows cnt p w, Forall (row_fits n M) rows →
  writer_at n p w → Zlen p <= Z.of_nat copyFlushThreshold →
  ∃ chunks p' w', writer_at n p' w' ∧ concat chunks ++ p' = p ++ concat (map (tuple n) rows) ∧
    pieces_upto M chunks ∧ Zlen p' <= Z.of_nat copyFlushThreshold ∧
    runs (emit_rows errText (map (λ r, (r, None)) rows ++ stop) cnt w) i (Ret (inr (w', cnt + Zlen rows))) [] (copy_data chunks) i.
Proof.
  intros Hs HM rows. induction rows as [|r rows IH]; intros cnt p w Hr Hw Hp.
  - destruct (emit_stops errText n p w cnt stop i Hs Hw) as (w' & Hw' & E). exists [], p, w'.
    rewrite Zlen_nil, Z.add_0_r, app_nil_r. by repeat split; [apply Hw'..|constructor| |].
  - apply Forall_cons in Hr as [(Hl & Hf & Ht) Hr]. destruct (row_ok n p r w Hw Hf Hl) as (H1 & H2 & H3).
    set (w1 := fold_left _ r (begin_row w)) in *. cbn [map app emit_rows]. fold w1.
    rewrite H1, H2, Z.eqb_refl. cbn [negb]. rewrite Zlen_cons. replace (cnt + (Zlen rows + 1)) with (cnt + 1 + Zlen rows) by lia.
    assert (Zlen (cw_buf (patch_row w1)) = 5 + Zlen (p ++ tuple n r)) as Hlen.
    { destruct H3 as (_ & h & Hh & ->). rewrite Zlen_cons, Zlen_app. unfold Zlen at 1. lia. }
    destruct (Nat.leb_spec copyFlushThreshold (length (cw_buf (patch_row w1)))) as [HT|HT].
    + assert (p ++ tuple n r ≠ []) as Hne by (by destruct p).
      destruct (cw_flush_ok n _ _ i H3 Hne) as (w2 & Hw2 & E2).
      destruct (IH (cnt + 1) [] w2 Hr Hw2) as (chunks & p' & w' & Hw' & Hc & Hu & Hp' & E); [rewrite Zlen_nil; lia|].
      exists ((p ++ tuple n r) :: chunks), p', w'. split; [done|]. split; [cbn; rewrite <- !app_assoc, Hc; done|].
      split; [|split; [done|]].
      * constructor; [|done]. split; [done|]. rewrite Zlen_app. lia.
      * rewrite copy_data_cons. by eapply (runs_check _ _ _ _ _ []); [exact E2|].
    + destruct (IH (cnt + 1) _ _ Hr H3) as (chunks & p' & w' & Hw' & Hc & Hu & Hp' & E); [unfold Zlen in *; lia|].
      exists chunks, p', w'. split; [done|]. split; [|done]. cbn. by rewrite Hc, <- app_assoc.
Qed.

(** C18. CopyFromBinary of rows that each write the declared
    number of fields: the CopyData payloads put together are the file of the
    binary COPY format - signature, flags, one tuple per row with its field
    count and length-prefixed fields, trailer - whatever the flushing, each
    message at most 256 KiB and one row long; the row io.EOF interrupts leaves
    nothing behind; the count returned is the number of rows emitted, with
    the server's error next to it if it refused them. *)
Theorem copyFromBinary_exact errText sql n M rows stop pre b post z rest :
  2 <= M → Forall (row_fits n M) rows → stops stop → Forall quiet pre → Forall complete_known post →
  msg_ok (MsgCopyInResponse, b) → msg_ok (MsgReadyForQuery, z) →
  ∃ chunks, concat chunks = binary_file n rows ∧ pieces_upto M chunks ∧
    runs (copyFromBinary errText sql n (map (λ r, (r, None)) rows ++ stop))
      (wire_of pre ++ frame MsgCopyInResponse b ++ wire_of post ++ frame MsgReadyForQuery z ++ rest)
      (Ret (Zlen rows, (counted_of (copy_end post)).2)) (pre ++ post)
      (frame MsgQuery (sql ++ [x00]) ++ copy_data chunks ++ frame MsgCopyDone []) rest.
Proof.
  intros HM Hrows Hstop Hpre Hpost Hb Hz. set (tail := wire_of post ++ frame MsgReadyForQuery z ++ rest).
  set (w0 := mkCW n (cw_buf (newCopyWriter n) ++ pgcopy_header) 0 0).
  assert (writer_at n pgcopy_header w0) as Hw0 by (split; [done|]; by exists [x00; x00; x00; x00]).
  destruct (emit_rows_ok errText n M stop tail Hstop ltac:(lia) rows 0 pgcopy_header w0 Hrows Hw0 ltac:(by vm_compute))
    as (chunks & p & w1 & Hw1 & Hc & Hu & Hp & E1).
  set (w2 := mkCW n (cw_buf w1 ++ [xff; xff]) (rowStart w1) (written w1)).
  assert (writer_at n (p ++ [xff; xff]) w2) as Hw2.
  { destruct Hw1 as (_ & h & Hh & Hb1). split; [done|]. exists h. split; [done|]. cbn [cw_buf w2]. rewrite Hb1. cbn [app]. by rewrite <- app_assoc. }
  destruct (cw_flush_ok n _ w2 tail Hw2 ltac:(by destruct p)) as (w3 & _ & E3).
  exists (chunks ++ [p ++ [xff; xff]]). split; [|split].
  - unfold binary_file. rewrite concat_app. cbn [concat]. rewrite app_nil_r, (app_assoc _ p), Hc. by rewrite <- app_assoc.
  - apply Forall_app. split; [done|]. constructor; [|done]. split; [by destruct p|]. rewrite Zlen_app. change (Zlen [xff; xff]) with 2. lia.
  - unfold copyFromBinary. talk; [eapply runs_check; [apply runs_send, writes_bCString|]| |].
    + eapply runs_check; [by apply awaitCopyInResponse_ok|]. cbv zeta. eapply runs_bind; [exact E1|]. cbv beta iota.
      eapply runs_check; [exact E3|]. eapply runs_check; [apply runs_send, writes_nil|].
      pose proof (awaitCopyComplete_ok post z rest Hpost Hz) as Ha. unfold copy_end in *.
      destruct (last_error None post); (eapply runs_bind; [first [by apply runs_catch|by apply runs_catch_err]|apply runs_ret]).
    + pieces.
    + rewrite copy_data_app. change (copy_data [p ++ [xff; xff]]) with (frame MsgCopyData (p ++ [xff; xff]) ++ []). rewrite ?(app_nil_r (frame MsgCopyData _)). pieces.
Qed.

(** ** Witnesses *)

Definition ex_sql : bytes := str "COPY t FROM STDIN".
Definition ex_reply (tag : string) : list (byte * bytes) := [(MsgCommandComplete, str tag ++ [x00])].
Definition ex_cpin : bytes := [x00; x00; x01; x00; x00].

Lemma ex_complete tag : bool_decide (Zlen (str tag) < 100) = true → Forall complete_known (ex_reply tag).
Proof.
  intros H. apply bool_decide_eq_true in H. constructor; [|done]. split.
  - unfold msg_ok. cbn [snd]. rewrite Zlen_app, maxMsg_eq. change (Zlen [x00]) with 1. lia.
  - left. split; [done|]. cbn [snd]. by destruct (str tag).
Qed.

Lemma copyFrom_exact_witness : ∃ chunks, chunked copyFlushThreshold (str "1,a2,b") chunks ∧
  runs (copyFrom (λ _, []) ex_sql (mkReader (str "1,a2,b") (EEOF false)))
    (wire_of [] ++ frame MsgCopyInResponse ex_cpin ++ wire_of (ex_reply "COPY 2") ++ frame MsgReadyForQuery (str "I") ++ str "next")
    (Ret (2, None)) ([] ++ ex_reply "COPY 2")
    (frame MsgQuery (ex_sql ++ [x00]) ++ copy_data chunks ++ frame MsgCopyDone []) (str "next").
Proof.
  assert ((2, None) = counted_of (copy_end (ex_reply "COPY 2"))) as -> by (vm_compute; reflexivity).
  apply (copyFrom_exact (λ _, []) ex_sql (mkReader (str "1,a2,b") (EEOF false)) false [] ex_cpin (ex_reply "COPY 2") (str "I") (str "next")).
  - reflexivity.
  - constructor.
  - apply ex_complete. reflexivity.
  - done.
  - done.
Defined.

Lemma copyFrom_aborts_witness : ∃ chunks, chunked copyFlushThreshold (str "1,a2") chunks ∧
  runs (copyFrom (λ _, str "disk") ex_sql (mkReader (str "1,a2") (EUser "read")))
    (wire_of [] ++ frame MsgCopyInResponse ex_cpin ++ wire_of [(MsgErrorResponse, [x00])] ++ frame MsgReadyForQuery (str "I") ++ [])
    (Ret (0, Some (EUser "read"))) []
    (frame MsgQuery (ex_sql ++ [x00]) ++ copy_data chunks ++ frame MsgCopyFail (str "disk" ++ [x00])) [].
Proof.
  apply (copyFrom_aborts (λ _, str "disk") ex_sql (mkReader (str "1,a2") (EUser "read")) [] ex_cpin [(MsgErrorResponse, [x00])] (str "I") []).
  - discriminate.
  - split; [constructor|]. split; [constructor; [by split|constructor]|]. by split.
Defined.

Lemma copyFromBinary_exact_witness : ∃ chunks,
  concat chunks = binary_file 2 [[CInt4 7; CText (str "ab")]; [CNull; CBool true]] ∧ pieces_upto 100 chunks ∧
  runs (copyFromBinary (λ _, []) ex_sql 2
      (map (λ r, (r, None)) [[CInt4 7; CText (str "ab")]; [CNull; CBool true]] ++ [([CInt4 9], Some (EEOF false))]))
    (wire_of [] ++ frame MsgCopyInResponse ex_cpin ++ wire_of (ex_reply "COPY 2") ++ frame MsgReadyForQuery (str "I") ++ [])
    (Ret (2, None)) ([] ++ ex_reply "COPY 2")
    (frame MsgQuery (ex_sql ++ [x00]) ++ copy_data chunks ++ frame MsgCopyDone []) [].
Proof.
  assert ((2, None) = (Zlen [[CInt4 7; CText (str "ab")]; [CNull; CBool true]], (counted_of (copy_end (ex_reply "COPY 2"))).2)) as ->
    by (vm_compute; reflexivity).
  apply (copyFromBinary_exact (λ _, []) ex_sql 2 100 [[CInt4 7; CText (str "ab")]; [CNull; CBool true]]
    [([CInt4 9], Some (EEOF false))] [] ex_cpin (ex_reply "COPY 2") (str "I") []).
  - lia.
  - repeat constructor; cbn; vm_compute; done.
  - right. exists [CInt4 9], []. split; [reflexivity|repeat constructor].
  - constructor.
  - apply ex_complete. reflexivity.
  - done.
  - done.
Defined.

(** The file of the second witness, byte for byte. *)
Example binary_file_bytes : binary_file 2 [[CInt4 7; CText (str "ab")]] =
  [x50; x47; x43; x4f; x50; x59; x0a; xff; x0d; x0a; x00; x00; x00; x00; x00; x00; x00; x00; x00;
   x00; x02; x00; x00; x00; x04; x00; x00; x00; x07; x00; x00; x00; x02; x61; x62; xff; xff].
Proof. reflexivity. Qed.
