(* ===== verification/CopyTo.v ===== *)
(** pgz/copy_to.go: COPY ... TO STDOUT, into an io.Writer or, in the binary
    format, tuple by tuple to a handler.  A handler is a computation over the
    CopyReader it is handed and the state of its closure; the error it returns
    is the computation's.  The slices Text returns are values here, so a
    handler that keeps one past its call is outside the model. *)
From S2P Require Import Prelude Protocol Errors Effects Wire Args Stream Client Query Talk QuerySpec Exec Copy.

(** ** Messages *)

Definition copyout_step (a : option PGError) (t : byte) (body : bytes) : client (option PGError + unit) :=
  if beq t MsgCopyOutResponse then leave tt
  else if beq t MsgErrorResponse then again (Some (Parse body))
  else if beq t MsgReadyForQuery then
    match a with Some e => throw (EPg e) | None => throw (EFmt "pgz: ReadyForQuery before CopyOutResponse" []) end
  else if beq t MsgNoticeResponse then _ ← on_notice body; again a
  else if beq t MsgParameterStatus then _ ← on_parameter body; again a
  else if beq t MsgCommandComplete then throw (EFmt "pgz: COPY completed before producing data" [])
  else throw (EFmt "pgz: unexpected msg while awaiting CopyOutResponse" [byteZ t]).
Definition awaitCopyOutResponse : client unit := for_messages copyout_step None.

Definition ready_step (_ : unit) (t : byte) (body : bytes) : client (unit + unit) :=
  if beq t MsgReadyForQuery then leave tt
  else if beq t MsgNoticeResponse then _ ← on_notice body; again tt
  else if beq t MsgParameterStatus then _ ← on_parameter body; again tt
  else again tt.
Definition waitForReady : client unit := for_messages ready_step tt.

(** ** CopyTo *)

(** [n, werr := w.Write(body)]. *)
Definition sink_Write (p : bytes) : prog sink (Z * option gerror) := λ w,
  let '(r, w') := sink_write p w in
  (Ret (Zlen (got w') - Zlen (got w), match r with Err e => Some e | _ => None end), w').

Abbreviation copied := (Z * Z * option gerror)%type.

Definition copyto_step (bytesOut : Z) (t : byte) (body : bytes) : prog (Client * sink) (Z + copied) :=
  if beq t MsgCopyData then
    x ← ow (sink_Write body);
    let bytesOut := int64 (bytesOut + x.1) in
    match x.2 with
    | Some werr => _ ← cl drainUntilReady; leave (0, bytesOut, Some werr)
    | None => again bytesOut
    end
  else if beq t MsgCopyDone then again bytesOut
  else if beq t MsgCommandComplete then
    tag ← tag_of body;
    let rows := parseRowsAffected tag in
    check (cl waitForReady) (λ e, leave (rows, bytesOut, Some e)) (λ _, leave (rows, bytesOut, None))
  else if beq t MsgErrorResponse then
    _ ← cl drainUntilReady; leave (0, bytesOut, Some (EPg (Parse body)))
  else if beq t MsgNoticeResponse then _ ← cl (on_notice body); again bytesOut
  else if beq t MsgParameterStatus then _ ← cl (on_parameter body); again bytesOut
  else leave (0, bytesOut, Some (EFmt "pgz: unexpected msg during COPY TO" [byteZ t])).

(** The loop over a client next to [W], a read error being a result. *)
Definition copy_loop {W A R} (step : A → byte → bytes → prog (Client * W) (A + R)) (onerr : A → gerror → prog (Client * W) R)
    (a : A) : prog (Client * W) R := λ s, read_loop (cl (wire ReadMessage)) step onerr (rounds s.1) a s.

Definition copyTo (sql : bytes) : prog (Client * sink) copied :=
  check (cl (startCopy sql)) (λ e, mret (0, 0, Some e)) (λ _,
  check (cl awaitCopyOutResponse) (λ e, mret (0, 0, Some e)) (λ _,
  copy_loop copyto_step (λ bytesOut e, mret (0, bytesOut, Some e)) 0)).

Definition CopyTo (ctx : context) (dur : Z) (sql : bytes) : prog (Client * sink) Z :=
  recorded cl sql dur ctx (copyTo sql).

(** ** CopyReader *)

Record CopyReader := mkCR { cr_fieldCount : Z; cr_body : bytes; cr_err : option gerror }.
Definition cr_set_body (b : bytes) (r : CopyReader) : CopyReader := mkCR (cr_fieldCount r) b (cr_err r).
Definition cr_set_err (e : gerror) (r : CopyReader) : CopyReader := mkCR (cr_fieldCount r) (cr_body r) (Some e).
Definition cr_reset (b : bytes) (r : CopyReader) : CopyReader := mkCR (cr_fieldCount r) b None.

Definition has_err (r : CopyReader) : bool := match cr_err r with Some _ => true | None => false end.

Definition fieldHeader : prog CopyReader (Z * bool) := λ r,
  if has_err r then (Ret (0, false), r)
  else if Zlen (cr_body r) <? 4 then (Ret (0, false), cr_set_err (EFmt "pgz: CopyReader: truncated field header" []) r)
  else
    let l := int32 (be_get (take 4 (cr_body r))) in
    let r := cr_set_body (drop 4 (cr_body r)) r in
    if l =? -1 then (Ret (0, true), r)
    else if (l <? 0) || (Zlen (cr_body r) <? l) then
      (Ret (0, false), cr_set_err (EFmt "pgz: CopyReader: bad field length" [l]) r)
    else (Ret (l, false), r).

Definition IsNull : prog CopyReader bool := λ r,
  if has_err r then (Ret false, r)
  else if Zlen (cr_body r) <? 4 then (Ret false, cr_set_err (EFmt "pgz: CopyReader: truncated field header" []) r)
  else (Ret (int32 (be_get (take 4 (cr_body r))) =? -1), r).

Definition SkipNull : prog CopyReader bool := λ r,
  if has_err r || (Zlen (cr_body r) <? 4) then (Ret false, r)
  else if int32 (be_get (take 4 (cr_body r))) =? -1 then (Ret true, cr_set_body (drop 4 (cr_body r)) r)
  else (Ret false, r).

(** The shape of every typed reader: the header, NULL or an earlier error as
    [zero], then [ok]'s length check and the value. *)
Definition typed {A} (zero : A) (ok : Z → option gerror) (dec : bytes → A) : prog CopyReader (A * bool) :=
  h ← fieldHeader;
  bad ← gets has_err;
  if h.2 || bad then mret (zero, h.2)
  else
    match ok h.1 with
    | Some e => _ ← modify (cr_set_err e); mret (zero, false)
    | None =>
        v ← gets (λ r, dec (take (Z.to_nat h.1) (cr_body r)));
        _ ← modify (λ r, cr_set_body (drop (Z.to_nat h.1) (cr_body r)) r);
        mret (v, false)
    end.
Definition exactly (n : Z) (what : string) (l : Z) : option gerror :=
  if l =? n then None else Some (EFmt what [l]).

Definition rd_Int2 : prog CopyReader (Z * bool) :=
  typed 0 (exactly 2 "pgz: CopyReader.Int2: expected 2 bytes") (λ b, int16 (be_get b)).
Definition rd_Int4 : prog CopyReader (Z * bool) :=
  typed 0 (exactly 4 "pgz: CopyReader.Int4: expected 4 bytes") (λ b, int32 (be_get b)).
Definition rd_Int8 : prog CopyReader (Z * bool) :=
  typed 0 (exactly 8 "pgz: CopyReader.Int8: expected 8 bytes") (λ b, int64 (be_get b)).
Definition rd_Bool : prog CopyReader (bool * bool) :=
  typed false (exactly 1 "pgz: CopyReader.Bool: expected 1 byte") (λ b, negb (beq (nth 0 b x00) x00)).
Definition rd_Float4 : prog CopyReader (Z * bool) :=
  typed 0 (exactly 4 "pgz: CopyReader.Float4: expected 4 bytes") be_get.
Definition rd_Float8 : prog CopyReader (Z * bool) :=
  typed 0 (exactly 8 "pgz: CopyReader.Float8: expected 8 bytes") be_get.
Definition rd_Text : prog CopyReader (bytes * bool) := typed [] (λ _, None) id.
Definition rd_Bytes : prog CopyReader (bytes * bool) := rd_Text.
Definition rd_UUID : prog CopyReader (bytes * bool) :=
  typed (repeat x00 16) (exactly 16 "pgz: CopyReader.UUID: expected 16 bytes") id.
Definition rd_Timestamp : prog CopyReader (Z * bool) :=
  typed 0 (exactly 8 "pgz: CopyReader.Timestamp: expected 8 bytes") (λ b, int64 (be_get b)).
(** [pgEpoch.Add(time.Duration(us) * time.Microsecond)], in nanoseconds since
    pgEpoch, or the zero time: the product wraps at 64 bits. *)
Definition rd_TimestampTime : prog CopyReader (option Z * bool) :=
  x ← rd_Timestamp;
  bad ← gets has_err;
  if x.2 || bad then mret (None, x.2) else mret (Some (int64 (x.1 * 1000)), false).

(** ** CopyToBinary *)

Definition pgcopy_hdrLen : nat := 19.
Definition consumePGCopyHeader (body : bytes) (cursor : nat) : gerror + (bytes * nat * bool) :=
  if (cursor =? 0)%nat && (11 <=? length body)%nat && negb (bool_decide (take 11 body = pgcopy_magic))
  then inl (EFmt "pgz: invalid PGCOPY magic" [])
  else
    let remaining := (pgcopy_hdrLen - cursor)%nat in
    if (length body <? remaining)%nat then inr ([], (cursor + length body)%nat, false)
    else inr (drop remaining body, pgcopy_hdrLen, true).

Section Binary.
Context {H : Type} (handler : prog (CopyReader * H) unit).

(** A handler's turn, on a reader reset to [body]. *)
Definition handle (n : Z) (body : bytes) : prog (Client * H) (option gerror * CopyReader) := λ s,
  let '(c, h) := s in
  match handler (cr_reset body (mkCR n [] None), h) with
  | (Ret _, (cr, h)) => (Ret (None, cr), (c, h))
  | (Err e, (cr, h)) => (Ret (Some e, cr), (c, h))
  | (Panic, (_, h)) => (Panic, (c, h))
  | (Stuck, (_, h)) => (Stuck, (c, h))
  end.

(** The body of [for len(body) > 0 { ... }], given how the loop goes on:
    [inl] leaves it with the row count, [inr] is a return. *)
Definition tuple_step (continue : Z → bytes → prog (Client * H) (Z + counted)) (n rows : Z) (body : bytes) :
    prog (Client * H) (Z + counted) :=
  if Zlen body <? 2 then leave (rows, Some (EFmt "pgz: truncated CopyData tuple header" []))
  else
    let fc := int16 (be_get (take 2 body)) in
    let body := drop 2 body in
    if fc =? -1 then continue rows body
    else if negb (fc =? n) then
      leave (rows, Some (EFmt "pgz: CopyToBinary: server tuple has fields, expected" [fc; n]))
    else
      x ← handle n body;
      match x.1 with
      | Some (EEOF false) => _ ← cl drainUntilReady; leave (rows, None)
      | Some e => _ ← cl drainUntilReady; leave (rows, Some e)
      | None =>
          match cr_err x.2 with
          | Some e => _ ← cl drainUntilReady; leave (rows, Some e)
          | None => continue (int64 (rows + 1)) (cr_body x.2)
          end
      end.
Fixpoint tuples (fuel : nat) (n rows : Z) (body : bytes) : prog (Client * H) (Z + counted) :=
  match body with
  | [] => again rows
  | _ => match fuel with O => stuck | S fuel => tuple_step (tuples fuel n) n rows body end
  end.

Record binstate := mkBin { hdrCursor : nat; headerSeen : bool; bin_rows : Z }.

Definition tobin_step (n : Z) (a : binstate) (t : byte) (body : bytes) : prog (Client * H) (binstate + counted) :=
  let rows := bin_rows a in
  let go (cursor : nat) (body : bytes) :=
    r ← tuples (S (length body)) n rows body;
    match r with inl rows => again (mkBin cursor true rows) | inr x => leave x end in
  if beq t MsgCopyData then
    if headerSeen a then go (hdrCursor a) body
    else
      match consumePGCopyHeader body (hdrCursor a) with
      | inl e => _ ← cl drainUntilReady; leave (rows, Some e)
      | inr (_, cursor, false) => again (mkBin cursor false rows)
      | inr (body, cursor, true) => go cursor body
      end
  else if beq t MsgCopyDone then again a
  else if beq t MsgCommandComplete then
    check (cl waitForReady) (λ e, leave (rows, Some e)) (λ _, leave (rows, None))
  else if beq t MsgErrorResponse then _ ← cl drainUntilReady; leave (rows, Some (EPg (Parse body)))
  else if beq t MsgNoticeResponse then _ ← cl (on_notice body); again a
  else if beq t MsgParameterStatus then _ ← cl (on_parameter body); again a
  else leave (rows, Some (EFmt "pgz: unexpected msg during COPY TO binary" [byteZ t])).

Definition copyToBinary (sql : bytes) (n : Z) : prog (Client * H) counted :=
  check (cl (startCopy sql)) (fails 0) (λ _,
  check (cl awaitCopyOutResponse) (fails 0) (λ _,
  copy_loop (tobin_step n) (λ a e, mret (bin_rows a, Some e)) (mkBin 0 false 0))).

Definition CopyToBinary (ctx : context) (dur : Z) (sql : bytes) (n : Z) : prog (Client * H) Z :=
  if (n <=? 0) || (2 ^ 15 - 1 <? n) then throw (EFmt "pgz: CopyToBinary: invalid fieldCount" [n])
  else recorded cl sql dur ctx (no_bytes (copyToBinary sql n)).
End Binary.

(** ** Specification *)

Definition out_msg (m : byte * bytes) : Prop :=
  msg_ok m ∧ (m.1 = MsgCopyData ∨ m.1 = MsgCopyDone ∨ m.1 = MsgNoticeResponse ∨ m.1 = MsgParameterStatus).
Definition payload_of (m : byte * bytes) : bytes := if beq m.1 MsgCopyData then m.2 else [].
Definition payloads (ms : list (byte * bytes)) : bytes := concat (map payload_of ms).
Definition not_ready (m : byte * bytes) : Prop := msg_ok m ∧ m.1 ≠ MsgReadyForQuery.

(** A handler that reads one row by its columns' types and keeps it. *)
Inductive kind := KInt2 | KInt4 | KInt8 | KBool | KFloat4 | KFloat8 | KText | KBytes | KUUID | KTimestamp.
Definition boxed {A} (f : A → cfield) (m : prog CopyReader (A * bool)) : prog CopyReader cfield :=
  x ← m; mret (if (x.2 : bool) then CNull else f x.1).
Definition read_kind (k : kind) : prog CopyReader cfield :=
  match k with
  | KInt2 => boxed CInt2 rd_Int2 | KInt4 => boxed CInt4 rd_Int4 | KInt8 => boxed CInt8 rd_Int8
  | KBool => boxed CBool rd_Bool | KFloat4 => boxed CFloat4 rd_Float4 | KFloat8 => boxed CFloat8 rd_Float8
  | KText => boxed CText rd_Text | KBytes => boxed CBytes rd_Bytes | KUUID => boxed CUUID rd_UUID
  | KTimestamp => boxed (λ t, match t with Some ns => CTimestamp ns | None => CNull end) rd_TimestampTime
  end.
Fixpoint read_kinds (ks : list kind) : prog CopyReader (list cfield) :=
  match ks with [] => mret [] | k :: ks => f ← read_kind k; fs ← read_kinds ks; mret (f :: fs) end.
Definition read_row (ks : list kind) : prog (CopyReader * list (list cfield)) unit := λ s,
  match read_kinds ks s.1 with
  | (Ret row, r) => (Ret tt, (r, s.2 ++ [row]))
  | (Err e, r) => (Err e, (r, s.2))
  | (Panic, r) => (Panic, (r, s.2))
  | (Stuck, r) => (Stuck, (r, s.2))
  end.

(** A field a column of the given type can hold, and be read back as. *)
Definition fits_kind (k : kind) (f : cfield) : Prop :=
  match f, k with
  | CNull, _ => True
  | CInt2 v, KInt2 => - 2 ^ 15 <= v < 2 ^ 15
  | CInt4 v, KInt4 => - 2 ^ 31 <= v < 2 ^ 31
  | CInt8 v, KInt8 => - 2 ^ 63 <= v < 2 ^ 63
  | CBool _, KBool => True
  | CFloat4 u, KFloat4 => 0 <= u < 2 ^ 32
  | CFloat8 u, KFloat8 => 0 <= u < 2 ^ 64
  | CText s, KText | CBytes s, KBytes => Zlen s < 2 ^ 31
  | CUUID u, KUUID => length u = 16%nat
  | CTimestamp ns, KTimestamp => - 2 ^ 63 <= ns < 2 ^ 63 ∧ (1000 | ns)
  | _, _ => False
  end.

Definition tuple_bytes (n : Z) (rows : list (list cfield)) : bytes := concat (map (tuple n) rows).

(** The rows a stream of messages after the header carries: CopyData of whole
    tuples, the trailer, and what may come between them. *)
Inductive delivers (n : Z) : list (list cfield) → list (byte * bytes) → Prop :=
  | delivers_nil : delivers n [] []
  | delivers_data g rows ms : msg_ok (MsgCopyData, tuple_bytes n g) → delivers n rows ms →
      delivers n (g ++ rows) ((MsgCopyData, tuple_bytes n g) :: ms)
  | delivers_trailer rows ms : delivers n rows ms → delivers n rows ((MsgCopyData, [xff; xff]) :: ms)
  | delivers_done b rows ms : msg_ok (MsgCopyDone, b) → delivers n rows ms → delivers n rows ((MsgCopyDone, b) :: ms)
  | delivers_quiet m rows ms : quiet m → delivers n rows ms → delivers n rows (m :: ms).

(** ** Lemmas *)

Lemma copyout_quiet m : quiet m → ∀ a c, copyout_step a m.1 m.2 c = (Ret (inl a), absorb c m).
Proof. intros [_ Hm] a c. destruct m as [t b]. cbn [fst snd] in *. by destruct Hm as [-> | ->]. Qed.
Lemma awaitCopyOutResponse_ok ms b rest : Forall quiet ms → msg_ok (MsgCopyOutResponse, b) →
  runs awaitCopyOutResponse (wire_of ms ++ frame MsgCopyOutResponse b ++ rest) (Ret tt) ms [] rest.
Proof.
  intros Hms Hb. apply (runs_messages copyout_step (λ a _, a)); [|done|done].
  eapply Forall_impl; [exact Hms|]. intros m Hm. split; [apply Hm|]. intros. by apply copyout_quiet.
Qed.

Lemma waitForReady_ok ms z rest : Forall not_ready ms → msg_ok (MsgReadyForQuery, z) →
  runs waitForReady (wire_of ms ++ frame MsgReadyForQuery z ++ rest) (Ret tt) ms [] rest.
Proof.
  intros Hms Hz. apply (runs_messages ready_step (λ a _, a)); [|done|done].
  eapply Forall_impl; [exact Hms|]. intros [t b] [Hm Ht]. split; [done|]. intros [] c. cbn [fst snd] in *.
  unfold ready_step, absorb. cbn [fst snd]. destruct (beq t MsgReadyForQuery) eqn:E1; [by apply beq_true in E1|].
  destruct (beq t MsgNoticeResponse) eqn:E2; [by apply beq_true in E2; subst t|].
  by destruct (beq t MsgParameterStatus).
Qed.

(** *** The reader *)

Lemma fieldHeader_null r rest : cr_err r = None → cr_body r = datum_wire None ++ rest →
  fieldHeader r = (Ret (0, true), cr_set_body rest r).
Proof.
  intros He Hb. unfold fieldHeader, has_err. rewrite He, Hb. cbn [datum_wire app].
  rewrite !Zlen_cons. pose proof (Zlen_nonneg rest). rewrite (proj2 (Z.ltb_ge _ _)) by lia.
  cbn [take drop]. rewrite drop_0. done.
Qed.
Lemma fieldHeader_data r p rest : cr_err r = None → cr_body r = datum_wire (Some p) ++ rest → Zlen p < 2 ^ 31 →
  fieldHeader r = (Ret (Zlen p, false), cr_set_body (p ++ rest) r).
Proof.
  intros He Hb Hp. pose proof (Zlen_nonneg p). pose proof (Zlen_nonneg rest).
  unfold fieldHeader, has_err. rewrite He, Hb. cbn [datum_wire]. rewrite <- app_assoc.
  rewrite take_app_len, drop_app_len by apply length_be_put. rewrite !Zlen_app.
  replace (Zlen (be_put 4 (Zlen p))) with 4 by (unfold Zlen; by rewrite length_be_put).
  rewrite (proj2 (Z.ltb_ge _ 4)) by lia. rewrite int32_get_put. unfold int32. rewrite wraps_small by lia.
  rewrite (proj2 (Z.eqb_neq _ _)) by lia. cbn [cr_set_body cr_body]. rewrite Zlen_app.
  rewrite (proj2 (Z.ltb_ge (Zlen p) 0)), (proj2 (Z.ltb_ge (Zlen p + Zlen rest) (Zlen p))) by lia. done.
Qed.

Section Typed.
Context {A : Type} (zero : A) (ok : Z → option gerror) (dec : bytes → A).
Lemma typed_null r rest : cr_err r = None → cr_body r = datum_wire None ++ rest →
  typed zero ok dec r = (Ret (zero, true), cr_set_body rest r).
Proof. intros He Hb. unfold typed. step (fieldHeader_null r rest He Hb). done. Qed.
Lemma typed_data r p rest : cr_err r = None → cr_body r = datum_wire (Some p) ++ rest → Zlen p < 2 ^ 31 →
  ok (Zlen p) = None → typed zero ok dec r = (Ret (dec p, false), cr_set_body rest r).
Proof.
  intros He Hb Hp Hok. unfold typed. step (fieldHeader_data r p rest He Hb Hp).
  unfold gets, mbind, prog_bind, has_err. cbn [cr_set_body cr_err cr_body fst snd]. rewrite He. cbn [orb]. rewrite Hok.
  unfold modify, mret, prog_ret. cbn [cr_set_body cr_err cr_body].
  unfold Zlen. rewrite Nat2Z.id, take_app_len, drop_app_len by done. done.
Qed.
End Typed.

Lemma boxed_ret {A} (f : A → cfield) m r x r' : m r = (Ret x, r') → boxed f m r = (Ret (if x.2 then CNull else f x.1), r').
Proof. intros E. unfold boxed. by step E. Qed.

Lemma Zlen_be_put n z : Zlen (be_put n z) = Z.of_nat n.
Proof. unfold Zlen. by rewrite length_be_put. Qed.

Lemma exactly_ok n w l : l = n → exactly n w l = None.
Proof. intros ->. unfold exactly. by rewrite Z.eqb_refl. Qed.

Lemma epochMicros_exact ns : - 2 ^ 63 <= ns < 2 ^ 63 → (1000 | ns) → int64 (int64 (epochMicros ns) * 1000) = ns.
Proof.
  intros Hr [q ->]. unfold epochMicros. rewrite Z.min_r, Z.max_r by lia. rewrite Z.quot_mul by lia.
  unfold int64. rewrite (wraps_small _ q) by lia. apply wraps_small; lia.
Qed.

Lemma rd_TimestampTime_data r p rest : cr_err r = None → cr_body r = datum_wire (Some p) ++ rest → Zlen p = 8 →
  rd_TimestampTime r = (Ret (Some (int64 (int64 (be_get p) * 1000)), false), cr_set_body rest r).
Proof.
  intros He Hb Hp. unfold rd_TimestampTime, rd_Timestamp.
  step (typed_data 0 (exactly 8 "pgz: CopyReader.Timestamp: expected 8 bytes") (λ b, int64 (be_get b)) r p rest He Hb
    ltac:(lia) (exactly_ok 8 _ _ Hp)).
  unfold gets, mbind, prog_bind, has_err. cbn [cr_set_body cr_err fst snd orb]. by rewrite He.
Qed.

(** Each typed reader undoes the writer's method of its type. *)
Lemma read_kind_ok k f r rest : fits_kind k f → cr_err r = None → cr_body r = datum_wire (field_data f) ++ rest →
  read_kind k r = (Ret f, cr_set_body rest r).
Proof.
  intros Hf He Hb. destruct f, k; cbn [fits_kind] in Hf; try done; cbn [read_kind field_data] in *;
    try (erewrite boxed_ret by (by apply typed_null); done);
    try (erewrite boxed_ret by (eapply typed_data; [done|exact Hb|rewrite ?Zlen_be_put; lia|by apply exactly_ok; rewrite ?Zlen_be_put]);
         cbn [fst snd]; rewrite ?int16_get_put, ?int32_get_put, ?int64_get_put, ?be_get_put_small by lia;
         unfold int16, int32, int64; rewrite ?wraps_small by lia; done);
    try (erewrite boxed_ret by (eapply typed_data; [done|exact Hb|done|done]); done).
  - erewrite boxed_ret by (unfold rd_TimestampTime, rd_Timestamp; step (typed_null 0 (exactly 8 "pgz: CopyReader.Timestamp: expected 8 bytes") (λ b, int64 (be_get b)) r rest He Hb); reflexivity).
    done.
  - by destruct v; (erewrite boxed_ret by (eapply typed_data; [done|exact Hb|done|done])).
  - erewrite boxed_ret by (eapply typed_data; [done|exact Hb|unfold Zlen; rewrite Hf; lia|apply exactly_ok; unfold Zlen; by rewrite Hf]). done.
  - destruct Hf as [Hr Hd]. erewrite boxed_ret by (apply rd_TimestampTime_data; [done|exact Hb|by rewrite Zlen_be_put]).
    cbn [fst snd]. rewrite be_get_put. unfold int64 at 2. change (256 ^ Z.of_nat 8) with (2 ^ 64). rewrite wraps_mod by lia.
    rewrite <- epochMicros_spec. fold (int64 (epochMicros ns)). by rewrite epochMicros_exact.
Qed.

Lemma read_kinds_ok ks row : Forall2 fits_kind ks row → ∀ r rest, cr_err r = None → cr_body r = fields_wire row ++ rest →
  read_kinds ks r = (Ret row, cr_set_body rest r).
Proof.
  induction 1 as [|k f ks row Hf Hr IH]; intros r rest He Hb; cbn [read_kinds].
  - cbn in Hb. unfold mret, prog_ret, cr_set_body. rewrite <- Hb. by destruct r.
  - unfold fields_wire in Hb. cbn [map concat] in Hb. rewrite <- app_assoc in Hb.
    step (read_kind_ok k f r _ Hf He Hb). by step (IH (cr_set_body (fields_wire row ++ rest) r) rest He eq_refl).
Qed.

Lemma handle_ok n ks row rest c h : Forall2 fits_kind ks row →
  handle (read_row ks) n (fields_wire row ++ rest) (c, h) = (Ret (None, mkCR n rest None), (c, h ++ [row])).
Proof.
  intros Hf. unfold handle, read_row. cbn [fst snd]. by rewrite (read_kinds_ok ks row Hf _ rest).
Qed.

Definition fits_kinds (ks : list kind) (n : Z) (row : list cfield) : Prop := Zlen row = n ∧ Forall2 fits_kind ks row.

Lemma tuple_header n : 0 < n < 2 ^ 15 → int16 (be_get (be_put 2 n)) = n.
Proof. intros Hn. rewrite int16_get_put. unfold int16. apply wraps_small; lia. Qed.

Lemma tuples_ok ks n c : 0 < n < 2 ^ 15 → ∀ g fuel rows h, Forall (fits_kinds ks n) g → (length g <= fuel)%nat →
  0 <= rows → rows + Zlen g < 2 ^ 63 →
  tuples (read_row ks) fuel n rows (tuple_bytes n g) (c, h) = (Ret (inl (rows + Zlen g)), (c, h ++ g)).
Proof.
  intros Hn g. induction g as [|row g IH]; intros fuel rows h Hg Hf Hr Hlt.
  - rewrite Zlen_nil, Z.add_0_r, app_nil_r. by destruct fuel.
  - apply Forall_cons in Hg as [[Hl Hk] Hg]. destruct fuel as [|fuel]; [cbn in Hf; lia|]. rewrite Zlen_cons in *.
    pose proof (Zlen_nonneg g).
    change (tuple_bytes n (row :: g)) with (tuple n row ++ tuple_bytes n g). unfold tuple. fold (fields_wire row).
    rewrite <- app_assoc. set (rest := fields_wire row ++ tuple_bytes n g).
    change (tuples (read_row ks) (S fuel) n rows (be_put 2 n ++ rest)) with
      (tuple_step (read_row ks) (tuples (read_row ks) fuel n) n rows (be_put 2 n ++ rest)).
    unfold tuple_step. rewrite (proj2 (Z.ltb_ge _ 2)) by (rewrite Zlen_app, Zlen_be_put; pose proof (Zlen_nonneg rest); lia).
    rewrite take_app_len, drop_app_len by apply length_be_put. cbv zeta. rewrite tuple_header by done.
    rewrite (proj2 (Z.eqb_neq n (-1))) by lia. rewrite Z.eqb_refl. cbn [negb].
    step (handle_ok n ks row (tuple_bytes n g) c h Hk). cbn [fst snd cr_err cr_body]. unfold int64 at 1. rewrite wraps_small by lia.
    replace (rows + (Zlen g + 1)) with (rows + 1 + Zlen g) by lia.
    replace (h ++ row :: g) with ((h ++ [row]) ++ g) by (by rewrite <- app_assoc).
    apply IH; [done|cbn in Hf; lia|lia|lia].
Qed.

Lemma tuple_bytes_length n g : (length g <= length (tuple_bytes n g))%nat.
Proof.
  induction g as [|row g IH]; [done|]. change (tuple_bytes n (row :: g)) with (tuple n row ++ tuple_bytes n g).
  rewrite length_app. unfold tuple. rewrite length_app, length_be_put. cbn [length]. lia.
Qed.

(** One message of the stream, once the header has been seen. *)
Lemma tobin_data ks n cnt g c h : 0 < n < 2 ^ 15 → Forall (fits_kinds ks n) g → 0 <= cnt → cnt + Zlen g < 2 ^ 63 →
  tobin_step (read_row ks) n (mkBin 19 true cnt) MsgCopyData (tuple_bytes n g) (c, h) =
    (Ret (inl (mkBin 19 true (cnt + Zlen g))), (c, h ++ g)).
Proof.
  intros Hn Hg Hc Hlt. unfold tobin_step. change (beq MsgCopyData MsgCopyData) with true. cbv zeta. cbn [headerSeen hdrCursor bin_rows].
  pose proof (tuple_bytes_length n g).
  by step (tuples_ok ks n c Hn g (S (length (tuple_bytes n g))) cnt h Hg ltac:(lia) Hc Hlt).
Qed.

Lemma tobin_quiet {H} (handler : prog (CopyReader * H) unit) n a m c h : quiet m →
  tobin_step handler n a m.1 m.2 (c, h) = (Ret (inl a), (absorb c m, h)).
Proof.
  intros [_ Hm]. destruct m as [t b]. cbn [fst snd] in *. destruct Hm as [-> | ->]; [done|].
  unfold tobin_step, absorb. cbn -[splitParameter]. unfold cl, zoom, on_parameter, mbind, prog_bind. cbn -[splitParameter].
  by destruct (splitParameter b).
Qed.

Lemma delivers_visits ks n rows ms : 0 < n < 2 ^ 15 → delivers n rows ms → ∀ cnt h, Forall (fits_kinds ks n) rows →
  0 <= cnt → cnt + Zlen rows < 2 ^ 63 →
  visits (tobin_step (read_row ks) n) (mkBin 19 true cnt) h ms (mkBin 19 true (cnt + Zlen rows)) (h ++ rows).
Proof.
  intros Hn Hd. induction Hd as [|g rows ms Hok Hd IH|rows ms Hd IH|b rows ms Hok Hd IH|m rows ms Hq Hd IH]; intros cnt h Hr Hc Hlt.
  - rewrite Zlen_nil, Z.add_0_r, app_nil_r. constructor.
  - apply Forall_app in Hr as [Hg Hr]. rewrite Zlen_app in *. pose proof (Zlen_nonneg g). pose proof (Zlen_nonneg rows).
    econstructor; [done| |].
    + intros c. cbn [fst snd]. apply (tobin_data ks n cnt g c h); [done|done|done|lia].
    + replace (cnt + (Zlen g + Zlen rows)) with (cnt + Zlen g + Zlen rows) by lia. rewrite app_assoc. apply IH; [done|lia|lia].
  - econstructor; [done| |by apply IH]. done.
  - econstructor; [done| |by apply IH]. done.
  - econstructor; [apply Hq| |by apply IH]. intros c. by apply tobin_quiet.
Qed.

Lemma copy_loop_ok {W A R} (stp : A → byte → bytes → prog (Client * W) (A + R)) onerr t b rest0 r w2 ms2 p rest a w ms a1 w1 :
  msg_ok (t, b) → visits stp a w ms a1 w1 → runsw (stp a1 t b) rest0 w1 (ending r) w2 ms2 p rest →
  runsw (copy_loop stp onerr a) (wire_of ms ++ frame t b ++ rest0) w r w2 (ms ++ ms2) p rest.
Proof.
  intros Hb Hv He c Hh Hi. unfold copy_loop. apply (runsw_loop stp onerr t b rest0 r w2 ms2 p rest Hb a w ms a1 w1 Hv He); try done.
  unfold rounds. cbn [fst]. rewrite Hi, length_app. pose proof (length_wire_of ms). lia.
Qed.

Lemma tobin_header ks n g c h : 0 < n < 2 ^ 15 → Forall (fits_kinds ks n) g → Zlen g < 2 ^ 63 →
  tobin_step (read_row ks) n (mkBin 0 false 0) MsgCopyData (pgcopy_header ++ tuple_bytes n g) (c, h) =
    (Ret (inl (mkBin 19 true (Zlen g))), (c, h ++ g)).
Proof.
  intros Hn Hg Hl. exact (tobin_data ks n 0 g c h Hn Hg ltac:(lia) ltac:(lia)).
Qed.

(** C19. What COPY sends in the binary format comes back: for rows
    whose fields fit their columns' types, written by the CopyWriter's methods
    and split by the server into CopyData messages of whole tuples, a handler
    that reads each column with the CopyReader's method of its type gets every
    row once, in order and field by field, NULLs included; CopyToBinary counts
    them, reports no error, and leaves the reply fully consumed. *)
Theorem copy_binary_roundtrip ks n sql pre b g rows ms tag post z rest h :
  0 < n < 2 ^ 15 → Forall (fits_kinds ks n) (g ++ rows) → Zlen (g ++ rows) < 2 ^ 63 → delivers n rows ms →
  Forall quiet pre → Forall not_ready post → msg_ok (MsgCopyOutResponse, b) →
  msg_ok (MsgCopyData, pgcopy_header ++ tuple_bytes n g) → msg_ok (MsgCommandComplete, tag) → msg_ok (MsgReadyForQuery, z) →
  runsw (copyToBinary (read_row ks) sql n)
    (wire_of pre ++ frame MsgCopyOutResponse b ++ wire_of ((MsgCopyData, pgcopy_header ++ tuple_bytes n g) :: ms) ++
     frame MsgCommandComplete tag ++ wire_of post ++ frame MsgReadyForQuery z ++ rest)
    h (Ret (Zlen (g ++ rows), None)) (h ++ g ++ rows)
    (pre ++ ((MsgCopyData, pgcopy_header ++ tuple_bytes n g) :: ms) ++ post) (frame MsgQuery (sql ++ [x00])) rest.
Proof.
  intros Hn Hr Hl Hd Hpre Hpost Hb Hh Ht Hz. apply Forall_app in Hr as [Hg Hr]. rewrite Zlen_app in *.
  pose proof (Zlen_nonneg g). pose proof (Zlen_nonneg rows).
  assert (visits (tobin_step (read_row ks) n) (mkBin 0 false 0) h ((MsgCopyData, pgcopy_header ++ tuple_bytes n g) :: ms)
    (mkBin 19 true (Zlen g + Zlen rows)) (h ++ g ++ rows)) as Hv.
  { econstructor; [done|intros c; apply (tobin_header ks n g c h Hn Hg); lia|]. rewrite app_assoc.
    apply delivers_visits; [done..|lia]. }
  unfold copyToBinary. talkw; [eapply runsw_check; [apply runsw_cl, runs_send, writes_bCString|]| |].
  - eapply runsw_check; [apply runsw_cl; by apply awaitCopyOutResponse_ok|].
    eapply copy_loop_ok; [exact Ht|exact Hv|]. unfold tobin_step.
    change (beq MsgCommandComplete MsgCopyData) with false. change (beq MsgCommandComplete MsgCopyDone) with false.
    change (beq MsgCommandComplete MsgCommandComplete) with true. cbv zeta iota.
    eapply runsw_check; [apply runsw_cl; by apply waitForReady_ok|]. apply runsw_ret.
  - pieces.
  - pieces.
Qed.

Lemma copyto_visits ms : Forall out_msg ms → ∀ n w, accepts w = None → 0 <= n → n + Zlen (payloads ms) < 2 ^ 63 →
  visits copyto_step n w ms (n + Zlen (payloads ms)) (mkSink (got w ++ payloads ms) None).
Proof.
  induction 1 as [|m ms [Hok Hm] _ IH]; intros n [w ac] Ha Hn Hlt; cbn [accepts got] in *; subst ac.
  - change (payloads []) with (@nil byte). rewrite Zlen_nil, Z.add_0_r, app_nil_r. constructor.
  - change (payloads (m :: ms)) with (payload_of m ++ payloads ms) in *. rewrite Zlen_app in *.
    pose proof (Zlen_nonneg (payload_of m)). pose proof (Zlen_nonneg (payloads ms)).
    apply (visits_cons _ _ _ _ (n + Zlen (payload_of m)) (mkSink (w ++ payload_of m) None)); [done| |].
    + intros c. destruct m as [t b]. cbn [fst snd] in *.
      destruct Hm as [-> |[-> |[-> | ->]]]; unfold payload_of in *; cbn [fst snd] in *.
      * change (beq MsgCopyData MsgCopyData) with true in *. cbv iota in *. unfold copyto_step.
        change (beq MsgCopyData MsgCopyData) with true. cbv iota.
        unfold mbind, prog_bind, ow, zoom, sink_Write, sink_write. cbn [fst snd accepts got].
        rewrite Zlen_app. replace (Zlen w + Zlen b - Zlen w) with (Zlen b) by lia. unfold int64. rewrite wraps_small by lia. done.
      * change (Zlen (if beq MsgCopyDone MsgCopyData then b else [])) with 0. rewrite Z.add_0_r.
        change (if beq MsgCopyDone MsgCopyData then b else []) with (@nil byte). by rewrite app_nil_r.
      * change (Zlen (if beq MsgNoticeResponse MsgCopyData then b else [])) with 0. rewrite Z.add_0_r.
        change (if beq MsgNoticeResponse MsgCopyData then b else []) with (@nil byte). by rewrite app_nil_r.
      * change (Zlen (if beq MsgParameterStatus MsgCopyData then b else [])) with 0. rewrite Z.add_0_r.
        change (if beq MsgParameterStatus MsgCopyData then b else []) with (@nil byte). rewrite app_nil_r.
        unfold copyto_step, absorb. cbn -[splitParameter]. unfold cl, zoom, on_parameter, mbind, prog_bind. cbn -[splitParameter].
        by destruct (splitParameter b).
    + rewrite Z.add_assoc, app_assoc. by apply (IH (n + Zlen (payload_of m)) (mkSink (w ++ payload_of m) None)); [|lia|lia].
Qed.

(** CopyTo into a writer that does not fail: exactly the
    CopyData payloads reach it, in order; the call returns the count of the
    command tag and the number of bytes delivered, and consumes the reply
    through ReadyForQuery. *)
Theorem copyTo_exact sql pre b ms tag post z rest w :
  accepts w = None → Forall quiet pre → Forall out_msg ms → Forall not_ready post → Zlen (payloads ms) < 2 ^ 63 → tag ≠ [] →
  msg_ok (MsgCopyOutResponse, b) → msg_ok (MsgCommandComplete, tag) → msg_ok (MsgReadyForQuery, z) →
  runsw (copyTo sql)
    (wire_of pre ++ frame MsgCopyOutResponse b ++ wire_of ms ++ frame MsgCommandComplete tag ++ wire_of post ++
     frame MsgReadyForQuery z ++ rest)
    w (Ret (parseRowsAffected (removelast tag), Zlen (payloads ms), None)) (mkSink (got w ++ payloads ms) None)
    (pre ++ ms ++ post) (frame MsgQuery (sql ++ [x00])) rest.
Proof.
  intros Ha Hpre Hms Hpost Hl Htag Hb Ht Hz.
  pose proof (copyto_visits ms Hms 0 w Ha ltac:(lia) Hl) as Hv. rewrite Z.add_0_l in Hv.
  unfold copyTo. talkw; [eapply runsw_check; [apply runsw_cl, runs_send, writes_bCString|]| |].
  - eapply runsw_check; [apply runsw_cl; by apply awaitCopyOutResponse_ok|].
    eapply copy_loop_ok; [exact Ht|exact Hv|]. unfold copyto_step.
    change (beq MsgCommandComplete MsgCopyData) with false. change (beq MsgCommandComplete MsgCopyDone) with false.
    change (beq MsgCommandComplete MsgCommandComplete) with true. cbv iota. destruct tag as [|t0 tag]; [done|]. cbn [tag_of].
    eapply (runsw_bind _ _ _ _ _ _ [] []); [apply runsw_ret|]. cbv zeta.
    eapply runsw_check; [apply runsw_cl; by apply waitForReady_ok|]. apply runsw_ret.
  - pieces.
  - pieces.
Qed.

(** A tuple of the wrong width is reported where it is found: nothing more of
    the reply is read, so the connection is left in the middle of the COPY. *)
Lemma wrong_width_undrained {H} (handler : prog (CopyReader * H) unit) n m rows body s :
  - 2 ^ 15 <= m < 2 ^ 15 → m ≠ -1 → m ≠ n →
  tobin_step handler n (mkBin 19 true rows) MsgCopyData (be_put 2 m ++ body) s =
    (Ret (inr (rows, Some (EFmt "pgz: CopyToBinary: server tuple has fields, expected" [m; n]))), s).
Proof.
  intros Hm H1 Hn. unfold tobin_step. change (beq MsgCopyData MsgCopyData) with true. cbv zeta. cbn [headerSeen hdrCursor bin_rows].
  assert (tuples handler (S (length (be_put 2 m ++ body))) n rows (be_put 2 m ++ body) s =
    (Ret (inr (rows, Some (EFmt "pgz: CopyToBinary: server tuple has fields, expected" [m; n]))), s)) as E.
  { change (tuples handler (S (length (be_put 2 m ++ body))) n rows (be_put 2 m ++ body)) with
      (tuple_step handler (tuples handler (length (be_put 2 m ++ body)) n) n rows (be_put 2 m ++ body)).
    unfold tuple_step. rewrite (proj2 (Z.ltb_ge _ 2)) by (rewrite Zlen_app, Zlen_be_put; pose proof (Zlen_nonneg body); lia).
    rewrite take_app_len, drop_app_len by apply length_be_put. cbv zeta. rewrite int16_get_put. unfold int16. rewrite wraps_small by lia.
    rewrite (proj2 (Z.eqb_neq _ _) H1), (proj2 (Z.eqb_neq _ _) Hn). done. }
  by step E.
Qed.

(** ** Witnesses *)

Definition ex_rows : list (list cfield) := [[CInt4 7; CText (str "ab")]; [CNull; CText []]; [CInt4 (-1); CNull]].
Definition ex_kinds : list kind := [KInt4; KText].

Lemma copy_binary_roundtrip_witness :
  runsw (copyToBinary (read_row ex_kinds) (str "COPY t TO STDOUT (FORMAT binary)") 2)
    (wire_of [] ++ frame MsgCopyOutResponse ex_cpin ++
     wire_of ((MsgCopyData, pgcopy_header ++ tuple_bytes 2 (take 1 ex_rows)) ::
       [(MsgCopyData, tuple_bytes 2 (drop 1 ex_rows)); (MsgCopyData, [xff; xff]); (MsgCopyDone, [])]) ++
     frame MsgCommandComplete (str "COPY 3" ++ [x00]) ++ wire_of [] ++ frame MsgReadyForQuery (str "I") ++ str "next")
    [] (Ret (3, None)) ex_rows
    ([] ++ ((MsgCopyData, pgcopy_header ++ tuple_bytes 2 (take 1 ex_rows)) ::
       [(MsgCopyData, tuple_bytes 2 (drop 1 ex_rows)); (MsgCopyData, [xff; xff]); (MsgCopyDone, [])]) ++ [])
    (frame MsgQuery (str "COPY t TO STDOUT (FORMAT binary)" ++ [x00])) (str "next").
Proof.
  apply (copy_binary_roundtrip ex_kinds 2 (str "COPY t TO STDOUT (FORMAT binary)") [] ex_cpin (take 1 ex_rows) (drop 1 ex_rows)
    [(MsgCopyData, tuple_bytes 2 (drop 1 ex_rows)); (MsgCopyData, [xff; xff]); (MsgCopyDone, [])]
    (str "COPY 3" ++ [x00]) [] (str "I") (str "next") []).
  - lia.
  - repeat constructor; cbn; lia.
  - reflexivity.
  - apply (delivers_data 2 (drop 1 ex_rows) []); [done|]. apply delivers_trailer, delivers_done; [done|constructor].
  - constructor.
  - constructor.
  - done.
  - done.
  - done.
  - done.
Defined.

Lemma copyTo_exact_witness :
  runsw (copyTo ex_sql)
    (wire_of [] ++ frame MsgCopyOutResponse ex_cpin ++
     wire_of [(MsgCopyData, str "1,a"); (MsgNoticeResponse, [x00]); (MsgCopyData, str "2,b"); (MsgCopyDone, [])] ++
     frame MsgCommandComplete (str "COPY 2" ++ [x00]) ++ wire_of [] ++ frame MsgReadyForQuery (str "I") ++ [])
    (mkSink (str ">") None) (Ret (2, 6, None)) (mkSink (str ">1,a2,b") None)
    ([] ++ [(MsgCopyData, str "1,a"); (MsgNoticeResponse, [x00]); (MsgCopyData, str "2,b"); (MsgCopyDone, [])] ++ [])
    (frame MsgQuery (ex_sql ++ [x00])) [].
Proof.
  apply (copyTo_exact ex_sql [] ex_cpin
    [(MsgCopyData, str "1,a"); (MsgNoticeResponse, [x00]); (MsgCopyData, str "2,b"); (MsgCopyDone, [])]
    (str "COPY 2" ++ [x00]) [] (str "I") [] (mkSink (str ">") None)).
  - done.
  - constructor.
  - repeat (apply Forall_cons; split; [split; [done|cbn; auto]|]). constructor.
  - constructor.
  - done.
  - done.
  - done.
  - done.
  - done.
Defined.
