(* ===== verification/Scan.v ===== *)
(** pgz/scan.go, the part about types: how a struct type and a row plan become
    one setter per column, and how a DataRow is decoded through them.  A Go
    type is a value of [gotype], as reflect presents it; memory is a [goval],
    and a field's offset is a path into it.  A setter takes what the field
    holds and the cell, and gives what it holds afterwards, so that writing
    through an unsafe pointer is an update whose type the theorems check.  The
    Scan methods of the caller's types and strings.ToLower are parameters. *)
From S2P Require Import Prelude Protocol JsonWriter Float Errors Effects Rows Args.

(** ** Types and values *)

Inductive null_kind := NullString | NullInt16 | NullInt32 | NullInt64 | NullFloat64 | NullBool | NullTime | NullByte.

(** A struct field: its name, its pgz tag, whether it is embedded, exported. *)
Record gofield := mkField { gf_name : bytes; gf_tag : option bytes; gf_anon : bool; gf_exported : bool }.

(** [TScanner id t] is a defined type with underlying type [t] whose pointer
    implements sql.Scanner; [TOther] stands for kinds no setter knows. *)
Inductive gotype :=
| TBool | TInt (k : int_kind) | TFloat32 | TFloat64 | TString
| TTime | TNull (n : null_kind) | TRangeBytes
| TSlice (t : gotype) | TArray (n : nat) (t : gotype) | TPtr (t : gotype)
| TStruct (fs : list (gofield * gotype))
| TScanner (id : nat) (t : gotype)
| TOther.

(** A time.Time is its Unix seconds and nanoseconds, in UTC; a nil slice is
    [None]; slices and arrays of bytes are byte strings.  An integer has the
    size in bytes of the memory it is written to, since the code writes through
    unsafe pointers: storing [v] through a pointer cast to int64 where the field
    is an int32 is [GInt 8 v], which is no int32. *)
Inductive goval :=
| GBool (b : bool) | GInt (size z : Z) | GFloat32 (bits : Z) | GFloat64 (bits : Z) | GString (s : bytes)
| GTime (sec nsec : Z)
| GBytes (b : option bytes) | GByteArray (b : bytes)
| GSlice (l : option (list goval)) | GArray (l : list goval) | GPtr (v : option goval)
| GStruct (l : list goval)
| GOther.

(** The type reflect.Kind looks at. *)
Fixpoint under (t : gotype) : gotype := match t with TScanner _ t => under t | t => t end.
Definition is_byte (t : gotype) : bool := match under t with TInt KUint8 => true | _ => false end.
Definition is_byte_slice (t : gotype) : bool := match under t with TSlice e => is_byte e | _ => false end.

Definition null_base (n : null_kind) : gotype :=
  match n with
  | NullString => TString | NullInt16 => TInt KInt16 | NullInt32 => TInt KInt32 | NullInt64 => TInt KInt64
  | NullFloat64 => TFloat64 | NullBool => TBool | NullTime => TTime | NullByte => TInt KUint8
  end.
Definition null_name (n : null_kind) : bytes :=
  match n with
  | NullString => str "String" | NullInt16 => str "Int16" | NullInt32 => str "Int32" | NullInt64 => str "Int64"
  | NullFloat64 => str "Float64" | NullBool => str "Bool" | NullTime => str "Time" | NullByte => str "Byte"
  end.
Definition plain (name : bytes) : gofield := mkField name None false true.
(** [struct { String string; Valid bool }] and its kin; and RangeBytes. *)
Definition null_fields (n : null_kind) : list (gofield * gotype) :=
  [(plain (null_name n), null_base n); (plain (str "Valid"), TBool)].
Definition range_fields : list (gofield * gotype) :=
  [(plain (str "Flags"), TInt KUint8); (plain (str "Lower"), TSlice (TInt KUint8)); (plain (str "Upper"), TSlice (TInt KUint8));
   (plain (str "Empty"), TBool); (plain (str "LowerInclusive"), TBool); (plain (str "UpperInclusive"), TBool);
   (plain (str "LowerInfinite"), TBool); (plain (str "UpperInfinite"), TBool)].

(** The value a Go integer type keeps of an int64; int and uint have 64 bits. *)
Definition wrap_kind (k : int_kind) (v : Z) : Z :=
  match k with
  | KInt | KInt64 => int64 v | KInt8 => wraps 8 v | KInt16 => int16 v | KInt32 => int32 v
  | KUint | KUint64 => u64 v | KUint8 => wrapu 8 v | KUint16 => u16 v | KUint32 => u32 v
  end.

Definition kind_size (k : int_kind) : Z :=
  match k with
  | KInt8 | KUint8 => 1 | KInt16 | KUint16 => 2 | KInt32 | KUint32 => 4 | KInt | KInt64 | KUint | KUint64 => 8
  end.

(** Zero values and membership, for the types without structure first. *)
Definition zero_flat (t : gotype) : goval :=
  match t with
  | TBool => GBool false | TInt k => GInt (kind_size k) 0 | TFloat32 => GFloat32 0 | TFloat64 => GFloat64 0 | TString => GString []
  | TTime => GTime (-62135596800) 0
  | TRangeBytes => GStruct [GInt 1 0; GBytes None; GBytes None; GBool false; GBool false; GBool false; GBool false; GBool false]
  | _ => GOther
  end.
Fixpoint zero (t : gotype) : goval :=
  match t with
  | TNull n => GStruct [zero_flat (null_base n); GBool false]
  | TSlice t => if is_byte t then GBytes None else GSlice None
  | TArray n t => if is_byte t then GByteArray (repeat x00 n) else GArray (repeat (zero t) n)
  | TPtr _ => GPtr None
  | TStruct fs => GStruct (map (λ f, zero f.2) fs)
  | TScanner _ t => zero t
  | t => zero_flat t
  end.

Definition has_flat (t : gotype) (v : goval) : Prop :=
  match t, v with
  | TBool, GBool _ => True
  | TInt k, GInt n z => n = kind_size k ∧ wrap_kind k z = z
  | TFloat32, GFloat32 _ | TFloat64, GFloat64 _ => True
  | TString, GString _ => True
  | TTime, GTime _ n => 0 <= n < 1000000000
  | TRangeBytes, GStruct [GInt n f; GBytes _; GBytes _; GBool _; GBool _; GBool _; GBool _; GBool _] => n = 1 ∧ wrap_kind KUint8 f = f
  | TOther, GOther => True
  | _, _ => False
  end.
(** [v] is a value of type [t]. *)
Fixpoint has_type (t : gotype) (v : goval) {struct t} : Prop :=
  match t, v with
  | TNull n, GStruct [x; GBool _] => has_flat (null_base n) x
  | TSlice t, GBytes _ => is_byte t = true
  | TSlice t, GSlice l => is_byte t = false ∧ match l with None => True | Some l => Forall (has_type t) l end
  | TArray n t, GByteArray b => is_byte t = true ∧ length b = n
  | TArray n t, GArray l => is_byte t = false ∧ length l = n ∧ Forall (has_type t) l
  | TPtr t, GPtr o => match o with None => True | Some v => has_type t v end
  | TStruct fs, GStruct l =>
      (fix go fs l := match fs, l with
                      | [], [] => True
                      | (_, t) :: fs, v :: l => has_type t v ∧ go fs l
                      | _, _ => False
                      end) fs l
  | TScanner _ t, v => has_type t v
  | t, v => has_flat t v
  end.

(** What Scan is given. *)
Inductive dvalue := DNil | DInt (z : Z) | DFloat (bits : Z) | DBool (b : bool) | DBytes (b : bytes) | DString (s : bytes) | DTime (sec nsec : Z).

(** ** Setters *)

Definition setter : Type := goval → option bytes → res goval.

Definition be_int (width : Z) (raw : bytes) : Z :=
  if width =? 2 then int16 (be_get raw) else if width =? 4 then int32 (be_get raw) else int64 (be_get raw).

Definition intSetter (k : int_kind) (width : Z) : setter := λ old raw,
  match raw with
  | None => Ret old
  | Some raw =>
      if negb (Zlen raw =? width) then Err (EFmt "pgz: expected bytes, got" [width; Zlen raw])
      else Ret (GInt (kind_size k) (wrap_kind k (be_int width raw)))
  end.

Definition stringSetter : setter := λ old raw, Ret (GString (default [] raw)).

Definition strip_version (body : bytes) : bytes := match body with x01 :: body => body | _ => body end.
Definition byteSliceSetter (stripVersion : bool) : setter := λ old raw,
  match raw with
  | None => Ret (GBytes None)
  | Some raw => Ret (GBytes (Some (if stripVersion then strip_version raw else raw)))
  end.
Definition jsonbStringSetter : setter := λ old raw, Ret (GString (match raw with None => [] | Some raw => strip_version raw end)).

Definition hex_byte (c : byte) : bytes := [hexdig (Z.shiftr (byteZ c) 4); hexdig (Z.land (byteZ c) 15)].
Definition emit_hex (l : bytes) : bytes := concat (map hex_byte l).
Definition uuidStringSetter : setter := λ old raw,
  match raw with
  | None => Ret (GString [])
  | Some raw =>
      if negb (Zlen raw =? 16) then Err (EFmt "pgz: uuid expected 16 bytes, got" [Zlen raw])
      else Ret (GString (emit_hex (slice 0 4 raw) ++ ["-"%byte] ++ emit_hex (slice 4 6 raw) ++ ["-"%byte] ++ emit_hex (slice 6 8 raw) ++
                         ["-"%byte] ++ emit_hex (slice 8 10 raw) ++ ["-"%byte] ++ emit_hex (slice 10 16 raw)))
  end.

Definition pgEpochUnixSec : Z := 946684800.
(** The int64 sums stay in range for every int64. *)
Definition pgUsecToTime (usec : Z) : goval :=
  let sec := pgEpochUnixSec + usec ÷ 1000000 in
  let nsec := Z.rem usec 1000000 * 1000 in
  if nsec <? 0 then GTime (sec - 1) (nsec + 1000000000) else GTime sec nsec.

(** The setters pickBinarySetter writes out: a cell that is NULL or not of the
    right length leaves the field alone, or false. *)
Definition boolSetter : setter := λ old raw,
  Ret (GBool (match raw with Some [c] => negb (beq c x00) | _ => false end)).
Definition sized (n : Z) (dec : bytes → option goval) : setter := λ old raw,
  match raw with
  | Some raw => Ret (if negb (Zlen raw =? n) then old else default old (dec raw))
  | None => Ret old
  end.
Definition float4Setter (to32 : bool) : setter :=
  sized 4 (λ raw, Some (if to32 then GFloat32 (be_get raw) else GFloat64 (convert f32 f64 (be_get raw)))).
Definition float8Setter : setter := sized 8 (λ raw, Some (GFloat64 (be_get raw))).
Definition uuidArraySetter : setter := sized 16 (λ raw, Some (GByteArray raw)).
Definition dateSetter : setter := sized 4 (λ raw,
  let days := int32 (be_get raw) in
  if (days =? 2 ^ 31 - 1) || (days =? - 2 ^ 31) then None else Some (pgUsecToTime (days * 86400000000))).
Definition timestampSetter : setter := sized 8 (λ raw,
  let usec := int64 (be_get raw) in
  if (usec =? 2 ^ 63 - 1) || (usec =? - 2 ^ 63) then None else Some (pgUsecToTime usec)).

Definition no_setter (what : string) (oid : OID) : gerror + setter := inl (EFmt what [oid]).

Definition pickBinarySetter (oid : OID) (t : gotype) : gerror + setter :=
  let fail := no_setter "no binary setter for OID into type" oid in
  if oid =? OIDBool then match under t with TBool => inr boolSetter | _ => fail end
  else if oid =? OIDInt2 then match under t with TInt k => inr (intSetter k 2) | _ => fail end
  else if oid_in oid [OIDInt4; OIDOID] then match under t with TInt k => inr (intSetter k 4) | _ => fail end
  else if oid =? OIDInt8 then match under t with TInt k => inr (intSetter k 8) | _ => fail end
  else if oid =? OIDFloat4 then
    match under t with TFloat32 => inr (float4Setter true) | TFloat64 => inr (float4Setter false) | _ => fail end
  else if oid =? OIDFloat8 then match under t with TFloat64 => inr float8Setter | _ => fail end
  else if oid_in oid [OIDText; OIDVarchar; OIDBPChar; OIDName] then
    match under t with TString => inr stringSetter | _ => if is_byte_slice t then inr (byteSliceSetter false) else fail end
  else if oid =? OIDUUID then
    match under t with
    | TString => inr uuidStringSetter
    | TArray n e => if is_byte e && (n =? 16)%nat then inr uuidArraySetter else fail
    | _ => fail
    end
  else if oid =? OIDBytea then if is_byte_slice t then inr (byteSliceSetter false) else fail
  else if oid =? OIDJSON then
    if is_byte_slice t then inr (byteSliceSetter false) else match under t with TString => inr stringSetter | _ => fail end
  else if oid =? OIDJSONB then
    if is_byte_slice t then inr (byteSliceSetter true) else match under t with TString => inr jsonbStringSetter | _ => fail end
  else if oid =? OIDDate then match t with TTime => inr dateSetter | _ => fail end
  else if oid_in oid [OIDTimestamp; OIDTimestampTZ] then match t with TTime => inr timestampSetter | _ => fail end
  else fail.

Definition pickTextSetter (oid : OID) (t : gotype) : gerror + setter :=
  match under t with
  | TString => inr stringSetter
  | _ => if is_byte_slice t then inr (byteSliceSetter false) else no_setter "no text setter for OID into type" oid
  end.

(** The end of pickSetter: a plain value by OID and format. *)
Definition pickPlain (oid : OID) (fmt : Z) (t : gotype) : gerror + setter :=
  if fmt =? 1 then pickBinarySetter oid t else pickTextSetter oid t.

(** *** sql.Null types, Scanner, RangeBytes *)

Definition nullSetterWrap (inner : setter) : setter := λ old raw,
  match old with
  | GStruct [x; GBool _] =>
      match raw with
      | None => Ret (GStruct [x; GBool false])
      | Some _ =>
          match inner x raw with
          | Ret x => Ret (GStruct [x; GBool true])
          | Err e => Err e
          | Panic => Panic
          | Stuck => Stuck
          end
      end
  | _ => Stuck             (* not the memory of a sql.Null type *)
  end.

(** [binary.BigEndian.UintN] panics on fewer bytes and reads the first ones. *)
Definition be_first (n : nat) (raw : bytes) (f : Z → dvalue) : res dvalue :=
  if (length raw <? n)%nat then Panic else Ret (f (be_get (take n raw))).
Definition dtime (v : goval) : dvalue := match v with GTime s n => DTime s n | _ => DNil end.

Definition scannerDecoderFor (oid : OID) (fmt : Z) (raw : bytes) : res dvalue :=
  if fmt =? 1 then
    if oid =? OIDBool then Ret (DBool (match raw with [c] => negb (beq c x00) | _ => false end))
    else if oid =? OIDInt2 then be_first 2 raw (λ u, DInt (int16 u))
    else if oid_in oid [OIDInt4; OIDOID] then be_first 4 raw (λ u, DInt (int32 u))
    else if oid =? OIDInt8 then be_first 8 raw (λ u, DInt (int64 u))
    else if oid =? OIDFloat4 then be_first 4 raw (λ u, DFloat (convert f32 f64 u))
    else if oid =? OIDFloat8 then be_first 8 raw DFloat
    else if oid_in oid [OIDText; OIDVarchar; OIDBPChar; OIDName] then Ret (DString raw)
    else if oid_in oid [OIDTimestamp; OIDTimestampTZ] then
      Ret (if negb (Zlen raw =? 8) then DBytes raw else dtime (pgUsecToTime (int64 (be_get raw))))
    else if oid =? OIDDate then
      Ret (if negb (Zlen raw =? 4) then DBytes raw else dtime (pgUsecToTime (int32 (be_get raw) * 86400000000)))
    else if oid =? OIDJSONB then Ret (DBytes (strip_version raw))
    else Ret (DBytes raw)
  else Ret (DBytes raw).
Definition DriverValueDecoder (oid : Z) (fmt : Z) : bytes → res dvalue := scannerDecoderFor oid fmt.

Definition truncated (what : string) : res goval := Err (EFmt what []).

(** One bound: its length, its bytes. *)
Definition range_bound (short bad : string) (body : bytes) : gerror + (bytes * bytes) :=
  if Zlen body <? 4 then inl (EFmt short [])
  else
    let l := int32 (be_get (take 4 body)) in
    let body := drop 4 body in
    if (l <? 0) || (Zlen body <? l) then inl (EFmt bad [l])
    else inr (take (Z.to_nat l) body, drop (Z.to_nat l) body).

Definition rangeSetter : setter := λ old raw,
  match raw with
  | None => Ret (zero TRangeBytes)
  | Some [] => truncated "pgz: range wire body empty"
  | Some (flags :: body) =>
      let bit n := Z.testbit (byteZ flags) n in
      let rb lower upper := GStruct [GInt 1 (byteZ flags); GBytes lower; GBytes upper; GBool (bit 0); GBool (bit 1);
                                     GBool (bit 2); GBool (bit 3); GBool (bit 4)] in
      if bit 0 then Ret (rb None None)
      else
        match (if bit 3 then inr (None, body)
               else match range_bound "pgz: range lower header truncated" "pgz: bad range lower length" body with
                    | inl e => inl e | inr (b, rest) => inr (Some b, rest) end) with
        | inl e => Err e
        | inr (lower, body) =>
            match (if bit 4 then inr None
                   else match range_bound "pgz: range upper header truncated" "pgz: bad range upper length" body with
                        | inl e => inl e | inr (b, _) => inr (Some b) end) with
            | inl e => Err e
            | inr upper => Ret (rb lower upper)
            end
        end
  end.

Definition wrap_err (tag : string) (r : res goval) : res goval := match r with Err e => Err (EWrapped tag e) | r => r end.

(** *** Composites *)

(** A composite's fields: their index in the struct and their setter by OID. *)
Definition comp_fields : Type := list (nat * (OID → gerror + setter)).

Definition store (v : goval) (i : nat) (x : goval) : goval :=
  match v with GStruct l => GStruct (<[i := x]> l) | v => v end.
Definition fetch (v : goval) (i : nat) : goval := match v with GStruct l => nth i l GOther | _ => GOther end.

(** [for i := 0; i < ncols; i++]: every round consumes eight bytes at least. *)
Fixpoint comp_loop (fuel : nat) (ncols : Z) (fs : comp_fields) (v : goval) (raw : bytes) : res goval :=
  if ncols <=? 0 then Ret v
  else
    match fuel with
    | O => Stuck
    | S fuel =>
        if Zlen raw <? 8 then truncated "pgz: composite field header truncated"
        else
          let oid := be_get (slice 0 4 raw) in
          let l := int32 (be_get (slice 4 8 raw)) in
          let raw := drop 8 raw in
          match (if l =? -1 then inr (None, raw)
                 else if (l <? 0) || (Zlen raw <? l) then inl (EFmt "pgz: bad composite field length" [l])
                 else inr (Some (take (Z.to_nat l) raw), drop (Z.to_nat l) raw)) with
          | inl e => Err e
          | inr (cell, raw) =>
              match fs with
              | [] => comp_loop fuel (ncols - 1) [] v raw
              | (i, pick) :: fs =>
                  match pick oid with
                  | inl e => Err (EWrapped "pgz: composite field" e)
                  | inr set =>
                      match set (fetch v i) cell with
                      | Ret x => comp_loop fuel (ncols - 1) fs (store v i x) raw
                      | r => wrap_err "pgz: composite field" r
                      end
                  end
              end
          end
    end.
Definition compositeSetter (t : gotype) (fs : comp_fields) : setter := λ old raw,
  match raw with
  | None => Ret (zero t)
  | Some raw =>
      if Zlen raw <? 4 then truncated "pgz: composite header truncated"
      else
        let ncols := int32 (be_get (take 4 raw)) in
        if ncols <? 0 then Err (EFmt "pgz: negative composite ncols" [ncols])
        else comp_loop (length raw) ncols fs old (drop 4 raw)
  end.

(** *** Arrays *)

Definition readArrayElem (raw : bytes) (idx : Z) : gerror + (option bytes * bytes) :=
  if Zlen raw <? 4 then inl (EFmt "pgz: array elem header truncated" [idx])
  else
    let el := int32 (be_get (take 4 raw)) in
    let raw := drop 4 raw in
    if el =? -1 then inr (None, raw)
    else if (el <? 0) || (Zlen raw <? el) then inl (EFmt "pgz: bad array elem length" [el; idx])
    else inr (Some (take (Z.to_nat el) raw), drop (Z.to_nat el) raw).

(** [n] elements from index [idx], each into a fresh zero value. *)
Fixpoint read_elems (tag : string) (n : nat) (elem : setter) (z : goval) (idx : Z) (raw : bytes) : res (list goval * bytes) :=
  match n with
  | O => Ret ([], raw)
  | S n =>
      match readArrayElem raw idx with
      | inl e => Err e
      | inr (cell, raw) =>
          match elem z cell with
          | Ret v =>
              match read_elems tag n elem z (int32 (idx + 1)) raw with
              | Ret (l, raw) => Ret (v :: l, raw)
              | r => r
              end
          | Err e => Err (EWrapped tag e)
          | Panic => Panic
          | Stuck => Stuck
          end
      end
  end.
Fixpoint read_rows (n : nat) (inner : Z) (elem : setter) (z : goval) (i : Z) (raw : bytes) : res (list goval) :=
  match n with
  | O => Ret []
  | S n =>
      match read_elems "pgz: 2D element" (Z.to_nat inner) elem z (int32 (i * inner)) raw with
      | Ret (l, raw) =>
          match read_rows n inner elem z (i + 1) raw with
          | Ret ls => Ret (GSlice (Some l) :: ls)
          | r => r
          end
      | Err e => Err e
      | Panic => Panic
      | Stuck => Stuck
      end
  end.

Definition array1Setter (elem : setter) (z : goval) : setter := λ old raw,
  match raw with
  | None => Ret (GSlice None)
  | Some raw =>
      if Zlen raw <? 12 then truncated "pgz: array header truncated"
      else
        let ndim := int32 (be_get (take 4 raw)) in
        let raw := drop 12 raw in
        if ndim =? 0 then Ret (GSlice (Some []))
        else if negb (ndim =? 1) then Err (EFmt "pgz: expected 1-dim array, got" [ndim])
        else if Zlen raw <? 8 then truncated "pgz: array dim header truncated"
        else
          let dimLen := int32 (be_get (take 4 raw)) in
          let raw := drop 8 raw in
          if dimLen <? 0 then Err (EFmt "pgz: negative array dim" [dimLen])
          else match read_elems "pgz: array element" (Z.to_nat dimLen) elem z 0 raw with
               | Ret (l, _) => Ret (GSlice (Some l))
               | Err e => Err e
               | Panic => Panic
               | Stuck => Stuck
               end
  end.
Definition array2Setter (elem : setter) (z : goval) : setter := λ old raw,
  match raw with
  | None => Ret (GSlice None)
  | Some raw =>
      if Zlen raw <? 12 then truncated "pgz: array header truncated"
      else
        let ndim := int32 (be_get (take 4 raw)) in
        let raw := drop 12 raw in
        if ndim =? 0 then Ret (GSlice (Some []))
        else if negb (ndim =? 2) then Err (EFmt "pgz: 2D target requires ndim=2 PG array, got" [ndim])
        else if Zlen raw <? 16 then truncated "pgz: 2D array dim headers truncated"
        else
          let outerLen := int32 (be_get (slice 0 4 raw)) in
          let innerLen := int32 (be_get (slice 8 12 raw)) in
          let raw := drop 16 raw in
          if (outerLen <? 0) || (innerLen <? 0) then Err (EFmt "pgz: negative 2D dim" [outerLen; innerLen])
          else match read_rows (Z.to_nat outerLen) innerLen elem z 0 raw with
               | Ret l => Ret (GSlice (Some l))
               | Err e => Err e
               | Panic => Panic
               | Stuck => Stuck
               end
  end.

(** *** pickSetter *)

Definition ptrSetter (t : gotype) (inner : setter) : setter := λ old raw,
  match raw with
  | None => Ret (GPtr None)
  | Some _ => match inner (zero t) raw with Ret v => Ret (GPtr (Some v)) | r => r end
  end.

Definition is_skip (f : gofield) : bool := match gf_tag f with Some tag => bool_decide (tag = str "-") | None => false end.

Section Pick.
Context (Scan : nat → gotype → goval → dvalue → res goval).

Definition scannerSetter (id : nat) (t : gotype) (oid : OID) (fmt : Z) : setter := λ old raw,
  match raw with
  | None => Scan id t old DNil
  | Some raw =>
      match scannerDecoderFor oid fmt raw with
      | Ret d => Scan id t old d
      | Err e => Err e
      | Panic => Panic
      | Stuck => Stuck
      end
  end.

(** pickNullSetter: the typed part is a plain value. *)
Definition pickNullSetter (n : null_kind) (oid : OID) (fmt : Z) : gerror + setter :=
  match pickPlain oid fmt (null_base n) with
  | inl _ => pickPlain oid fmt (TNull n)
  | inr inner => inr (nullSetterWrap inner)
  end.

(** pickArraySetter, given the setters of the scalars it may need: of the
    slice's element, and of that element's own element. *)
Definition nested (t : gotype) : option gotype :=
  match under t with TSlice w => if is_byte w then None else Some w | _ => None end.
Definition pickArraySetter (elemOID : OID) (fmt : Z) (u : gotype) (pick1 : OID → Z → gerror + setter)
    (pick2 : gotype → OID → Z → gerror + setter) : gerror + setter :=
  if negb (fmt =? 1) then no_setter "pgz: array scan requires binary format" elemOID
  else
    match nested u with
    | None =>
        match pick1 elemOID 1 with
        | inl e => inl (EWrapped "pgz: array element setter" e)
        | inr elem => inr (array1Setter elem (zero u))
        end
    | Some w =>
        match nested w with
        | Some _ => no_setter "pgz: multi-dim arrays with Go depth > 2 not supported" elemOID
        | None =>
            match pick2 w elemOID 1 with
            | inl e => inl (EWrapped "pgz: array element setter" e)
            | inr elem => inr (array2Setter elem (zero w))
            end
        end
    end.

Fixpoint pickSetter (t : gotype) {struct t} : OID → Z → gerror + setter := λ oid fmt,
  match t with
  | TNull n => pickNullSetter n oid fmt
  | TScanner id u => inr (scannerSetter id u oid fmt)
  | TRangeBytes => if (fmt =? 1) && IsRange oid then inr rangeSetter else pickPlain oid fmt t
  | TStruct fs =>
      let gof := (fix go (i : nat) (fs : list (gofield * gotype)) : comp_fields :=
                    match fs with
                    | [] => []
                    | (f, ft) :: fs =>
                        (if gf_exported f && negb (is_skip f) then [(i, λ oid, pickSetter ft oid 1)] else []) ++ go (S i) fs
                    end) 0%nat fs in
      match fmt =? 1, gof with
      | true, _ :: _ => inr (compositeSetter t gof)
      | _, _ => pickPlain oid fmt t
      end
  | TSlice u =>
      if negb (ArrayElem oid =? 0) && negb (is_byte u) then
        pickArraySetter (ArrayElem oid) fmt u (pickSetter u)
          (match u with
           | TSlice w | TScanner _ (TSlice w) => λ _, pickSetter w
           | _ => λ _ oid _, no_setter "unreachable" oid
           end)
      else pickPlain oid fmt t
  | TPtr u =>
      match pickSetter u oid fmt with
      | inl e => inl e
      | inr inner => inr (ptrSetter u inner)
      end
  | _ => pickPlain oid fmt t
  end.
End Pick.

(** ** The inline fast path *)

Inductive op :=
| opFallback | opInt2BinInt16 | opInt2BinInt32 | opInt2BinInt64 | opInt4BinInt32 | opInt4BinInt64 | opInt8BinInt64
| opFloat4BinF32 | opFloat4BinF64 | opFloat8BinF64 | opBoolBin | opStringPass | opByteCopyRaw.

Definition inlineOpFor (oid : OID) (fmt : Z) (t : gotype) : op :=
  if negb (fmt =? 1) then opFallback
  else
    match under t with
    | TPtr _ | TTime | TNull _ | TRangeBytes | TStruct _ => opFallback
    | TSlice e => if negb (is_byte e) then opFallback
                  else if oid_in oid [OIDText; OIDVarchar; OIDBPChar; OIDName; OIDBytea; OIDJSON] then opByteCopyRaw
                  else opFallback
    | TBool => if oid =? OIDBool then opBoolBin else opFallback
    | TInt k =>
        if oid =? OIDInt2 then
          match k with KInt16 => opInt2BinInt16 | KInt32 => opInt2BinInt32 | KInt64 | KInt => opInt2BinInt64 | _ => opFallback end
        else if oid_in oid [OIDInt4; OIDOID] then
          match k with KInt32 => opInt4BinInt32 | KInt64 | KInt => opInt4BinInt64 | _ => opFallback end
        else if oid =? OIDInt8 then match k with KInt64 | KInt => opInt8BinInt64 | _ => opFallback end
        else opFallback
    | TFloat32 => if oid =? OIDFloat4 then opFloat4BinF32 else opFallback
    | TFloat64 => if oid =? OIDFloat4 then opFloat4BinF64 else if oid =? OIDFloat8 then opFloat8BinF64 else opFallback
    | TString => if oid_in oid [OIDText; OIDVarchar; OIDBPChar; OIDName] then opStringPass else opFallback
    | _ => opFallback
    end.

(** The [switch s.op] of fillStructRow: [None] falls through to the setter.  The
    size of an integer is that of the type the field's pointer is cast to. *)
Definition run_op (o : op) (raw : bytes) : option goval :=
  let when (n : Z) (v : goval) := if Zlen raw =? n then Some v else None in
  match o with
  | opFallback => None
  | opInt4BinInt32 => when 4 (GInt 4 (int32 (be_get raw)))
  | opInt4BinInt64 => when 4 (GInt 8 (int32 (be_get raw)))
  | opInt8BinInt64 => when 8 (GInt 8 (int64 (be_get raw)))
  | opInt2BinInt16 => when 2 (GInt 2 (int16 (be_get raw)))
  | opInt2BinInt32 => when 2 (GInt 4 (int16 (be_get raw)))
  | opInt2BinInt64 => when 2 (GInt 8 (int16 (be_get raw)))
  | opFloat8BinF64 => when 8 (GFloat64 (be_get raw))
  | opFloat4BinF32 => when 4 (GFloat32 (be_get raw))
  | opFloat4BinF64 => when 4 (GFloat64 (convert f32 f64 (be_get raw)))
  | opBoolBin => match raw with [c] => Some (GBool (negb (beq c x00))) | _ => None end
  | opStringPass => Some (GString raw)
  | opByteCopyRaw => Some (GBytes (Some raw))
  end.

(** ** The plan of a struct *)

Record fieldRef := mkRef { fr_name : bytes; fr_type : gotype; fr_path : list nat }.
Record fieldSetter := mkFS { fs_path : list nat; fs_set : setter; fs_op : op }.
(** [None] skips the column. *)
Definition structPlan : Type := list (option fieldSetter).

Section Plan.
Context (Scan : nat → gotype → goval → dvalue → res goval) (ToLower : bytes → bytes).

Definition isTimeType (t : gotype) : bool := match t with TTime => true | _ => false end.
Definition is_struct (t : gotype) : bool := match under t with TStruct _ | TTime | TNull _ | TRangeBytes => true | _ => false end.
Definition isEmbeddedFlatten (f : gofield) (t : gotype) : bool :=
  match gf_tag f with Some _ => false | None => gf_anon f && is_struct t && negb (isTimeType t) end.

Definition field_key (f : gofield) : bytes :=
  ToLower match gf_tag f with Some (c :: tag) => c :: tag | _ => gf_name f end.

(** Pass 1: the fields declared at this level; a later one wins. *)
Fixpoint walk_direct (i : nat) (path : list nat) (fs : list (gofield * gotype)) (out : gmap bytes fieldRef) : gmap bytes fieldRef :=
  match fs with
  | [] => out
  | (f, t) :: fs =>
      let out :=
        if is_skip f || isEmbeddedFlatten f t || negb (gf_exported f) then out
        else <[field_key f := mkRef (gf_name f) t (path ++ [i])]> out in
      walk_direct (S i) path fs out
  end.

(** Struct types are finite trees: nothing here needs the cycle guard. *)
Fixpoint walkStructFields (t : gotype) (path : list nat) {struct t} : gmap bytes fieldRef :=
  match t with
  | TStruct fs =>
      (fix pass2 (i : nat) (fs : list (gofield * gotype)) (out : gmap bytes fieldRef) : gmap bytes fieldRef :=
         match fs with
         | [] => out
         | (f, ft) :: fs =>
             let out :=
               if is_skip f || negb (isEmbeddedFlatten f ft) then out
               else out ∪ walkStructFields ft (path ++ [i]) in
             pass2 (S i) fs out
         end) 0%nat fs (walk_direct 0 path fs ∅)
  | TNull n => walk_direct 0 path (null_fields n) ∅
  | TRangeBytes => walk_direct 0 path range_fields ∅
  | TScanner _ t => walkStructFields t path
  | _ => ∅
  end.

Fixpoint build_setters (idx : gmap bytes fieldRef) (cols : list Column) : gerror + structPlan :=
  match cols with
  | [] => inr []
  | col :: cols =>
      match idx !! ToLower (Name col) with
      | None => match build_setters idx cols with inl e => inl e | inr sp => inr (None :: sp) end
      | Some info =>
          match pickSetter Scan (fr_type info) (TypeOID col) (Format col) with
          | inl e => inl (EWrapped "pgz: column -> field" e)
          | inr set =>
              match build_setters idx cols with
              | inl e => inl e
              | inr sp => inr (Some (mkFS (fr_path info) set (inlineOpFor (TypeOID col) (Format col) (fr_type info))) :: sp)
              end
          end
      end
  end.
Definition buildStructPlan (t : gotype) (plan : Plan) : gerror + structPlan :=
  build_setters (walkStructFields t []) (Columns plan).
End Plan.

(** ** Filling a row *)

Fixpoint fetch_path (v : goval) (path : list nat) : goval :=
  match path with [] => v | i :: path => fetch_path (fetch v i) path end.
Fixpoint store_path (v : goval) (path : list nat) (x : goval) : goval :=
  match path with [] => x | i :: path => store v i (store_path (fetch v i) path x) end.

(** One column's header and cell. *)
Definition scan_cell (body : bytes) : gerror + (option bytes * bytes) :=
  if Zlen body <? 4 then inl (EFmt "pgz: short column header" [])
  else
    let l := int32 (be_get (take 4 body)) in
    let body := drop 4 body in
    if l =? -1 then inr (None, body)
    else if (l <? 0) || (Zlen body <? l) then inl (EFmt "pgz: bad column length" [l])
    else inr (Some (take (Z.to_nat l) body), drop (Z.to_nat l) body).

(** A cell into its field: the inline case if it applies, else the setter. *)
Definition set_field (s : fieldSetter) (old : goval) (raw : option bytes) : res goval :=
  match (match raw with Some raw => run_op (fs_op s) raw | None => None end) with
  | Some v => Ret v
  | None => fs_set s old raw
  end.

Fixpoint fill_columns (sp : structPlan) (body : bytes) (row : goval) : res goval :=
  match sp with
  | [] => Ret row
  | s :: sp =>
      match scan_cell body with
      | inl e => Err e
      | inr (raw, body) =>
          match s with
          | None => fill_columns sp body row
          | Some s =>
              match set_field s (fetch_path row (fs_path s)) raw with
              | Ret v => fill_columns sp body (store_path row (fs_path s) v)
              | r => r
              end
          end
      end
  end.
Definition fillStructRow (row : goval) (body : bytes) (sp : structPlan) : res goval :=
  if Zlen body <? 2 then Err (EFmt "pgz: short DataRow" [])
  else
    let n := int16 (be_get (take 2 body)) in
    if negb (n =? Zlen sp) then Err (EFmt "pgz: column count mismatch" [n; Zlen sp])
    else fill_columns sp (drop 2 body) row.
