(* ===== verification/ScanSpec.v ===== *)
(** What the plans of Scan.v guarantee: a row is only ever written with values
    of its fields' types, and the inline fast path changes nothing. *)
From S2P Require Import Prelude Protocol JsonWriter Encoders Float Errors Effects Rows Args Scan.

(** ** Induction over types *)

Definition flat (t : gotype) : bool :=
  match t with TSlice _ | TArray _ _ | TPtr _ | TStruct _ | TScanner _ _ => false | _ => true end.

Section Ind.
Context (P : gotype → Prop).
Context (HSlice : ∀ t, P t → P (TSlice t)) (HArray : ∀ n t, P t → P (TArray n t)) (HPtr : ∀ t, P t → P (TPtr t))
  (HStruct : ∀ fs, Forall (λ f, P f.2) fs → P (TStruct fs)) (HScanner : ∀ id t, P t → P (TScanner id t))
  (HFlat : ∀ t, flat t = true → P t).
Fixpoint gotype_nested (t : gotype) : P t :=
  match t with
  | TSlice t => HSlice t (gotype_nested t)
  | TArray n t => HArray n t (gotype_nested t)
  | TPtr t => HPtr t (gotype_nested t)
  | TStruct fs => HStruct fs ((fix go fs : Forall (λ f, P f.2) fs :=
                                 match fs with [] => @Forall_nil_2 _ _ | f :: fs => Forall_cons_2 _ _ _ (gotype_nested f.2) (go fs) end) fs)
  | TScanner id t => HScanner id t (gotype_nested t)
  | TBool => HFlat TBool eq_refl
  | TInt k => HFlat (TInt k) eq_refl
  | TFloat32 => HFlat TFloat32 eq_refl
  | TFloat64 => HFlat TFloat64 eq_refl
  | TString => HFlat TString eq_refl
  | TTime => HFlat TTime eq_refl
  | TNull n => HFlat (TNull n) eq_refl
  | TRangeBytes => HFlat TRangeBytes eq_refl
  | TOther => HFlat TOther eq_refl
  end.
End Ind.

(** ** Specification *)

(** A setter of fields of type [t]. *)
Definition setter_ok (t : gotype) (s : setter) : Prop := ∀ old raw v, has_type t old → s old raw = Ret v → has_type t v.

(** The Scan methods write values of their own type. *)
Definition scans_typed (Scan : nat → gotype → goval → dvalue → res goval) : Prop :=
  ∀ id t old d v, has_type t old → Scan id t old d = Ret v → has_type t v.

(** The fields of a type of kind struct, and the type at a path. *)
Definition sub_fields (t : gotype) : list (gofield * gotype) :=
  match under t with TStruct fs => fs | TNull n => null_fields n | TRangeBytes => range_fields | _ => [] end.
Fixpoint type_at (t : gotype) (path : list nat) (u : gotype) : Prop :=
  match path with
  | [] => t = u
  | i :: path => ∃ f ft, sub_fields t !! i = Some (f, ft) ∧ type_at ft path u
  end.

(** ** Lemmas *)

Lemma has_type_struct fs l : has_type (TStruct fs) (GStruct l) ↔ Forall2 (λ f v, has_type f.2 v) fs l.
Proof.
  cbn [has_type]. revert l. induction fs as [|[f t] fs IH]; intros [|v l]; cbn [snd].
  - split; [constructor|done].
  - split; [done|]. intros H. inversion H.
  - split; [done|]. intros H. inversion H.
  - rewrite Forall2_cons, <- IH. done.
Qed.

Lemma has_type_under t v : has_type t v ↔ has_type (under t) v.
Proof. induction t; cbn [under has_type]; done. Qed.

Lemma wrap_kind_idem k v : wrap_kind k (wrap_kind k v) = wrap_kind k v.
Proof.
  assert (∀ w, 0 < w → wraps w (wraps w v) = wraps w v) as Hs
    by (intros w Hw; apply wraps_small; [done|by apply wraps_range]).
  assert (∀ w, 0 < w → wrapu w (wrapu w v) = wrapu w v) as Hu.
  { intros w Hw. unfold wrapu. apply Z.mod_small, Z.mod_pos_bound. apply Z.pow_pos_nonneg; lia. }
  destruct k; cbn; unfold int64, int32, int16, u64, u32, u16; (apply Hs || apply Hu); lia.
Qed.

Lemma zero_flat_ok t : match t with TNull _ | TSlice _ | TArray _ _ | TPtr _ | TStruct _ | TScanner _ _ => True | _ => has_flat t (zero_flat t) end.
Proof. destruct t as [|k| | | | | | | | | | | |]; try done. by destruct k. Qed.

Lemma zero_ok t : has_type t (zero t).
Proof.
  induction t as [t IH|n t IH|t IH|fs IH|id t IH|t Ht] using gotype_nested; cbn [zero].
  - cbn [has_type]. destruct (is_byte t) eqn:E; [done|]. by split.
  - destruct (is_byte t) eqn:E; cbn [has_type]; rewrite E; [by rewrite repeat_length|].
    rewrite repeat_length. split; [done|]. split; [done|]. clear E. by induction n; constructor.
  - done.
  - apply has_type_struct. induction IH as [|[f t] fs Ht _ IH]; constructor; done.
  - done.
  - pose proof (zero_flat_ok t). destruct t as [|k| | | | |n| | | | | | |]; try done. by destruct n.
Qed.

Ltac setter_done := intros old [raw|] v Hold Hs; cbn in *; repeat case_match; simplify_eq; cbn in *; auto using wrap_kind_idem.

Lemma intSetter_ok k w : setter_ok (TInt k) (intSetter k w).
Proof. unfold intSetter. intros old [raw|] v Hold Hs; [|by simplify_eq]. case_match; simplify_eq. split; [done|apply wrap_kind_idem]. Qed.
Lemma stringSetter_ok : setter_ok TString stringSetter.
Proof. intros old raw v _ [= <-]. done. Qed.
Lemma jsonbStringSetter_ok : setter_ok TString jsonbStringSetter.
Proof. intros old raw v _ [= <-]. done. Qed.
Lemma uuidStringSetter_ok : setter_ok TString uuidStringSetter.
Proof. intros old [raw|] v _ Hs; unfold uuidStringSetter in Hs; [case_match|]; by simplify_eq. Qed.
Lemma boolSetter_ok : setter_ok TBool boolSetter.
Proof. intros old raw v _ [= <-]. done. Qed.
Lemma byteSliceSetter_ok b t : is_byte t = true → setter_ok (TSlice t) (byteSliceSetter b).
Proof. intros Ht old [raw|] v _ [= <-]; done. Qed.

Lemma sized_ok t n dec : (∀ raw v, Zlen raw = n → dec raw = Some v → has_type t v) → setter_ok t (sized n dec).
Proof.
  intros Hd old [raw|] v Hold [= <-]; [|done]. destruct (Z.eqb_spec (Zlen raw) n); [|done]. cbn [negb].
  destruct (dec raw) eqn:E; [by eapply Hd|done].
Qed.
Lemma pgUsecToTime_ok u : has_type TTime (pgUsecToTime u).
Proof.
  unfold pgUsecToTime. pose proof (Z.rem_bound_abs u 1000000 ltac:(lia)). destruct (Z.ltb_spec (Z.rem u 1000000 * 1000) 0); cbn; lia.
Qed.
Lemma dateSetter_ok : setter_ok TTime dateSetter.
Proof. apply sized_ok. intros raw v _ H. cbv zeta in H. case_match; simplify_eq. apply pgUsecToTime_ok. Qed.
Lemma timestampSetter_ok : setter_ok TTime timestampSetter.
Proof. apply sized_ok. intros raw v _ H. cbv zeta in H. case_match; simplify_eq. apply pgUsecToTime_ok. Qed.
Lemma float4Setter32_ok : setter_ok TFloat32 (float4Setter true).
Proof. apply sized_ok. by intros raw v _ [= <-]. Qed.
Lemma float4Setter64_ok : setter_ok TFloat64 (float4Setter false).
Proof. apply sized_ok. by intros raw v _ [= <-]. Qed.
Lemma float8Setter_ok : setter_ok TFloat64 float8Setter.
Proof. apply sized_ok. by intros raw v _ [= <-]. Qed.
Lemma uuidArraySetter_ok t : is_byte t = true → setter_ok (TArray 16 t) uuidArraySetter.
Proof. intros Ht. apply sized_ok. intros raw v Hl [= <-]. cbn [has_type]. split; [done|]. unfold Zlen in Hl. lia. Qed.

Create HintDb setters.
#[export] Hint Resolve intSetter_ok stringSetter_ok jsonbStringSetter_ok uuidStringSetter_ok boolSetter_ok byteSliceSetter_ok
  dateSetter_ok timestampSetter_ok float8Setter_ok uuidArraySetter_ok float4Setter32_ok float4Setter64_ok : setters.

(** A setter for the type behind a defined type is one for it. *)
Lemma setter_under t s : setter_ok (under t) s → setter_ok t s.
Proof. intros H old raw v Ho Hs. rewrite has_type_under in *. by eapply H. Qed.

Lemma byte_slice_ok b t : is_byte_slice t = true → setter_ok t (byteSliceSetter b).
Proof. unfold is_byte_slice. intros H. apply setter_under. destruct (under t); try done. by apply byteSliceSetter_ok. Qed.
#[export] Hint Resolve byte_slice_ok : setters.

Lemma pickPlain_ok oid fmt t s : pickPlain oid fmt t = inr s → setter_ok t s.
Proof.
  unfold pickPlain, pickBinarySetter, pickTextSetter, no_setter. intros H.
  destruct (fmt =? 1).
  - repeat (case_match; simplify_eq; auto with setters);
      apply setter_under; repeat match goal with E : under _ = _ |- _ => rewrite E; clear E end; auto with setters.
    + match goal with E : _ && _ = true |- _ => apply andb_prop in E as [? E%Nat.eqb_eq]; subst end. auto with setters.
  - repeat (case_match; simplify_eq; auto with setters);
      apply setter_under; repeat match goal with E : under _ = _ |- _ => rewrite E; clear E end; auto with setters.
Qed.

(** *** Fields *)

Lemma has_type_fields t v : sub_fields t ≠ [] →
  has_type t v ↔ ∃ l, v = GStruct l ∧ Forall2 (λ f v, has_type f.2 v) (sub_fields t) l.
Proof.
  intros Hn. rewrite has_type_under. unfold sub_fields in *. destruct (under t) as [|k| | | | |n| | | | |fs| |]; try done.
  - split.
    + destruct v as [| | | | | | | | | | |[|x [|[] []]]|]; try done. intros H. eexists. split; [done|].
      repeat constructor; cbn; by destruct n.
    + intros (l & -> & H). unfold null_fields in H.
      repeat match goal with H : Forall2 _ (_ :: _) _ |- _ => inversion H; clear H; subst | H : Forall2 _ [] _ |- _ => inversion H; clear H; subst end.
      cbn [snd plain] in *. match goal with H : has_type TBool ?b |- _ => destruct b; try done end. cbn. by destruct n.
  - split.
    + intros H. cbn in H. repeat (case_match; try done). simplify_eq. eexists. split; [done|]. destruct H. by repeat constructor.
    + intros (l & -> & H). unfold range_fields in H.
      repeat match goal with H : Forall2 _ (_ :: _) _ |- _ => inversion H; clear H; subst | H : Forall2 _ [] _ |- _ => inversion H; clear H; subst end.
      cbn in *. repeat (case_match; try done); by destruct_and?.
  - split.
    + destruct v; try done. intros H. eexists. split; [done|]. by apply has_type_struct.
    + intros (l & -> & H). by apply has_type_struct.
Qed.

Lemma fetch_ok t v i f ft : sub_fields t !! i = Some (f, ft) → has_type t v → has_type ft (fetch v i).
Proof.
  intros Hi H. apply has_type_fields in H as (l & -> & H); [|by intros E; rewrite E in Hi].
  destruct (Forall2_lookup_l _ _ _ _ _ H Hi) as (x & Hx & Ht). cbn. erewrite nth_lookup_Some by done. done.
Qed.
Lemma store_ok t v i f ft x : sub_fields t !! i = Some (f, ft) → has_type t v → has_type ft x → has_type t (store v i x).
Proof.
  intros Hi H Hx. assert (sub_fields t ≠ []) as Hn by (by intros E; rewrite E in Hi).
  apply has_type_fields in H as (l & -> & H); [|done]. cbn. apply has_type_fields; [done|]. eexists. split; [done|].
  rewrite <- (list_insert_id (sub_fields t) i (f, ft)) by done. by apply Forall2_insert.
Qed.
Lemma fetch_path_ok path : ∀ t u v, type_at t path u → has_type t v → has_type u (fetch_path v path).
Proof.
  induction path as [|i path IH]; intros t u v; cbn; [by intros ->|]. intros (f & ft & Hi & Ht) Hv.
  eapply IH; [done|]. by eapply fetch_ok.
Qed.
Lemma store_path_ok path : ∀ t u v x, type_at t path u → has_type t v → has_type u x → has_type t (store_path v path x).
Proof.
  induction path as [|i path IH]; intros t u v x; cbn; [by intros ->|]. intros (f & ft & Hi & Ht) Hv Hx.
  eapply store_ok; [done|done|]. eapply IH; [done| |done]. by eapply fetch_ok.
Qed.

(** *** The setters built from others *)

Lemma nullSetterWrap_ok n s : setter_ok (null_base n) s → setter_ok (TNull n) (nullSetterWrap s).
Proof.
  intros Hs old raw v Ho H. unfold nullSetterWrap in H.
  destruct old as [| | | | | | | | | | |[|x [|[] []]]|]; try done. destruct raw; [|by simplify_eq].
  destruct (s x _) eqn:E; simplify_eq. apply Hs in E; cbn in *; by destruct n.
Qed.
Lemma ptrSetter_ok t s : setter_ok t s → setter_ok (TPtr t) (ptrSetter t s).
Proof.
  intros Hs old [raw|] v _ H; unfold ptrSetter in H; [|by simplify_eq].
  destruct (s _ _) eqn:E; simplify_eq. cbn. eapply Hs; [|done]. apply zero_ok.
Qed.
Lemma byteZ_kind c : wrap_kind KUint8 (byteZ c) = byteZ c.
Proof. cbn. unfold wrapu. apply Z.mod_small. pose proof (byteZ_range c). lia. Qed.
Lemma rangeSetter_ok : setter_ok TRangeBytes rangeSetter.
Proof.
  intros old [[|flags body]|] v _ H; unfold rangeSetter in H; [done| |simplify_eq; exact (zero_ok TRangeBytes)].
  cbv zeta in H. repeat case_match; simplify_eq; (split; [done|apply byteZ_kind]).
Qed.

Lemma read_elems_ok tag u s z : setter_ok u s → has_type u z → ∀ n idx raw l rest,
  read_elems tag n s z idx raw = Ret (l, rest) → Forall (has_type u) l.
Proof.
  intros Hs Hz. induction n as [|n IH]; intros idx raw l rest H; cbn [read_elems] in H; [simplify_eq; constructor|].
  destruct (readArrayElem raw idx) as [|[cell raw']]; [done|]. destruct (s z cell) eqn:E; try done.
  destruct (read_elems tag n _ _ _ _) as [[l' r]| | |] eqn:E2; simplify_eq. constructor; [by eapply Hs|by eapply IH].
Qed.
Lemma read_rows_ok u w s z inner : under u = TSlice w → is_byte w = false → setter_ok w s → has_type w z → ∀ n i raw l,
  read_rows n inner s z i raw = Ret l → Forall (has_type u) l.
Proof.
  intros Hu Hw Hs Hz. induction n as [|n IH]; intros i raw l H; cbn [read_rows] in H; [simplify_eq; constructor|].
  destruct (read_elems _ _ _ _ _ _) as [[l' r]| | |] eqn:E; try done.
  destruct (read_rows n _ _ _ _ _) eqn:E2; simplify_eq. constructor; [|by eapply IH].
  apply has_type_under. rewrite Hu. cbn [has_type]. split; [done|]. by eapply read_elems_ok.
Qed.
Lemma array1Setter_ok u s : is_byte u = false → setter_ok u s → setter_ok (TSlice u) (array1Setter s (zero u)).
Proof.
  intros Hu Hs old [raw|] v _ H; unfold array1Setter, truncated in H; cbv zeta in H; [|by simplify_eq].
  repeat case_match; simplify_eq; (split; [done|]); [constructor|]. eapply read_elems_ok; [done|apply zero_ok|done].
Qed.
Lemma array2Setter_ok u w s : is_byte u = false → under u = TSlice w → is_byte w = false → setter_ok w s →
  setter_ok (TSlice u) (array2Setter s (zero w)).
Proof.
  intros Hu Huw Hw Hs old [raw|] v _ H; unfold array2Setter, truncated in H; cbv zeta in H; [|by simplify_eq].
  repeat case_match; simplify_eq; (split; [done|]); [constructor|]. by eapply read_rows_ok; [| | |apply zero_ok|].
Qed.

(** The setters of a composite's fields fit the fields they are for. *)
Definition comp_ok (t : gotype) (fs : comp_fields) : Prop :=
  Forall (λ p, ∃ f ft, sub_fields t !! p.1 = Some (f, ft) ∧ ∀ oid s, p.2 oid = inr s → setter_ok ft s) fs.

Lemma comp_loop_ok t : ∀ fuel ncols fs v raw v', comp_ok t fs → has_type t v → comp_loop fuel ncols fs v raw = Ret v' → has_type t v'.
Proof.
  induction fuel as [|fuel IH]; intros ncols fs v raw v' Hf Hv H; cbn [comp_loop] in H; destruct (ncols <=? 0); try (by simplify_eq).
  destruct (Zlen raw <? 8); [done|]. cbv zeta in H.
  match type of H with (match ?m with _ => _ end) = _ => destruct m as [|[cell rest]]; [done|] end.
  destruct fs as [|[i pick] fs]; [by eapply IH|]. apply Forall_cons in Hf as [(f & ft & Hi & Hp) Hf].
  destruct (pick _) as [|s] eqn:E; [done|]. destruct (s _ cell) eqn:E2; cbn [wrap_err] in H; try done.
  eapply IH; [done| |done]. eapply store_ok; [done|done|]. eapply Hp; [done| |done]. by eapply fetch_ok.
Qed.
Lemma compositeSetter_ok t fs : comp_ok t fs → setter_ok t (compositeSetter t fs).
Proof.
  intros Hf old [raw|] v Ho H; unfold compositeSetter, truncated in H; cbv zeta in H; [|simplify_eq; apply zero_ok].
  repeat (case_match; [done|]). by eapply comp_loop_ok.
Qed.

(** ** The setters of a type *)

Section Typed.
Context (Scan : nat → gotype → goval → dvalue → res goval) (HScan : scans_typed Scan).

Lemma scannerSetter_ok id t oid fmt : setter_ok (TScanner id t) (scannerSetter Scan id t oid fmt).
Proof.
  intros old [raw|] v Ho H; unfold scannerSetter in H; [|exact (HScan id t old _ v Ho H)].
  destruct (scannerDecoderFor oid fmt raw); try done. exact (HScan id t old _ v Ho H).
Qed.

Lemma pickNullSetter_ok n oid fmt s : pickNullSetter n oid fmt = inr s → setter_ok (TNull n) s.
Proof.
  unfold pickNullSetter. destruct (pickPlain oid fmt (null_base n)) eqn:E; intros H; [by eapply pickPlain_ok|].
  simplify_eq. by eapply nullSetterWrap_ok, pickPlain_ok.
Qed.

Definition pick_ok (t : gotype) : Prop := ∀ oid fmt s, pickSetter Scan t oid fmt = inr s → setter_ok t s.

Lemma pickArraySetter_ok u oid fmt p1 p2 s : is_byte u = false →
  (∀ oid fmt s, p1 oid fmt = inr s → setter_ok u s) →
  (∀ w oid fmt s, under u = TSlice w → p2 w oid fmt = inr s → setter_ok w s) →
  pickArraySetter oid fmt u p1 p2 = inr s → setter_ok (TSlice u) s.
Proof.
  intros Hu H1 H2 H. unfold pickArraySetter, no_setter, nested in H. destruct (negb (fmt =? 1)); [done|].
  assert (∀ e : setter, p1 oid 1 = inr e → setter_ok (TSlice u) (array1Setter e (zero u))) as Hone
    by (intros e He; apply array1Setter_ok; eauto).
  destruct (under u) as [| | | | | | | |w| | | | |] eqn:Eu;
    try (destruct (p1 oid 1) eqn:E; simplify_eq; by apply Hone).
  destruct (is_byte w) eqn:Ew; [destruct (p1 oid 1) eqn:E; simplify_eq; by apply Hone|].
  repeat (case_match; simplify_eq; try done); (eapply array2Setter_ok; [done|done|done|by eapply H2]).
Qed.

Lemma pickSetter_ok_both t : pick_ok t ∧ match t with TSlice w | TScanner _ (TSlice w) => pick_ok w | _ => True end.
Proof.
  induction t as [u [IH IH2]|n t _|t [IH _]|fs IH|id t [_ IH]|t Ht] using gotype_nested.
  - split; [|done]. intros oid fmt s H. cbn [pickSetter] in H.
    destruct (negb (ArrayElem oid =? 0) && negb (is_byte u)) eqn:E; [|by eapply pickPlain_ok].
    apply andb_prop in E as [_ E%negb_true_iff]. eapply pickArraySetter_ok; [done|exact IH| |exact H].
    intros w o f s' Hw Hs. destruct u as [| | | | | | | |w'| | | |id' []|]; try done; cbn [under] in Hw; simplify_eq; by eapply IH2.
  - split; [|done]. intros oid fmt s H. by eapply pickPlain_ok.
  - split; [|done]. intros oid fmt s H. cbn [pickSetter] in H. destruct (pickSetter Scan t oid fmt) eqn:E; simplify_eq.
    by eapply ptrSetter_ok, IH.
  - split; [|done]. intros oid fmt s H. cbn [pickSetter] in H.
    match type of H with context [?g 0%nat fs] =>
      assert (∀ fs1 i, Forall (λ f, pick_ok f.2 ∧ match f.2 with TSlice w | TScanner _ (TSlice w) => pick_ok w | _ => True end) fs1 →
                drop i fs = fs1 → comp_ok (TStruct fs) (g i fs1)) as Hg
    end.
    { induction fs1 as [|[f ft] fs1 IH1]; intros i Hf1 Hd; [constructor|]. apply Forall_cons in Hf1 as [[Hp _] Hf1].
      apply Forall_app. split; [|apply IH1; [done|]; by rewrite <- Nat.add_1_r, <- drop_drop, Hd].
      destruct (gf_exported f && negb (is_skip f)); [|constructor]. constructor; [|constructor]. cbn [fst snd].
      exists f, ft. split; [|intros o s' Hs; by eapply Hp]. unfold sub_fields. cbn [under].
      by rewrite <- (Nat.add_0_r i), <- lookup_drop, Hd. }
    specialize (Hg fs 0%nat IH (drop_0 fs)). cbv zeta in H.
    destruct (fmt =? 1); [|by eapply pickPlain_ok].
    match type of H with (match ?g with [] => _ | _ => _ end) = _ => destruct g eqn:Eg; [by eapply pickPlain_ok|] end.
    simplify_eq. apply compositeSetter_ok. done.
  - split; [|destruct t; done]. intros oid fmt s H. cbn [pickSetter] in H. simplify_eq. apply scannerSetter_ok.
  - split; [|by destruct t]. intros oid fmt s H. destruct t; try done; cbn [pickSetter] in H; try (by eapply pickPlain_ok).
    + by eapply pickNullSetter_ok.
    + destruct ((fmt =? 1) && IsRange oid); [|by eapply pickPlain_ok]. simplify_eq. apply rangeSetter_ok.
Qed.
Lemma pickSetter_ok t : pick_ok t.
Proof. apply pickSetter_ok_both. Qed.
End Typed.

(** ** Plans *)

Lemma wraps_wider w w' v : 0 < w' ≤ w → wraps w (wraps w' v) = wraps w' v.
Proof.
  intros Hw. apply wraps_small; [lia|]. pose proof (wraps_range w' v ltac:(lia)).
  pose proof (Z.pow_le_mono_r 2 (w' - 1) (w - 1) ltac:(lia) ltac:(lia)). lia.
Qed.
Lemma int64_int32 v : int64 (int32 v) = int32 v.
Proof. by apply wraps_wider. Qed.
Lemma int64_int16 v : int64 (int16 v) = int16 v.
Proof. by apply wraps_wider. Qed.
Lemma int32_int16 v : int32 (int16 v) = int16 v.
Proof. by apply wraps_wider. Qed.
Lemma int64_idem v : int64 (int64 v) = int64 v.
Proof. by apply wraps_wider. Qed.
Lemma int32_idem v : int32 (int32 v) = int32 v.
Proof. by apply wraps_wider. Qed.
Lemma int16_idem v : int16 (int16 v) = int16 v.
Proof. by apply wraps_wider. Qed.
Create HintDb wider.
#[export] Hint Resolve int64_int32 int64_int16 int32_int16 int64_idem int32_idem int16_idem : wider.

Definition ref_ok (t : gotype) (path : list nat) (r : fieldRef) : Prop :=
  ∃ i p, fr_path r = path ++ i :: p ∧ type_at t (i :: p) (fr_type r).

Section Plans.
Context (Scan : nat → gotype → goval → dvalue → res goval) (ToLower : bytes → bytes).

Lemma walk_direct_ok t path : ∀ fs i out, drop i (sub_fields t) = fs → map_Forall (λ _, ref_ok t path) out →
  map_Forall (λ _, ref_ok t path) (walk_direct ToLower i path fs out).
Proof.
  induction fs as [|[f ft] fs IH]; intros i out Hd Ho; cbn [walk_direct]; [done|].
  apply IH; [by rewrite <- Nat.add_1_r, <- drop_drop, Hd|]. case_match; [done|].
  apply map_Forall_insert_2; [|done]. exists i, []. split; [done|]. exists f, ft. split; [|done].
  by rewrite <- (Nat.add_0_r i), <- lookup_drop, Hd.
Qed.

Lemma walk_ok t : ∀ path, map_Forall (λ _, ref_ok t path) (walkStructFields ToLower t path).
Proof.
  induction t as [| | |fs IH|id t IH|t Ht] using gotype_nested; intros path; cbn [walkStructFields]; try apply map_Forall_empty.
  - assert (∀ m, map_Forall (λ _, ref_ok (TStruct fs) path) m → ∀ fs1 i, Forall (λ f, ∀ path, map_Forall (λ _, ref_ok f.2 path) (walkStructFields ToLower f.2 path)) fs1 →
      drop i fs = fs1 → map_Forall (λ _, ref_ok (TStruct fs) path)
        ((fix pass2 (i : nat) (fs : list (gofield * gotype)) (out : gmap bytes fieldRef) : gmap bytes fieldRef :=
         match fs with
         | [] => out
         | (f, ft) :: fs =>
             let out :=
               if is_skip f || negb (isEmbeddedFlatten f ft) then out
               else out ∪ walkStructFields ToLower ft (path ++ [i]) in
             pass2 (S i) fs out
         end) i fs1 m)) as Hp.
    { intros m Hm fs1. revert m Hm. induction fs1 as [|[f ft] fs1 IH1]; intros m Hm i Hf Hd; [done|].
      apply Forall_cons in Hf as [Hft Hf]. cbv zeta.
      apply IH1; [|done|by rewrite <- Nat.add_1_r, <- drop_drop, Hd].
      case_match; [done|]. intros k r Hk. apply lookup_union_Some_raw in Hk as [Hk|[_ Hk]]; [by eapply Hm|].
      apply Hft in Hk as (j & p & Hp & Hj). exists i, (j :: p). split; [by rewrite Hp, <- app_assoc|]. exists f, ft. split; [|done].
      unfold sub_fields. cbn [under]. by rewrite <- (Nat.add_0_r i), <- lookup_drop, Hd. }
    apply Hp; [|done|done]. apply walk_direct_ok; [done|]. apply map_Forall_empty.
  - intros k r Hk. apply IH in Hk as (i & p & Hp & Hi). by exists i, p.
  - destruct t; try done; try apply map_Forall_empty; apply walk_direct_ok; try done; apply map_Forall_empty.
Qed.

(** A plan for rows of type [t]. *)
Definition plan_ok (t : gotype) (sp : structPlan) : Prop :=
  Forall (λ o, ∀ s, o = Some s → ∃ u oid fmt, type_at t (fs_path s) u ∧ pickSetter Scan u oid fmt = inr (fs_set s) ∧
                                   fs_op s = inlineOpFor oid fmt u) sp.

Lemma buildStructPlan_ok t plan sp : buildStructPlan Scan ToLower t plan = inr sp → plan_ok t sp ∧ length sp = length (Columns plan).
Proof.
  unfold buildStructPlan. generalize (Columns plan). intros cols. revert sp.
  induction cols as [|col cols IH]; intros sp H; cbn [build_setters] in H; [simplify_eq; by split; [constructor|]|].
  destruct (_ !! _) as [r|] eqn:El.
  - destruct (pickSetter _ _ _ _) eqn:Ep; [done|]. destruct (build_setters _ _ _ _) eqn:Eb; simplify_eq.
    destruct (IH _ eq_refl) as [Hsp Hl]. split; [|cbn; by f_equal]. constructor; [|done]. intros s' [= <-]. cbn.
    apply walk_ok in El as (i & p & Hp & Hi). cbn in Hp. rewrite Hp. by exists (fr_type r), (TypeOID col), (Format col).
  - destruct (build_setters _ _ _ _) eqn:Eb; simplify_eq. destruct (IH _ eq_refl) as [Hsp Hl].
    split; [|cbn; by f_equal]. by constructor.
Qed.

(** *** The inline fast path *)

Lemma run_op_ok oid fmt t raw v : run_op (inlineOpFor oid fmt t) raw = Some v → has_type t v.
Proof.
  rewrite has_type_under. unfold inlineOpFor. intros H. destruct (negb (fmt =? 1)); [done|].
  destruct (under t) as [|k| | | | | | |e| | | | |]; try done; repeat (case_match; try done); cbn in H; repeat (case_match; try done);
    simplify_eq; cbn; auto with wider. by apply negb_false_iff.
Qed.

Lemma oid_in_In o l : oid_in o l = true → In o l.
Proof. unfold oid_in. intros (x & Hx & ->%Z.eqb_eq)%existsb_exists. done. Qed.

(** On a type without a Scan method an inline case that applies does what the
    setter would. *)
Ltac oid_cases H :=
  repeat match type of H with
         | context [if ?b then _ else _] => let E := fresh "E" in destruct b eqn:E; try done
         | context [match ?k with KInt => _ | _ => _ end] => destruct k; try done
         end.
Lemma run_op_eq oid fmt t s raw v old : (∀ id u, t ≠ TScanner id u) → pickSetter Scan t oid fmt = inr s →
  run_op (inlineOpFor oid fmt t) raw = Some v → s old (Some raw) = Ret v.
Proof.
  intros Ht Hs H. unfold inlineOpFor in H. destruct (fmt =? 1) eqn:Ef; cbn [negb] in H; [|done].
  assert (under t = t) as Hu by (destruct t; try done; exfalso; by eapply Ht). rewrite Hu in H.
  assert (pickBinarySetter oid t = inr s) as Hp.
  { apply Z.eqb_eq in Ef as ->. destruct t; try done; cbn [pickSetter] in Hs.
    destruct (is_byte t); [|done]. by rewrite andb_false_r in Hs. }
  clear Hs Ht Ef. unfold pickBinarySetter, no_setter, is_byte_slice in Hp. rewrite Hu in Hp. clear Hu.
  destruct t as [|k| | | | | | |e| | | | |]; try done; oid_cases H;
    repeat match goal with
    | E : (oid =? _) = true |- _ => apply Z.eqb_eq in E; subst oid
    | E : oid_in oid _ = true |- _ => apply oid_in_In in E; cbn in E; destruct_or? E; subst; try done
    end.
  all: repeat match type of Hp with
         | context [if ?b then _ else _] =>
             let b' := eval vm_compute in b in
             match b' with true => idtac | false => idtac end; change b with b' in Hp; cbv iota in Hp
         end.
  all: try match goal with E : negb (is_byte _) = false |- _ => apply negb_false_iff in E; rewrite E in Hp end.
  all: injection Hp as <-; cbn in H.
  all: unfold intSetter, float4Setter, float8Setter, sized, boolSetter, stringSetter, byteSliceSetter, be_int in *.
  all: repeat case_match; simplify_eq; cbn; rewrite ?int64_int32, ?int64_int16, ?int32_int16, ?int64_idem, ?int32_idem, ?int16_idem; done.
Qed.

(** *** Rows *)

Lemma fill_columns_ok t : scans_typed Scan → ∀ sp body row row', plan_ok t sp → has_type t row →
  fill_columns sp body row = Ret row' → has_type t row'.
Proof.
  intros HS. induction sp as [|o sp IH]; intros body row row' Hp Hr H; cbn [fill_columns] in H; [by simplify_eq|].
  apply Forall_cons in Hp as [Ho Hp]. destruct (scan_cell body) as [|[raw rest]]; [done|].
  destruct o as [s|]; [|by eapply IH]. destruct (Ho s eq_refl) as (u & oid & fmt & Ht & Hs & Hop).
  destruct (set_field _ _ _) as [v| | |] eqn:E; try done. eapply IH; [done| |done]. eapply store_path_ok; [done..|].
  unfold set_field in E. rewrite Hop in E. destruct (match raw with Some raw => run_op _ raw | None => None end) eqn:Er.
  - simplify_eq. destruct raw; [|done]. by eapply run_op_ok.
  - eapply pickSetter_ok; [done|done| |done]. by eapply fetch_path_ok.
Qed.

(** The same plan without its inline cases. *)
Definition slow (sp : structPlan) : structPlan := map (option_map (λ s, mkFS (fs_path s) (fs_set s) opFallback)) sp.

Lemma fill_columns_slow sp :
  Forall (λ o, ∀ s, o = Some s → ∀ old raw v, run_op (fs_op s) raw = Some v → fs_set s old (Some raw) = Ret v) sp →
  ∀ body row, fill_columns (slow sp) body row = fill_columns sp body row.
Proof.
  induction 1 as [|o sp Ho _ IH]; intros body row; cbn; [done|]. destruct (scan_cell body) as [|[raw rest]]; [done|].
  destruct o as [s|]; cbn; [|done].
  assert (set_field (mkFS (fs_path s) (fs_set s) opFallback) (fetch_path row (fs_path s)) raw =
          set_field s (fetch_path row (fs_path s)) raw) as ->.
  { unfold set_field. cbn. destruct raw as [raw|]; [|done]. cbn. destruct (run_op (fs_op s) raw) eqn:E; [|done].
    by apply (Ho s). }
  by destruct (set_field _ _ _).
Qed.
End Plans.

(** No field of the struct, however deep, has a defined type with a Scan
    method. *)
Fixpoint no_scanners (t : gotype) : bool :=
  match t with TScanner _ _ => false | TStruct fs => forallb (λ f, no_scanners f.2) fs | _ => true end.
Lemma no_scanners_at p : ∀ t u, no_scanners t = true → type_at t p u → no_scanners u = true.
Proof.
  induction p as [|i p IH]; intros t u Ht; cbn; [by intros <-|]. intros (f & ft & Hi & Hu). eapply IH; [|done].
  unfold sub_fields in Hi. destruct t as [| | | | | |n| | | | |fs| |]; try done; cbn in Hi.
  - destruct i as [|[|]]; cbn in Hi; simplify_eq; [by destruct n|done].
  - do 8 (destruct i; cbn in Hi; [by simplify_eq|]). done.
  - cbn in Ht. rewrite forallb_forall in Ht. apply (Ht (f, ft)). apply list_elem_of_lookup_2 in Hi. by apply list_elem_of_In.
Qed.

(** ** The theorems *)

(** C9. Scanning is type safe: with Scan methods that keep to their own type,
    filling a struct of type [t] through the plan built for it, from any bytes
    at all, leaves a value of type [t].  Every write through a field's offset,
    inline or by a setter, is of the field's type; an integer's is as wide as the
    field and in its range. *)
Theorem scan_type_safe Scan ToLower t plan sp row body row' : scans_typed Scan →
  buildStructPlan Scan ToLower t plan = inr sp → has_type t row → fillStructRow row body sp = Ret row' → has_type t row'.
Proof.
  intros HS Hb Hr H. apply buildStructPlan_ok in Hb as [Hp _]. unfold fillStructRow in H. cbv zeta in H.
  do 2 (case_match; [done|]). by eapply fill_columns_ok.
Qed.

(** A struct with an embedded struct, a NULL-able field, a slice and a field
    with a Scan method, and a plan for it. *)
Definition ascii_lower (s : bytes) : bytes :=
  map (λ c, if (65 <=? byteZ c) && (byteZ c <=? 90) then mkbyte (byteZ c + 32) else c) s.
Definition demo_struct : gotype :=
  TStruct [(mkField (str "Base") None true true, TStruct [(plain (str "At"), TTime)]);
           (mkField (str "ID") (Some (str "user_id")) false true, TInt KInt32);
           (plain (str "Name"), TNull NullString); (plain (str "Tags"), TSlice TString);
           (plain (str "Mood"), TScanner 0 TString)].
Definition scan_column (name : string) (oid : OID) : Column := mkColumn (str name) 0 0 oid 0 0 1 (Pick oid) [] [].
Definition scan_columns : list Column :=
  [scan_column "user_id" OIDInt4; scan_column "NAME" OIDText; scan_column "extra" OIDInt8; scan_column "at" OIDTimestampTZ;
   scan_column "tags" 1009].
Definition scan_plan (cols : list Column) : Plan := mkPlan cols [] [].
Definition demo_scan (id : nat) (t : gotype) (old : goval) (d : dvalue) : res goval := Ret (zero t).
Definition demo_sp (t : gotype) (cols : list Column) : structPlan :=
  match buildStructPlan demo_scan ascii_lower t (scan_plan cols) with inr sp => sp | inl _ => [] end.
Definition scan_body : bytes :=
  x00 :: x05 :: be_put 4 4 ++ be_put 4 7 ++ be_put 4 3 ++ str "ana" ++ be_put 4 (-1) ++ be_put 4 8 ++ be_put 8 1500000 ++
  be_put 4 29 ++ be_put 4 1 ++ be_put 4 0 ++ be_put 4 25 ++ be_put 4 1 ++ be_put 4 1 ++ be_put 4 5 ++ str "a b c".
Definition scan_row : goval :=
  GStruct [GStruct [GTime 946684801 500000000]; GInt 4 7; GStruct [GString (str "ana"); GBool true]; GSlice (Some [GString (str "a b c")]);
           GString []].

Lemma demo_scan_typed : scans_typed demo_scan.
Proof. intros id t old d v _ [= <-]. apply zero_ok. Qed.

Definition planned (t : gotype) (cols : list Column) : bool :=
  match buildStructPlan demo_scan ascii_lower t (scan_plan cols) with inr _ => true | inl _ => false end.
Lemma demo_sp_ok t cols : planned t cols = true → buildStructPlan demo_scan ascii_lower t (scan_plan cols) = inr (demo_sp t cols).
Proof. unfold planned, demo_sp. by destruct (buildStructPlan _ _ _ _). Qed.

Lemma scan_type_safe_witness : fillStructRow (zero demo_struct) scan_body (demo_sp demo_struct scan_columns) = Ret scan_row ∧
  has_type demo_struct scan_row.
Proof.
  split; [vm_compute; reflexivity|].
  apply (scan_type_safe demo_scan ascii_lower demo_struct (scan_plan scan_columns) (demo_sp demo_struct scan_columns)
    (zero demo_struct) scan_body); [apply demo_scan_typed|apply demo_sp_ok; reflexivity|apply zero_ok|vm_compute; reflexivity].
Defined.

(** C20. The inline fast path is only faster: for a struct none of whose fields
    has a Scan method, a row gives the same result, error or panic as it does
    through the setters alone, integers written at the same width included. *)
Theorem inline_equals_setters Scan ToLower t plan sp row body : no_scanners t = true →
  buildStructPlan Scan ToLower t plan = inr sp → fillStructRow row body sp = fillStructRow row body (slow sp).
Proof.
  intros Ht Hb. apply buildStructPlan_ok in Hb as [Hp _]. unfold fillStructRow. cbv zeta.
  assert (Zlen (slow sp) = Zlen sp) as -> by (unfold Zlen, slow; by rewrite length_map). repeat (case_match; [done|]). symmetry.
  apply fill_columns_slow. eapply Forall_impl; [exact Hp|]. intros o Ho s Hs old raw v Hv.
  destruct (Ho s Hs) as (u & oid & fmt & Hu & Hset & Hop). rewrite Hop in Hv.
  eapply run_op_eq; [|done|done]. intros id w ->. by apply (no_scanners_at _ _ _ Ht) in Hu.
Qed.

Definition plain_struct : gotype := TStruct [(plain (str "Id"), TInt KInt64); (plain (str "Name"), TString)].
Definition plain_columns : list Column := [scan_column "id" OIDInt4; scan_column "name" OIDText].
Definition plain_body (id : Z) (name : bytes) : bytes :=
  x00 :: x02 :: be_put 4 4 ++ be_put 4 id ++ be_put 4 (Zlen name) ++ name.

Lemma inline_equals_setters_witness :
  fillStructRow (zero plain_struct) (plain_body (-3) (str "bo")) (demo_sp plain_struct plain_columns) =
    Ret (GStruct [GInt 8 (-3); GString (str "bo")]) ∧
  fillStructRow (zero plain_struct) (plain_body (-3) (str "bo")) (demo_sp plain_struct plain_columns) =
  fillStructRow (zero plain_struct) (plain_body (-3) (str "bo")) (slow (demo_sp plain_struct plain_columns)).
Proof.
  split; [vm_compute; reflexivity|].
  apply (inline_equals_setters demo_scan ascii_lower plain_struct (scan_plan plain_columns)); [reflexivity|by apply demo_sp_ok].
Defined.

(** With a Scan method it is not: a defined string type's Scan is never
    called on a text cell, although its setter would call it. *)
Theorem inline_bypasses_Scan Scan id old raw : ∃ set,
  pickSetter Scan (TScanner id TString) OIDText 1 = inr set ∧ set old (Some raw) = Scan id TString old (DString raw) ∧
  set_field (mkFS [0%nat] set (inlineOpFor OIDText 1 (TScanner id TString))) old (Some raw) = Ret (GString raw).
Proof. by exists (scannerSetter Scan id TString OIDText 1). Qed.
