(* ===== verification/ScanQuery.v ===== *)
(** pgz/scan.go, the part about queries: ScanStruct, which collects the rows of
    a SELECT as values of a struct type, and ScanStructBatched, which hands them
    to a callback a batch at a time.  The slice the source grows, or reuses for
    every batch, is the list of the rows filled so far; a slot not filled yet,
    or cleared after its batch, is the type's zero value. *)
From S2P Require Import Prelude Protocol Errors Effects Wire Rows Args StmtCache Stream Client Query QuerySpec.
From S2P Require Import Conn Iter Scan ScanSpec.

(** A pure result inside a computation. *)
Definition of_res {S A} (r : res A) : prog S A := λ s, (r, s).

Section Queries.
Context (Scan : nat → gotype → goval → dvalue → res goval) (ToLower : bytes → bytes).

(** ** bindExecuteScan *)

Record filling := mkFill { f_rows : list goval; f_sp : structPlan; f_err : option PGError }.

(** A RowDescription while executing: the statement's plan, and the struct's. *)
Definition replan (t : gotype) (r : nat) (body : bytes) : client structPlan :=
  st ← load r;
  p ← of_sum (ParseRowDescriptionForFormats body (st_resultFmts st));
  _ ← set_plan r p;
  of_sum (buildStructPlan Scan ToLower t p).

Definition scan_step (ty : gotype) (r : nat) (a : filling) (t : byte) (body : bytes) : client (filling + list goval) :=
  if beq t MsgBindComplete then again a
  else if beq t MsgDataRow then
    row ← of_res (fillStructRow (zero ty) body (f_sp a));
    again (mkFill (f_rows a ++ [row]) (f_sp a) (f_err a))
  else if beq t MsgCommandComplete || beq t MsgEmptyQueryResponse || beq t MsgPortalSuspended ||
          beq t MsgCloseComplete then again a
  else if beq t MsgRowDescription then sp ← replan ty r body; again (mkFill (f_rows a) sp (f_err a))
  else if beq t MsgNoticeResponse then _ ← on_notice body; again a
  else if beq t MsgParameterStatus then _ ← on_parameter body; again a
  else if beq t MsgErrorResponse then again (mkFill (f_rows a) (f_sp a) (Some (Parse body)))
  else if beq t MsgReadyForQuery then
    _ ← modify (set_lastRows (Zlen (f_rows a)));
    match f_err a with Some e => throw (EPg e) | None => leave (f_rows a) end
  else throw (EFmt "pgz: unexpected msg during scan" [byteZ t]).

Definition bindExecuteScan (r : nat) (args : list goarg) (sp : structPlan) (t : gotype) : client (list goval) :=
  st ← load r;
  _ ← wire (bindMessages st args);
  for_messages (scan_step t r) (mkFill [] sp None).

(** ** bindExecuteScanBatched *)

Section Batched.
Context {H : Type} (batchSize : Z) (cb : list goval → prog H unit).

Record batching := mkBatching { b_batch : list goval; b_total : Z; b_sp : structPlan; b_err : option PGError; b_cbErr : option gerror }.

Definition flush (a : batching) : prog (Client * H) batching :=
  match b_batch a with
  | [] => mret a
  | batch => _ ← ow (cb batch); mret (mkBatching [] (b_total a) (b_sp a) (b_err a) (b_cbErr a))
  end.

Definition batched_step (ty : gotype) (r : nat) (a : batching) (t : byte) (body : bytes) : prog (Client * H) (batching + unit) :=
  if beq t MsgBindComplete then again a
  else if beq t MsgDataRow then
    match b_cbErr a with
    | Some _ => again a
    | None =>
        row ← of_res (fillStructRow (zero ty) body (b_sp a));
        let a := mkBatching (b_batch a ++ [row]) (b_total a + 1) (b_sp a) (b_err a) None in
        if Zlen (b_batch a) =? batchSize then
          x ← catch (flush a);
          match x with
          | inr a => again a
          | inl e =>
              _ ← catch (cl SendCancel);
              again (mkBatching (b_batch a) (b_total a) (b_sp a) (b_err a) (Some e))
          end
        else again a
    end
  else if beq t MsgCommandComplete || beq t MsgEmptyQueryResponse || beq t MsgPortalSuspended ||
          beq t MsgCloseComplete then again a
  else if beq t MsgRowDescription then
    sp ← cl (replan ty r body);
    again (mkBatching (b_batch a) (b_total a) sp (b_err a) (b_cbErr a))
  else if beq t MsgNoticeResponse then _ ← cl (on_notice body); again a
  else if beq t MsgParameterStatus then _ ← cl (on_parameter body); again a
  else if beq t MsgErrorResponse then again (mkBatching (b_batch a) (b_total a) (b_sp a) (Some (Parse body)) (b_cbErr a))
  else if beq t MsgReadyForQuery then
    _ ← cl (modify (set_lastRows (b_total a)));
    match b_cbErr a, b_err a with
    | Some e, _ => throw e
    | None, Some e => throw (EPg e)
    | None, None => _ ← flush a; leave tt
    end
  else throw (EFmt "pgz: unexpected msg during batched scan" [byteZ t]).

Definition bindExecuteScanBatched (r : nat) (args : list goarg) (sp : structPlan) (t : gotype) : prog (Client * H) unit :=
  st ← cl (load r);
  _ ← cl (wire (bindMessages st args));
  loop_query (batched_step t r) (mkBatching [] 0 sp None None).
End Batched.

(** ** The calls *)

Section Calls.
Context {MO : MapOrder}.

(** [buildStructPlan(tType, st.plan)], the plan of a statement that Exec
    or a batch cached being nil when it returns no rows. *)
Definition struct_plan (t : gotype) (r : nat) : client structPlan :=
  st ← load r;
  match st_plan st with None => panic | Some p => of_sum (buildStructPlan Scan ToLower t p) end.

(** [for attempt := 0; attempt < 2; attempt++]: the second always returns. *)
Fixpoint scan_loop (attempts : nat) (first : bool) (t : gotype) (sql : bytes) (args : list goarg) : client (list goval) :=
  match attempts with
  | O => mret []
  | S attempts =>
      rc ← raw_obtain sql;
      let fromCache : bool := snd rc in
      sp ← struct_plan t (fst rc);
      x ← catch (bindExecuteScan (fst rc) args sp t);
      match x with
      | inr rows => mret rows
      | inl e =>
          if first && fromCache && isStaleStmtError e then
            _ ← cache_invalidate sql; scan_loop attempts false t sql args
          else throw e
      end
  end.

(** A DefaultQueryTimeout is part of [ctx]. *)
Definition ScanStruct (ctx : context) (t : gotype) (sql : bytes) (args : list goarg) : client (list goval) :=
  _ ← of_sum (rejectNonSelect sql);
  _ ← attachContext ctx;
  if is_struct t then scan_loop 2 true t sql args
  else throw (EFmt "pgz: ScanStruct[T] requires T to be a struct" []).

Fixpoint batched_loop {H : Type} (cb : list goval → prog H unit) (batchSize : Z) (attempts : nat) (first : bool) (t : gotype)
    (sql : bytes) (args : list goarg) : prog (Client * H) unit :=
  match attempts with
  | O => mret tt
  | S attempts =>
      rc ← cl (raw_obtain sql);
      let fromCache : bool := snd rc in
      sp ← cl (struct_plan t (fst rc));
      x ← catch (bindExecuteScanBatched batchSize cb (fst rc) args sp t);
      match x with
      | inr _ => mret tt
      | inl e =>
          if first && fromCache && isStaleStmtError e then
            _ ← cl (cache_invalidate sql); batched_loop cb batchSize attempts false t sql args
          else throw e
      end
  end.

(** The callback is [None] when it is nil. *)
Definition ScanStructBatched {H : Type} (ctx : context) (batchSize : Z) (cb : option (list goval → prog H unit)) (t : gotype)
    (sql : bytes) (args : list goarg) : prog (Client * H) unit :=
  if batchSize <=? 0 then throw (EFmt "pgz: ScanStructBatched requires batchSize > 0" [])
  else
    match cb with
    | None => throw (EFmt "pgz: ScanStructBatched requires a non-nil callback" [])
    | Some cb =>
        _ ← of_sum (rejectNonSelect sql);
        _ ← cl (attachContext ctx);
        if is_struct t then batched_loop cb batchSize 2 true t sql args
        else throw (EFmt "pgz: ScanStructBatched[T] requires T to be a struct" [])
    end.
End Calls.
End Queries.

(** ** Specification *)

Definition scan_ok (r : reply) : Prop :=
  msg_ok (reply_msg r) ∧ match r with RNeutral t _ => execute_neutral t = true | _ => True end.

(** The row a DataRow with these cells fills. *)
Definition fills (t : gotype) (sp : structPlan) (cells : list (option bytes)) (row : goval) : Prop :=
  fillStructRow (zero t) (data_row cells) sp = Ret row.

(** The last batch: what is left over, unless the server failed. *)
Definition last_batch (e : option PGError) (rem : list goval) : list (list goval) :=
  match e, rem with None, _ :: _ => [rem] | _, _ => [] end.

Definition request (st : preparedStmt) (args : list goarg) (vals : list (option bytes)) : bytes :=
  frame MsgBind (bind_body st args vals) ++ frame MsgExecute [x00; x00; x00; x00; x00] ++ frame MsgSync [].

(** ** Lemmas *)

Section Lemmas.
Context (Scan : nat → gotype → goval → dvalue → res goval) (ToLower : bytes → bytes).

Lemma neutral_cases t : execute_neutral t = true → t = MsgBindComplete ∨
  (beq t MsgBindComplete = false ∧ beq t MsgDataRow = false ∧
   beq t MsgCommandComplete || beq t MsgEmptyQueryResponse || beq t MsgPortalSuspended || beq t MsgCloseComplete = true).
Proof.
  unfold execute_neutral. intros H. destruct (beq t MsgBindComplete) eqn:E; [left; by apply beq_true|right].
  split; [done|]. split; [|done]. destruct (beq t MsgDataRow) eqn:E1; [|done]. by apply beq_true in E1 as ->.
Qed.

(** *** ScanStruct *)

Lemma scan_step_other ty r x a c : scan_ok x → (∀ cells, x ≠ RRow cells) →
  scan_step Scan ToLower ty r a (reply_msg x).1 (reply_msg x).2 c =
  (Ret (inl (match x with RError b => mkFill (f_rows a) (f_sp a) (Some (Parse b)) | _ => a end)), react c x).
Proof.
  intros [_ Hx] Hn. destruct x as [cells|t b|b|b|b]; cbn [reply_msg fst snd]; [by destruct (Hn cells)| |done..].
  unfold scan_step. destruct (neutral_cases t Hx) as [-> | (-> & -> & ->)]; done.
Qed.

Lemma scan_reads ty r sp z rest onerr : msg_ok (MsgReadyForQuery, z) → ∀ rs rows a fuel c, (length rs < fuel)%nat →
  Forall scan_ok rs → Forall2 (fills ty sp) (rows_of rs) rows → f_sp a = sp →
  inbound (conn c) = wire_of (map reply_msg rs) ++ frame MsgReadyForQuery z ++ rest →
  ∃ k, conn_at rest (conn c) k ∧
    read_loop (wire ReadMessage) (scan_step Scan ToLower ty r) onerr fuel a c =
    (match error_of (f_err a) rs with Some e => Err (EPg e) | None => Ret (f_rows a ++ rows) end,
     set_lastRows (Zlen (f_rows a ++ rows)) (set_conn k (reacts c rs))).
Proof.
  intros Hz rs. induction rs as [|x rs IH]; intros rows a fuel c Hf Hok Hrows Hsp Hin; destruct fuel as [|fuel]; try (cbn in Hf; lia);
    cbn [read_loop].
  - cbn in Hin, Hrows. inversion Hrows; subst. destruct (wire_read_frame c _ z rest Hin Hz) as (k & E & Hk). exists k. split; [done|].
    unfold mbind, prog_bind, catch. rewrite E, app_nil_r. cbn [error_of]. destruct a as [rows sp [e|]]; done.
  - apply Forall_cons in Hok as [Hx Hok]. unfold wire_of in Hin. cbn [map concat] in Hin. rewrite <- app_assoc in Hin.
    fold (wire_of (map reply_msg rs)) in Hin.
    destruct (wire_read_frame c _ _ _ Hin ltac:(destruct Hx; by destruct (reply_msg x))) as (k & E & Hk).
    assert (∀ a1 rows1, Forall2 (fills ty sp) (rows_of rs) rows1 → f_sp a1 = sp →
      scan_step Scan ToLower ty r a (reply_msg x).1 (reply_msg x).2 (set_conn k c) = (Ret (inl a1), react (set_conn k c) x) →
      error_of (f_err a1) rs = error_of (f_err a) (x :: rs) → f_rows a1 ++ rows1 = f_rows a ++ rows →
      ∃ k, conn_at rest (conn c) k ∧
      (m ← catch (wire ReadMessage); match m with inl e => onerr a e | inr (t, body) =>
         r0 ← scan_step Scan ToLower ty r a t body; match r0 with inl a0 => read_loop (wire ReadMessage) (scan_step Scan ToLower ty r) onerr fuel a0 | inr x0 => mret x0 end end) c =
      (match error_of (f_err a) (x :: rs) with Some e => Err (EPg e) | None => Ret (f_rows a ++ rows) end,
       set_lastRows (Zlen (f_rows a ++ rows)) (set_conn k (reacts c (x :: rs))))) as Hgo.
    { intros a1 rows1 H1 H2 Hs He Hr. destruct (IH rows1 a1 fuel (set_conn k (react c x))) as (k1 & K1 & E1); try done.
      { cbn in Hf. lia. }
      { by apply (conn_at_in _ _ _ Hk). }
      exists k1. split; [by eapply conn_at_trans|]. unfold mbind, prog_bind, catch. rewrite E. cbv iota beta. rewrite Hs, react_conn.
      rewrite <- He, <- Hr. etransitivity; [exact E1|]. unfold reacts. cbn [fold_left]. fold (reacts (react c x) rs).
      fold (reacts (set_conn k (react c x)) rs). by rewrite reacts_conn. }
    assert ((∃ cells, x = RRow cells) ∨ ∀ cells, x ≠ RRow cells) as [[cells ->]|Hn] by (destruct x; [left; by eexists|by right..]).
    + cbn [rows_of] in Hrows. apply Forall2_cons_inv_l in Hrows as (row & rows1 & Hrow & Hrows & ->).
      apply (Hgo (mkFill (f_rows a ++ [row]) (f_sp a) (f_err a)) rows1); try done.
      * cbn [reply_msg fst snd]. unfold scan_step. rewrite Hsp.
        change (beq MsgDataRow MsgBindComplete) with false. change (beq MsgDataRow MsgDataRow) with true. cbv iota.
        unfold mbind, prog_bind, of_res. unfold fills in Hrow. by rewrite Hrow.
      * cbn. by rewrite <- app_assoc.
    + assert (rows_of (x :: rs) = rows_of rs) as Hro by (destruct x; try done; by destruct (Hn cells)). rewrite Hro in Hrows.
      eapply Hgo; [exact Hrows| |by apply scan_step_other| |]; by destruct x.
Qed.
End Lemmas.

(** *** ScanStructBatched *)

Section Batches.
Context (Scan : nat → gotype → goval → dvalue → res goval) (ToLower : bytes → bytes).
Context {H : Type} (n : Z) (cb : list goval → prog H unit) (ty : gotype) (r : nat).

Abbreviation bstep := (batched_step Scan ToLower n cb ty r).

Definition note_err (a : batching) (x : reply) : batching :=
  match x with RError b => mkBatching (b_batch a) (b_total a) (b_sp a) (Some (Parse b)) (b_cbErr a) | _ => a end.

Lemma batched_step_other x a c (h : H) : scan_ok x → (∀ cells, x ≠ RRow cells) →
  bstep a (reply_msg x).1 (reply_msg x).2 (c, h) = (Ret (inl (note_err a x)), (react c x, h)).
Proof.
  intros [_ Hx] Hn. destruct x as [cells|t b|b|b|b]; cbn [reply_msg fst snd]; [by destruct (Hn cells)| |done..].
  unfold batched_step. destruct (neutral_cases t Hx) as [-> | (-> & -> & ->)]; done.
Qed.

(** How a run ends: the callback's state, and the client, which has only read. *)
Definition only_read (c c' : Client) : Prop :=
  conn_at (inbound (conn c')) (conn c) (conn c') ∧ stmts c' = stmts c ∧ cfg c' = cfg c.
Definition ends (rest : bytes) (c : Client) (e : res unit) (h : H) (x : res unit * (Client * H)) : Prop :=
  ∃ c', x = (e, (c', h)) ∧ inbound (conn c') = rest ∧ only_read c c'.

Lemma only_read_trans c c1 c2 : only_read c c1 → only_read c1 c2 → only_read c c2.
Proof. intros (H1 & H2 & H3) (H4 & H5 & H6). split; [by eapply conn_at_trans|]. split; congruence. Qed.
Lemma only_read_react rest k c x : conn_at rest (conn c) k → only_read c (react (set_conn k c) x).
Proof.
  intros Hk. destruct (react_same (set_conn k c) x) as (H1 & H2 & H3). split; [|done]. rewrite H3. cbn [conn set_conn]. by eapply conn_at_self.
Qed.
Lemma only_read_conn rest k c : conn_at rest (conn c) k → only_read c (set_conn k c).
Proof. intros Hk. split; [by eapply conn_at_self|done]. Qed.

Lemma ends_from rest c c1 e h x : only_read c c1 → ends rest c1 e h x → ends rest c e h x.
Proof. intros Hs (c' & E & Hi & Hse). exists c'. split; [done|]. split; [done|]. by eapply only_read_trans. Qed.

Lemma ends_at rest k c n0 e h : conn_at rest (conn c) k → ends rest c e h (e, (set_lastRows n0 (set_conn k c), h)).
Proof. intros Hk. eexists. split; [done|]. split; [by destruct Hk|]. split; [by eapply conn_at_self|done]. Qed.

(** After the callback's error nothing is filled and nothing delivered. *)
Lemma batched_drain z rest onerr e : msg_ok (MsgReadyForQuery, z) → ∀ rs a fuel c h, (length rs < fuel)%nat →
  Forall scan_ok rs → b_cbErr a = Some e →
  inbound (conn c) = wire_of (map reply_msg rs) ++ frame MsgReadyForQuery z ++ rest →
  ends rest c (Err e) h (read_loop (cl (wire ReadMessage)) bstep onerr fuel a (c, h)).
Proof.
  intros Hz rs. induction rs as [|x rs IH]; intros a fuel c h Hf Hok He Hin; destruct fuel as [|fuel]; try (cbn in Hf; lia).
  - cbn in Hin. destruct (loop_round bstep onerr fuel a c h _ _ _ Hin Hz) as (k & Hk & ->).
    unfold batched_step. cbn. rewrite He. by eapply ends_at.
  - apply Forall_cons in Hok as [Hx Hok]. unfold wire_of in Hin. cbn [map concat] in Hin. rewrite <- app_assoc in Hin.
    fold (wire_of (map reply_msg rs)) in Hin.
    destruct (loop_round bstep onerr fuel a c h _ _ _ Hin ltac:(destruct Hx; by destruct (reply_msg x))) as (k & Hk & ->).
    assert (∃ a1, bstep a (reply_msg x).1 (reply_msg x).2 (set_conn k c, h) = (Ret (inl a1), (react (set_conn k c) x, h)) ∧ b_cbErr a1 = Some e) as (a1 & -> & He1).
    { assert ((∃ cells, x = RRow cells) ∨ ∀ cells, x ≠ RRow cells) as [[cells ->]|Hn] by (destruct x; [left; by eexists|by right..]).
      - exists a. split; [|done]. cbn [reply_msg fst snd]. unfold batched_step.
        change (beq MsgDataRow MsgBindComplete) with false. change (beq MsgDataRow MsgDataRow) with true. cbv iota. by rewrite He.
      - exists (note_err a x). rewrite batched_step_other by done. by destruct x. }
    cbn [after]. eapply (ends_from rest c (react (set_conn k c) x)); [by eapply only_read_react|].
    apply IH; [cbn in Hf; lia|done|done|by rewrite react_conn; destruct Hk].
Qed.

(** The batches of [rows], [pending] ones being in the current batch. *)
Definition batches_of (pending rows : list goval) (bs : list (list goval)) (rem : list goval) : Prop :=
  concat bs ++ rem = pending ++ rows ∧ Forall (λ b, Zlen b = n) bs ∧ Zlen rem < n.

Lemma SendCancel_ok c (h : H) : ∃ c' x, catch (cl SendCancel) (c, h) = (Ret x, (c', h)) ∧ conn c' = conn c ∧ stmts c' = stmts c ∧ cfg c' = cfg c.
Proof. unfold catch, cl, zoom, SendCancel, mbind, prog_bind, ask. cbn [fst snd]. destruct (pid c =? 0); by eexists _, _. Qed.

(** What the callback, given these batches in order, makes of the query. *)
Definition delivered (rest : bytes) (c : Client) (e : option PGError) (bs : list (list goval)) (h : H)
    (x : res unit * (Client * H)) : Prop :=
  match mapM_ cb bs h with
  | (Ret _, h) => ends rest c (match e with Some e => Err (EPg e) | None => Ret tt end) h x
  | (Err e, h) => ends rest c (Err e) h x
  | _ => True
  end.

Lemma batched_reads z rest onerr sp : msg_ok (MsgReadyForQuery, z) → ∀ rs rows a fuel c h, (length rs < fuel)%nat →
  Forall scan_ok rs → Forall2 (fills ty sp) (rows_of rs) rows → b_sp a = sp → b_cbErr a = None → Zlen (b_batch a) < n →
  inbound (conn c) = wire_of (map reply_msg rs) ++ frame MsgReadyForQuery z ++ rest →
  ∃ bs rem, batches_of (b_batch a) rows bs rem ∧
    delivered rest c (error_of (b_err a) rs) (bs ++ last_batch (error_of (b_err a) rs) rem) h
      (read_loop (cl (wire ReadMessage)) bstep onerr fuel a (c, h)).
Proof.
  intros Hz rs. induction rs as [|x rs IH]; intros rows a fuel c h Hf Hok Hrows Hsp Hcb Hn Hin; destruct fuel as [|fuel]; try (cbn in Hf; lia).
  - cbn in Hin, Hrows. inversion Hrows; subst. exists [], (b_batch a). split; [split; [by rewrite app_nil_r|done]|].
    destruct (loop_round bstep onerr fuel a c h _ _ _ Hin Hz) as (k & Hk & ->).
    unfold batched_step, delivered, flush. cbn. rewrite Hcb. destruct a as [batch tot sp [e|] cbe]; cbn; [by eapply ends_at|].
    destruct batch as [|v batch]; [by eapply ends_at|]. cbn [mapM_]. unfold ow, zoom, mbind, prog_bind. cbn [fst snd].
    cbn. destruct (cb (v :: batch) h) as [[] h1]; try done; by eapply ends_at.
  - apply Forall_cons in Hok as [Hx Hok]. unfold wire_of in Hin. cbn [map concat] in Hin. rewrite <- app_assoc in Hin.
    fold (wire_of (map reply_msg rs)) in Hin.
    destruct (loop_round bstep onerr fuel a c h _ _ _ Hin ltac:(destruct Hx; by destruct (reply_msg x))) as (k & Hk & ->). pose proof Hk as (K1 & K2 & _).
    assert ((∃ cells, x = RRow cells) ∨ ∀ cells, x ≠ RRow cells) as [[cells ->]|Hnr] by (destruct x; [left; by eexists|by right..]).
    + cbn [rows_of] in Hrows. apply Forall2_cons_inv_l in Hrows as (row & rows1 & Hrow & Hrows & ->).
      set (a1 := mkBatching (b_batch a ++ [row]) (b_total a + 1) (b_sp a) (b_err a) None).
      assert (bstep a (reply_msg (RRow cells)).1 (reply_msg (RRow cells)).2 (set_conn k c, h) =
        (if Zlen (b_batch a1) =? n then
          x ← catch (flush cb a1);
          match x with inr a => again a
          | inl e => _ ← catch (cl SendCancel); again (mkBatching (b_batch a1) (b_total a1) (b_sp a1) (b_err a1) (Some e)) end
        else again a1) (set_conn k c, h)) as ->.
      { cbn [reply_msg fst snd]. unfold batched_step. change (beq MsgDataRow MsgBindComplete) with false.
        change (beq MsgDataRow MsgDataRow) with true. cbv iota. rewrite Hcb, Hsp. unfold mbind at 1, prog_bind at 1, of_res.
        unfold fills in Hrow. rewrite Hrow. unfold a1. by rewrite Hsp. }
      cbn [error_of].
      assert (Zlen (b_batch a1) = Zlen (b_batch a) + 1) as Hl by (unfold a1; cbn; by rewrite Zlen_app).
      destruct (Z.eqb_spec (Zlen (b_batch a1)) n) as [Hfull|Hpart].
      * pose proof (Zlen_nonneg (b_batch a)).
        pose (a2 := mkBatching [] (b_total a1) (b_sp a1) (b_err a1) None).
        destruct (b_batch a1) as [|v batch] eqn:Eb; [by destruct (b_batch a)|].
        assert (flush cb a1 (set_conn k c, h) = match cb (v :: batch) h with
          | (Ret _, h1) => (Ret a2, (set_conn k c, h1)) | (Err e, h1) => (Err e, (set_conn k c, h1))
          | (Panic, h1) => (Panic, (set_conn k c, h1)) | (Stuck, h1) => (Stuck, (set_conn k c, h1)) end) as Ef.
        { unfold flush. rewrite Eb. unfold ow, zoom, mbind, prog_bind. cbn [fst snd]. by destruct (cb (v :: batch) h) as [[] h1]. }
        assert (∀ h1, ∃ bs rem, batches_of [] rows1 bs rem ∧
           delivered rest c (error_of (b_err a) rs) (bs ++ last_batch (error_of (b_err a) rs) rem) h1
             (read_loop (cl (wire ReadMessage)) bstep onerr fuel a2 (set_conn k c, h1))) as Hnext.
        { intros h1. destruct (IH rows1 a2 fuel (set_conn k c) h1) as (bs & rem & Hb & Hd); try done; [cbn in Hf; lia|change (Zlen (b_batch a2)) with 0; lia|].
          exists bs, rem. split; [done|]. unfold delivered in *. unfold a2, a1 in Hd. cbn [b_err] in Hd.
          destruct (mapM_ cb (bs ++ last_batch (error_of (b_err a) rs) rem) h1) as [[] h2]; try done; by eapply (ends_from rest c (set_conn k c)); [by eapply only_read_conn|]. }
        destruct (cb (v :: batch) h) as [o h1] eqn:Ec. destruct (Hnext h1) as (bs & rem & (Hb1 & Hb2 & Hb3) & Hd).
        exists ((v :: batch) :: bs), rem. split.
        { split; [|split; [by constructor|done]]. cbn [concat]. rewrite <- app_assoc, Hb1. cbn [app]. unfold a1 in Eb. cbn in Eb.
          change (v :: batch ++ rows1) with ((v :: batch) ++ rows1). rewrite <- Eb, <- app_assoc. done. }
        unfold delivered. cbn [mapM_ app]. unfold mbind at 1, prog_bind at 1. rewrite Ec.
        destruct o as [[]|e| |]; try done.
        { assert (catch (flush cb a1) (set_conn k c, h) = (Ret (inr a2), (set_conn k c, h1))) as Ef2 by (unfold catch; by rewrite Ef).
          step Ef2. unfold again, mret, prog_ret. cbn [after]. exact Hd. }
        assert (catch (flush cb a1) (set_conn k c, h) = (Ret (inl e), (set_conn k c, h1))) as Ef2 by (unfold catch; by rewrite Ef).
        destruct (SendCancel_ok (set_conn k c) h1) as (c2 & y & E2 & C2 & C3 & C4). step Ef2. step E2. unfold again, mret, prog_ret. cbn [after].
        eapply (ends_from rest c c2); [split; [rewrite C2; by eapply conn_at_self|done]|]. apply (batched_drain z rest onerr e Hz rs); try done; [cbn in Hf; lia|by rewrite C2].
      * destruct (IH rows1 a1 fuel (set_conn k c) h) as (bs & rem & (Hb1 & Hb2 & Hb3) & Hd); try done; [cbn in Hf; lia|lia|].
        exists bs, rem. split; [split; [|done]; rewrite Hb1; unfold a1; cbn; by rewrite <- app_assoc|].
        unfold delivered in *. unfold again, mret, prog_ret. cbn [after].
        change (b_err a1) with (b_err a) in Hd.
        destruct (mapM_ cb (bs ++ last_batch (error_of (b_err a) rs) rem) h) as [[] h2]; try done; by eapply (ends_from rest c (set_conn k c)); [by eapply only_read_conn|].
    + assert (rows_of (x :: rs) = rows_of rs) as Hro by (destruct x; try done; by destruct (Hnr cells)). rewrite Hro in Hrows.
      rewrite batched_step_other by done. cbn [after].
      assert (error_of (b_err (note_err a x)) rs = error_of (b_err a) (x :: rs)) as He by (by destruct x).
      destruct (IH rows (note_err a x) fuel (react (set_conn k c) x) h) as (bs & rem & Hb & Hd); try done;
        [cbn in Hf; lia|by destruct x|by destruct x|by destruct x|by rewrite react_conn|].
      exists bs, rem. split; [by destruct x|]. rewrite He in Hd. unfold delivered in *.
      destruct (mapM_ cb _ h) as [[] h2]; try done; by eapply (ends_from rest c (react (set_conn k c) x)); [by eapply only_read_react|].
Qed.
End Batches.

(** *** From the cache to the rows *)

Section Calls2.
Context {MO : MapOrder} (Scan : nat → gotype → goval → dvalue → res goval) (ToLower : bytes → bytes).

(** The connection once the request is out. *)
Definition asked (st : preparedStmt) (args : list goarg) (vals : list (option bytes)) (c : Client) : Client :=
  set_conn (set_writeBuf [] (set_socket (sent (conn c) ++ writeBuf (conn c) ++ request st args vals) None (conn c))) c.

Lemma ask_ok st args vals c : arg_values (st_paramOIDs st) 0 args = Some vals → room (conn c) = None →
  wire (bindMessages st args) c = (Ret tt, asked st args vals c).
Proof. intros Ha Hr. unfold wire, zoom. by rewrite (bindMessages_ok st args vals (conn c) Hr Ha). Qed.

Lemma obtain_cached sql r c : get sql (stmts c) = Some r → raw_obtain sql c = (Ret (r, true), c).
Proof. intros Hg. unfold raw_obtain, cache_get. step (eq_refl : gets (λ c, get sql (stmts c)) c = (Ret (get sql (stmts c)), c)). by rewrite Hg. Qed.
Lemma struct_plan_ok t r c p sp : st_plan (deref r (stmts c)) = Some p → buildStructPlan Scan ToLower t p = inr sp →
  struct_plan Scan ToLower t r c = (Ret sp, c).
Proof.
  intros Hp Hb. unfold struct_plan, load. step (eq_refl : gets (λ c, deref r (stmts c)) c = (Ret (deref r (stmts c)), c)).
  rewrite Hp, Hb. done.
Qed.

(** A statement in the cache that scans into [t] by [sp]. *)
Record ready (t : gotype) (sql : bytes) (args : list goarg) (c : Client) (r : nat) (sp : structPlan)
    (vals : list (option bytes)) : Prop := {
  rd_get : get sql (stmts c) = Some r;
  rd_plan : ∃ p, st_plan (deref r (stmts c)) = Some p ∧ buildStructPlan Scan ToLower t p = inr sp;
  rd_args : arg_values (st_paramOIDs (deref r (stmts c))) 0 args = Some vals;
  rd_room : room (conn c) = None;
}.

Lemma bindExecuteScan_ok t args c r sp vals rs rows z rest :
  arg_values (st_paramOIDs (deref r (stmts c))) 0 args = Some vals → room (conn c) = None →
  inbound (conn c) = wire_of (map reply_msg rs) ++ frame MsgReadyForQuery z ++ rest →
  Forall scan_ok rs → msg_ok (MsgReadyForQuery, z) → Forall2 (fills t sp) (rows_of rs) rows →
  ∃ k, bindExecuteScan Scan ToLower r args sp t c =
      (match error_of None rs with Some e => Err (EPg e) | None => Ret rows end, set_lastRows (Zlen rows) (set_conn k (reacts c rs))) ∧
    conn_at rest (conn (asked (deref r (stmts c)) args vals c)) k.
Proof.
  intros Ha Hr Hin Hok Hz Hrows. set (st := deref r (stmts c)) in *.
  destruct (scan_reads Scan ToLower t r sp z rest (λ _ e, throw e) Hz rs rows (mkFill [] sp None) (rounds (asked st args vals c)) (asked st args vals c))
    as (k & Hk & E); try done; [unfold rounds; change (inbound (conn (asked st args vals c))) with (inbound (conn c)); rewrite Hin; apply fuel_enough|].
  exists k. split; [|done].
  unfold bindExecuteScan, load. step (eq_refl : gets (λ c, deref r (stmts c)) c = (Ret st, c)).
  step (ask_ok st args vals c Ha Hr). unfold for_messages. rewrite E. unfold asked. by rewrite reacts_conn, set_conn_twice.
Qed.

(** And the execution that hands out batches. *)
Lemma bindExecuteScanBatched_ok {H} n (cb : list goval → prog H unit) t args c h r sp vals rs rows z rest : 0 < n →
  arg_values (st_paramOIDs (deref r (stmts c))) 0 args = Some vals → room (conn c) = None →
  inbound (conn c) = wire_of (map reply_msg rs) ++ frame MsgReadyForQuery z ++ rest →
  Forall scan_ok rs → msg_ok (MsgReadyForQuery, z) → Forall2 (fills t sp) (rows_of rs) rows →
  ∃ bs rem, batches_of n [] rows bs rem ∧
    delivered cb rest (asked (deref r (stmts c)) args vals c) (error_of None rs) (bs ++ last_batch (error_of None rs) rem) h
      (bindExecuteScanBatched Scan ToLower n cb r args sp t (c, h)).
Proof.
  intros Hn Ha Hr Hin Hok Hz Hrows. set (st := deref r (stmts c)) in *. set (c0 := asked st args vals c).
  destruct (batched_reads Scan ToLower n cb t r z rest (λ _ e, throw e) sp Hz rs rows (mkBatching [] 0 sp None None) (rounds c0) c0 h)
    as (bs & rem & Hbs & Hd); try done; [unfold rounds; change (inbound (conn c0)) with (inbound (conn c)); rewrite Hin; apply fuel_enough|].
  exists bs, rem. split; [exact Hbs|].
  unfold bindExecuteScanBatched. assert (cl (load r) (c, h) = (Ret st, (c, h))) as E1 by done. step E1.
  assert (cl (wire (bindMessages st args)) (c, h) = (Ret tt, (c0, h))) as E2
    by (unfold cl, zoom; cbn [fst snd]; by rewrite (ask_ok st args vals c Ha Hr)).
  step E2. exact Hd.
Qed.

End Calls2.

(** ** The theorems *)

(** ScanStruct on a cached statement returns exactly the rows of the reply, each
    filled from a zero value of the type, in order, or the server's error;
    exactly Bind, Execute and Sync are sent, and the reply is consumed exactly
    through ReadyForQuery whatever notices and parameter changes it holds. *)
Theorem ScanStruct_exact {MO : MapOrder} Scan ToLower ctx t sql args c r sp vals rs rows z rest
  (Hcall : rejectNonSelect sql = inr tt ∧ ctx_err ctx 0 = None ∧ is_struct t = true)
  (Hst : ready Scan ToLower t sql args c r sp vals)
  (Hin : inbound (conn c) = wire_of (map reply_msg rs) ++ frame MsgReadyForQuery z ++ rest)
  (Hrs : Forall scan_ok rs ∧ msg_ok (MsgReadyForQuery, z))
  (Hrows : Forall2 (fills t sp) (rows_of rs) rows)
  (Hstale : ∀ e, error_of None rs = Some e → isStaleStmtError (EPg e) = false) :
  ∃ k, ScanStruct Scan ToLower ctx t sql args c =
      (match error_of None rs with Some e => Err (EPg e) | None => Ret rows end,
       set_lastRows (Zlen rows) (set_conn k (reacts c rs))) ∧
    inbound k = rest ∧ sent k = sent (conn c) ++ writeBuf (conn c) ++ request (deref r (stmts c)) args vals.
Proof.
  destruct Hcall as (Hsel & Hctx & Ht), Hrs as (Hok & Hz).
  destruct Hst as [Hg (p & Hp & Hb) Ha Hr].
  destruct (bindExecuteScan_ok Scan ToLower t args c r sp vals rs rows z rest Ha Hr Hin Hok Hz Hrows) as (k & E & Hk).
  exists k. split; [|by destruct Hk as (-> & -> & _)].
  unfold ScanStruct, attachContext. rewrite Hsel, Hctx, Ht. unfold of_sum. rewrite !bind_ret. cbn [scan_loop].
  step (obtain_cached sql r c Hg). cbn [fst snd]. step (struct_plan_ok Scan ToLower t r c p sp Hp Hb).
  unfold mbind, prog_bind, catch. rewrite E. destruct (error_of None rs) as [e|]; [|done]. by rewrite (Hstale e eq_refl).
Qed.

(** *** Witnesses *)

Definition scan_sql : bytes := str "SELECT id, name FROM users".
Definition scan_stmt : preparedStmt := mkStmt (str "s_1") (Some (scan_plan plain_columns)) [1; 1] [OIDInt4].
Definition scan_client (inb : bytes) : Client :=
  set_stmts (put scan_sql 0 (snd (alloc scan_stmt (newStmtCache 4)))) (newClient zero_config (New inb None)).
Definition user_cells (id : Z) (name : string) : list (option bytes) := [Some (be_put 4 id); Some (str name)].
Definition user_row (id : Z) (name : string) : goval := GStruct [GInt 8 id; GString (str name)].
Definition scan_replies : list reply :=
  [RNeutral MsgBindComplete []; RParam (str "k" ++ x00 :: str "v" ++ [x00]); RRow (user_cells 1 "ana"); RRow (user_cells 2 "bo");
   RRow (user_cells 3 "cy"); RNeutral MsgCommandComplete (str "SELECT 3")].
Definition scan_rows : list goval := [user_row 1 "ana"; user_row 2 "bo"; user_row 3 "cy"].
Definition scan_inbound : bytes := wire_of (map reply_msg scan_replies) ++ frame MsgReadyForQuery (str "I") ++ str "later".
Definition scan_ctx : context := {| ctx_err := λ _, None; ctx_deadline := false |}.

Lemma scan_ready : ready demo_scan ascii_lower plain_struct scan_sql [AInt KInt 7] (scan_client scan_inbound) 0%nat
  (demo_sp plain_struct plain_columns) [Some (be_put 4 7)].
Proof.
  split; [reflexivity| |reflexivity|reflexivity]. exists (scan_plan plain_columns). split; [reflexivity|]. by apply demo_sp_ok.
Qed.
Lemma scan_replies_ok : Forall scan_ok scan_replies ∧ msg_ok (MsgReadyForQuery, str "I").
Proof. split; [|discriminate]. repeat constructor; discriminate. Qed.
Lemma scan_rows_fill : Forall2 (fills plain_struct (demo_sp plain_struct plain_columns)) (rows_of scan_replies) scan_rows.
Proof. repeat constructor. Qed.

Lemma ScanStruct_exact_witness :
  ∃ k, ScanStruct demo_scan ascii_lower scan_ctx plain_struct scan_sql [AInt KInt 7] (scan_client scan_inbound) =
      (Ret scan_rows, set_lastRows 3 (set_conn k (reacts (scan_client scan_inbound) scan_replies))) ∧ inbound k = str "later" ∧
    sent k = [] ++ [] ++ request scan_stmt [AInt KInt 7] [Some (be_put 4 7)].
Proof.
  apply (ScanStruct_exact demo_scan ascii_lower scan_ctx plain_struct scan_sql [AInt KInt 7] (scan_client scan_inbound) 0
    (demo_sp plain_struct plain_columns) [Some (be_put 4 7)] scan_replies scan_rows (str "I") (str "later")).
  - split; [vm_compute; reflexivity|]. split; reflexivity.
  - exact scan_ready.
  - reflexivity.
  - exact scan_replies_ok.
  - exact scan_rows_fill.
  - discriminate.
Defined.
