(* ===== verification/Turns.v ===== *)
(** One call on a connection, of each kind that goes through the statement
    cache: the queries that make a document, in memory or streamed; RawQuery
    read to its end and closed; ScanStruct; Exec.  A reference machine whose only
    state is the cache says what a call sends, what the server's script looks
    like, what the call returns and what it leaves cached: for a text the cache
    holds, for one it does not, for one the server refuses to prepare, and for a
    cached statement that has gone stale on the server.  The loop that all of
    them share is proved here once; Calls has the turn theorem of each kind. *)
From S2P Require Import Prelude Protocol JsonWriter JsonGrammar Encoders Errors Effects Wire Rows Args.
From S2P Require Import StmtCache Stream Client Query QuerySpec QueryResult QueryLife Exec Conn Api Iter Talk Scan ScanQuery.

(** ** The calls *)

(** The calls that make a document, in memory or on the caller's writer. *)
Inductive query_call := CQueryJSON | CExecReturningJSON | CStreamJSON | CStreamNDJSON | CStreamColumnar | CStreamTOON | CExecReturning.
Definition mode_of (q : query_call) : Mode :=
  match q with CQueryJSON | CStreamJSON => ModeArray | CStreamColumnar => ModeColumnar | CStreamTOON => ModeTOON | _ => ModeNDJSON end.
Definition guarded (q : query_call) : bool := match q with CExecReturningJSON | CExecReturning => false | _ => true end.
Definition streams (q : query_call) : bool := match q with CQueryJSON | CExecReturningJSON => false | _ => true end.

Inductive kind := KQuery (q : query_call) | KRows | KScan (t : gotype) | KExec.
Definition is_query (k : kind) : bool := match k with KQuery _ => true | _ => false end.
Definition selects (k : kind) : bool := match k with KQuery q => guarded q | KExec => false | _ => true end.

(** What a call returns: a document, rows, structs, a command's result, a
    COPY's count and what it wrote, nothing but success. *)
Inductive answer :=
| ADoc (doc : bytes)
| ARows (rows : list bytes)
| AScanned (rows : list goval)
| AExec (x : ExecResult)
| ACopied (n : Z) (out : bytes)
| APong.

Definition answered_by {A} (f : A → answer) (m : client A) : client answer := a ← m; mret (f a).

(** The Scan methods of the caller's types, and strings.ToLower. *)
Class RowScan := { Scan : nat → gotype → goval → dvalue → res goval; ToLower : bytes → bytes }.

Section Calls.
Context {MO : MapOrder} {RS : RowScan} (elapsed : nat → bool) (ctx : context) (dur : Z).

(** What a streaming call has written to a writer that never fails. *)
Definition collected (m : prog (Client * sink) unit) : client bytes := λ c,
  match m (c, mkSink [] None) with
  | (Ret _, (c, w)) => (Ret (got w), c)
  | (Err e, (c, _)) => (Err e, c)
  | (Panic, (c, _)) => (Panic, c)
  | (Stuck, (c, _)) => (Stuck, c)
  end.
Definition document_of (q : query_call) (sql : bytes) (args : list goarg) : client bytes :=
  match q with
  | CQueryJSON => QueryJSON ctx dur sql args
  | CExecReturningJSON => ExecReturningJSON ctx dur sql args
  | CStreamJSON => collected (StreamJSON elapsed ctx dur sql args)
  | CStreamNDJSON => collected (StreamNDJSON elapsed ctx dur sql args)
  | CStreamColumnar => collected (StreamColumnar elapsed ctx dur sql args)
  | CStreamTOON => collected (StreamTOON elapsed ctx dur sql args)
  | CExecReturning => collected (ExecReturning elapsed ctx dur sql args)
  end.

(** A caller of RawQuery that reads until NextRaw fails, closes the iterator and
    takes io.EOF for the end. *)
Definition read_to_end (it : Iterator) : client (list bytes) := λ c,
  match (x ← read_all (rounds c); _ ← it_Close; mret x) (c, it) with
  | (Ret (rows, EEOF false), (c, _)) => (Ret rows, c)
  | (Ret (_, e), (c, _)) => (Err e, c)
  | (Err e, (c, _)) => (Err e, c)
  | (Panic, (c, _)) => (Panic, c)
  | (Stuck, (c, _)) => (Stuck, c)
  end.
Definition read_rows (sql : bytes) (args : list goarg) : client (list bytes) :=
  o ← RawQuery ctx sql args;
  match o with None => panic | Some it => read_to_end it end.

Definition call_of (k : kind) (sql : bytes) (args : list goarg) : client answer :=
  match k with
  | KQuery q => answered_by ADoc (document_of q sql args)
  | KRows => answered_by ARows (read_rows sql args)
  | KScan t => answered_by AScanned (ScanStruct Scan ToLower ctx t sql args)
  | KExec => answered_by AExec (Exec ctx dur sql args)
  end.
End Calls.

(** ** The reference machine *)

(** The server's first answer to a statement it no longer has. *)
Record stale := mkStale { s_vals : list (option bytes); s_rows : list reply; s_end : bytes }.

(** A call and what the server does with it: its answer to the cached statement
    when that one is stale, its reply to Parse and Describe, when there is one,
    and its reply to the execution. *)
Record exchange := mkExchange {
  x_kind : kind; x_sql : bytes; x_args : list goarg; x_stale : option stale;
  x_desc : list (byte * bytes); x_ready : bytes;
  x_vals : list (option bytes); x_rows : list reply; x_end : bytes
}.

(** What Exec makes of a description; a statement without rows has no plan. *)
Definition prepare_next (a : preparing) (m : byte * bytes) : preparing :=
  if beq m.1 MsgParameterDescription then mkPrep (p_plan a) (p_noData a) (p_err a) (parseParamOIDs m.2)
  else if beq m.1 MsgNoData then mkPrep (p_plan a) true (p_err a) (p_oids a)
  else if beq m.1 MsgRowDescription then
    match ParseRowDescription m.2 with inr p => mkPrep (Some p) (p_noData a) (p_err a) (p_oids a) | inl _ => a end
  else if beq m.1 MsgErrorResponse then mkPrep (p_plan a) (p_noData a) (Some (Parse m.2)) (p_oids a)
  else a.
Definition exec_described (ms : list (byte * bytes)) : preparing := fold_left prepare_next ms (mkPrep None false None []).
Definition exec_describes (cf : Config) (sc : stmtCache) (ms : list (byte * bytes)) : gerror + preparedStmt :=
  let a := exec_described ms in
  match p_err a with
  | Some e => inl (EPg e)
  | None =>
      if p_noData a then inr (mkStmt (fst (nextName sc)) None [] (p_oids a))
      else match p_plan a with
           | None => inl (EFmt "pgz: exec prepare returned neither NoData nor RowDescription" [])
           | Some p => inr (prepared cf sc p (p_oids a))
           end
  end.
Definition learns (k : kind) : Config → stmtCache → list (byte * bytes) → gerror + preparedStmt :=
  match k with KExec => exec_describes | _ => describes end.

Definition execute_wire (k : kind) (st : preparedStmt) (args : list goarg) (vals : list (option bytes)) : bytes :=
  frame MsgBind (match k with KExec => exec_body | _ => bind_body end st args vals) ++
  frame MsgExecute [x00; x00; x00; x00; x00] ++ frame MsgSync [].

Definition plan_of (st : preparedStmt) : Plan := match st_plan st with Some p => p | None => mkPlan [] [] [] end.

(** The server's error, or what the replies carry. *)
Definition reply_res {A} (rs : list reply) (x : A) : res A :=
  match error_of None rs with Some e => Err (EPg e) | None => Ret x end.
(** The structs that a reply's rows fill, when they all do. *)
Definition filled {RS : RowScan} (t : gotype) (st : preparedStmt) (rs : list reply) : list goval :=
  match buildStructPlan Scan ToLower t (plan_of st) with
  | inr sp => omap (λ cells, match fillStructRow (zero t) (data_row cells) sp with Ret row => Some row | _ => None end) (rows_of rs)
  | inl _ => []
  end.
Definition carried {RS : RowScan} (k : kind) (st : preparedStmt) (rs : list reply) : answer :=
  match k with
  | KQuery q => ADoc (result_text (mode_of q) (plan_of st) (rows_of rs))
  | KRows => ARows (map data_row (rows_of rs))
  | KScan t => AScanned (filled t st rs)
  | KExec => let tag := last_tag [] (map reply_msg rs) in AExec (mkRes (parseRowsAffected tag) tag)
  end.

Section Machine.
Context {MO : MapOrder} {RS : RowScan} (cf : Config).

Definition known (sc : stmtCache) (x : exchange) : option preparedStmt := (λ r, deref r sc) <$> get (x_sql x) sc.
(** The statement a call executes, unless it cannot be prepared. *)
Definition obtained (sc : stmtCache) (x : exchange) : gerror + preparedStmt :=
  match known sc x with Some st => inr st | None => learns (x_kind x) cf sc (x_desc x) end.

(** The cache after the statement was looked up: one more entry, another evicted
    if it was full, when the text was not known and could be prepared. *)
Definition looked_up (sc : stmtCache) (x : exchange) : stmtCache :=
  match known sc x with
  | Some _ => sc
  | None =>
      let out := learns (x_kind x) cf sc (x_desc x) in
      match out with inr _ => put (x_sql x) (length (heap sc)) (noted sc out) | inl _ => noted sc out end
  end.

(** An attempt: preparation if need be, then execution. *)
Definition attempt_request (sc : stmtCache) (x : exchange) : bytes :=
  match known sc x with Some _ => [] | None => prepare_wire (closed sc) (fst (nextName sc)) (x_sql x) end ++
  match obtained sc x with inr st => execute_wire (x_kind x) st (x_args x) (x_vals x) | inl _ => [] end.
Definition attempt_response (sc : stmtCache) (x : exchange) : bytes :=
  match known sc x with Some _ => [] | None => wire_of (x_desc x) ++ frame MsgReadyForQuery (x_ready x) end ++
  match obtained sc x with inr _ => wire_of (map reply_msg (x_rows x)) ++ frame MsgReadyForQuery (x_end x) | inl _ => [] end.

(** A stale statement is dropped from the cache; what follows is a first use. *)
Definition start (sc : stmtCache) (x : exchange) : stmtCache :=
  match x_stale x with Some _ => invalidate (x_sql x) sc | None => sc end.
Definition stale_request (sc : stmtCache) (x : exchange) : bytes :=
  match x_stale x, known sc x with
  | Some s, Some st => execute_wire (x_kind x) st (x_args x) (s_vals s)
  | _, _ => []
  end.
Definition stale_response (x : exchange) : bytes :=
  match x_stale x with Some s => wire_of (map reply_msg (s_rows s)) ++ frame MsgReadyForQuery (s_end s) | None => [] end.

Definition request (sc : stmtCache) (x : exchange) : bytes := stale_request sc x ++ attempt_request (start sc x) x.
Definition response (sc : stmtCache) (x : exchange) : bytes := stale_response x ++ attempt_response (start sc x) x.
Definition after (sc : stmtCache) (x : exchange) : stmtCache := looked_up (start sc x) x.
Definition document (sc : stmtCache) (x : exchange) : res answer :=
  match obtained (start sc x) x with
  | inl e => Err e
  | inr st => reply_res (x_rows x) (carried (x_kind x) st (x_rows x))
  end.
End Machine.

(** ** What the server may answer *)

(** An iterator's statement is bound before its rows come, or refused. *)
Fixpoint bound (rs : list reply) : bool :=
  match rs with
  | RNeutral t _ :: _ => beq t MsgBindComplete
  | RError _ :: _ => false
  | _ :: rs => bound rs
  | [] => false
  end.
Definition drained (r : reply) : Prop := msg_ok (reply_msg r) ∧ match r with RNeutral t _ => t ≠ MsgReadyForQuery ∧ t ≠ MsgErrorResponse | _ => True end.
Inductive iterates : list reply → Prop :=
| iterates_rows b rs : msg_ok (MsgBindComplete, b) → Forall iter_ok rs → iterates (RNeutral MsgBindComplete b :: rs)
| iterates_refused b rs : msg_ok (MsgErrorResponse, b) → Forall drained rs → iterates (RError b :: rs)
| iterates_quiet r rs : bind_quiet r → iterates rs → iterates (r :: rs).

Definition exec_ok (r : reply) : Prop :=
  msg_ok (reply_msg r) ∧
  match r with
  | RRow _ => False
  | RNeutral t b => t = MsgBindComplete ∨ (t = MsgCommandComplete ∧ b ≠ []) ∨ t = MsgEmptyQueryResponse
  | _ => True
  end.

Section Shapes.
Context {RS : RowScan} (cf : Config).

Definition replies_ok (k : kind) (st : preparedStmt) (rs : list reply) : Prop :=
  match k with
  | KQuery _ => ∃ p, st_plan st = Some p ∧ Forall (reply_ok execute_neutral p) rs
  | KRows => iterates rs
  | KScan t => ∃ p sp, st_plan st = Some p ∧ buildStructPlan Scan ToLower t p = inr sp ∧ Forall scan_ok rs ∧
      Forall (λ cells, ∃ row, fills t sp cells row) (rows_of rs)
  | KExec => Forall exec_ok rs
  end.

Record executes_ok (k : kind) (st : preparedStmt) (args : list goarg) (vals : list (option bytes)) (rs : list reply) (z : bytes) : Prop := {
  eo_args : arg_values (st_paramOIDs st) 0 args = Some vals;
  eo_rows : replies_ok k st rs;
  eo_end : msg_ok (MsgReadyForQuery, z)
}.

(** An error that ends the call: not one the configuration says to retry, nor,
    met through the cache, a stale statement's.  Iterators and scans do not
    retry, and an iterator notices a stale statement only while it binds. *)
Definition not_retried (k : kind) (e : gerror) : Prop :=
  match k with KRows | KScan _ => True | _ => RetryOnSerialization cf = false ∨ isRetryableSerialization e = false end.
Definition final (k : kind) (cached : bool) (rs : list reply) : Prop := ∀ e, error_of None rs = Some e →
  not_retried k (EPg e) ∧ (cached = true → (k = KRows → bound rs = false) → isStaleStmtError (EPg e) = false).

(** A stale statement is reported while nothing is out that the caller can see. *)
Definition early (k : kind) (rs : list reply) : Prop :=
  match k with
  | KQuery q => streams q = true → rows_of rs = []
  | KRows => bound rs = false
  | KScan _ => rows_of rs = []
  | KExec => True
  end.
Definition says_stale (k : kind) (rs : list reply) : Prop :=
  ∃ e, error_of None rs = Some e ∧ isStaleStmtError (EPg e) = true ∧ early k rs.

Record attempt_ok (sc : stmtCache) (x : exchange) : Prop := {
  at_desc : known sc x = None → Forall describe_known (x_desc x) ∧ msg_ok (MsgReadyForQuery, x_ready x);
  at_runs : match obtained cf sc x with
    | inr st => executes_ok (x_kind x) st (x_args x) (x_vals x) (x_rows x) (x_end x) ∧
        final (x_kind x) (match known sc x with Some _ => true | None => false end) (x_rows x)
    | inl e => not_retried (x_kind x) e
    end
}.

(** A call that the guard passes and the server answers in the protocol. *)
Record exchange_ok (sc : stmtCache) (x : exchange) : Prop := {
  xo_guard : selects (x_kind x) = false ∨ rejectNonSelect (x_sql x) = inr tt;
  xo_cached : is_query (x_kind x) = true → 0 <= StmtCacheSize cf ∨ x_args x ≠ [];
  xo_type : ∀ t, x_kind x = KScan t → is_struct t = true;
  xo_stale : match x_stale x with
    | None => True
    | Some s => ∃ st, known sc x = Some st ∧ executes_ok (x_kind x) st (x_args x) (s_vals s) (s_rows s) (s_end s) ∧
        says_stale (x_kind x) (s_rows s)
    end;
  xo_attempt : attempt_ok (start sc x) x
}.
End Shapes.

(** ** Lemmas *)

(** A computation on a client between two statements: its result, the bytes it
    sends, where it leaves the script and the cache. *)
Definition lands {A} (c : Client) (x : res A * Client) (r : res A) (req rest : bytes) (sc : stmtCache) : Prop :=
  ∃ c', x = (r, c') ∧ inbound (conn c') = rest ∧ sent (conn c') = sent (conn c) ++ req ∧ stmts c' = sc ∧
    healthy (conn c') ∧ cfg c' = cfg c.

Lemma learns_known name m : describe_known m → ∀ a c, prepare_step name a m.1 m.2 c = (Ret (inl (prepare_next a m)), absorb c m).
Proof.
  intros [_ Hm] a c. destruct m as [t b]. cbn [fst snd] in *.
  destruct Hm as [-> |[-> |[-> |[[-> [p Hp]]|[-> |[-> |[-> | ->]]]]]]]; try done.
  unfold prepare_next, prepare_step, absorb. cbn -[ParseRowDescription]. unfold of_sum. by rewrite Hp.
Qed.

Lemma execPrepare_said sql c ms z rest :
  let out := exec_describes (cfg c) (stmts c) ms in
  room (conn c) = None → inbound (conn c) = wire_of ms ++ frame MsgReadyForQuery z ++ rest →
  Forall describe_known ms → msg_ok (MsgReadyForQuery, z) →
  ∃ k, execPrepare sql c =
      (match out with inl e => Err e | inr _ => Ret (length (heap (stmts c))) end,
       set_conn k (set_stmts (noted (stmts c) out) (fold_left absorb ms c))) ∧
    inbound k = rest ∧ writeBuf k = [] ∧ room k = None ∧
    sent k = sent (conn c) ++ writeBuf (conn c) ++ prepare_wire (closed (stmts c)) (fst (nextName (stmts c))) sql.
Proof.
  intros out Hr Hin Hms Hz. apply (prepare_script prepare_step prepare_next (mkPrep None false None []) out sql c ms z rest); try done.
  - eapply Forall_impl; [exact Hms|]. intros m Hm. split; [apply Hm|by apply learns_known].
  - intros c' Hc. change (fold_left prepare_next ms (mkPrep None false None [])) with (exec_described ms). unfold out, exec_describes.
    destruct (exec_described ms) as [[p|] [] [e|] oids]; try done. cbn [p_err p_plan p_noData p_oids]. unfold prepare_step. cbn -[negotiate].
    step (eq_refl : gets cfg c' = (Ret (cfg c'), c')). rewrite Hc. unfold prepared. by destruct (negotiate (cfg c) p).
Qed.

(** Looking a statement up, by either kind of preparation. *)
Definition prepares (k : kind) : bytes → client nat := match k with KExec => execPrepare | _ => prepareAndDescribe end.
Definition lookup_stmt {MO : MapOrder} (k : kind) (sql : bytes) : client (nat * bool) :=
  o ← cache_get sql;
  match o with
  | Some r => mret (r, true)
  | None =>
      x ← catch (prepares k sql);
      match x with
      | inl e => _ ← cache_invalidate sql; throw e
      | inr r => _ ← cache_put sql r; mret (r, false)
      end
  end.

Lemma prepares_said k sql c ms z rest :
  let out := learns k (cfg c) (stmts c) ms in
  room (conn c) = None → inbound (conn c) = wire_of ms ++ frame MsgReadyForQuery z ++ rest →
  Forall describe_known ms → msg_ok (MsgReadyForQuery, z) →
  ∃ i, prepares k sql c =
      (match out with inl e => Err e | inr _ => Ret (length (heap (stmts c))) end,
       set_conn i (set_stmts (noted (stmts c) out) (fold_left absorb ms c))) ∧
    inbound i = rest ∧ writeBuf i = [] ∧ room i = None ∧
    sent i = sent (conn c) ++ writeBuf (conn c) ++ prepare_wire (closed (stmts c)) (fst (nextName (stmts c))) sql.
Proof. destruct k; [apply prepareAndDescribe_said..|apply execPrepare_said]. Qed.

Section Attempts.
Context {MO : MapOrder}.

Definition cached_before (sc : stmtCache) (x : exchange) : bool := match known sc x with Some _ => true | None => false end.
Definition prepare_request (sc : stmtCache) (x : exchange) : bytes :=
  match known sc x with Some _ => [] | None => prepare_wire (closed sc) (fst (nextName sc)) (x_sql x) end.
Definition prepare_response (sc : stmtCache) (x : exchange) : bytes :=
  match known sc x with Some _ => [] | None => wire_of (x_desc x) ++ frame MsgReadyForQuery (x_ready x) end.

Lemma invalidate_unknown sql sc : get sql sc = None → invalidate sql (stmts_named sc) = stmts_named sc.
Proof. unfold get, invalidate, stmts_named. cbn. by intros ->. Qed.

Lemma lookup_lands x c rest : healthy (conn c) → inbound (conn c) = prepare_response (stmts c) x ++ rest →
  (known (stmts c) x = None → Forall describe_known (x_desc x) ∧ msg_ok (MsgReadyForQuery, x_ready x)) →
  ∃ r, lands c (lookup_stmt (x_kind x) (x_sql x) c)
      (match obtained (cfg c) (stmts c) x with inl e => Err e | inr _ => Ret (r, cached_before (stmts c) x) end)
      (prepare_request (stmts c) x) rest (looked_up (cfg c) (stmts c) x) ∧
    ∀ st, obtained (cfg c) (stmts c) x = inr st → deref r (looked_up (cfg c) (stmts c) x) = st ∧
      (cached_before (stmts c) x = true → get (x_sql x) (stmts c) = Some r).
Proof.
  intros [Hr Hb] Hin Hnew. unfold lookup_stmt, obtained, looked_up, cached_before, prepare_request, prepare_response, known in *.
  step (eq_refl : cache_get (x_sql x) c = (Ret (get (x_sql x) (stmts c)), c)).
  destruct (get (x_sql x) (stmts c)) as [r|] eqn:Eg; cbn [fmap option_fmap option_map] in *.
  { exists r. split; [|by intros st [= <-]]. exists c. rewrite app_nil_r. by repeat (split; [done|]). }
  destruct (Hnew eq_refl) as [Hms Hz]. rewrite <- app_assoc in Hin.
  destruct (prepares_said (x_kind x) (x_sql x) c (x_desc x) (x_ready x) rest Hr Hin Hms Hz) as (i & E & I1 & I2 & I3 & I4).
  exists (length (heap (stmts c))). rewrite Hb in I4. cbn [app] in I4.
  destruct (learns (x_kind x) (cfg c) (stmts c) (x_desc x)) as [e|st] eqn:Eo; cbn [noted] in *.
  - split; [|done]. assert (catch (prepares (x_kind x) (x_sql x)) c = (Ret (inl e), set_conn i (set_stmts (stmts_named (stmts c)) (fold_left absorb (x_desc x) c)))) as E1
      by (unfold catch; by rewrite E).
    step E1. eexists. split; [reflexivity|]. cbn [conn set_stmts set_conn stmts cfg].
    split; [done|]. split; [done|]. split; [by apply invalidate_unknown|]. split; [done|]. apply (absorbs_same (x_desc x) c).
  - split; [|intros st' [= <-]; split; [exact (proj1 (proj2 (put_prepared (x_sql x) st (stmts c))))|done]].
    assert (catch (prepares (x_kind x) (x_sql x)) c = (Ret (inr (length (heap (stmts c)))), set_conn i (set_stmts (stmts_prepared st (stmts c)) (fold_left absorb (x_desc x) c)))) as E1
      by (unfold catch; by rewrite E).
    step E1. eexists. split; [reflexivity|]. cbn [conn set_stmts set_conn stmts cfg].
    split; [done|]. split; [done|]. split; [done|]. split; [done|]. apply (absorbs_same (x_desc x) c).
Qed.
End Attempts.

(** *** An invariant of the cache *)

(** Every cached statement satisfies [Q]. *)
Definition every (Q : preparedStmt → Prop) (sc : stmtCache) : Prop :=
  ∀ sql r, get sql sc = Some r → (r < length (heap sc))%nat ∧ Q (deref r sc).
(** The header bytes of a statement's plan, if it has one, are its columns'. *)
Definition sound_plan (st : preparedStmt) : Prop := ∀ p, st_plan st = Some p → plan_wf p.

Lemma get_put_ne {MO : MapOrder} k sql r sc v : k ≠ sql → get k (put sql r sc) = Some v → get k sc = Some v.
Proof.
  intros Hne. unfold get, put. cbn. rewrite lookup_insert_ne by done. unfold evict.
  destruct (_ >=? _); [|done]. destruct (first_key _); [|done]. cbn [byKey]. intros H. by apply lookup_delete_Some in H as [_ ?].
Qed.

Lemma every_new Q n : every Q (newStmtCache n).
Proof. intros sql r. unfold get. cbn. by rewrite lookup_empty. Qed.

Lemma every_start Q sc x : every Q sc → every Q (start sc x).
Proof.
  intros H. unfold start. destruct (x_stale x); [|done]. unfold invalidate. destruct (byKey sc !! x_sql x); [|done].
  intros sql r. unfold get. cbn. intros Hg. apply lookup_delete_Some in Hg as [_ Hg]. apply (H sql r Hg).
Qed.

Lemma every_after {MO : MapOrder} Q cf sc x :
  (∀ st, learns (x_kind x) cf (start sc x) (x_desc x) = inr st → Q st) → every Q sc → every Q (after cf sc x).
Proof.
  intros Hnew Hsc%(every_start Q sc x). unfold after, looked_up. destruct (known (start sc x) x); [done|].
  set (s := start sc x) in *. destruct (learns (x_kind x) cf s (x_desc x)) as [e|st]; [exact Hsc|]. cbn [noted].
  destruct (put_prepared (x_sql x) st s) as (G1 & G2 & G3). intros sql r Hg.
  destruct (decide (sql = x_sql x)) as [->|Hne].
  - rewrite G1 in Hg. simplify_eq. rewrite G2, G3, length_app. split; [cbn; lia|by apply Hnew].
  - apply get_put_ne in Hg; [|done]. change (get sql s = Some r) in Hg. destruct (Hsc sql r Hg) as [Hr Hq].
    rewrite G3, length_app. split; [lia|]. unfold deref in *. by rewrite G3, app_nth1.
Qed.

Lemma exec_described_wf ms a p : (∀ p, p_plan a = Some p → plan_wf p) → p_plan (fold_left prepare_next ms a) = Some p → plan_wf p.
Proof.
  revert a. induction ms as [|m ms IH]; intros a Ha; [apply Ha|]. cbn [fold_left]. apply IH. unfold prepare_next.
  destruct (beq m.1 MsgParameterDescription); [done|]. destruct (beq m.1 MsgNoData); [done|]. destruct (beq m.1 MsgRowDescription).
  - destruct (ParseRowDescription m.2) as [|q] eqn:E; [done|]. cbn. intros q' [= <-]. by eapply ParseRowDescription_wf.
  - by destruct (beq m.1 MsgErrorResponse).
Qed.

Lemma learned_sound k cf sc ms st : learns k cf sc ms = inr st → sound_plan st.
Proof.
  assert (∀ p oids q, plan_wf p → st_plan (prepared cf sc p oids) = Some q → plan_wf q) as Hn.
  { intros p oids q Hp [= <-]. unfold negotiate. by apply ApplyFormatsEx_wf. }
  assert (describes cf sc ms = inr st → sound_plan st) as Hd.
  { unfold describes. destruct (d_err (described ms)); [done|]. destruct (d_plan (described ms)) as [p|] eqn:E; [|done].
    intros [= <-] q. apply Hn. by eapply (described_wf ms (mkDesc None None [])). }
  destruct k; [exact Hd..|]. cbn [learns]. unfold exec_describes. destruct (p_err _); [done|].
  destruct (p_noData _); [by intros [= <-] q|]. destruct (p_plan (exec_described ms)) as [p|] eqn:E; [|done].
  intros [= <-] q. apply Hn. by eapply (exec_described_wf ms (mkPrep None false None [])).
Qed.

Lemma obtained_sound {MO : MapOrder} cf sc x st : every sound_plan sc → obtained cf sc x = inr st → sound_plan st.
Proof.
  intros H. unfold obtained, known. destruct (get (x_sql x) sc) as [r|] eqn:Eg; cbn; [|apply learned_sound].
  intros [= <-]. by apply (H _ _ Eg).
Qed.

(** *** The loop *)

Lemma bind_ext {S A B} (m m' : prog S A) (f f' : A → prog S B) s : m s = m' s → (∀ a s, f a s = f' a s) → (m ≫= f) s = (m' ≫= f') s.
Proof. intros Hm Hf. unfold mbind, prog_bind. rewrite Hm. by destruct (m' s) as [[] ?]. Qed.

(** Look the statement up, run it, and once more when the cached one is stale
    and what the run has left beside the client, an [X], can be thrown away. *)
Section Loop.
Context {MO : MapOrder} {RS : RowScan} {X A B : Type} (k : kind) (sql : bytes) (run : nat → prog (Client * X) A) (made : A → B) (none : B)
  (clean : X → bool) (reset : X → X).

Fixpoint attempts (n : nat) (first : bool) : prog (Client * X) B :=
  match n with
  | O => mret none
  | S n =>
      rc ← cl (lookup_stmt k sql);
      let fromCache : bool := snd rc in
      x ← catch (run (fst rc));
      match x with
      | inr a => mret (made a)
      | inl e =>
          y ← gets snd;
          if first && fromCache && isStaleStmtError e && clean y then
            _ ← cl (cache_invalidate sql); _ ← ow (modify reset); attempts n false
          else throw e
      end
  end.

(** How a run of a statement ends for given replies: [yields st r rs z rest x y x' rest']
    says that from [x] it ends with [y] and [x'], before [rest']. *)
Context (args : list goarg) (good : X → Prop) (fits : Config → Prop)
  (yields : preparedStmt → nat → list reply → bytes → bytes → X → res A → X → bytes → Prop).
Definition run_lands : Prop := ∀ r c x st vals rs z rest, good x → healthy (conn c) → deref r (stmts c) = st → sound_plan st →
  fits (cfg c) → executes_ok k st args vals rs z →
  inbound (conn c) = wire_of (map reply_msg rs) ++ frame MsgReadyForQuery z ++ rest →
  ∃ y c' x' rest', run r (c, x) = (y, (c', x')) ∧ yields st r rs z rest x y x' rest' ∧
    lands c (y, c') y (execute_wire k st args vals) rest' (stmts c).
(** It ends with the replies' error, if it gets to it, or one that is not a
    stale statement's; and after an early one it can start again. *)
Definition yields_last : Prop := ∀ st r rs z rest x y x' rest', yields st r rs z rest x y x' rest' →
  match y with
  | Err e => isStaleStmtError e = false ∨
      ∃ pe, e = EPg pe ∧ error_of None rs = Some pe ∧ (k = KRows → bound rs = false)
  | _ => True
  end.
Definition stale_clean : Prop := ∀ st r rs z rest x y x' rest' e, good x → yields st r rs z rest x y x' rest' → error_of None rs = Some e →
  isStaleStmtError (EPg e) = true → early k rs → y = Err (EPg e) ∧ rest' = rest ∧ clean x' = true ∧ good (reset x').
Context (Hrun : run_lands) (Hlast : yields_last) (Hclean : stale_clean).

Definition made_res (y : res A) : res B := match y with Ret a => Ret (made a) | Err e => Err e | Panic => Panic | Stuck => Stuck end.

(** What an attempt comes to, its statement being looked up in [sc]. *)
Definition attempt_ends (cf : Config) (sc : stmtCache) (x : exchange) (v : X) (rest : bytes) (y : res B) (v' : X) (rest' : bytes) : Prop :=
  match obtained cf sc x with
  | inl e => y = Err e ∧ v' = v ∧ rest' = rest
  | inr st => ∃ r y0, yields st r (x_rows x) (x_end x) rest v y0 v' rest' ∧ y = made_res y0
  end.

Lemma lookup_beside r c c' (v : X) (f : nat * bool → prog (Client * X) B) :
  lookup_stmt k sql c = (Ret r, c') → (rc ← cl (lookup_stmt k sql); f rc) (c, v) = f r (c', v).
Proof. intros E. unfold mbind, prog_bind, cl, zoom. cbn [fst snd]. by rewrite E. Qed.

(** One attempt whose error, if any, is not a stale statement's. *)
Lemma attempt_lands x n first c v rest : x_kind x = k → x_sql x = sql → x_args x = args → healthy (conn c) → every sound_plan (stmts c) →
  fits (cfg c) → good v → attempt_ok (cfg c) (stmts c) x → inbound (conn c) = attempt_response (cfg c) (stmts c) x ++ rest →
  ∃ y c' v' rest', attempts (S n) first (c, v) = (y, (c', v')) ∧ attempt_ends (cfg c) (stmts c) x v rest y v' rest' ∧
    lands c (y, c') y (attempt_request (cfg c) (stmts c) x) rest' (looked_up (cfg c) (stmts c) x).
Proof.
  intros Hk Hs Ha Hh Hsc Hcap Hv [Hd Hrs] Hin. unfold attempt_response in Hin. rewrite <- app_assoc in Hin.
  destruct (lookup_lands x c _ Hh Hin Hd) as (r & Hl & Hst). rewrite Hk, Hs in Hl. unfold attempt_request, attempt_ends. rewrite Hk in *.
  pose proof (obtained_sound (cfg c) (stmts c) x) as Hsound. destruct Hl as (c1 & E & I1 & I2 & I3 & I4 & I5).
  destruct (obtained (cfg c) (stmts c) x) as [e|st] eqn:Eo.
  - exists (Err e), c1, v, rest. split; [|split; [done|]].
    + cbn [attempts]. unfold mbind at 1, prog_bind at 1, cl, zoom. cbn [fst snd]. by rewrite E.
    + rewrite app_nil_r. exists c1. by repeat (split; [done|]).
  - destruct (Hst st eq_refl) as [Hd1 _], Hrs as [Hrs Hfin]. rewrite Ha in *.
    destruct (Hrun r c1 v st (x_vals x) (x_rows x) (x_end x) rest Hv I4) as (y0 & c2 & v' & rest' & E2 & Hy & (c3 & [= <-] & J1 & J2 & J3 & J4 & J5));
      [by rewrite I3|by apply (Hsound st Hsc)|by rewrite I5|done|by rewrite I1, <- app_assoc|].
    pose proof (Hlast _ _ _ _ _ _ _ _ _ Hy) as He.
    exists (made_res y0), c2, v', rest'. split; [|split; [by exists r, y0|]].
    + cbn [attempts]. rewrite (lookup_beside (r, cached_before (stmts c) x) c c1 v _ E). cbn [fst snd].
      unfold catch, mbind, prog_bind. rewrite E2. destruct y0 as [a|e| |]; try done. cbn [gets fst snd].
      enough (first && cached_before (stmts c) x && isStaleStmtError e = false) as -> by done.
      destruct He as [-> |(pe & -> & Hpe & Hbd)]; [by rewrite andb_false_r|]. unfold cached_before.
      destruct (known (stmts c) x) eqn:Ek; [|by rewrite andb_false_r].
      rewrite (proj2 (Hfin pe Hpe) eq_refl Hbd). by rewrite andb_false_r.
    + exists c2. split; [done|]. split; [done|]. split; [by rewrite J2, I2, <- app_assoc; unfold prepare_request|].
      split; [by rewrite J3, I3|]. split; [done|congruence].
Qed.

(** The call: an attempt on the cache without the stale statement. *)
Lemma attempts_land x c v rest : x_kind x = k → x_sql x = sql → x_args x = args → healthy (conn c) → every sound_plan (stmts c) →
  fits (cfg c) → good v → exchange_ok (cfg c) (stmts c) x → inbound (conn c) = response (cfg c) (stmts c) x ++ rest →
  ∃ v0 y c' v' rest', good v0 ∧ attempts 2 true (c, v) = (y, (c', v')) ∧
    attempt_ends (cfg c) (start (stmts c) x) x v0 rest y v' rest' ∧
    lands c (y, c') y (request (cfg c) (stmts c) x) rest' (after (cfg c) (stmts c) x).
Proof.
  intros Hk Hs Ha Hh Hsc Hcap Hv [_ _ _ Hst Hat] Hin. pose proof (every_start _ _ x Hsc) as Hsc'.
  unfold request, response, after, stale_request, stale_response, start in *.
  destruct (x_stale x) as [s|].
  2: { cbn [app] in *. destruct (attempt_lands x 1 true c v rest Hk Hs Ha Hh Hsc Hcap Hv Hat Hin) as (y & c' & v' & rest' & H).
       by exists v, y, c', v', rest'. }
  destruct Hst as (st & Hkn & Hex & pe & Hpe & Hstale & Hbd). rewrite Hkn. rewrite <- !app_assoc in Hin.
  set (sc := invalidate (x_sql x) (stmts c)) in *.
  unfold known in Hkn. destruct (get (x_sql x) (stmts c)) as [r|] eqn:Eg; [|done]. injection Hkn as Hd.
  assert (sound_plan st) as Hsp by (rewrite <- Hd; apply (Hsc _ _ Eg)). rewrite Ha, Hk in *.
  destruct (Hrun r c v st (s_vals s) (s_rows s) (s_end s) _ Hv Hh Hd Hsp Hcap Hex Hin) as (y0 & c1 & v1 & rest1 & E & Hy & (c1' & [= <-] & J1 & J2 & J3 & J4 & J5)).
  destruct (Hclean _ _ _ _ _ _ _ _ _ pe Hv Hy Hpe Hstale Hbd) as (-> & -> & Hcl & Hgood).
  set (c2 := set_stmts sc c1).
  destruct (attempt_lands x 0 false c2 (reset v1) rest) as (y & c3 & v3 & rest' & E3 & Hends & (c3' & [= <-] & K1 & K2 & K3 & K4 & K5)); try done.
  { unfold c2. cbn [cfg set_stmts]. by rewrite J5. }
  { unfold c2. cbn [cfg set_stmts stmts]. by rewrite J5. }
  { unfold c2. cbn [cfg set_stmts stmts conn]. by rewrite J5. }
  change (cfg c2) with (cfg c1) in *. rewrite J5 in *. exists (reset v1), y, c3, v3, rest'. split; [done|]. split; [|split; [exact Hends|]].
  - remember 1%nat as n eqn:En. cbn [attempts].
    assert (lookup_stmt k sql c = (Ret (r, true), c)) as E0.
    { unfold lookup_stmt. step (eq_refl : cache_get sql c = (Ret (get sql (stmts c)), c)). by rewrite <- Hs, Eg. }
    rewrite (lookup_beside (r, true) c c v _ E0). cbn [fst snd]. unfold catch, mbind, prog_bind. rewrite E.
    cbn [gets fst snd andb]. rewrite Hstale, Hcl. cbn [andb].
    subst n. unfold cl, ow, zoom, cache_invalidate, modify. cbn [fst snd]. rewrite J3, <- Hs. exact E3.
  - exists c3. split; [done|]. split; [done|]. split; [by rewrite K2; unfold c2; cbn [conn set_stmts]; rewrite J2, <- app_assoc|]. done.
Qed.
End Loop.

(** The same with nothing beside the client. *)
Section Alone.
Context {MO : MapOrder} {RS : RowScan} {A B : Type} (k : kind) (sql : bytes) (run : nat → client A) (made : A → B) (none : B).

Fixpoint alone (n : nat) (first : bool) : client B :=
  match n with
  | O => mret none
  | S n =>
      rc ← lookup_stmt k sql;
      let fromCache : bool := snd rc in
      x ← catch (run (fst rc));
      match x with
      | inr a => mret (made a)
      | inl e => if first && fromCache && isStaleStmtError e then _ ← cache_invalidate sql; alone n false else throw e
      end
  end.

Lemma attempts_alone n : ∀ first c, attempts (X := unit) k sql (λ r, cl (run r)) made none (λ _, true) id n first (c, tt) =
  let '(y, c') := alone n first c in (y, (c', tt)).
Proof.
  induction n as [|n IH]; intros first c; [done|]. cbn [attempts alone]. unfold mbind, prog_bind, cl, zoom, catch. cbn [fst snd].
  destruct (lookup_stmt k sql c) as [[[r b]|e| |] c1]; try done. cbn [fst snd]. destruct (run r c1) as [[a|e| |] c2]; try done.
  cbn [gets fst snd]. rewrite andb_true_r. destruct (first && b && isStaleStmtError e); [|done]. unfold cache_invalidate, modify, ow, zoom. cbn [fst snd].
  apply IH.
Qed.

Context (args : list goarg) (yields : preparedStmt → nat → list reply → bytes → bytes → res A → bytes → Prop).
Definition lone_run : Prop := ∀ r c st vals rs z rest, healthy (conn c) → deref r (stmts c) = st →
  executes_ok k st args vals rs z → inbound (conn c) = wire_of (map reply_msg rs) ++ frame MsgReadyForQuery z ++ rest →
  ∃ y rest', yields st r rs z rest y rest' ∧ lands c (run r c) y (execute_wire k st args vals) rest' (stmts c).
Definition lone_last : Prop := ∀ st r rs z rest y rest', yields st r rs z rest y rest' →
  match y with
  | Ret _ => True
  | Err e => ∃ pe, e = EPg pe ∧ error_of None rs = Some pe ∧ (k = KRows → bound rs = false)
  | _ => False
  end ∧
  ∀ e, error_of None rs = Some e → (k = KRows → bound rs = false) → y = Err (EPg e) ∧ rest' = rest.

Lemma alone_lands x c rest : lone_run → lone_last →
  x_kind x = k → x_sql x = sql → x_args x = args → healthy (conn c) → every sound_plan (stmts c) →
  exchange_ok (cfg c) (stmts c) x → inbound (conn c) = response (cfg c) (stmts c) x ++ rest →
  ∃ y rest', lands c (alone 2 true c) y (request (cfg c) (stmts c) x) rest' (after (cfg c) (stmts c) x) ∧
    match obtained (cfg c) (start (stmts c) x) x with
    | inl e => y = Err e ∧ rest' = rest
    | inr st => ∃ r y0, yields st r (x_rows x) (x_end x) rest y0 rest' ∧ y = made_res made y0
    end.
Proof.
  intros Hrun Hlast Hk Hs Ha Hh Hsc Hok Hin.
  destruct (attempts_land (X := unit) k sql (λ r, cl (run r)) made none (λ _, true) id args (λ _, True) (λ _, True)
    (λ st r rs z rest _ y _ rest', yields st r rs z rest y rest')) with (x := x) (c := c) (v := tt) (rest := rest)
    as (v0 & y & c' & v' & rest' & _ & E & Hends & Hl); try done.
  - intros r c0 [] st vals rs z rest0 _ H1 H2 _ _ H3 H4. destruct (Hrun r c0 st vals rs z rest0 H1 H2 H3 H4) as (y & rest' & Hy & (c1 & E & Hl)).
    exists y, c1, tt, rest'. unfold cl, zoom. cbn [fst snd]. rewrite E. split; [done|]. split; [done|]. by exists c1.
  - intros st r rs z rest0 x0 y x' rest' Hy. destruct (Hlast _ _ _ _ _ _ _ Hy) as [H _]. destruct y; try done. by right.
  - intros st r rs z rest0 x0 y x' rest' e _ Hy He Hst Hearly. destruct (Hlast _ _ _ _ _ _ _ Hy) as [_ H].
    destruct (H e He) as [-> ->]; [intros ->; exact Hearly|done].
  - rewrite attempts_alone in E. destruct (alone 2 true c) as [y1 c1]. injection E as -> -> _. exists y, rest'. split; [exact Hl|].
    unfold attempt_ends in Hends. destruct (obtained _ _ x); [by destruct Hends as (? & _ & ?)|exact Hends].
Qed.
End Alone.
