(* ===== verification/Calls.v ===== *)
(** The turn of each kind of call that goes through the statement cache, and of
    CopyFrom, CopyTo and Ping, which do not: it returns what the reference machine of Turns says, sends that, and leaves the
    connection between two calls.  Each applies the one loop of Turns to what one
    execution of a statement does.  ScanStructBatched has its theorem here too;
    so have the two ways in which one call's failure shows in another's result. *)
From S2P Require Import Prelude Protocol JsonWriter JsonGrammar Encoders Errors Effects Wire Rows Args.
From S2P Require Import StmtCache Stream Client Query QuerySpec QueryResult QueryLife Exec Conn Api Iter Talk Copy CopyTo Scan ScanSpec ScanQuery Turns.

(** ** The executions *)

Lemma last_error_replies rs : Forall exec_ok rs → ∀ e, last_error e (map reply_msg rs) = error_of e rs.
Proof.
  induction 1 as [|r rs [_ Hr] _ IH]; intros e; [done|]. cbn [map last_error error_of].
  destruct r as [|t b| | |]; try done; cbn [reply_msg fst snd]; [|by rewrite IH..]. by destruct Hr as [-> |[[-> _]| ->]]; rewrite IH.
Qed.

Lemma exec_ok_known r : exec_ok r → exec_known (reply_msg r).
Proof.
  intros [Hm Hr]. split; [done|]. destruct r as [|t b|b|b|b]; cbn [reply_msg fst snd] in *; try done; try tauto.
Qed.

Lemma execBind_lands {RS : RowScan} r c st args vals rs z rest : healthy (conn c) → deref r (stmts c) = st →
  executes_ok KExec st args vals rs z → inbound (conn c) = wire_of (map reply_msg rs) ++ frame MsgReadyForQuery z ++ rest →
  lands c (execBind r args c)
    (reply_res rs (let tag := last_tag [] (map reply_msg rs) in mkRes (parseRowsAffected tag) tag))
    (execute_wire KExec st args vals) rest (stmts c).
Proof.
  intros [Hr Hb] Hst [Ha Hrs Hz] Hin.
  destruct (execBind_runs r args c st vals (map reply_msg rs) z rest) as (k & E & I1 & I2 & I3 & I4); try done.
  { apply Forall_fmap. eapply Forall_impl; [exact Hrs|]. apply exec_ok_known. }
  eexists. split; [rewrite E; unfold exec_result; by rewrite (last_error_replies rs Hrs)|]. cbn [conn set_conn stmts cfg].
  split; [done|]. split; [by rewrite I4, Hb|]. rewrite (proj2 (absorbs_same _ c)), (proj1 (absorbs_same _ c)). done.
Qed.

Lemma iterates_split rs : iterates rs →
  (bound rs = true ∧ ∃ quiet b rs', rs = quiet ++ RNeutral MsgBindComplete b :: rs' ∧ Forall bind_quiet quiet ∧
     msg_ok (MsgBindComplete, b) ∧ Forall iter_ok rs') ∨
  (bound rs = false ∧ ∃ quiet b rs', rs = quiet ++ RError b :: rs' ∧ Forall bind_quiet quiet ∧ msg_ok (MsgErrorResponse, b) ∧
     Forall drained rs').
Proof.
  induction 1 as [b rs Hb Hrs|b rs Hb Hrs|r rs Hq _ IH].
  - left. split; [done|]. exists [], b, rs. by repeat split.
  - right. split; [done|]. exists [], b, rs. by repeat split.
  - assert (bound (r :: rs) = bound rs) as -> by (destruct Hq as [_ Hq]; by destruct r).
    destruct IH as [(Hbd & quiet & b & rs' & -> & H1 & H2)|(Hbd & quiet & b & rs' & -> & H1 & H2)]; [left|right];
      (split; [done|exists (r :: quiet), b, rs'; split; [done|split; [by constructor|done]]]).
Qed.

(** Messages in front of the bind carry neither rows nor errors. *)
Lemma quiet_replies quiet rs : Forall bind_quiet quiet → rows_of (quiet ++ rs) = rows_of rs ∧ ∀ e, error_of e (quiet ++ rs) = error_of e rs.
Proof. induction 1 as [|r quiet [_ Hq] _ IH]; [done|]. destruct r; try done; cbn; apply IH. Qed.

Lemma drained_error rs : Forall drained rs →
  Forall (λ m, msg_ok m ∧ m.1 ≠ MsgReadyForQuery) (map reply_msg rs) ∧ ∀ e, last_error e (map reply_msg rs) = error_of e rs.
Proof.
  induction 1 as [|r rs [Hm Hr] _ IH]; [by split; [constructor|]|]. destruct IH as [IH1 IH2].
  split; [constructor; [split; [done|by destruct r; cbn; try done; destruct Hr]|done]|].
  intros e. cbn [map last_error error_of]. destruct r as [|t b| | |]; cbn [reply_msg fst snd] in *; try by rewrite IH2.
  destruct (beq t MsgErrorResponse) eqn:E; [|by rewrite IH2]. apply beq_true in E. by destruct Hr as [_ []].
Qed.

Lemma read_all_more x s' n : ∀ m s, (n <= m)%nat → read_all n s = (Ret x, s') → read_all m s = (Ret x, s').
Proof.
  induction n as [|n IH] in x, s' |- *; intros m s Hm H; [done|]. destruct m as [|m]; [lia|]. cbn [read_all] in *.
  apply bind_inv in H as (y & s1 & E1 & E2). step E1. destruct y as [e|row]; [done|].
  apply bind_inv in E2 as (y & s2 & E2 & E3). step (IH y s2 m s1 ltac:(lia) E2). done.
Qed.

Lemma rows_fewer rs : (length (rows_of rs) <= length rs)%nat.
Proof. induction rs as [|[] rs IH]; cbn; lia. Qed.

(** An iterator over bound rows, read to its end. *)
Lemma read_to_end_lands c it rs z rest : healthy (conn c) → streaming rs z rest (c, it) → it_pgErr it = None →
  lands c (read_to_end it c) (reply_res rs (map data_row (rows_of rs))) [] rest (stmts c).
Proof.
  intros [Hr Hb] Hs He. destruct (read_all_ok z rest rs c it Hs) as (k & it' & E & Hk & D1 & D2).
  apply (read_all_more _ _ _ (rounds c)) in E.
  2: { destruct Hs as (_ & _ & Hin & _). cbn [fst snd] in Hin. unfold rounds. rewrite Hin. pose proof (fuel_enough rs (frame MsgReadyForQuery z ++ rest)).
       pose proof (rows_fewer rs). lia. }
  unfold read_to_end. set (c1 := set_lastRows _ _) in *.
  assert ((x ← read_all (rounds c); _ ← it_Close; mret x) (c, it) = (Ret (map data_row (rows_of rs), last_word (error_of None rs)), (c1, it'))) as ->.
  { rewrite He in E. step E. by step (it_Close_done c1 it' D1). }
  destruct Hk as (K1 & K2 & K3 & _ & K4). exists c1. unfold reply_res. rewrite app_nil_r.
  split; [by destruct (error_of None rs)|]. unfold c1. cbn [conn set_conn set_lastRows stmts cfg].
  split; [done|]. split; [done|]. split; [apply reacts_stmts|]. split; [split; congruence|]. apply (reacts_same c rs).
Qed.

Definition opened (r : nat) (st : preparedStmt) : Iterator := mkIter (Some r) (st_plan st) true false None None 0.

Lemma raw_lands {RS : RowScan} r c st args vals rs z rest : healthy (conn c) → deref r (stmts c) = st →
  executes_ok KRows st args vals rs z → inbound (conn c) = wire_of (map reply_msg rs) ++ frame MsgReadyForQuery z ++ rest →
  if bound rs then ∃ rs', rows_of rs' = rows_of rs ∧ error_of None rs' = error_of None rs ∧
      lands c (startRawExecute r args c) (Ret (opened r st)) (execute_wire KRows st args vals)
        (wire_of (map reply_msg rs') ++ frame MsgReadyForQuery z ++ rest) (stmts c) ∧ Forall iter_ok rs' ∧ msg_ok (MsgReadyForQuery, z)
  else ∃ e, error_of None rs = Some e ∧
      lands c (startRawExecute r args c) (Err (EPg e)) (execute_wire KRows st args vals) rest (stmts c).
Proof.
  intros [Hr Hb] Hst [Ha Hrs Hz] Hin.
  destruct (iterates_split rs Hrs) as [(Hbd & quiet & b & rs' & -> & H1 & H2 & H3)|(Hbd & quiet & b & rs' & -> & H1 & H2 & H3)]; rewrite Hbd;
    destruct (quiet_replies quiet (match bound (quiet ++ (RNeutral MsgBindComplete b :: rs')) with true => RNeutral MsgBindComplete b :: rs' | false => [] end) H1) as [Q1 Q2].
  - rewrite Hbd in Q1, Q2. exists rs'. rewrite Q1, Q2. split; [done|]. split; [done|]. split; [|done].
    rewrite map_app in Hin. unfold wire_of in Hin. rewrite map_app, concat_app in Hin. cbn [map concat] in Hin. rewrite <- !app_assoc in Hin.
    destruct (startRawExecute_ok r args c st vals quiet b _ Hst Ha Hr Hin H1 H2) as (k & E & I1 & I2 & I3 & I4).
    eexists. split; [exact E|]. cbn [conn set_conn stmts cfg]. split; [exact I1|]. split; [by rewrite I2, Hb|].
    split; [apply reacts_stmts|]. split; [done|]. apply (reacts_same c quiet).
  - clear Q1 Q2. destruct (quiet_replies quiet (RError b :: rs') H1) as [_ Q2], (drained_error rs' H3) as [D1 D2].
    rewrite map_app in Hin. unfold wire_of in Hin. rewrite map_app, concat_app in Hin. cbn [map concat] in Hin. rewrite <- !app_assoc in Hin.
    destruct (startRawExecute_refused r args c st vals quiet b (map reply_msg rs') z rest Hst Ha Hr Hin H1 H2 D1 Hz) as
      (e & c' & He & E & I1 & I2 & I3 & I4 & I5 & I6).
    exists e. split; [by rewrite Q2; cbn [error_of]; rewrite <- D2|]. exists c'. rewrite E. split; [done|]. split; [done|].
    split; [by rewrite I2, Hb|]. done.
Qed.

(** ** The turns *)

Section Calls.
Context {MO : MapOrder} {RS : RowScan} (elapsed : nat → bool) (ctx : context) (dur : Z).

(** An error that comes out is one the configuration does not retry. *)
Lemma document_final cf sc x e : exchange_ok cf sc x → document cf sc x = Err e → not_retried cf (x_kind x) e.
Proof.
  intros [_ _ _ _ [_ H]] E. unfold document in E. destruct (obtained cf (start sc x) x) as [e'|st]; [by injection E as <-|].
  destruct H as [_ H]. unfold reply_res in E. destruct (error_of None (x_rows x)) as [pe|] eqn:Ep; [|done]. injection E as <-. by apply (H pe).
Qed.

(** *** Exec *)

Definition exec_yields (st : preparedStmt) (r : nat) (rs : list reply) (z rest : bytes) (x : res ExecResult) (rest' : bytes) : Prop :=
  x = reply_res rs (let tag := last_tag [] (map reply_msg rs) in mkRes (parseRowsAffected tag) tag) ∧ rest' = rest.

Lemma exec_once sql args c c' y : ctx_err ctx 0 = None → execCached sql args (observe (OnQueryStart sql) c) = (y, c') →
  match y with Ret _ => True | Err e => not_retried (cfg c') KExec e | _ => False end →
  ∃ c2, Exec ctx dur sql args c = (y, c2) ∧ conn c2 = conn c' ∧ stmts c2 = stmts c' ∧ cfg c2 = cfg c'.
Proof.
  intros Hctx E Hy. unfold Exec.
  step (eq_refl : modify (observe (OnQueryStart sql)) c = (Ret tt, observe (OnQueryStart sql) c)).
  assert ((_ ← attachContext ctx; exec_retry_loop 3 1 ctx sql args) (observe (OnQueryStart sql) c) = (y, c')) as E1.
  { assert (attachContext ctx (observe (OnQueryStart sql) c) = (Ret tt, observe (OnQueryStart sql) c)) as Ea
      by (unfold attachContext; by rewrite Hctx).
    step Ea. change (exec_retry_loop 3 1 ctx sql args) with
      (x ← catch (execCached sql args);
       match x with
       | inr res => mret res
       | inl e => c ← ask; if negb (RetryOnSerialization (cfg c)) then throw e
           else if bool_decide (2%nat = O) || negb (isRetryableSerialization e) then throw e
           else match ctx_err ctx 1 with Some _ => throw e | None =>
             match ctx_err ctx 2 with Some _ => throw e | None => exec_retry_loop 2 3 ctx sql args end end
       end).
    unfold catch, mbind, prog_bind. rewrite E. destruct y as [a|e| |]; try done. cbn [ask].
    destruct Hy as [-> | ->]; [done|]. by destruct (negb _). }
  unfold exec_record. rewrite E1. destruct (recordEnd_same sql 0 0 dur (match y with Err e => Some e | _ => None end) c') as (c2 & E2 & H1 & H2 & _ & H3).
  exists c2. by rewrite E2.
Qed.

Lemma exec_turn x c rest : ctx_err ctx 0 = None → x_kind x = KExec → healthy (conn c) → every sound_plan (stmts c) → exchange_ok (cfg c) (stmts c) x →
  inbound (conn c) = response (cfg c) (stmts c) x ++ rest →
  lands c (call_of elapsed ctx dur KExec (x_sql x) (x_args x) c) (document (cfg c) (stmts c) x) (request (cfg c) (stmts c) x) rest
    (after (cfg c) (stmts c) x).
Proof.
  intros Hctx Hk Hh Hsc Hok Hin. set (c0 := observe (OnQueryStart (x_sql x)) c).
  destruct (alone_lands KExec (x_sql x) (λ r, execBind r (x_args x)) id emptyResult (x_args x) exec_yields x c0 rest)
    as (y & rest' & (c1 & E & I1 & I2 & I3 & I4 & I5) & Hobt); try done.
  { intros r c1 st vals rs z rest1 H1 H2 H3 H4. eexists _, rest1. split; [by split|]. by apply execBind_lands with (z := z). }
  { intros st r rs z rest1 x1 rest2 [-> ->]. unfold reply_res. destruct (error_of None rs) as [pe|]; [|by split]. split; [by exists pe|]. by intros e [= <-]. }
  pose proof (document_final (cfg c) (stmts c) x) as Hf.
  assert ((∃ a, y = Ret a ∧ document (cfg c) (stmts c) x = Ret (AExec a)) ∨ (∃ e, y = Err e ∧ document (cfg c) (stmts c) x = Err e)) as Hy.
  { unfold document. change (obtained (cfg c) (start (stmts c) x) x) with (obtained (cfg c0) (start (stmts c0) x) x). unfold c0 in Hobt.
    destruct (obtained _ _ x) as [e|st]; [destruct Hobt as [-> _]; right; by exists e|].
    destruct Hobt as (r & x0 & [-> ->] & ->). rewrite Hk. unfold reply_res. destruct (error_of None (x_rows x)) as [pe|]; [right; by eexists|left; by eexists]. }
  assert (rest' = rest) as ->.
  { unfold c0 in Hobt. destruct (obtained _ _ x) as [e|st]; [by destruct Hobt|]. by destruct Hobt as (r & x0 & [_ ->] & _). }
  destruct (exec_once (x_sql x) (x_args x) c c1 y Hctx E) as (c2 & E2 & C1 & C2 & C3).
  { destruct Hy as [(a & -> & _)|(e & -> & He)]; [done|]. rewrite I5. rewrite Hk in Hf. by eapply Hf. }
  exists c2. rewrite C1, C2, C3. split; [|done]. unfold call_of, answered_by.
  destruct Hy as [(a & -> & ->)|(e & -> & ->)]; [by step E2|by rewrite (bind_Err _ _ _ _ _ E2)].
Qed.

(** *** RawQuery, read to its end *)

Definition raw_yields (st : preparedStmt) (r : nat) (rs : list reply) (z rest : bytes) (x : res Iterator) (rest' : bytes) : Prop :=
  if bound rs then x = Ret (opened r st) ∧ ∃ rs', rows_of rs' = rows_of rs ∧ error_of None rs' = error_of None rs ∧
    rest' = wire_of (map reply_msg rs') ++ frame MsgReadyForQuery z ++ rest ∧ Forall iter_ok rs' ∧ msg_ok (MsgReadyForQuery, z)
  else ∃ e, error_of None rs = Some e ∧ x = Err (EPg e) ∧ rest' = rest.

Lemma raw_yields_last : lone_last KRows raw_yields.
Proof.
  intros st r rs z rest x rest' H. unfold raw_yields in H. destruct (bound rs) eqn:Eb.
  - destruct H as [-> _]. split; [done|]. intros e _ Hb. by specialize (Hb eq_refl).
  - destruct H as (e & -> & -> & ->). split; [by exists e|]. by intros e' [= <-].
Qed.

Lemma rows_turn x c rest : ctx_err ctx 0 = None → x_kind x = KRows → healthy (conn c) → every sound_plan (stmts c) → exchange_ok (cfg c) (stmts c) x →
  inbound (conn c) = response (cfg c) (stmts c) x ++ rest →
  lands c (call_of elapsed ctx dur KRows (x_sql x) (x_args x) c) (document (cfg c) (stmts c) x) (request (cfg c) (stmts c) x) rest
    (after (cfg c) (stmts c) x).
Proof.
  intros Hctx Hk Hh Hsc Hok Hin.
  destruct (alone_lands KRows (x_sql x) (λ r, startRawExecute r (x_args x)) Some None (x_args x) raw_yields x c rest)
    as (y & rest' & Hl & Hobt); try done.
  { intros r c1 st vals rs z rest1 H1 H2 H3 H4. pose proof (raw_lands r c1 st (x_args x) vals rs z rest1 H1 H2 H3 H4) as H. unfold raw_yields.
    destruct (bound rs); [destruct H as (rs' & R1 & R2 & Hl & R3 & R4)|destruct H as (e & He & Hl)]; eexists _, _; (split; [|exact Hl]).
    - split; [done|]. by exists rs'.
    - by exists e. }
  { apply raw_yields_last. }
  assert (rejectNonSelect (x_sql x) = inr tt) as Hg by (destruct (xo_guard _ _ _ Hok) as [H|H]; [by rewrite Hk in H|done]).
  assert (RawQuery ctx (x_sql x) (x_args x) c = alone KRows (x_sql x) (λ r, startRawExecute r (x_args x)) Some None 2 true c) as Eq.
  { unfold RawQuery. rewrite Hg. unfold of_sum. rewrite bind_ret. unfold RawQueryAny.
    assert (attachContext ctx c = (Ret tt, c)) as Ea by (unfold attachContext; by rewrite Hctx). by step Ea. }
  unfold call_of, answered_by, read_rows, document. destruct Hl as (c1 & E & I1 & I2 & I3 & I4 & I5). rewrite <- Eq in E.
  destruct (obtained (cfg c) (start (stmts c) x) x) as [e|st].
  { destruct Hobt as [-> ->]. exists c1. split; [by rewrite (bind_Err _ _ _ _ _ (bind_Err _ _ _ _ _ E))|done]. }
  destruct Hobt as (r & x0 & Hy & ->). rewrite Hk. unfold raw_yields in Hy. destruct (bound (x_rows x)).
  - destruct Hy as (-> & rs' & R1 & R2 & -> & R3 & R4).
    destruct (read_to_end_lands c1 (opened r st) rs' (x_end x) rest I4) as (c2 & E2 & J1 & J2 & J3 & J4 & J5); [done|done|].
    exists c2. split; [|split; [done|split; [by rewrite J2, I2, app_nil_r|split; [by rewrite J3|split; [done|congruence]]]]].
    unfold carried. rewrite <- R1. unfold reply_res in *. rewrite <- R2. rewrite bind_assoc. cbn [made_res] in E. step E.
    unfold mbind, prog_bind. rewrite E2. by destruct (error_of None rs').
  - destruct Hy as (e & He & -> & ->). exists c1. split; [|done]. unfold reply_res. rewrite He. cbn [made_res] in E.
    by rewrite (bind_Err _ _ _ _ _ (bind_Err _ _ _ _ _ E)).
Qed.

(** *** ScanStruct *)

Lemma filled_rows t p sp st rs : st_plan st = Some p → buildStructPlan Scan ToLower t p = inr sp →
  Forall (λ cells, ∃ row, fills t sp cells row) (rows_of rs) → Forall2 (fills t sp) (rows_of rs) (filled t st rs).
Proof.
  intros Hp Hb Hr. unfold filled, plan_of. rewrite Hp, Hb. induction Hr as [|cells rows [row Hrow] _ IH]; [constructor|].
  cbn [omap list_omap]. unfold fills in Hrow. rewrite Hrow. by constructor.
Qed.

(** A struct plan that cannot be made is not a stale statement. *)
Lemma buildStructPlan_fresh t p e : buildStructPlan Scan ToLower t p = inl e → isStaleStmtError e = false.
Proof.
  unfold buildStructPlan. generalize (Columns p). intros cols. revert e.
  induction cols as [|col cols IH]; intros e; [done|]. cbn [build_setters]. destruct (_ !! _) as [info|].
  - destruct (pickSetter _ _ _ _); [by intros [= <-]|]. destruct (build_setters _ _ _) as [e'|]; [|done]. intros [= <-]. by apply IH.
  - destruct (build_setters _ _ _) as [e'|]; [|done]. intros [= <-]. by apply IH.
Qed.
Lemma struct_plan_fresh t r c e c' : struct_plan Scan ToLower t r c = (Err e, c') → isStaleStmtError e = false.
Proof.
  unfold struct_plan, mbind, prog_bind, load, gets. intros E.
  destruct (st_plan _) as [p|]; [|done]. unfold of_sum in E. destruct (buildStructPlan _ _ t p) eqn:Eb; [|done].
  injection E as <- _. by eapply buildStructPlan_fresh.
Qed.

Definition scan_run (t : gotype) (args : list goarg) (r : nat) : client (list goval) :=
  sp ← struct_plan Scan ToLower t r; bindExecuteScan Scan ToLower r args sp t.

Lemma scan_loop_alone t sql args n : ∀ first c, scan_loop Scan ToLower n first t sql args c =
  alone (KScan t) sql (scan_run t args) id [] n first c.
Proof.
  induction n as [|n IH]; intros first c; [done|]. cbn [scan_loop alone]. change (raw_obtain sql) with (lookup_stmt (KScan t) sql).
  unfold mbind, prog_bind, catch. destruct (lookup_stmt (KScan t) sql c) as [[[r b]|e| |] c1]; try done. cbn [fst snd].
  unfold scan_run, mbind, prog_bind. destruct (struct_plan Scan ToLower t r c1) as [[sp|e| |] c2] eqn:E; try done.
  - destruct (bindExecuteScan Scan ToLower r args sp t c2) as [[rows|e| |] c3]; try done. destruct (first && b && _); [|done].
    unfold cache_invalidate, modify. apply IH.
  - by rewrite (struct_plan_fresh _ _ _ _ _ E), andb_false_r.
Qed.

Definition scan_yields (t : gotype) (st : preparedStmt) (r : nat) (rs : list reply) (z rest : bytes) (y : res (list goval)) (rest' : bytes) : Prop :=
  y = reply_res rs (filled t st rs) ∧ rest' = rest.

Lemma scan_lands r t c st args vals rs z rest : healthy (conn c) → deref r (stmts c) = st →
  executes_ok (KScan t) st args vals rs z → inbound (conn c) = wire_of (map reply_msg rs) ++ frame MsgReadyForQuery z ++ rest →
  lands c (scan_run t args r c) (reply_res rs (filled t st rs)) (execute_wire (KScan t) st args vals) rest (stmts c).
Proof.
  intros [Hr Hb] Hst [Ha (p & sp & Hp & Hsp & Hok & Hfill) Hz] Hin. subst st. unfold scan_run.
  step (struct_plan_ok Scan ToLower t r c p sp Hp Hsp).
  destruct (bindExecuteScan_ok Scan ToLower t args c r sp vals rs (filled t (deref r (stmts c)) rs) z rest Ha Hr Hin Hok Hz) as (k & E & K1 & K2 & K3 & K4 & K5).
  { by eapply filled_rows. }
  eexists. split; [exact E|]. cbn [conn set_lastRows set_conn stmts cfg asked set_writeBuf set_socket sent writeBuf room] in *.
  split; [done|]. split; [by rewrite K2, Hb|]. split; [apply reacts_stmts|]. split; [split; congruence|]. apply (reacts_same c rs).
Qed.

Lemma scan_turn t x c rest : ctx_err ctx 0 = None → x_kind x = KScan t → healthy (conn c) → every sound_plan (stmts c) →
  exchange_ok (cfg c) (stmts c) x → inbound (conn c) = response (cfg c) (stmts c) x ++ rest →
  lands c (call_of elapsed ctx dur (KScan t) (x_sql x) (x_args x) c) (document (cfg c) (stmts c) x) (request (cfg c) (stmts c) x) rest
    (after (cfg c) (stmts c) x).
Proof.
  intros Hctx Hk Hh Hsc Hok Hin.
  destruct (alone_lands (KScan t) (x_sql x) (scan_run t (x_args x)) id [] (x_args x) (scan_yields t) x c rest)
    as (y & rest' & (c1 & E & Hl) & Hobt); try done.
  { intros r c1 st vals rs z rest1 H1 H2 H3 H4. eexists _, rest1. split; [by split|]. by apply scan_lands with (z := z). }
  { intros st r rs z rest1 x1 rest2 [-> ->]. unfold reply_res. destruct (error_of None rs) as [pe|]; [|by split].
    split; [by exists pe|]. by intros e [= <-]. }
  assert (rejectNonSelect (x_sql x) = inr tt) as Hg by (destruct (xo_guard _ _ _ Hok) as [H|H]; [by rewrite Hk in H|done]).
  assert (ScanStruct Scan ToLower ctx t (x_sql x) (x_args x) c = (y, c1)) as E1.
  { unfold ScanStruct, attachContext. rewrite Hg, Hctx, (xo_type _ _ _ Hok t Hk). unfold of_sum. rewrite !bind_ret. by rewrite scan_loop_alone. }
  unfold call_of, answered_by, document. exists c1. unfold mbind, prog_bind. rewrite E1.
  destruct (obtained (cfg c) (start (stmts c) x) x) as [e|st]; [by destruct Hobt as [-> ->]|].
  destruct Hobt as (r & y0 & [-> ->] & ->). split; [|exact Hl]. rewrite Hk. unfold reply_res. by destruct (error_of None (x_rows x)).
Qed.

(** *** The queries *)

Definition no_caps (cf : Config) : Prop := MaxResponseRows cf <= 0 ∧ MaxResponseBytes cf <= 0.

Section Queries.
Context {W : Type} {OW : OutWriter W} {OL : OutWriterLaws W} (q : query_call).

Lemma cached_loop_attempts sql args n : ∀ first (s : Client * W), cached_loop n first (mode_of q) sql args s =
  attempts (KQuery q) sql (λ r, bindExecute (mode_of q) r args) id tt (λ w, negb (Committed w)) Reset n first s.
Proof.
  assert (∀ s : Client * W, obtain sql s = cl (lookup_stmt (KQuery q) sql) s) as Ho.
  { intros [c w]. unfold obtain, lookup_stmt, cl, zoom, catch, mbind, prog_bind, cache_get, gets. cbn [fst snd].
    destruct (get sql (stmts c)); [done|]. cbn [prepares fst snd]. by destruct (prepareAndDescribe sql c) as [[] c1]. }
  induction n as [|n IH]; intros first s; [done|]. rewrite cached_loop_S. cbn [attempts]. apply bind_ext; [apply Ho|].
  intros [r b] s1. cbn [fst snd]. apply bind_ext; [done|]. intros [e|[]] s2; [|done]. apply bind_ext; [done|]. intros w s3.
  destruct (first && b && isStaleStmtError e && negb (Committed w)); [|done].
  do 2 (apply bind_ext; [done|]; intros [] ?). apply IH.
Qed.

(** A writer that has delivered nothing and does not fail. *)
Definition untouched (w : W) : Prop := writer_ok true w ∧ output w = [] ∧ Committed w = false.

(** What an execution leaves in such a writer. *)
Definition query_yields (st : preparedStmt) (r : nat) (rs : list reply) (z rest : bytes) (w : W) (y : res unit) (w' : W) (rest' : bytes) : Prop :=
  y = reply_res rs tt ∧ rest' = rest ∧ writer_ok true w' ∧ settles rs w w' ∧
  (error_of None rs = None → output w' = result_text (mode_of q) (plan_of st) (rows_of rs)).

Lemma query_lands args : run_lands (KQuery q) (λ r, bindExecute (mode_of q) r args) args untouched no_caps query_yields.
Proof.
  intros r c w st vals rs z rest (Hok & Hw & _) [Hr Hb] Hst Hs [H1 H2] [Ha (p & Hp & Hrs) Hz] Hin.
  destruct (bindExecute_answered (h := true) (mode_of q) r args c w st p vals rs z rest) as
    [(k2 & w' & E2 & I1 & I2 & IR & I3 & I4 & I5 & I6)|(? & _)]; try done; [by apply Hs|by split; left|].
  eexists _, _, w', rest. split; [exact E2|]. split.
  { repeat (split; [done|]). intros He. unfold plan_of. rewrite Hp. unfold finished_text in I5. by rewrite He, Hw in I5. }
  eexists. split; [reflexivity|]. cbn [conn set_lastRows set_conn stmts cfg]. split; [done|]. split; [by rewrite I3, Hb|].
  split; [apply reacts_stmts|]. split; [done|]. apply (reacts_same c rs).
Qed.

Lemma query_last : yields_last (KQuery q) query_yields.
Proof.
  intros st r rs z rest w y w' rest' (-> & _). unfold reply_res. destruct (error_of None rs) as [pe|]; [|done]. right. by exists pe.
Qed.

Context (Hbuf : streams q = false → ∀ w : W, Committed w = false).

(** What a stale reply leaves can be thrown away. *)
Lemma query_stale : stale_clean (KQuery q) (λ w, negb (Committed w)) Reset untouched query_yields.
Proof.
  intros st r rs z rest w y w' rest' e (_ & Ho & Hc) (-> & -> & Hok & Hs & _) He _ Hearly. unfold settles, reply_res in *. rewrite He in *.
  assert (Committed w' = false) as Hcl by (destruct (streams q) eqn:Es; [by rewrite (Hs (Hearly Es))|by apply Hbuf]).
  split; [done|]. split; [done|]. split; [by rewrite Hcl|]. destruct (reset_spec true w' Hcl) as (H1 & H2 & H3 & H4).
  split; [by apply H4|]. split; [|done]. unfold output. by rewrite H1, H2, (committed_spec true w' Hok Hcl).
Qed.

Lemma runQueryInner_once mode sql args c c' (w w' : W) r :
  ctx_err ctx 0 = None → run_once mode sql args (observe (OnQueryStart sql) c, w) = (r, (c', w')) →
  match r with Ret _ => True | Err e => not_retried (cfg c') (KQuery q) e | _ => False end →
  ∃ c2, runQueryInner ctx dur mode sql args (c, w) = (r, (c2, w')) ∧
    conn c2 = conn c' ∧ stmts c2 = stmts c' ∧ cfg c2 = cfg c'.
Proof.
  intros Hctx E Hretry. unfold runQueryInner.
  step (eq_refl : cl (modify (observe (OnQueryStart sql))) (c, w) = (Ret tt, (observe (OnQueryStart sql) c, w))).
  assert ((_ ← cl (attachContext ctx); retry_loop maxRetries 1 ctx mode sql args) (observe (OnQueryStart sql) c, w) = (r, (c', w'))) as E1.
  { assert (cl (attachContext ctx) (observe (OnQueryStart sql) c, w) = (Ret tt, (observe (OnQueryStart sql) c, w))) as Ea
      by (unfold attachContext, cl, zoom; by rewrite Hctx).
    step Ea. unfold maxRetries. rewrite retry_loop_S. unfold catch, mbind, prog_bind. rewrite E. destruct r as [[]|e| |]; try done.
    cbn [Effects.ask fst snd]. destruct Hretry as [-> | ->]; [done|]. by rewrite orb_true_r; destruct (negb _). }
  unfold with_record. rewrite E1. cbn [fst snd]. unfold cl, zoom. cbn [fst snd].
  destruct (recordEnd_same sql (lastRows c') (BytesOut w') dur (match r with Err e => Some e | _ => None end) c') as (c2 & E2 & C1 & C2 & _ & C3).
  exists c2. by rewrite E2.
Qed.

Definition attempt_result (cf : Config) (sc : stmtCache) (x : exchange) : res unit :=
  match obtained cf sc x with inl e => Err e | inr _ => reply_res (x_rows x) tt end.

Definition inner_query (sql : bytes) (args : list goarg) : prog (Client * W) unit :=
  if guarded q then runQuery ctx dur (mode_of q) sql args else runQueryInner ctx dur (mode_of q) sql args.

Lemma query_asked x c (w : W) rest : ctx_err ctx 0 = None → x_kind x = KQuery q → healthy (conn c) → every sound_plan (stmts c) →
  untouched w → no_caps (cfg c) → exchange_ok (cfg c) (stmts c) x → inbound (conn c) = response (cfg c) (stmts c) x ++ rest →
  let r := attempt_result (cfg c) (start (stmts c) x) x in
  ∃ c' w', inner_query (x_sql x) (x_args x) (c, w) = (r, (c', w')) ∧
    (r = Ret tt → settled w' ∧ document (cfg c) (stmts c) x = Ret (ADoc (output w'))) ∧
    (∀ e, r = Err e → document (cfg c) (stmts c) x = Err e) ∧
    lands c (r, c') r (request (cfg c) (stmts c) x) rest (after (cfg c) (stmts c) x).
Proof.
  intros Hctx Hk Hh Hsc Hw Hcap Hok Hin r. set (c0 := observe (OnQueryStart (x_sql x)) c).
  destruct (attempts_land (KQuery q) (x_sql x) (λ r, bindExecute (mode_of q) r (x_args x)) id tt (λ w, negb (Committed w)) Reset (x_args x) untouched
    no_caps query_yields (query_lands _) query_last query_stale x c0 w rest) as (w0 & y & c1 & w1 & rest' & _ & E & Hends & (c1' & [= <-] & I1 & I2 & I3 & I4 & I5)); try done.
  change (stmts c0) with (stmts c) in *. change (cfg c0) with (cfg c) in *. change (conn c0) with (conn c) in *.
  set (sc := start (stmts c) x) in *.
  assert (y = r ∧ rest' = rest ∧ ∀ st, obtained (cfg c) sc x = inr st → error_of None (x_rows x) = None →
    settled w1 ∧ output w1 = result_text (mode_of q) (plan_of st) (rows_of (x_rows x))) as (-> & -> & Hd).
  { unfold attempt_ends in Hends. unfold r, attempt_result. destruct (obtained (cfg c) sc x) as [e|st]; [by destruct Hends as (-> & _ & ->)|].
    destruct Hends as (r0 & y0 & (-> & -> & _ & Hs & Hd) & ->). split; [unfold reply_res; by destruct (error_of None (x_rows x))|].
    split; [done|]. intros st' [= <-] He. split; [|by apply Hd]. unfold settles in Hs. by rewrite He in Hs. }
  assert (run_once (mode_of q) (x_sql x) (x_args x) (c0, w) = (r, (c1, w1))) as E1.
  { rewrite <- cached_loop_attempts in E. unfold run_once. step (eq_refl : gets fst (c0, w) = (Ret c0, (c0, w))). change (cfg c0) with (cfg c).
    destruct (xo_cached _ _ _ Hok ltac:(by rewrite Hk)) as [Hs|Hs]; [by destruct (Z.ltb_spec (StmtCacheSize (cfg c)) 0); [lia|]|].
    by rewrite bool_decide_false, andb_false_r. }
  pose proof (document_final (cfg c) (stmts c) x) as Hf. unfold document in *. rewrite Hk in *. fold sc in Hf |- *.
  unfold r, attempt_result in *. clear r.
  destruct (runQueryInner_once (mode_of q) (x_sql x) (x_args x) c c1 w w1 _ Hctx E1) as (c2 & E2 & C1 & C2 & C3).
  { destruct (obtained (cfg c) sc x) as [e|st]; [rewrite I5; by apply (Hf e Hok)|]. unfold reply_res in *.
    destruct (error_of None (x_rows x)); [|done]. rewrite I5. by apply (Hf _ Hok). }
  exists c2, w1. split.
  { unfold inner_query. destruct (guarded q) eqn:Eg; [|exact E2]. unfold runQuery.
    destruct (xo_guard _ _ _ Hok) as [H|H]; [rewrite Hk in H; cbn in H; congruence|]. rewrite H. exact E2. }
  split; [|split; [|exists c2; by rewrite C1, C2, C3]].
  - destruct (obtained (cfg c) sc x) as [e|st]; [done|]. unfold reply_res in *.
    destruct (error_of None (x_rows x)); [done|]. intros _. destruct (Hd st eq_refl eq_refl) as [Hs Ho]. split; [done|]. unfold carried. by rewrite Ho.
  - destruct (obtained (cfg c) sc x) as [e|st]; [by intros e' [= <-]|]. unfold reply_res.
    destruct (error_of None (x_rows x)); [by intros e' [= <-]|done].
Qed.
End Queries.

Lemma document_of_asked q sql args : document_of elapsed ctx dur q sql args =
  if streams q then collected (streamed elapsed (inner_query q sql args)) else buffered (inner_query q sql args).
Proof. by destruct q. Qed.

Lemma attempt_result_cases cf sc x : attempt_result cf sc x = Ret tt ∨ ∃ e, attempt_result cf sc x = Err e.
Proof.
  unfold attempt_result, reply_res. destruct (obtained cf sc x) as [e|st]; [right; by exists e|].
  destruct (error_of None (x_rows x)); [right; by eexists|by left].
Qed.

Lemma query_turn q x c rest : ctx_err ctx 0 = None → x_kind x = KQuery q → healthy (conn c) → every sound_plan (stmts c) →
  no_caps (cfg c) → exchange_ok (cfg c) (stmts c) x → inbound (conn c) = response (cfg c) (stmts c) x ++ rest →
  lands c (call_of elapsed ctx dur (KQuery q) (x_sql x) (x_args x) c) (document (cfg c) (stmts c) x) (request (cfg c) (stmts c) x) rest
    (after (cfg c) (stmts c) x).
Proof.
  intros Hctx Hk Hh Hsc Hcap Hok Hin. unfold call_of, answered_by. rewrite document_of_asked.
  pose proof (attempt_result_cases (cfg c) (start (stmts c) x) x) as Hr. destruct (streams q) eqn:Es.
  - set (f := newFlushWriter elapsed (mkSink [] None) c). assert (untouched f) as Hf by (split; [split; [done|by split]|done]).
    destruct (query_asked q ltac:(by rewrite Es) x c f rest Hctx Hk Hh Hsc Hf Hcap Hok Hin) as (c1 & f1 & E & Hd & He & c1' & [= <-] & Hl).
    exists c1. split; [|exact Hl]. unfold mbind, prog_bind, collected, streamed. cbn [fst snd]. fold f. rewrite E.
    destruct Hr as [Hr|[e Hr]]; rewrite Hr in *; [|by rewrite (He e eq_refl)].
    destruct (Hd eq_refl) as [Hset ->]. cbn in Hset. unfold output. cbn. by rewrite Hset, app_nil_r.
  - set (w := mkBufWriter [] (RowsHint (cfg c)) false). assert (untouched w) as Hw by done.
    destruct (query_asked (W := bufWriter) q ltac:(done) x c w rest Hctx Hk Hh Hsc Hw Hcap Hok Hin) as (c1 & w1 & E & Hd & He & c1' & [= <-] & Hl).
    exists c1. split; [|exact Hl]. unfold buffered. rewrite !bind_assoc. step (eq_refl : gets cfg c = (Ret (cfg c), c)). fold w.
    unfold mbind, prog_bind, with_writer. rewrite E. destruct Hr as [Hr|[e Hr]]; rewrite Hr in *; [|by rewrite (He e eq_refl)].
    by destruct (Hd eq_refl) as [_ ->].
Qed.

(** Whatever the kind. *)
Lemma turn_lands x c rest : ctx_err ctx 0 = None → healthy (conn c) → every sound_plan (stmts c) →
  no_caps (cfg c) → exchange_ok (cfg c) (stmts c) x → inbound (conn c) = response (cfg c) (stmts c) x ++ rest →
  lands c (call_of elapsed ctx dur (x_kind x) (x_sql x) (x_args x) c) (document (cfg c) (stmts c) x) (request (cfg c) (stmts c) x) rest
    (after (cfg c) (stmts c) x).
Proof.
  intros. destruct (x_kind x) as [q| |t|] eqn:Hk; [by apply query_turn|by apply rows_turn|by apply scan_turn|by apply exec_turn].
Qed.

(** *** ScanStructBatched *)

Section Batched.
Context {H : Type} (n : Z) (cb : list goval → prog H unit) (t : gotype).

Definition batched_run (args : list goarg) (r : nat) : prog (Client * H) unit :=
  sp ← cl (struct_plan Scan ToLower t r); bindExecuteScanBatched Scan ToLower n cb r args sp t.

Lemma batched_loop_attempts sql args k : ∀ first (s : Client * H), batched_loop Scan ToLower cb n k first t sql args s =
  attempts (KScan t) sql (batched_run args) id tt (λ _, true) id k first s.
Proof.
  induction k as [|k IH]; intros first s; [done|]. cbn [batched_loop attempts]. apply bind_ext; [done|]. intros [r b] s1. cbn [fst snd].
  unfold batched_run, mbind, prog_bind, catch. destruct (cl (struct_plan Scan ToLower t r) s1) as [[sp|e| |] s2] eqn:E; try done.
  - destruct (bindExecuteScanBatched Scan ToLower n cb r args sp t s2) as [[[]|e| |] s3]; try done. cbn [gets]. rewrite andb_true_r.
    destruct (first && b && _); [|done]. destruct s3 as [c3 h3]. unfold cl, ow, zoom, cache_invalidate, modify. cbn [fst snd]. apply IH.
  - unfold cl, zoom in E. destruct (struct_plan Scan ToLower t r (fst s1)) as [y c2] eqn:E2. injection E as -> <-.
    by rewrite (struct_plan_fresh _ _ _ _ _ E2), andb_false_r.
Qed.

(** What the callback, called on the batches of [rows], makes of a query that
    the server ends with [e]. *)
Definition handed (rows : list goval) (e : option PGError) (h : H) (y : res unit) (h' : H) : Prop :=
  ∃ bs rem, batches_of n [] rows bs rem ∧
    match e with
    | None => mapM_ cb (bs ++ last_batch None rem) h = (y, h')
    | Some e => (_ ← mapM_ cb bs; throw (EPg e)) h = (y, h')
    end.

(** A callback that returns, with errors of its own. *)
Context (Hn : 0 < n) (Hcb : ∀ b h, match fst (cb b h) with Ret _ => True | Err e => isStaleStmtError e = false | _ => False end).

Lemma mapM_returns bs : ∀ h, match fst (mapM_ cb bs h) with Ret _ => True | Err e => isStaleStmtError e = false | _ => False end.
Proof.
  induction bs as [|b bs IH]; intros h; [done|]. cbn [mapM_]. unfold mbind, prog_bind. specialize (Hcb b h).
  destruct (cb b h) as [[] h1]; try done. apply IH.
Qed.

Definition batched_yields (st : preparedStmt) (r : nat) (rs : list reply) (z rest : bytes) (h : H) (y : res unit) (h' : H) (rest' : bytes) : Prop :=
  handed (filled t st rs) (error_of None rs) h y h' ∧ rest' = rest.

Lemma batched_lands args (good : H → Prop) : run_lands (KScan t) (batched_run args) args good (λ _, True) batched_yields.
Proof.
  intros r c h st vals rs z rest _ [Hr Hb] Hst _ _ [Ha (p & sp & Hp & Hsp & Hok & Hfill) Hz] Hin. subst st.
  destruct (bindExecuteScanBatched_ok Scan ToLower n cb t args c h r sp vals rs (filled t (deref r (stmts c)) rs) z rest Hn Ha Hr Hin Hok Hz) as (bs & rem & Hbs & Hd).
  { by eapply filled_rows. }
  assert (∀ y h', handed (filled t (deref r (stmts c)) rs) (error_of None rs) h y h' →
    ends rest (asked (deref r (stmts c)) args vals c) y h' (bindExecuteScanBatched Scan ToLower n cb r args sp t (c, h)) →
    ∃ y c' h' rest', batched_run args r (c, h) = (y, (c', h')) ∧ batched_yields (deref r (stmts c)) r rs z rest h y h' rest' ∧
      lands c (y, c') y (execute_wire (KScan t) (deref r (stmts c)) args vals) rest' (stmts c)) as Hgo.
  { intros y h' Hh (c' & E & Hi & (_ & K2 & K3 & K4 & K5) & H2 & H3). exists y, c', h', rest. split; [|split; [by split|]].
    - unfold batched_run, mbind, prog_bind, cl, zoom. cbn [fst snd]. by rewrite (struct_plan_ok Scan ToLower t r c p sp Hp Hsp).
    - exists c'. split; [done|]. split; [done|]. unfold asked in *. cbn [conn set_conn set_writeBuf set_socket sent room writeBuf stmts cfg] in *.
      split; [by rewrite K2, Hb|]. split; [done|]. split; [split; congruence|done]. }
  pose proof (mapM_returns (bs ++ last_batch (error_of None rs) rem) h) as Hret. unfold delivered in Hd.
  destruct (mapM_ cb _ h) as [[[]|e| |] h1] eqn:E; try done.
  - refine (Hgo _ h1 _ Hd). exists bs, rem. split; [done|]. destruct (error_of None rs) as [e|]; [|done].
    cbn [last_batch] in E. rewrite app_nil_r in E. unfold mbind, prog_bind. by rewrite E.
  - refine (Hgo _ h1 _ Hd). exists bs, rem. split; [done|]. destruct (error_of None rs) as [pe|]; [|done].
    cbn [last_batch] in E. rewrite app_nil_r in E. unfold mbind, prog_bind. by rewrite E.
Qed.

Lemma batched_last : yields_last (KScan t) batched_yields.
Proof.
  intros st r rs z rest h y h' rest' [(bs & rem & _ & E) _]. destruct (error_of None rs) as [pe|].
  - unfold mbind, prog_bind in E. pose proof (mapM_returns bs h) as Hret. destruct (mapM_ cb bs h) as [[[]|e| |] h1]; injection E as <- <-; try done; [|by left].
    right. by exists pe.
  - pose proof (mapM_returns (bs ++ last_batch None rem) h) as Hret. rewrite E in Hret. destruct y; try done. by left.
Qed.

Lemma batched_stale h0 : stale_clean (KScan t) (λ _, true) id (λ h, h = h0) batched_yields.
Proof.
  intros st r rs z rest h y h' rest' e -> [(bs & rem & (Hbs & Hlen & _) & E) ->] He _ Hearly. rewrite He in E. cbn [early] in Hearly.
  assert (bs = []) as ->.
  { unfold filled in Hbs. rewrite Hearly in Hbs. destruct bs as [|b bs]; [done|]. exfalso. apply Forall_cons in Hlen as [Hlen _].
    assert (b = []) as ->; [|by unfold Zlen in Hlen; cbn in Hlen; lia].
    destruct (buildStructPlan _ _ _ _); cbn [omap list_omap app concat] in Hbs; by destruct b. }
  injection E as <- <-. done.
Qed.

Lemma batched_turn x c h rest : ctx_err ctx 0 = None → x_kind x = KScan t → healthy (conn c) → every sound_plan (stmts c) →
  exchange_ok (cfg c) (stmts c) x → inbound (conn c) = response (cfg c) (stmts c) x ++ rest →
  ∃ y c' h', ScanStructBatched Scan ToLower ctx n (Some cb) t (x_sql x) (x_args x) (c, h) = (y, (c', h')) ∧
    match obtained (cfg c) (start (stmts c) x) x with
    | inl e => y = Err e ∧ h' = h
    | inr st => handed (filled t st (x_rows x)) (error_of None (x_rows x)) h y h'
    end ∧
    lands c (y, c') y (request (cfg c) (stmts c) x) rest (after (cfg c) (stmts c) x).
Proof.
  intros Hctx Hk Hh Hsc Hok Hin.
  destruct (attempts_land (KScan t) (x_sql x) (batched_run (x_args x)) id tt (λ _, true) id (x_args x) (λ h', h' = h) (λ _, True)
    batched_yields (batched_lands _ _) batched_last (batched_stale h) x c h rest) as (h0 & y & c1 & h1 & rest' & -> & E & Hends & Hl); try done.
  assert (rejectNonSelect (x_sql x) = inr tt) as Hg by (destruct (xo_guard _ _ _ Hok) as [H0|H0]; [by rewrite Hk in H0|done]).
  rewrite <- batched_loop_attempts in E. exists y, c1, h1. split; [|unfold attempt_ends in Hends; destruct (obtained _ _ x) as [e|st]].
  - unfold ScanStructBatched, attachContext. rewrite (proj2 (Z.leb_gt n 0) Hn), Hg, Hctx, (xo_type _ _ _ Hok t Hk).
    unfold of_sum. rewrite bind_ret. exact E.
  - by destruct Hends as (-> & -> & ->).
  - destruct Hends as (r & y0 & [Hh0 ->] & ->). split; [|exact Hl]. by destruct y0.
Qed.
End Batched.
End Calls.

(** ** Calls that do not go through the cache *)

(** CopyTo, into a writer that never fails. *)
Definition copied_out (ctx : context) (dur : Z) (sql : bytes) : client answer := λ c,
  match CopyTo ctx dur sql (c, mkSink [] None) with
  | (Ret n, (c, w)) => (Ret (ACopied n (got w)), c)
  | (Err e, (c, _)) => (Err e, c)
  | (Panic, (c, _)) => (Panic, c)
  | (Stuck, (c, _)) => (Stuck, c)
  end.

Section Beside.
Context (ctx : context) (dur : Z) (Hctx : ctx_err ctx 0 = None).

Lemma absorbed_lands {A} c c0 ms k (r : res A) p rest : conn c0 = conn c → stmts c0 = stmts c → cfg c0 = cfg c →
  healthy k → sent k = sent (conn c0) ++ p → inbound k = rest →
  lands c (r, set_conn k (fold_left absorb ms c0)) r p rest (stmts c).
Proof.
  intros H1 H2 H3 Hk Hs Hi. eexists. split; [done|]. cbn [conn set_conn stmts cfg].
  destruct (absorbs_same ms c0) as [A1 A2]. rewrite <- H1. repeat (split; [done|]). split; [congruence|]. split; [done|]. congruence.
Qed.

Definition verdict {A} (made : Z → A) (n : Z) (e : option gerror) : res A := match e with None => Ret (made n) | Some e => Err e end.

(** The wrapper of a COPY: events and counters beside it. *)
Lemma recorded_lands sql (m : client counted) n e ms p i rest c : runs m i (Ret (n, e)) ms p rest →
  healthy (conn c) → inbound (conn c) = i →
  lands c (recorded id sql dur ctx (no_bytes m) c) (verdict id n e) p rest (stmts c).
Proof.
  intros Hm Hh Hi. set (c0 := observe (OnQueryStart sql) c). destruct (Hm c0 Hh Hi) as (k & E & Hk & Hs & Hr).
  destruct (absorbed_lands c c0 ms k (Ret (n, e)) p rest eq_refl eq_refl eq_refl Hk Hs Hr) as (c1 & [= <-] & I1 & I2 & I3 & I4 & I5).
  unfold recorded. cbn [id].
  assert ((_ ← modify (observe (OnQueryStart sql)); check (attachContext ctx) (λ e0, mret (0, 0, Some e0)) (λ _, no_bytes m)) c =
    (Ret (n, 0, e), set_conn k (fold_left absorb ms c0))) as ->.
  { unfold check, attachContext, no_bytes, catch, mbind, prog_bind. rewrite Hctx. unfold modify, mret, prog_ret. fold c0. by rewrite E. }
  destruct (recordEnd_same sql n 0 dur e (set_conn k (fold_left absorb ms c0))) as (c2 & -> & C1 & C2 & _ & C3).
  exists c2. rewrite C1, C2, C3. split; [by destruct e|done].
Qed.

(** CopyFrom, by what its source ends with: an end, which the code also takes
    io.ErrUnexpectedEOF for, is followed by CopyDone and the server's verdict; any
    other error by CopyFail, and is returned. *)
Definition copyin_last (errText : gerror → bytes) (e : gerror) : bytes :=
  match e with EEOF _ => frame MsgCopyDone [] | e => frame MsgCopyFail (errText e ++ [x00]) end.
Definition copyin_result (e : gerror) (post : list (byte * bytes)) : res answer :=
  match e, last_error None post with
  | EEOF _, Some pg => Err (EPg pg)
  | EEOF _, None => Ret (ACopied (parseRowsAffected (last_tag [] post)) [])
  | e, _ => Err e
  end.
Definition copyin_ok (e : gerror) (pre : list (byte * bytes)) (b : bytes) (post : list (byte * bytes)) (z : bytes) : Prop :=
  Forall quiet pre ∧ match e with EEOF _ => Forall complete_known post | _ => Forall not_ready post end ∧
  msg_ok (MsgCopyInResponse, b) ∧ msg_ok (MsgReadyForQuery, z).

Lemma copyin_runs errText sql r pre b post z rest : copyin_ok (r_end r) pre b post z → ∃ n e ms,
  runs (copyFrom errText sql r) (copyin_script pre b post z [] ++ rest) (Ret (n, e)) ms
    (copyin_said sql (r_data r) (copyin_last errText (r_end r))) rest ∧
  copyin_result (r_end r) post = verdict (λ n, ACopied n []) n e.
Proof.
  intros (H1 & H2 & H3 & H4).
  assert (copyin_script pre b post z [] ++ rest = copyin_script pre b post z rest) as ->
    by (unfold copyin_script; by rewrite <- !app_assoc).
  destruct (r_end r) as [partial| | | | | |] eqn:E; cbn [copyin_last copyin_result].
  1: { pose proof (copyFrom_runs errText sql r partial pre b post z rest E H1 H2 H3 H4) as Hr. unfold copy_end in Hr.
    destruct (last_error None post) as [pg|]; cbn [counted_of] in Hr; do 3 eexists; (split; [exact Hr|done]). }
  all: pose proof (copyFrom_fails errText sql r pre b post z rest ltac:(by rewrite E) H1 H2 H3 H4) as Hr; rewrite E in Hr;
    do 3 eexists; (split; [exact Hr|by destruct (last_error None post)]).
Qed.

Lemma copyFrom_lands errText sql r pre b post z rest c : copyin_ok (r_end r) pre b post z → healthy (conn c) →
  inbound (conn c) = copyin_script pre b post z [] ++ rest →
  lands c (answered_by (λ n, ACopied n []) (CopyFrom errText ctx dur sql r) c) (copyin_result (r_end r) post)
    (copyin_said sql (r_data r) (copyin_last errText (r_end r))) rest (stmts c).
Proof.
  intros Hok Hh Hin. destruct (copyin_runs errText sql r pre b post z rest Hok) as (n & e & ms & Hr & ->).
  destruct (recorded_lands sql _ n e _ _ _ rest c Hr Hh Hin) as (c' & E & Hl). exists c'. split; [|exact Hl].
  unfold answered_by, CopyFrom, mbind, prog_bind. rewrite E. by destruct e.
Qed.

(** CopyTo, from a server that hands the data over. *)
Definition copyout_script (pre : list (byte * bytes)) (b : bytes) (ms : list (byte * bytes)) (tag : bytes)
    (post : list (byte * bytes)) (z : bytes) : bytes :=
  wire_of pre ++ frame MsgCopyOutResponse b ++ wire_of ms ++ frame MsgCommandComplete tag ++ wire_of post ++ frame MsgReadyForQuery z.
Definition copyout_ok (pre : list (byte * bytes)) (b : bytes) (ms : list (byte * bytes)) (tag : bytes)
    (post : list (byte * bytes)) (z : bytes) : Prop :=
  Forall quiet pre ∧ Forall out_msg ms ∧ Forall not_ready post ∧ Zlen (payloads ms) < 2 ^ 63 ∧ tag ≠ [] ∧
  msg_ok (MsgCopyOutResponse, b) ∧ msg_ok (MsgCommandComplete, tag) ∧ msg_ok (MsgReadyForQuery, z).
Lemma copyTo_lands sql pre b ms tag post z rest c :
  copyout_ok pre b ms tag post z → healthy (conn c) → inbound (conn c) = copyout_script pre b ms tag post z ++ rest →
  lands c (copied_out ctx dur sql c) (Ret (ACopied (parseRowsAffected (removelast tag)) (payloads ms)))
    (frame MsgQuery (sql ++ [x00])) rest (stmts c).
Proof.
  intros (Hpre & Hms & Hpost & Hl & Htag & Hb & Ht & Hz) Hh Hin. unfold copyout_script in Hin. rewrite <- !app_assoc in Hin. set (c0 := observe (OnQueryStart sql) c).
  destruct (copyTo_exact sql pre b ms tag post z rest (mkSink [] None) eq_refl Hpre Hms Hpost Hl Htag Hb Ht Hz c0 Hh Hin) as (k & E & Hk & Hs & Hr).
  destruct (absorbed_lands (A := unit) c c0 (pre ++ ms ++ post) k (Ret tt) _ rest eq_refl eq_refl eq_refl Hk Hs Hr) as (c1 & [= <-] & I1 & I2 & I3 & I4 & I5).
  unfold copied_out, CopyTo, recorded.
  set (out := (parseRowsAffected (removelast tag), Zlen (payloads ms), None)) in E. set (w := mkSink (got (mkSink [] None) ++ payloads ms) None) in E.
  assert ((_ ← cl (modify (observe (OnQueryStart sql))); check (cl (attachContext ctx)) (λ e0, mret (0, 0, Some e0)) (λ _, copyTo sql)) (c, mkSink [] None) =
    (Ret out, (set_conn k (fold_left absorb (pre ++ ms ++ post) c0), w))) as ->.
  { unfold check, attachContext, catch, cl, zoom, mbind, prog_bind. rewrite Hctx. unfold modify, mret, prog_ret. cbn [fst snd]. fold c0. by rewrite E. }
  unfold out, cl, zoom. cbn [fst snd].
  destruct (recordEnd_same sql (parseRowsAffected (removelast tag)) (Zlen (payloads ms)) dur None (set_conn k (fold_left absorb (pre ++ ms ++ post) c0)))
    as (c2 & -> & C1 & C2 & _ & C3).
  exists c2. rewrite C1, C2, C3. by split.
Qed.

(** Ping is an empty query; anything but an error is good news. *)
Definition ping_known (m : byte * bytes) : Prop :=
  msg_ok m ∧ (m.1 = MsgEmptyQueryResponse ∨ m.1 = MsgCommandComplete ∨ m.1 = MsgNoticeResponse ∨ m.1 = MsgParameterStatus).
Lemma ping_lands ms z rest c : Forall ping_known ms → msg_ok (MsgReadyForQuery, z) → healthy (conn c) →
  inbound (conn c) = (wire_of ms ++ frame MsgReadyForQuery z) ++ rest →
  lands c (answered_by (λ _, APong) (Ping ctx) c) (Ret APong) (frame MsgQuery [x00]) rest (stmts c).
Proof.
  intros Hms Hz Hh Hin. rewrite <- app_assoc in Hin.
  enough (∃ loop, Ping ctx c = (_ ← wire (_ ← message MsgQuery (bCString []); Flush); loop) c ∧
    runs (_ ← wire (_ ← message MsgQuery (bCString []); Flush); loop)
      (wire_of ms ++ frame MsgReadyForQuery z ++ rest) (Ret tt) ([] ++ ms) (frame MsgQuery [x00] ++ []) rest) as (loop & E1 & Hr).
  { destruct (Hr c Hh Hin) as (k & E & Hk & Hs & Hi). rewrite <- E1 in E. unfold answered_by. step E. rewrite app_nil_r in Hs.
    by apply (absorbed_lands c c ([] ++ ms) k (Ret APong) _ rest). }
  unfold Ping, attachContext. rewrite Hctx, bind_ret. eexists. split; [reflexivity|].
  eapply runs_bind; [apply runs_send, (writes_bCString [])|].
  apply (runs_messages _ (λ a _, a) tt ms MsgReadyForQuery z (Ret tt) rest); [|done|done].
  eapply Forall_impl; [exact Hms|]. intros [t body] [Hm Ht]. cbn [fst snd] in *. split; [done|]. intros [] c0.
  destruct Ht as [-> |[-> |[-> | ->]]]; done.
Qed.
End Beside.

(** ** The theorems *)

(** C8. ScanStructBatched drives its callback as a loop over the batches of
    ScanStruct's result would, whatever the cache holds: for any callback that
    returns, and whose error is not itself a stale-statement error (which would
    have the query run again), batch size and reply, the rows are cut into full batches and a rest
    in order, the callback is called on each full batch and, unless the server
    failed, on the rest, and the query's result and the callback's state are
    those of that loop; a statement that cannot be prepared is an error before
    any call.  A statement that has gone stale is prepared again, unseen by the
    callback.  Exactly the predicted requests are sent, and also when the callback
    fails half-way, what is left of the reply is read through ReadyForQuery: the
    connection is left as between two calls. *)
Theorem ScanStructBatched_exact {MO : MapOrder} {RS : RowScan} {H : Type} (ctx : context) (n : Z) (cb : list goval → prog H unit)
    (t : gotype) (x : exchange) (c : Client) (h : H) (rest : bytes)
  (Hcall : x_kind x = KScan t ∧ ctx_err ctx 0 = None) (Hn : 0 < n)
  (Hcb : ∀ b h, match fst (cb b h) with Ret _ => True | Err e => isStaleStmtError e = false | _ => False end)
  (Hc : healthy (conn c) ∧ every sound_plan (stmts c))
  (Hx : exchange_ok (cfg c) (stmts c) x)
  (Hin : inbound (conn c) = response (cfg c) (stmts c) x ++ rest) :
  ∃ y c' h', ScanStructBatched Scan ToLower ctx n (Some cb) t (x_sql x) (x_args x) (c, h) = (y, (c', h')) ∧
    match obtained (cfg c) (start (stmts c) x) x with
    | inl e => y = Err e ∧ h' = h
    | inr st => handed n cb (filled t st (x_rows x)) (error_of None (x_rows x)) h y h'
    end ∧
    inbound (conn c') = rest ∧ sent (conn c') = sent (conn c) ++ request (cfg c) (stmts c) x ∧
    stmts c' = after (cfg c) (stmts c) x ∧ healthy (conn c').
Proof.
  destruct Hcall as [Hk Hctx], Hc as [Hh Hsc].
  destruct (batched_turn ctx n cb t Hn Hcb x c h rest Hctx Hk Hh Hsc Hx Hin) as (y & c' & h' & E & Hy & c1 & [= <-] & I1 & I2 & I3 & I4 & _).
  by exists y, c', h'.
Qed.

(** *** A query that nothing is cached for, in batches of two *)

Definition demo_scanning : RowScan := {| Scan := demo_scan; ToLower := ascii_lower |}.
#[local] Existing Instance demo_scanning.

Definition user_description : list (byte * bytes) :=
  [(MsgParseComplete, []); (MsgParameterDescription, be_put 2 1 ++ be_put 4 OIDInt4);
   (MsgRowDescription, row_description [Build_field_desc (str "id") 0 0 OIDInt4 4 0 0; Build_field_desc (str "name") 0 0 OIDText 4 0 0])].
Definition user_exchange : exchange :=
  mkExchange (KScan plain_struct) scan_sql [AInt KInt 7] None user_description (str "I") [Some (be_put 4 7)] scan_replies (str "I").
Definition user_client : Client :=
  fresh_client (wire_of user_description ++ frame MsgReadyForQuery (str "I") ++ scan_inbound).
(** A callback that keeps its batches and refuses a third. *)
Definition keep (b : list goval) : prog (list (list goval)) unit := λ h,
  if (2 <=? length h)%nat then (Err (EFmt "enough" []), h) else (Ret tt, h ++ [b]).

(** That the rows fill the struct, decided. *)
Definition scans {RS : RowScan} (t : gotype) (st : preparedStmt) (rows : list (list (option bytes))) : bool :=
  match st_plan st with
  | Some p =>
      match buildStructPlan Scan ToLower t p with
      | inr sp => forallb (λ cells, match fillStructRow (zero t) (data_row cells) sp with Ret _ => true | _ => false end) rows
      | inl _ => false
      end
  | None => false
  end.
Lemma scans_ok {RS : RowScan} t st rs : scans t st (rows_of rs) = true → Forall scan_ok rs → replies_ok (KScan t) st rs.
Proof.
  unfold scans. intros H Hok. cbn [replies_ok]. destruct (st_plan st) as [p|]; [|done]. destruct (buildStructPlan _ _ _ _) as [|sp] eqn:E; [done|].
  exists p, sp. split; [done|]. split; [done|]. split; [done|]. apply Forall_forall. intros cells Hc. rewrite forallb_forall in H.
  specialize (H cells ltac:(by apply list_elem_of_In)). unfold fills. destruct (fillStructRow _ _ _) as [row| | |]; try done. by exists row.
Qed.

Lemma user_described : Forall describe_known user_description.
Proof.
  constructor; [split; [discriminate|left; reflexivity]|].
  constructor; [split; [discriminate|do 2 right; left; reflexivity]|].
  constructor; [split; [discriminate|do 3 right; left; split; [reflexivity|eexists; reflexivity]]|]. constructor.
Qed.

Lemma user_exchange_ok : exchange_ok (cfg user_client) (stmts user_client) user_exchange.
Proof.
  split; [right; vm_compute; reflexivity|discriminate|intros t [= <-]; reflexivity|exact I|].
  split; [intros _; split; [apply user_described|discriminate]|].
  assert (match obtained (cfg user_client) (stmts user_client) user_exchange with
    | inr st => scans plain_struct st (rows_of scan_replies) && bool_decide (st_paramOIDs st = [OIDInt4]) | inl _ => false end = true) as H
    by (vm_compute; reflexivity).
  change (start (stmts user_client) user_exchange) with (stmts user_client).
  destruct (obtained (cfg user_client) (stmts user_client) user_exchange) as [e|st]; [discriminate|].
  apply andb_true_iff in H as [H1 H2]. apply bool_decide_eq_true in H2. split.
  - split; [rewrite H2; reflexivity|by apply scans_ok, scan_replies_ok|discriminate].
  - intros e. discriminate.
Qed.

Lemma ScanStructBatched_exact_witness : ∃ y c' h',
  ScanStructBatched Scan ToLower background 2 (Some keep) plain_struct scan_sql [AInt KInt 7] (user_client, []) = (y, (c', h')) ∧
  match obtained (cfg user_client) (stmts user_client) user_exchange with
  | inl e => y = Err e ∧ h' = []
  | inr st => handed 2 keep (filled plain_struct st scan_replies) (error_of None scan_replies) [] y h'
  end ∧
  inbound (conn c') = str "later" ∧ sent (conn c') = [] ++ request (cfg user_client) (stmts user_client) user_exchange ∧
  stmts c' = after (cfg user_client) (stmts user_client) user_exchange ∧ healthy (conn c').
Proof.
  apply (ScanStructBatched_exact background 2 keep plain_struct user_exchange user_client [] (str "later")).
  - split; reflexivity.
  - reflexivity.
  - intros b h. unfold keep. destruct (2 <=? length h)%nat; [reflexivity|exact I].
  - split; [split; reflexivity|apply every_new].
  - apply user_exchange_ok.
  - reflexivity.
Defined.

Example batched_run_demo :
  let '(y, (_, h)) := ScanStructBatched Scan ToLower background 2 (Some keep) plain_struct scan_sql [AInt KInt 7] (user_client, []) in
  (y, h) = (Ret tt, [[user_row 1 "ana"; user_row 2 "bo"]; [user_row 3 "cy"]]).
Proof. vm_compute. reflexivity. Qed.

(** ** What the shared cache lets through *)

Definition rowless : bytes := str "with x as (select 1) insert into t select * from x".
Definition rowless_description : list (byte * bytes) := [(MsgParseComplete, []); (MsgParameterDescription, be_put 2 0); (MsgNoData, [])].
Definition rowless_prepared : bytes := wire_of rowless_description ++ frame MsgReadyForQuery (str "I").
Definition rowless_executed : bytes :=
  wire_of [(MsgBindComplete, []); (MsgCommandComplete, str "INSERT 0 1" ++ [x00])] ++ frame MsgReadyForQuery (str "I").

(** A text that returns no rows passes the guard.  QueryJSON refuses it when the
    server describes it, forgetting the statement that the server has parsed by
    then: it is neither cached nor queued for Close.  But once Exec has cached
    the same text, without a plan, QueryJSON executes it and returns an empty
    document, and StreamColumnar dereferences the nil plan. *)
Theorem rowless_text_depends_on_cache {MO : MapOrder} :
  let refused := QueryJSON background 0 rowless [] (fresh_client rowless_prepared) in
  let c := snd (Exec background 0 rowless [] (fresh_client (rowless_prepared ++ rowless_executed ++ rowless_executed))) in
  rejectNonSelect rowless = inr tt ∧
  fst refused = Err (EFmt "pgz: prepare returned no row description" []) ∧
  sent (conn (snd refused)) = prepare_wire [] (str "s_1") rowless ∧ byKey (stmts (snd refused)) = ∅ ∧ closed (stmts (snd refused)) = [] ∧
  fst (QueryJSON background 0 rowless [] c) = Ret (str "[]") ∧
  fst (StreamColumnar (λ _, false) background 0 rowless [] (c, mkSink [] None)) = Panic.
Proof. vm_compute. repeat (split; [reflexivity|]). reflexivity. Qed.

(** ** What a failed write leaves behind *)

Definition eager_config : Config :=
  mkConfig [] 0 [] (str "me") [] [] 0 1 [] SSLDisable 0 None 0 0 0 false 0 0 0 0 0 0 [] 0 false.
Definition rows_reply (ns : list Z) : bytes :=
  wire_of ((MsgBindComplete, []) :: map (λ n, (MsgDataRow, data_row [Some (be_put 4 n)])) ns) ++ frame MsgReadyForQuery (str "I").
Definition hung_up : Client :=
  newClient eager_config (New (wire_of demo_description ++ frame MsgReadyForQuery (str "I") ++ rows_reply [41; 42; 43] ++ rows_reply [7]) None).

(** A streaming call whose writer fails (the consumer hung up) returns at once,
    the rest of the reply unread: the next query on the connection, whoever
    makes it, gets the other call's rows, and its own reply is left over. *)
Theorem failed_write_leaks_rows {MO : MapOrder} :
  let '(r, (c, w)) := StreamNDJSON (λ _, false) background 0 (str "select $1") [AInt KInt 1] (hung_up, mkSink [] (Some 0%nat)) in
  let '(r', c') := QueryJSON background 0 (str "select $1") [AInt KInt 7] c in
  r = Err (EUser "io.Writer") ∧ got w = [] ∧
  r' = Ret (str "[{" ++ dquote :: str "id" ++ dquote :: str ":42},{" ++ dquote :: str "id" ++ dquote :: str ":43}]") ∧
  inbound (conn c') = rows_reply [7].
Proof. vm_compute. repeat (split; [reflexivity|]). reflexivity. Qed.
