(* ===== verification/Session.v ===== *)
(** A connection's life: Open, then any number of calls on it, of any kind:
    queries in memory or streamed, in any output mode, RawQuery read to its end,
    ScanStruct, Exec, and the calls that do not go through the statement cache,
    COPY and Ping.  Calls has a theorem for one call at a time; here they follow
    one another on one socket, each starting from what the one before left, and a
    reference machine whose only state is the statement cache says what is sent,
    what the server's script looks like and what each call returns. *)
From S2P Require Import Prelude Protocol JsonWriter JsonGrammar Encoders Errors Effects Wire Rows Args.
From S2P Require Import StmtCache Stream Client Query QuerySpec QueryResult Exec Conn Api Talk Copy CopyTo Scan ScanQuery Turns Calls.

(** ** The calls *)

(** Calls made one after the other whatever they return. *)
Fixpoint in_turn {A} (fs : list (client A)) (c : Client) : list (res A) * Client :=
  match fs with
  | [] => ([], c)
  | f :: fs => let '(r, c) := f c in let '(rs, c) := in_turn fs c in (r :: rs, c)
  end.

Definition session (handshake : bytes * tls_check → Conn → gerror + Conn) (n1 n2 : nat) (rnd : gerror + bytes)
    (cf : Config) (nc : Conn) (calls : list (client answer)) : res (list (res answer)) * Client :=
  match Open handshake n1 n2 rnd cf nc with
  | (Ret _, c) => let '(rs, c) := in_turn calls c in (Ret rs, c)
  | (Err e, c) => (Err e, c)
  | (Panic, c) => (Panic, c)
  | (Stuck, c) => (Stuck, c)
  end.

(** ** The reference machine *)

(** A turn of the session, a call and what the server does with it: a call
    through the statement cache; CopyFrom, from a reader that ends or fails;
    CopyTo, into a writer that never fails; a Ping. *)
Inductive turn :=
| Asks (x : exchange)
| CopiesIn (errText : gerror → bytes) (sql : bytes) (r : reader) (pre : list (byte * bytes)) (b : bytes)
    (post : list (byte * bytes)) (z : bytes)
| CopiesOut (sql : bytes) (pre : list (byte * bytes)) (b : bytes) (ms : list (byte * bytes)) (tag : bytes)
    (post : list (byte * bytes)) (z : bytes)
| Pings (ms : list (byte * bytes)) (z : bytes).

Definition perform {MO : MapOrder} {RS : RowScan} (elapsed : nat → bool) (ctx : context) (dur : Z) (t : turn) : client answer :=
  match t with
  | Asks x => call_of elapsed ctx dur (x_kind x) (x_sql x) (x_args x)
  | CopiesIn errText sql r _ _ _ _ => answered_by (λ n, ACopied n []) (CopyFrom errText ctx dur sql r)
  | CopiesOut sql _ _ _ _ _ _ => copied_out ctx dur sql
  | Pings _ _ => answered_by (λ _, APong) (Ping ctx)
  end.

Section Machine.
Context {MO : MapOrder} {RS : RowScan} (cf : Config).

Definition sends (sc : stmtCache) (t : turn) : bytes :=
  match t with
  | Asks x => request cf sc x
  | CopiesIn errText sql r _ _ _ _ => copyin_said sql (r_data r) (copyin_last errText (r_end r))
  | CopiesOut sql _ _ _ _ _ _ => frame MsgQuery (sql ++ [x00])
  | Pings _ _ => frame MsgQuery [x00]
  end.
Definition hears (sc : stmtCache) (t : turn) : bytes :=
  match t with
  | Asks x => response cf sc x
  | CopiesIn _ _ _ pre b post z => copyin_script pre b post z []
  | CopiesOut _ pre b ms tag post z => copyout_script pre b ms tag post z
  | Pings ms z => wire_of ms ++ frame MsgReadyForQuery z
  end.
Definition leaves (sc : stmtCache) (t : turn) : stmtCache := match t with Asks x => after cf sc x | _ => sc end.
Definition returns (sc : stmtCache) (t : turn) : res answer :=
  match t with
  | Asks x => document cf sc x
  | CopiesIn _ _ r _ _ post _ => copyin_result (r_end r) post
  | CopiesOut _ _ _ ms tag _ _ => Ret (ACopied (parseRowsAffected (removelast tag)) (payloads ms))
  | Pings _ _ => Ret APong
  end.
(** What is asked of the server's script, and of nothing else. *)
Definition turn_ok (sc : stmtCache) (t : turn) : Prop :=
  match t with
  | Asks x => exchange_ok cf sc x
  | CopiesIn _ _ r pre b post z => copyin_ok (r_end r) pre b post z
  | CopiesOut _ pre b ms tag post z => copyout_ok pre b ms tag post z
  | Pings ms z => Forall ping_known ms ∧ msg_ok (MsgReadyForQuery, z)
  end.

(** A function of every call, along the run. *)
Fixpoint along {A} (f : stmtCache → turn → A) (sc : stmtCache) (ts : list turn) : list A :=
  match ts with [] => [] | t :: ts => f sc t :: along f (leaves sc t) ts end.
Fixpoint all_ok (sc : stmtCache) (ts : list turn) : Prop :=
  match ts with [] => True | t :: ts => turn_ok sc t ∧ all_ok (leaves sc t) ts end.

(** A document is what its mode promises when its columns' encoders are strict. *)
Definition well_formed (sc : stmtCache) (t : turn) : Prop :=
  match t with
  | Asks x => ∀ q doc st, x_kind x = KQuery q → document cf sc x = Ret (ADoc doc) → obtained cf (start sc x) x = inr st →
      Forall json_column (Columns (plan_of st)) → QueryResult.document (mode_of q) doc
  | _ => True
  end.
End Machine.

(** What the negotiation of TLS leaves to the startup: nothing is asked for and
    the script follows at once; or the server declines and is not required to
    accept; or it accepts and the script follows inside TLS. *)
Definition negotiates (handshake : bytes * tls_check → Conn → gerror + Conn) (cf : Config) (nc : Conn)
    (out script : bytes) : Prop :=
  match buildTLS (applyDefaults cf) with
  | None => inbound nc = script ∧ out = []
  | Some t =>
      (ssl_rank (sslMode cf) < 2 ∧ inbound nc = "N"%byte :: script ∧ out = sslRequest) ∨
      (∃ raw net, inbound nc = "S"%byte :: raw ∧ (∀ k, handshake t k = inr net) ∧ inbound net = script ∧ room net = None ∧
         sent net = out)
  end.

(** ** Lemmas *)

(** A client between two calls: the machine runs on its cache. *)
Record at_rest (cf : Config) (c : Client) : Prop := {
  ar_cfg : cfg c = cf;
  ar_conn : healthy (conn c);
  ar_plans : every sound_plan (stmts c)
}.

Lemma turn_well_formed {MO : MapOrder} {RS : RowScan} cf sc t : every sound_plan sc → turn_ok cf sc t → well_formed cf sc t.
Proof.
  intros Hsc Hok. destruct t as [x| | |]; [|done..]. intros q doc st Hk E Ho Hc. destruct Hok as [_ _ _ _ [_ H]].
  unfold document in E. rewrite Ho in *. destruct H as [[_ H _] _]. unfold reply_res in E.
  destruct (error_of None (x_rows x)); [done|]. injection E as E. unfold carried in E. rewrite Hk in *. injection E as <-.
  destruct H as (p & Hp & Hr). pose proof (obtained_sound cf _ x st (every_start _ sc x Hsc) Ho p Hp) as Hw.
  unfold plan_of in *. rewrite Hp in *. apply (result_document (mode_of q) p (rows_of (x_rows x))); [done|done|by eapply rows_of_lengths].
Qed.

(** One call of the machine. *)
Lemma one_turn {MO : MapOrder} {RS : RowScan} elapsed ctx dur cf c t rest : ctx_err ctx 0 = None → no_caps cf → at_rest cf c → turn_ok cf (stmts c) t →
  inbound (conn c) = hears cf (stmts c) t ++ rest →
  ∃ c', perform elapsed ctx dur t c = (returns cf (stmts c) t, c') ∧ inbound (conn c') = rest ∧
    sent (conn c') = sent (conn c) ++ sends cf (stmts c) t ∧ stmts c' = leaves cf (stmts c) t ∧ at_rest cf c' ∧
    well_formed cf (stmts c) t.
Proof.
  intros Hctx Hcap [<- Hh Hsc] Hok Hin. pose proof (turn_well_formed _ _ _ Hsc Hok) as Hwf. 
  assert (∀ r said, leaves (cfg c) (stmts c) t = stmts c → lands c (perform elapsed ctx dur t c) r said rest (stmts c) →
    r = returns (cfg c) (stmts c) t → said = sends (cfg c) (stmts c) t →
    ∃ c', perform elapsed ctx dur t c = (returns (cfg c) (stmts c) t, c') ∧ inbound (conn c') = rest ∧
      sent (conn c') = sent (conn c) ++ sends (cfg c) (stmts c) t ∧ stmts c' = leaves (cfg c) (stmts c) t ∧ at_rest (cfg c) c' ∧
      well_formed (cfg c) (stmts c) t) as Hbeside.
  { intros r said -> (c' & E & I1 & I2 & I3 & I4 & I5) <- <-. exists c'. repeat (split; [done|]). split; [|done].
    split; [done|done|by rewrite I3]. }
  destruct t as [x|errText sql r pre b post z|sql pre b ms tag post z|ms z].
  - destruct (turn_lands elapsed ctx dur x c rest Hctx Hh Hsc Hcap Hok Hin) as (c' & E & I1 & I2 & I3 & I4 & I5).
    exists c'. repeat (split; [done|]). split; [|done]. split; [done|done|]. rewrite I3. apply every_after; [|done].
    intros st. apply learned_sound.
  - by eapply Hbeside; [|by apply (copyFrom_lands ctx dur Hctx errText sql r pre b post z)| |].
  - by eapply Hbeside; [|by apply (copyTo_lands ctx dur Hctx sql pre b ms tag post z)| |].
  - destruct Hok as [H1 H2]. by eapply Hbeside; [|by apply (ping_lands ctx Hctx ms z)| |].
Qed.

(** And any number of them. *)
Lemma in_turn_exact {MO : MapOrder} {RS : RowScan} elapsed ctx dur cf rest : ctx_err ctx 0 = None → no_caps cf →
  ∀ ts c, at_rest cf c → all_ok cf (stmts c) ts → inbound (conn c) = concat (along cf (hears cf) (stmts c) ts) ++ rest →
  ∃ c', in_turn (map (perform elapsed ctx dur) ts) c = (along cf (returns cf) (stmts c) ts, c') ∧ inbound (conn c') = rest ∧
    sent (conn c') = sent (conn c) ++ concat (along cf (sends cf) (stmts c) ts) ∧
    stmts c' = fold_left (leaves cf) ts (stmts c) ∧ at_rest cf c' ∧ Forall id (along cf (well_formed cf) (stmts c) ts).
Proof.
  intros Hctx Hcap. induction ts as [|t ts IH]; intros c Hc Hok Hin.
  { exists c. cbn in *. rewrite app_nil_r. by repeat (split; [done|]). }
  cbn [along concat fold_left map all_ok in_turn] in *. destruct Hok as [Ht Hts]. rewrite <- app_assoc in Hin.
  destruct (one_turn elapsed ctx dur cf c t _ Hctx Hcap Hc Ht Hin) as (c1 & E & I1 & I2 & I3 & I4 & I5).
  destruct (IH c1) as (c' & E' & J1 & J2 & J3 & J4 & J5); try done; try congruence.
  exists c'. rewrite E, E', I3 in *. repeat (split; [done|]). split; [by rewrite J2, I2, <- app_assoc|].
  split; [done|]. split; [done|]. by constructor.
Qed.

(** The negotiation, up to the startup. *)
Lemma negotiated handshake n1 n2 cf nc out script : room nc = None → negotiates handshake cf nc out script →
  ∃ k, maybeNegotiateTLS handshake n1 n2 (newClient cf nc) = (Ret tt, set_conn k (newClient cf nc)) ∧
    inbound k = script ∧ sent k = out ∧ room k = None ∧ writeBuf k = [].
Proof.
  intros Hr H. unfold maybeNegotiateTLS. step (eq_refl : gets cfg (newClient cf nc) = (Ret (applyDefaults cf), newClient cf nc)).
  unfold negotiates in H. destruct (buildTLS (applyDefaults cf)) as [t|] eqn:Et.
  2: { destruct H as [Hi ->]. exists (conn (newClient cf nc)). by split; [destruct (newClient cf nc)|]. }
  set (k0 := conn (newClient cf nc)). set (k1 := mkConn (inbound nc) sslRequest None (brSize k0) (readCap k0) []).
  assert (wrap "pgz: SSLRequest" (wire (b ← BeginNoType; _ ← bInt32 sslRequestCode; Send b)) (newClient cf nc) =
    (Ret tt, set_conn k1 (newClient cf nc))) as Ew.
  { unfold wrap, wire, zoom, newClient, NewSized. cbn [conn]. rewrite Hr. reflexivity. }
  step Ew. destruct H as [(Hrank & Hi & ->)|(raw & net & Hi & Hh & Hs & Hn & <-)].
  - exists (set_inbound script k1).
    assert (wrap "pgz: SSLRequest reply" (wire ReadByte) (set_conn k1 (newClient cf nc)) =
      (Ret "N"%byte, set_conn (set_inbound script k1) (newClient cf nc))) as Er.
    { unfold wrap, wire, zoom. cbn [conn set_conn]. unfold k1. rewrite Hi. reflexivity. }
    step Er. change (sslMode (applyDefaults cf)) with (sslMode cf). cbn [beq]. rewrite (proj2 (Z.leb_gt 2 _)) by done. by split.
  - set (k2 := set_inbound raw k1). exists (SwapNet net k2).
    assert (wrap "pgz: SSLRequest reply" (wire ReadByte) (set_conn k1 (newClient cf nc)) =
      (Ret "S"%byte, set_conn k2 (newClient cf nc))) as Er.
    { unfold wrap, wire, zoom. cbn [conn set_conn]. unfold k1. rewrite Hi. reflexivity. }
    step Er. change (beq "S"%byte "S"%byte) with true. cbv iota. step (eq_refl : gets conn (set_conn k2 (newClient cf nc)) = (Ret k2, set_conn k2 (newClient cf nc))).
    rewrite Hh. by split.
Qed.

Lemma greets_same ms : ∀ c, cfg (fold_left greet ms c) = cfg c ∧ stmts (fold_left greet ms c) = stmts c.
Proof.
  induction ms as [|m ms IH]; intros c; [done|]. cbn [fold_left]. destruct (IH (greet c m)) as [-> ->].
  unfold greet. destruct (beq _ _); [done|apply absorb_same].
Qed.

(** ** The session *)

(** C3. A connection's whole life is the reference machine's: for any mix of
    queries (in memory or streamed, in any output mode), iterators, scans,
    commands, CopyFroms (from a reader that ends or fails), CopyTos (into a
    writer that never fails) and Pings, in any order, and any server script of
    the described shape (errors, refused statements and statements gone stale
    included), over TLS, refused TLS or plain text, Open succeeds and every call
    returns the document, the rows, the structs, the count and data or the
    command's result of its own replies, or its own error; a text is parsed and
    described exactly when the bounded cache does not hold it, under the next
    name and behind the Close of what was dropped before, and executed at once
    otherwise; a stale statement is dropped and prepared again, once, unseen by
    the caller; a COPY in sends its source in full pieces and then CopyDone, or
    CopyFail when the source failed; nothing else is sent, and every reply is
    consumed to its last byte; and a document is what its mode promises, JSON
    for the JSON modes, when its columns' encoders are strict, and delivered
    whole when it is streamed. *)
Theorem session_exact {MO : MapOrder} {RS : RowScan} (handshake : bytes * tls_check → Conn → gerror + Conn) (n1 n2 : nat)
    (rnd : gerror + bytes) (elapsed : nat → bool) (ctx : context) (dur : Z) (cf : Config) (nc : Conn) (out : bytes)
    (ms : list (byte * bytes)) (z : bytes) (ts : list turn) (rest : bytes)
  (Hctx : ctx_err ctx 0 = None)
  (Hcaps : no_caps cf)
  (Hroom : room nc = None)
  (Hms : Forall greeting ms ∧ msg_ok (MsgReadyForQuery, z)) :
  let cf' := applyDefaults cf in
  let sc := newStmtCache (StmtCacheSize cf) in
  all_ok cf' sc ts →
  negotiates handshake cf nc out
    (wire_of ms ++ frame MsgReadyForQuery z ++ concat (along cf' (hears cf') sc ts) ++ rest) →
  ∃ c', session handshake n1 n2 rnd cf nc (map (perform elapsed ctx dur) ts) = (Ret (along cf' (returns cf') sc ts), c') ∧
    inbound (conn c') = rest ∧
    sent (conn c') = out ++ frameNoType (startup_body cf') ++ concat (along cf' (sends cf') sc ts) ∧
    stmts c' = fold_left (leaves cf') ts sc ∧ at_rest cf' c' ∧ Forall id (along cf' (well_formed cf') sc ts).
Proof.
  intros cf' sc Hxs Hneg. destruct Hms as [Hms Hz].
  destruct (negotiated handshake n1 n2 cf nc out _ Hroom Hneg) as (k & E & Hi & Hs & Hr & Hb).
  destruct (startup_exact rnd (set_conn k (newClient cf nc)) ms z (concat (along cf' (hears cf') sc ts) ++ rest)) as
    (k2 & E2 & I1 & I2 & I3 & I4); try done.
  unfold session, Open. step E. rewrite E2. cbn [conn cfg set_conn] in *.
  set (c0 := set_conn k2 _). set (cl := set_conn k (newClient cf nc)) in *.
  destruct (greets_same ms cl) as [G1 G2].
  assert (cfg c0 = cf' ∧ stmts c0 = sc) as [C1 C2] by (unfold c0; cbn; by rewrite G1, G2).
  assert (every sound_plan sc) as Hsc by apply every_new.
  assert (at_rest cf' c0) as Hrest by (split; [done|done|by rewrite C2]).
  rewrite <- C2 in Hxs, I1. destruct (in_turn_exact elapsed ctx dur cf' rest Hctx Hcaps ts c0) as (c' & E3 & J1 & J2 & J3 & J4 & J5); try done.
  exists c'. rewrite C2 in *. rewrite E3. split; [done|]. split; [done|]. split; [|done].
  rewrite J2. unfold c0. cbn [conn set_conn]. by rewrite I4, Hs, <- app_assoc.
Qed.

(** *** A session: a cache of one entry and a server that declines TLS.  A query
    is prepared; streamed as NDJSON it fails after a row; it is evicted by an
    INSERT through Exec, which runs twice; its rows are read one by one, then
    scanned into structs; a misspelt query is refused; the first query has gone stale when it is streamed
    as columns, and is prepared again; a COPY in, one whose source fails, a COPY
    out and a Ping. *)

#[local] Existing Instance demo_scanning.

Definition small_config : Config :=
  mkConfig [] 0 [] (str "me") [] [] 0 0 [] SSLPrefer 1 None 0 0 0 false 0 0 0 0 0 0 [] 0 false.
Definition demo_cf : Config := applyDefaults small_config.
Definition server_error (code : bytes) : bytes := str "SERROR" ++ x00 :: "C"%byte :: code ++ [x00; x00].
Definition failing_rows : list reply :=
  [RNeutral MsgBindComplete []; RRow [Some (be_put 4 42)]; RError (server_error (str "22012"))].
Definition command_rows : list reply := [RNeutral MsgBindComplete []; RNeutral MsgCommandComplete (str "INSERT 0 1" ++ [x00])].
Definition no_rows_description : list (byte * bytes) :=
  [(MsgParseComplete, []); (MsgParameterDescription, be_put 2 1 ++ be_put 4 OIDInt4); (MsgNoData, [])].
Definition refusal : list (byte * bytes) := [(MsgErrorResponse, server_error (str "42703"))].
Definition gone_stale : stale := mkStale [Some (be_put 4 7)] [RError (server_error (str "26000"))] (str "I").

Definition demo_exchange (k : kind) (sql : bytes) (s : option stale) (desc : list (byte * bytes)) (rs : list reply) : exchange :=
  mkExchange k sql [AInt KInt 7] s desc (str "I") [Some (be_put 4 7)] rs (str "I").
Definition select_one : bytes := str "select $1".
Definition insert_one : bytes := str "insert into t values ($1)".
Definition id_struct : gotype := TStruct [(plain (str "Id"), TInt KInt64)].
Definition one_row : list reply := [RNeutral MsgBindComplete []; RRow [Some (be_put 4 42)]].
Definition demo_exchanges : list exchange :=
  [demo_exchange (KQuery CQueryJSON) select_one None demo_description first_rows;
   demo_exchange (KQuery CStreamNDJSON) select_one None [] failing_rows;
   demo_exchange KExec insert_one None no_rows_description command_rows;
   demo_exchange KExec insert_one None [] command_rows;
   demo_exchange KRows select_one None demo_description first_rows;
   demo_exchange (KScan id_struct) select_one None [] one_row;
   demo_exchange (KQuery CStreamJSON) (str "select $1 fro t") None refusal [];
   demo_exchange (KQuery CStreamColumnar) select_one (Some gone_stale) demo_description first_rows].
Definition demo_copy : turn :=
  CopiesIn (λ _, []) ex_sql (mkReader (str "5") (EEOF false)) [] ex_cpin (ex_reply "COPY 1") (str "I").
Definition demo_broken : turn :=
  CopiesIn (λ _, str "disk") ex_sql (mkReader (str "5") (EUser "disk")) [] ex_cpin refusal (str "I").
Definition demo_out : turn :=
  CopiesOut ex_sql [] ex_cpin [(MsgCopyData, str "5"); (MsgCopyData, str "6"); (MsgCopyDone, [])] (str "COPY 2" ++ [x00]) [] (str "I").
Definition demo_ping : turn := Pings [(MsgEmptyQueryResponse, [])] (str "I").
Definition demo_talks : list turn := [demo_copy; demo_broken; demo_out; demo_ping].
Definition demo_session : list turn := map Asks demo_exchanges ++ demo_talks.
Definition demo_script : bytes :=
  wire_of demo_greeting ++ frame MsgReadyForQuery (str "I") ++
  concat (along demo_cf (hears demo_cf) (newStmtCache 1) demo_session) ++ str "x".
Definition demo_socket : Conn := New ("N"%byte :: demo_script) None.
Definition never : nat → bool := λ _, false.
Definition declined : bytes * tls_check → Conn → gerror + Conn := λ _ _, inl (EEOF false).

(** What the cache holds on the way: statements of one int4 parameter and at
    most one column. *)
Definition demo_made (st : preparedStmt) : Prop :=
  st_paramOIDs st = [OIDInt4] ∧ ∀ p, st_plan st = Some p → length (Columns p) = 1%nat.
Definition demo_learns (x : exchange) : Prop := ∀ sc st, learns (x_kind x) demo_cf sc (x_desc x) = inr st → demo_made st.

(** What depends on the cache, decided. *)
Definition has_plan (st : preparedStmt) : bool := match st_plan st with Some _ => true | None => false end.
Definition executable (k : kind) (st : preparedStmt) (rs : list reply) : bool :=
  match k with KQuery _ => has_plan st | KScan t => scans t st (rows_of rs) | _ => true end.
Definition demo_decided (sc : stmtCache) (x : exchange) : bool :=
  match known sc x with
  | Some st => executable (x_kind x) st (s_rows gone_stale)
  | None => bool_decide (x_stale x = None)
  end &&
  match known (start sc x) x with
  | Some st => executable (x_kind x) st (x_rows x)
  | None => match learns (x_kind x) demo_cf (start sc x) (x_desc x) with
            | inr st => executable (x_kind x) st (x_rows x)
            | inl _ => true
            end
  end.

Record demo_static (x : exchange) : Prop := {
  ds_form : x = demo_exchange (x_kind x) (x_sql x) (x_stale x) (x_desc x) (x_rows x);
  ds_guard : selects (x_kind x) = false ∨ rejectNonSelect (x_sql x) = inr tt;
  ds_stale : x_stale x = None ∨ x_stale x = Some gone_stale;
  ds_desc : Forall describe_known (x_desc x);
  ds_learns : demo_learns x;
  ds_type : ∀ t, x_kind x = KScan t → is_struct t = true;
  ds_rows : ∀ st, demo_made st → executable (x_kind x) st (x_rows x) = true → replies_ok (x_kind x) st (x_rows x);
  ds_final : ∀ cached, final demo_cf (x_kind x) cached (x_rows x)
}.

Lemma stale_replies k st : demo_made st → executable k st (s_rows gone_stale) = true →
  replies_ok k st (s_rows gone_stale) ∧ says_stale k (s_rows gone_stale).
Proof.
  intros [_ Hp] Hb. split; [|eexists; repeat (split; [reflexivity|]); by destruct k]. destruct k as [q| |t|]; cbn [executable] in Hb.
  - unfold has_plan in Hb. cbn [replies_ok]. destruct (st_plan st) as [p|]; [|done]. exists p. split; [done|]. by repeat constructor.
  - apply iterates_refused; [done|constructor].
  - apply scans_ok; [done|]. by repeat constructor.
  - by repeat constructor.
Qed.

Lemma never_retried k e : not_retried demo_cf k e.
Proof. by destruct k; try (left; reflexivity). Qed.

Lemma demo_exchange_ok sc x : every demo_made sc → demo_static x → demo_decided sc x = true → exchange_ok demo_cf sc x.
Proof.
  intros Hsc [Hx Hg Hs Hd Hl Hty Hr Hf] Hb. apply andb_true_iff in Hb as [Hb1 Hb2].
  assert (x_args x = [AInt KInt 7] ∧ x_vals x = [Some (be_put 4 7)] ∧ x_ready x = str "I" ∧ x_end x = str "I") as (Ea & Ev & Er & Ee)
    by (by rewrite Hx).
  assert (∀ s st, every demo_made s → known s x = Some st → demo_made st) as Hk.
  { intros s st H Ek. unfold known in Ek. destruct (get (x_sql x) s) as [r|] eqn:E; [|done]. injection Ek as <-. by apply (H _ _ E). }
  assert (∀ st, demo_made st → arg_values (st_paramOIDs st) 0 (x_args x) = Some [Some (be_put 4 7)]) as Harg
    by (intros st [-> _]; by rewrite Ea).
  split; [done|by intros _; left|done| |].
  - destruct Hs as [H|H]; rewrite H in *; [done|]. destruct (known sc x) as [st|] eqn:Ek; [|by apply bool_decide_eq_true in Hb1].
    exists st. destruct (stale_replies (x_kind x) st (Hk sc st Hsc Ek) Hb1) as [H1 H2]. split; [done|]. split; [|done].
    split; [by apply Harg, (Hk sc)|done|done].
  - pose proof (every_start _ _ x Hsc) as Hsc'. split; [intros _; by rewrite Er|]. unfold obtained.
    destruct (known (start sc x) x) as [st|] eqn:Ek.
    + assert (x_stale x = None) as E0.
      { destruct Hs as [H|H]; [done|]. exfalso. unfold known, start in Ek. rewrite H in Ek. unfold invalidate, get in Ek.
        destruct (byKey sc !! x_sql x) eqn:Eg; [cbn in Ek; by rewrite lookup_delete_eq in Ek|by rewrite Eg in Ek]. }
      assert (start sc x = sc) as Es by (unfold start; by rewrite E0). rewrite Es in *.
      split; [split; [rewrite Ev; by apply Harg, (Hk sc)|apply Hr; [by apply (Hk sc)|done]|by rewrite Ee]|apply Hf].
    + destruct (learns (x_kind x) demo_cf (start sc x) (x_desc x)) as [e|st] eqn:El; [apply never_retried|].
      pose proof (Hl _ _ El) as Hm. split; [split; [rewrite Ev; by apply Harg|by apply Hr|by rewrite Ee]|apply Hf].
Qed.

Lemma demo_talks_ok sc : all_ok demo_cf sc demo_talks.
Proof.
  split; [|split; [|split; [|split; [|done]]]].
  - split; [constructor|]. by split; [apply ex_complete|].
  - split; [constructor|]. split; [|done]. constructor; [by split|constructor].
  - split; [constructor|]. split; [|done]. repeat (constructor; [split; [discriminate|tauto]|]). constructor.
  - split; [|done]. constructor; [split; [discriminate|by left]|constructor].
Qed.

Lemma demo_all_ok xs : ∀ sc, every demo_made sc → Forall demo_static xs →
  forallb id (along demo_cf (λ sc t, match t with Asks x => demo_decided sc x | _ => true end) sc (map Asks xs ++ demo_talks)) = true →
  all_ok demo_cf sc (map Asks xs ++ demo_talks).
Proof.
  induction xs as [|x xs IH]; intros sc Hsc Hxs H.
  - apply demo_talks_ok.
  - apply Forall_cons in Hxs as [Hx Hxs]. cbn [map app along forallb id] in H. apply andb_true_iff in H as [H1 H2].
    split; [by apply demo_exchange_ok|]. apply IH; [|done|done]. apply every_after; [|done]. apply (ds_learns x Hx).
Qed.

Lemma describe_demo : Forall describe_known demo_description.
Proof.
  unfold demo_description. constructor; [split; [discriminate|left; reflexivity]|].
  constructor; [split; [discriminate|do 2 right; left; reflexivity]|].
  constructor; [split; [discriminate|do 3 right; left; split; [reflexivity|eexists; reflexivity]]|]. constructor.
Qed.
Lemma demo_described : described demo_description = mkDesc (Some demo_plan) None [OIDInt4].
Proof. reflexivity. Qed.
Lemma learns_demo k cf sc st : k ≠ KExec → learns k cf sc demo_description = inr st → demo_made st.
Proof.
  intros Hk. assert (describes cf sc demo_description = inr st → demo_made st) as H; [|by destruct k].
  unfold describes. rewrite demo_described. cbn [d_err d_plan d_oids]. intros [= <-]. split; [done|].
  intros p [= <-]. unfold negotiate. cbn [snd]. unfold ApplyFormatsEx. cbn [Columns]. by rewrite length_imap.
Qed.
Lemma learns_no_rows cf sc st : learns KExec cf sc no_rows_description = inr st → demo_made st.
Proof.
  cbn [learns]. unfold exec_describes. assert (exec_described no_rows_description = mkPrep None true None [OIDInt4]) as -> by reflexivity.
  intros [= <-]. by split.
Qed.

Lemma final_demo k cached rs : match error_of None rs with Some e => isStaleStmtError (EPg e) | None => false end = false →
  final demo_cf k cached rs.
Proof. intros H e He. rewrite He in H. split; [apply never_retried|done]. Qed.

Lemma select_rows rs : Forall (λ r, match r with RRow cells => length cells = 1%nat ∧ Forall cell_ok cells | RNeutral t _ => execute_neutral t = true | _ => True end ∧ msg_ok (reply_msg r)) rs →
  ∀ st, demo_made st → has_plan st = true → ∀ q, replies_ok (KQuery q) st rs.
Proof.
  intros Hrs st [_ Hp] Hb q. unfold has_plan in Hb. cbn [replies_ok]. destruct (st_plan st) as [p|]; [|done]. exists p. split; [done|].
  eapply Forall_impl; [exact Hrs|]. intros r [Hr Hm]. split; [done|]. destruct r as [cells| | | |]; try done.
  destruct Hr as [H1 H2]. split; [by rewrite H1, (Hp p)|]. split; [done|]. unfold Zlen. rewrite H1. done.
Qed.

Lemma query_static q sql s desc rs : rejectNonSelect sql = inr tt → s = None ∨ s = Some gone_stale →
  desc = demo_description ∨ desc = [] ∨ desc = refusal → rs = first_rows ∨ rs = failing_rows ∨ rs = [] →
  demo_static (demo_exchange (KQuery q) sql s desc rs).
Proof.
  intros Hg Hs Hd Hr. split; cbn [x_kind x_sql x_stale x_desc x_rows demo_exchange]; [done|by right|done| | |done| |].
  - destruct Hd as [-> |[-> | ->]]; [apply describe_demo|constructor|]. constructor; [|constructor]. split; [discriminate|].
    do 4 right. left. reflexivity.
  - intros sc st. cbn [x_kind x_desc demo_exchange]. destruct Hd as [-> |[-> | ->]]; [by apply learns_demo|discriminate|discriminate].
  - intros st Hm Hb. apply select_rows; [|done|exact Hb].
    destruct Hr as [-> |[-> | ->]]; unfold first_rows, failing_rows; repeat constructor; discriminate.
  - intros cached. apply final_demo. by destruct Hr as [-> |[-> | ->]].
Qed.

Lemma demo_exchanges_static : Forall demo_static demo_exchanges.
Proof.
  unfold demo_exchanges.
  apply Forall_cons; split; [apply query_static; by auto|].
  apply Forall_cons; split; [apply query_static; by auto|].
  assert (∀ desc, desc = no_rows_description ∨ desc = [] → demo_static (demo_exchange KExec insert_one None desc command_rows)) as He.
  { intros desc Hd. split; cbn [x_kind x_sql x_stale x_desc x_rows demo_exchange]; [done|by left|by left| | |done| |].
    - destruct Hd as [-> | ->]; [|constructor]. unfold no_rows_description. constructor; [split; [discriminate|left; reflexivity]|].
      constructor; [split; [discriminate|do 2 right; left; reflexivity]|]. constructor; [|constructor].
      split; [discriminate|do 7 right; reflexivity].
    - intros sc st. cbn [x_kind x_desc demo_exchange]. destruct Hd as [-> | ->]; [apply learns_no_rows|discriminate].
    - intros st _ _. constructor; [split; [discriminate|by left]|]. constructor; [split; [discriminate|right; left; by split]|constructor].
    - intros cached. by apply final_demo. }
  apply Forall_cons; split; [apply He; by auto|]. apply Forall_cons; split; [apply He; by auto|].
  apply Forall_cons; split.
  { split; cbn [x_kind x_sql x_stale x_desc x_rows demo_exchange]; [done|by right|by left|apply describe_demo| |done| |].
    - intros sc st. by apply learns_demo.
    - intros st _ _. apply iterates_rows; [discriminate|]. repeat constructor; discriminate.
    - intros cached. by apply final_demo. }
  apply Forall_cons; split.
  { split; cbn [x_kind x_sql x_stale x_desc x_rows demo_exchange]; [done|by right|by left|constructor|discriminate|by intros t [= <-]| |].
    - intros st _ H. apply scans_ok; [exact H|]. repeat constructor; discriminate.
    - intros cached. by apply final_demo. }
  apply Forall_cons; split; [apply query_static; by auto|].
  apply Forall_cons; split; [apply query_static; by auto|]. by apply Forall_nil.
Qed.

Lemma demo_session_ok : all_ok demo_cf (newStmtCache 1) demo_session.
Proof. apply demo_all_ok; [apply every_new|apply demo_exchanges_static|vm_compute; reflexivity]. Qed.

Lemma session_exact_witness : ∃ c',
  session declined 4 100 (inr []) small_config demo_socket (map (perform never background 0) demo_session) =
    (Ret (along demo_cf (returns demo_cf) (newStmtCache 1) demo_session), c') ∧
  inbound (conn c') = str "x" ∧
  sent (conn c') = sslRequest ++ frameNoType (startup_body demo_cf) ++ concat (along demo_cf (sends demo_cf) (newStmtCache 1) demo_session) ∧
  stmts c' = fold_left (leaves demo_cf) demo_session (newStmtCache 1) ∧
  at_rest demo_cf c' ∧ Forall id (along demo_cf (well_formed demo_cf) (newStmtCache 1) demo_session).
Proof.
  apply (session_exact declined 4 100 (inr []) never background 0 small_config demo_socket sslRequest demo_greeting (str "I") demo_session (str "x")).
  - reflexivity.
  - split; discriminate.
  - reflexivity.
  - split; [|discriminate].
    constructor; [split; [discriminate|left; split; reflexivity]|].
    constructor; [split; [discriminate|right; left; reflexivity]|].
    constructor; [split; [discriminate|right; right; left; split; [reflexivity|discriminate]]|]. constructor.
  - apply demo_session_ok.
  - left. split; [reflexivity|]. split; reflexivity.
Defined.

(** The lengths of the twelve requests: the second, the fourth and the sixth parse nothing,
    a Parse behind an eviction is behind a Close, the refused text sends no
    Bind, and the stale statement is executed before it is prepared again. *)
Example demo_requests :
  map (λ b, length b) (along demo_cf (sends demo_cf) (newStmtCache 1) demo_session) = [79; 43; 93; 41; 89; 43; 52; 132; 34; 39; 23; 6]%nat.
Proof. vm_compute. reflexivity. Qed.

(** And what the calls return, errors by their codes. *)
Definition seen (r : res answer) : bytes :=
  match r with
  | Ret (ADoc doc) => doc
  | Ret (ARows rows) => concat rows
  | Ret (AScanned rows) => concat (map (λ v, match v with GStruct [GInt _ n] => AppendInt [] n | _ => [] end) rows)
  | Ret (AExec x) => AppendInt (Tag x ++ str " / ") (RowsAffected x)
  | Ret (ACopied n out) => AppendInt out n
  | Ret APong => str "pong"
  | Err (EPg e) => Code e
  | Err (EUser s) => str s
  | _ => []
  end.
Definition doc_one : bytes := str "[{" ++ dquote :: str "id" ++ dquote :: str ":42},{" ++ dquote :: str "id" ++ dquote :: str ":null}]".
Definition columns_one : bytes :=
  str "{" ++ dquote :: str "columns" ++ dquote :: str ":[" ++ dquote :: str "id" ++ dquote :: str "]," ++
  dquote :: str "rows" ++ dquote :: str ":[[42],[null]]}".
Example demo_answers : map seen (along demo_cf (returns demo_cf) (newStmtCache 1) demo_session) =
  [doc_one; str "22012"; str "INSERT 0 1 / 1"; str "INSERT 0 1 / 1"; data_row [Some (be_put 4 42)] ++ data_row [None]; str "42";
   str "42703"; columns_one; str "1"; str "disk"; str "562"; str "pong"].
Proof. vm_compute. reflexivity. Qed.
