(* ===== verification/Pipeline.v ===== *)
(** pgz/pipeline.go: Batch, SendBatch and the BatchResults that read the reply
    item by item.  The state is the client and the BatchResults together; the
    statements a batch shares between its items are references into the
    client's store of statements, as in StmtCache.v. *)
From S2P Require Import Prelude Protocol Errors Effects Wire Rows Args StmtCache Stream Client Query QuerySpec.
From S2P Require Import QueryResult Exec Api Iter Talk.

(** ** Batch *)

Record batchItem := mkItem { bi_sql : bytes; bi_args : list goarg }.
Definition Batch : Type := list batchItem.
Definition NewBatch : Batch := [].
Definition Queue (sql : bytes) (args : list goarg) (b : Batch) : Batch := b ++ [mkItem sql args].
Definition Len (b : Batch) : nat := length b.
Definition BatchReset (b : Batch) : Batch := [].

Definition ErrBatchAborted : gerror := EFmt "pgz: batch aborted by earlier item" [].

(** ** BatchResults *)

Record parseStage := mkStage {
  hasParse : bool;
  hasDescribe : bool;
  ps_sql : bytes;
  ps_name : bytes;
  ps_cached : option nat
}.
Definition zeroStage : parseStage := mkStage false false [] [] None.

Record BatchResults := mkBR {
  br_n : nat;
  br_idx : nat;
  br_done : bool;
  br_aborted : bool;
  br_closed : bool;
  br_ctxStop : bool;             (* a timeout of our own is to be cancelled *)
  br_parsePlan : list parseStage
}.
Definition set_br_idx x (b : BatchResults) := mkBR (br_n b) x (br_done b) (br_aborted b) (br_closed b) (br_ctxStop b) (br_parsePlan b).
Definition set_br_done (b : BatchResults) := mkBR (br_n b) (br_idx b) true (br_aborted b) (br_closed b) (br_ctxStop b) (br_parsePlan b).
Definition set_br_aborted (b : BatchResults) := mkBR (br_n b) (br_idx b) (br_done b) true (br_closed b) (br_ctxStop b) (br_parsePlan b).
Definition set_br_closed (b : BatchResults) := mkBR (br_n b) (br_idx b) (br_done b) (br_aborted b) true (br_ctxStop b) (br_parsePlan b).
Definition clear_ctxStop (b : BatchResults) := mkBR (br_n b) (br_idx b) (br_done b) (br_aborted b) (br_closed b) false (br_parsePlan b).

Abbreviation batch := (prog (Client * BatchResults)).

(** ** SendBatch *)

(** [st.paramOIDs = oids] through the pointer. *)
Definition set_oids (r : nat) (oids : list OID) : client unit :=
  modify (λ c, set_stmts (update r (λ st, mkStmt (st_name st) (st_plan st) (st_resultFmts st) oids) (stmts c)) c).

Definition writeBindExecute (st : preparedStmt) (args : list goarg) : io unit :=
  _ ← message MsgBind
        (_ ← bCString [];
         _ ← bCString (st_name st);
         _ ← writeBindParams (st_paramOIDs st) args;
         bInt16 0);
  executeMessage.

(** The stage of one item: a statement of this batch, of the cache, or a new
    one whose Parse and Describe are buffered. *)
Definition stage_item (sql : bytes) (seen : gmap bytes nat) : client (parseStage * nat * gmap bytes nat) :=
  match seen !! sql with
  | Some r => mret (mkStage false false sql [] (Some r), r, seen)
  | None =>
      o ← cache_get sql;
      match o with
      | Some r => mret (mkStage false false sql [] (Some r), r, <[sql := r]> seen)
      | None =>
          name ← next_name;
          r ← new_stmt (mkStmt name None [] []);
          _ ← wire (parseMessages name sql);
          mret (mkStage true true sql name (Some r), r, <[sql := r]> seen)
      end
  end.

(** The loop over the items; [false] when an item's arguments did not encode. *)
Fixpoint queue_items (items : Batch) (seen : gmap bytes nat) : client (list parseStage * bool) :=
  match items with
  | [] => mret ([], true)
  | it :: items =>
      x ← stage_item (bi_sql it) seen;
      let '(stage, r, seen) := x in
      st ← load r;
      y ← catch (wire (writeBindExecute st (bi_args it)));
      match y with
      | inl _ => mret (zeroStage :: repeat zeroStage (length items), false)
      | inr _ => z ← queue_items items seen; mret (stage :: z.1, z.2)
      end
  end.

Definition SendBatch (ctx : context) (b : Batch) : client BatchResults :=
  cf ← gets cfg;
  let stop := (0 <? DefaultQueryTimeout cf) && negb (ctx_deadline ctx) in
  let failed plan := mkBR (Len b) 0 true true false stop plan in
  x ← catch (attachContext ctx);
  match x with
  | inl _ => mret (failed [])
  | inr _ =>
      _ ← modify (observe (OnQueryStart (str "pgz.SendBatch")));
      dead ← take_pending;
      _ ← wire (closeMessages dead);
      q ← queue_items b ∅;
      if negb q.2 then mret (failed q.1)
      else
        _ ← wire syncMessage;
        y ← catch (wire Flush);
        match y with
        | inl _ => mret (failed q.1)
        | inr _ => mret (mkBR (Len b) 0 false false false stop q.1)
        end
  end.

(** ** Reading an item *)

Definition on_cached (stage : parseStage) (f : nat → client unit) : client unit :=
  match ps_cached stage with Some r => f r | None => mret tt end.

Definition batch_loop {A R} (step : A → byte → bytes → batch (A + R)) (onerr : A → gerror → batch R) (a : A) : batch R := λ s,
  read_loop (cl (wire ReadMessage)) step onerr (rounds (fst s)) a s.

Section Results.
Context {MO : MapOrder}.

Definition commitStage (stage : parseStage) : client unit :=
  if negb (hasParse stage) then mret tt else on_cached stage (cache_put (ps_sql stage)).

Definition item_exec_step (stage : parseStage) (e : option PGError) (t : byte) (body : bytes) :
    batch (option PGError + ExecResult) :=
  if beq t MsgParseComplete then again e
  else if beq t MsgParameterDescription then
    _ ← cl (on_cached stage (λ r, set_oids r (parseParamOIDs body))); again e
  else if beq t MsgRowDescription then
    _ ← cl (on_cached stage (λ r, match ParseRowDescription body with inr p => set_plan r p | inl _ => mret tt end)); again e
  else if beq t MsgNoData || beq t MsgBindComplete || beq t MsgDataRow then again e
  else if beq t MsgCommandComplete then
    tag ← (match body with [] => panic | _ => mret (removelast body) end);
    match e with
    | Some e => throw (EPg e)
    | None => _ ← cl (commitStage stage); leave (mkRes (parseRowsAffected tag) tag)
    end
  else if beq t MsgEmptyQueryResponse then
    match e with
    | Some e => throw (EPg e)
    | None => _ ← cl (commitStage stage); leave emptyResult
    end
  else if beq t MsgErrorResponse then again (Some (Parse body))
  else if beq t MsgNoticeResponse then _ ← cl (on_notice body); again e
  else if beq t MsgParameterStatus then _ ← cl (on_parameter body); again e
  else if beq t MsgReadyForQuery then
    _ ← ow (modify set_br_done);
    match e with Some e => throw (EPg e) | None => throw ErrBatchAborted end
  else throw (EFmt "pgz: unexpected msg in batch Exec" [byteZ t]).
Definition readItemExec (stage : parseStage) : batch ExecResult :=
  batch_loop (item_exec_step stage) (λ _ e, throw e) None.

Definition item_query_step (stage : parseStage) (e : option PGError) (t : byte) (body : bytes) :
    batch (option PGError + Iterator) :=
  if beq t MsgParseComplete || beq t MsgBindComplete then again e
  else if beq t MsgParameterDescription then
    _ ← cl (on_cached stage (λ r, set_oids r (parseParamOIDs body))); again e
  else if beq t MsgRowDescription then
    plan ← of_sum (ParseRowDescription body);
    _ ← cl (on_cached stage (λ r, set_plan r plan));
    _ ← cl (commitStage stage);
    leave (mkIter (ps_cached stage) (Some plan) true false None None 0)
  else if beq t MsgNoData then
    _ ← cl (commitStage stage);
    leave (mkIter (ps_cached stage) None true false None None 0)
  else if beq t MsgErrorResponse then again (Some (Parse body))
  else if beq t MsgNoticeResponse then _ ← cl (on_notice body); again e
  else if beq t MsgParameterStatus then _ ← cl (on_parameter body); again e
  else if beq t MsgReadyForQuery then
    _ ← ow (modify set_br_done);
    match e with Some e => throw (EPg e) | None => throw ErrBatchAborted end
  else throw (EFmt "pgz: unexpected msg in batch Query" [byteZ t]).
Definition readItemQuery (stage : parseStage) : batch Iterator :=
  batch_loop (item_query_step stage) (λ _ e, throw e) None.

(** The common front of Exec and Query: an index past the plan panics. *)
Definition next_item {A} (read : parseStage → batch A) : batch A :=
  br ← gets snd;
  if br_closed br then throw (EFmt "pgz: BatchResults closed" [])
  else if (br_n br <=? br_idx br)%nat then throw (EEOF false)
  else
    match br_parsePlan br !! br_idx br with
    | None => panic
    | Some stage =>
        _ ← ow (modify (set_br_idx (S (br_idx br))));
        if br_aborted br then throw ErrBatchAborted
        else
          x ← catch (read stage);
          match x with
          | inl e => _ ← ow (modify set_br_aborted); throw e
          | inr a => mret a
          end
    end.
Definition br_Exec : batch ExecResult := next_item readItemExec.
Definition br_Query : batch Iterator := next_item readItemQuery.
End Results.

(** ** Close *)

Definition skip_step (_ : unit) (t : byte) (body : bytes) : batch (unit + unit) :=
  if beq t MsgCommandComplete || beq t MsgEmptyQueryResponse then leave tt
  else if beq t MsgReadyForQuery then _ ← ow (modify set_br_done); leave tt
  else if beq t MsgErrorResponse then again tt
  else if beq t MsgNoticeResponse then _ ← cl (on_notice body); again tt
  else if beq t MsgParameterStatus then _ ← cl (on_parameter body); again tt
  else again tt.
Definition skipItem : batch unit := batch_loop skip_step (λ _ e, throw e) tt.

(** [for br.idx < br.n && !br.done]; [fuel] is the number of items. *)
Fixpoint skip_items (fuel : nat) : batch unit :=
  match fuel with
  | O => mret tt
  | S fuel =>
      br ← gets snd;
      if (br_n br <=? br_idx br)%nat || br_done br then mret tt
      else
        x ← catch skipItem;
        match x with
        | inl _ => mret tt
        | inr _ => _ ← ow (modify (λ b, set_br_idx (S (br_idx b)) b)); skip_items fuel
        end
  end.

Definition bdrain_step (_ : unit) (t : byte) (body : bytes) : batch (unit + unit) :=
  if beq t MsgReadyForQuery then _ ← ow (modify set_br_done); leave tt else again tt.
Definition br_drainUntilReady : batch unit :=
  br ← gets snd;
  if br_done br then mret tt else batch_loop bdrain_step (λ _ _, mret tt) tt.

Definition br_Close (dur : Z) : batch unit :=
  br ← gets snd;
  if br_closed br then mret tt
  else
    _ ← ow (modify set_br_closed);
    _ ← skip_items (br_n br - br_idx br);
    _ ← br_drainUntilReady;
    _ ← ow (modify clear_ctxStop);
    cl (recordEnd (str "pgz.SendBatch") (Z.of_nat (br_n br)) 0 dur None).

(** ** Specification *)

(** What an item's reply holds before the message that completes it. *)
Definition batch_known (m : byte * bytes) : Prop :=
  msg_ok m ∧
  (m.1 = MsgParseComplete ∨ m.1 = MsgParameterDescription ∨ m.1 = MsgRowDescription ∨ m.1 = MsgNoData ∨
   m.1 = MsgBindComplete ∨ m.1 = MsgDataRow ∨ m.1 = MsgErrorResponse ∨ m.1 = MsgNoticeResponse ∨ m.1 = MsgParameterStatus).

(** What a statement learns from such a message. *)
Definition told (st : preparedStmt) (m : byte * bytes) : preparedStmt :=
  if beq m.1 MsgParameterDescription then mkStmt (st_name st) (st_plan st) (st_resultFmts st) (parseParamOIDs m.2)
  else if beq m.1 MsgRowDescription then
    match ParseRowDescription m.2 with inr p => mkStmt (st_name st) (Some p) (st_resultFmts st) (st_paramOIDs st) | inl _ => st end
  else st.
Definition taught (stage : parseStage) (ms : list (byte * bytes)) (sc : stmtCache) : stmtCache :=
  match ps_cached stage with Some r => update r (λ st, fold_left told ms st) sc | None => sc end.

(** What such a message does to the client, in the code's terms. *)
Definition settle (stage : parseStage) (c : Client) (m : byte * bytes) : Client :=
  if beq m.1 MsgParameterDescription then (on_cached stage (λ r, set_oids r (parseParamOIDs m.2)) c).2
  else if beq m.1 MsgRowDescription then
    match ParseRowDescription m.2 with inr p => (on_cached stage (λ r, set_plan r p) c).2 | inl _ => c end
  else absorb c m.

(** A completed item: its messages and the body of its CommandComplete, or none
    for the EmptyQueryResponse that an empty text gets. *)
Definition completed : Type := list (byte * bytes) * option bytes.
Definition closing_msg (x : completed) : byte * bytes :=
  match x.2 with Some tag => (MsgCommandComplete, tag) | None => (MsgEmptyQueryResponse, []) end.
Definition completed_ok (x : completed) : Prop :=
  Forall (λ m, batch_known m ∧ m.1 ≠ MsgErrorResponse) x.1 ∧ msg_ok (closing_msg x) ∧ x.2 ≠ Some [].
Definition completed_wire (x : completed) : bytes := wire_of x.1 ++ frame (closing_msg x).1 (closing_msg x).2.
Definition completed_res (x : completed) : ExecResult :=
  match x.2 with Some tag => mkRes (parseRowsAffected (removelast tag)) (removelast tag) | None => mkRes 0 [] end.

(** A caller that asks for the results of [n] items. *)
Fixpoint exec_calls {MO : MapOrder} (n : nat) : batch (list (gerror + ExecResult)) :=
  match n with
  | O => mret []
  | S n => x ← catch br_Exec; l ← exec_calls n; mret (x :: l)
  end.

(** The results of a batch of [n] items whose server completed [oks] and then,
    unless they are all, answered the next with the error [e]. *)
Definition batch_expected (n : nat) (oks : list completed) (e : option PGError) : list (gerror + ExecResult) :=
  map (λ x, inr (completed_res x)) oks ++
  match e with
  | None => []
  | Some e => inl (EPg e) :: repeat (inl ErrBatchAborted) (n - length oks - 1)
  end.

(** The statement cache after the items of [plan] that completed: each has taught
    its statement, and one that was parsed for the batch is now cached. *)
Fixpoint cached_after {MO : MapOrder} (plan : list parseStage) (oks : list completed) (sc : stmtCache) : stmtCache :=
  match plan, oks with
  | stage :: plan, x :: oks =>
      let sc := taught stage x.1 sc in
      cached_after plan oks
        match hasParse stage, ps_cached stage with true, Some r => put (ps_sql stage) r sc | _, _ => sc end
  | _, _ => sc
  end.
(** The entry of a text, when nothing has to be evicted: the last statement
    parsed for it by a completed item, or what was there. *)
Fixpoint entry (plan : list parseStage) (oks : list completed) (sql : bytes) (old : option nat) : option nat :=
  match plan, oks with
  | stage :: plan, _ :: oks =>
      entry plan oks sql
        match hasParse stage, ps_cached stage with true, Some r => if bool_decide (ps_sql stage = sql) then Some r else old | _, _ => old end
  | _, _ => old
  end.

(** The client after the items of [plan] that completed, in the code's terms. *)
Fixpoint committed {MO : MapOrder} (plan : list parseStage) (oks : list completed) (c : Client) : Client :=
  match plan, oks with
  | stage :: plan, x :: oks => committed plan oks (commitStage stage (fold_left (settle stage) x.1 c)).2
  | _, _ => c
  end.

(** ** Lemmas *)

Lemma settle_conn stage k c m : settle stage (set_conn k c) m = set_conn k (settle stage c m).
Proof.
  unfold settle, on_cached. destruct (ps_cached stage), (beq m.1 MsgParameterDescription), (beq m.1 MsgRowDescription);
    try done; try (by destruct (ParseRowDescription m.2)); apply absorb_conn.
Qed.
Lemma conn_settle stage c m : conn (settle stage c m) = conn c.
Proof.
  unfold settle, on_cached. destruct (ps_cached stage), (beq m.1 MsgParameterDescription), (beq m.1 MsgRowDescription);
    try done; try (by destruct (ParseRowDescription m.2)); apply conn_absorb.
Qed.
Lemma conn_settles stage ms : ∀ c, conn (fold_left (settle stage) ms c) = conn c.
Proof. induction ms as [|m ms IH]; intros c; [done|]. cbn [fold_left]. by rewrite IH, conn_settle. Qed.

Section Lemmas.
Context {MO : MapOrder}.

Lemma commit_returns stage c : ∃ c', commitStage stage c = (Ret tt, c') ∧ (∀ k, commitStage stage (set_conn k c) = (Ret tt, set_conn k c')) ∧
  conn c' = conn c.
Proof.
  unfold commitStage, on_cached. destruct (negb (hasParse stage)); [by exists c|]. destruct (ps_cached stage); [|by exists c].
  by eexists.
Qed.

Lemma item_step_known stage m : batch_known m → ∀ e c br,
  item_exec_step stage e m.1 m.2 (c, br) =
    (Ret (inl (if beq m.1 MsgErrorResponse then Some (Parse m.2) else e)), (settle stage c m, br)).
Proof.
  intros [_ Hm] e c br. destruct m as [t b]. cbn [fst snd] in *.
  destruct Hm as [-> |[-> |[-> |[-> |[-> |[-> |[-> |[-> | ->]]]]]]]]; try done.
  all: unfold settle, item_exec_step, absorb, on_parameter, on_cached; cbn -[parseParamOIDs ParseRowDescription splitParameter];
    first [by destruct (ps_cached stage)|by destruct (ps_cached stage), (ParseRowDescription b)|by destruct (splitParameter b)].
Qed.

(** The error a reply leaves behind. *)
Lemma last_error_fold ms : ∀ e,
  fold_left (λ e m, if beq m.1 MsgErrorResponse then Some (Parse m.2) else e) ms e = last_error e ms.
Proof. induction ms as [|m ms IH]; intros e; [done|]. cbn [fold_left last_error]. by rewrite IH. Qed.
Lemma last_error_none ms : Forall (λ m : byte * bytes, m.1 ≠ MsgErrorResponse) ms → ∀ e, last_error e ms = e.
Proof.
  induction 1 as [|[t b] ms Ht _ IH]; intros e; [done|]. cbn [last_error fst snd] in *.
  destruct (beq t MsgErrorResponse) eqn:E; [by apply beq_true in E|apply IH].
Qed.

(** [br] is ready to hand out the item at its index. *)
Definition at_item (stage : parseStage) (br : BatchResults) : Prop :=
  br_closed br = false ∧ br_aborted br = false ∧ (br_idx br < br_n br)%nat ∧ br_parsePlan br !! br_idx br = Some stage.

Lemma next_item_at {A} (read : parseStage → batch A) stage br c : at_item stage br →
  next_item read (c, br) =
    match read stage (c, set_br_idx (S (br_idx br)) br) with
    | (Ret a, s) => (Ret a, s)
    | (Err e, (c, b)) => (Err e, (c, set_br_aborted b))
    | (Panic, s) => (Panic, s)
    | (Stuck, s) => (Stuck, s)
    end.
Proof.
  intros (H1 & H2 & H3 & H4). unfold next_item.
  unfold mbind at 1, prog_bind at 1, gets at 1. cbn [snd]. rewrite H1, (proj2 (Nat.leb_gt _ _) H3), H4.
  unfold mbind at 1, prog_bind at 1, ow, zoom, modify at 1. cbn [fst snd]. rewrite H2.
  unfold mbind, prog_bind, catch. destruct (read stage (c, set_br_idx (S (br_idx br)) br)) as [[a|e| |] [c' b]]; done.
Qed.

Lemma fuel_ok (c : Client) ms t b rest : inbound (conn c) = wire_of ms ++ frame t b ++ rest → (length ms < rounds c)%nat.
Proof. intros Hi. unfold rounds. rewrite Hi, length_app. pose proof (length_wire_of ms). lia. Qed.

(** One item that completes. *)
Lemma exec_completes stage br c x rest : at_item stage br → completed_ok x → inbound (conn c) = completed_wire x ++ rest →
  ∃ k, conn_at rest (conn c) k ∧
    br_Exec (c, br) = (Ret (completed_res x), (set_conn k (commitStage stage (fold_left (settle stage) x.1 c)).2, set_br_idx (S (br_idx br)) br)).
Proof.
  intros Hat (Hms & Hok & Hne) Hi. unfold completed_wire in Hi. rewrite <- app_assoc in Hi. destruct x as [ms tag]. unfold closing_msg in *. cbn [fst snd] in *.
  unfold br_Exec. rewrite (next_item_at _ stage) by done.
  set (last := match tag with Some tag => (MsgCommandComplete, tag) | None => (MsgEmptyQueryResponse, []) end) in *.
  destruct (loopw (item_exec_step stage) (λ e m, if beq m.1 MsgErrorResponse then Some (Parse m.2) else e) (settle stage)
    (λ _ e, throw e) last.1 last.2 rest (Ret (completed_res (ms, tag))) (set_br_idx (S (br_idx br)) br)
    (set_br_idx (S (br_idx br)) br) (λ c, (commitStage stage c).2) (settle_conn stage) Hok ms None (rounds c) c) as (k & Hk & E).
  - by eapply fuel_ok.
  - done.
  - eapply Forall_impl; [exact Hms|]. intros m [Hm _]. split; [apply Hm|]. intros. by apply item_step_known.
  - intros c0. rewrite last_error_fold, last_error_none by (eapply Forall_impl; [exact Hms|by intros m [_ ?]]).
    unfold item_exec_step. destruct tag as [[|t0 tag]|]; [done| |]; cbn -[removelast parseRowsAffected];
      unfold mbind, prog_bind, mret, prog_ret, cl, zoom; cbn [fst snd]; by destruct (commit_returns stage c0) as (c1 & -> & _).
  - exists k. split; [done|]. unfold readItemExec, batch_loop. cbn [fst]. rewrite E.
    destruct (commit_returns stage (fold_left (settle stage) ms c)) as (c1 & E1 & E2 & _). by rewrite E2, E1.
Qed.

(** One item the server refuses, with everything it skips up to Sync. *)
Lemma exec_fails stage br c ms e z rest : at_item stage br → Forall batch_known ms → last_error None ms = Some e →
  msg_ok (MsgReadyForQuery, z) → inbound (conn c) = wire_of ms ++ frame MsgReadyForQuery z ++ rest →
  ∃ k, conn_at rest (conn c) k ∧
    br_Exec (c, br) = (Err (EPg e), (set_conn k (fold_left (settle stage) ms c), set_br_aborted (set_br_done (set_br_idx (S (br_idx br)) br)))).
Proof.
  intros Hat Hms He Hz Hi. unfold br_Exec. rewrite (next_item_at _ stage) by done.
  destruct (loopw (item_exec_step stage) (λ e m, if beq m.1 MsgErrorResponse then Some (Parse m.2) else e) (settle stage)
    (λ _ e, throw e) MsgReadyForQuery z rest (Err (EPg e)) (set_br_idx (S (br_idx br)) br)
    (set_br_done (set_br_idx (S (br_idx br)) br)) id (settle_conn stage) Hz ms None (rounds c) c) as (k & Hk & E).
  - by eapply fuel_ok.
  - done.
  - eapply Forall_impl; [exact Hms|]. intros m Hm. split; [apply Hm|]. intros. by apply item_step_known.
  - intros c0. by rewrite last_error_fold, He.
  - exists k. split; [done|]. unfold readItemExec, batch_loop. cbn [fst]. by rewrite E.
Qed.

(** After a failure every item is refused without reading. *)
Lemma exec_aborted br c n : br_closed br = false → br_aborted br = true → (br_idx br + n <= br_n br)%nat →
  (br_n br <= length (br_parsePlan br))%nat →
  exec_calls n (c, br) = (Ret (repeat (inl ErrBatchAborted) n), (c, set_br_idx (br_idx br + n) br)).
Proof.
  revert br. induction n as [|n IH]; intros br H1 H2 H3 H4; cbn [exec_calls repeat].
  - rewrite Nat.add_0_r. by destruct br.
  - destruct (lookup_lt_is_Some_2 (br_parsePlan br) (br_idx br) ltac:(lia)) as [stage Hs].
    assert (br_Exec (c, br) = (Err ErrBatchAborted, (c, set_br_idx (S (br_idx br)) br))) as E.
    { unfold br_Exec, next_item. unfold mbind at 1, prog_bind at 1, gets at 1. cbn [snd].
      rewrite H1, (proj2 (Nat.leb_gt _ _)), Hs by lia. unfold mbind, prog_bind, ow, zoom, modify. cbn [fst snd]. by rewrite H2. }
    unfold mbind at 1, prog_bind at 1, catch. rewrite E.
    unfold mbind at 1, prog_bind at 1. rewrite IH by (done || cbn; lia). cbn. by rewrite Nat.add_succ_r.
Qed.
End Lemmas.

Section Close.
Context {MO : MapOrder}.

Definition completes (m : byte * bytes) : bool := beq m.1 MsgCommandComplete || beq m.1 MsgEmptyQueryResponse.

Lemma skip_step_other m br c : m.1 ≠ MsgReadyForQuery → completes m = false →
  skip_step tt m.1 m.2 (c, br) = (Ret (inl tt), (absorb c m, br)).
Proof.
  intros Hz Hm. destruct m as [t b]. unfold completes in Hm. cbn [fst snd] in *. unfold skip_step, absorb. cbn [fst snd]. rewrite Hm.
  destruct (beq t MsgReadyForQuery) eqn:E0; [by apply beq_true in E0|].
  destruct (beq t MsgErrorResponse) eqn:E1; [by apply beq_true in E1 as ->|].
  destruct (beq t MsgNoticeResponse) eqn:E2; [by apply beq_true in E2 as ->|].
  destruct (beq t MsgParameterStatus) eqn:E3; [|done].
  unfold on_parameter, cl, zoom, mbind, prog_bind, modify. cbn [fst snd]. by destruct (splitParameter b).
Qed.

(** The first completed item of a stretch of messages, if it holds one. *)
Lemma split_completes ms : Forall (λ m, completes m = false) ms ∨
  ∃ pre m post, ms = pre ++ m :: post ∧ Forall (λ m, completes m = false) pre ∧ completes m = true.
Proof.
  induction ms as [|m ms IH]; [left; constructor|]. destruct (completes m) eqn:E; [right; by exists [], m, ms|].
  destruct IH as [IH|(pre & m' & post & -> & H1 & H2)]; [left; by constructor|].
  right. exists (m :: pre), m', post. split; [done|]. split; [by constructor|done].
Qed.

Definition unread (ms : list (byte * bytes)) (z rest : bytes) (c : Client) : Prop :=
  inbound (conn c) = wire_of ms ++ frame MsgReadyForQuery z ++ rest ∧ Forall (λ m, msg_ok m ∧ m.1 ≠ MsgReadyForQuery) ms ∧
  msg_ok (MsgReadyForQuery, z).

(** Where skipping an item, or all of them, can leave the batch: before some
    later messages, or behind ReadyForQuery. *)
Definition skipped (z rest : bytes) (c : Client) (br : BatchResults) (c' : Client) (br' : BatchResults) : Prop :=
  stmts c' = stmts c ∧ cfg c' = cfg c ∧ br_n br' = br_n br ∧ br_closed br' = br_closed br ∧
  ((br_done br' = br_done br ∧ ∃ ms', unread ms' z rest c' ∧ conn_at (inbound (conn c')) (conn c) (conn c')) ∨
   (br_done br' = true ∧ conn_at rest (conn c) (conn c'))).

Lemma skipItem_ok ms z rest c br : unread ms z rest c →
  ∃ c' br', skipItem (c, br) = (Ret tt, (c', br')) ∧ br_idx br' = br_idx br ∧ skipped z rest c br c' br'.
Proof.
  intros (Hi & Hms & Hz).
  assert (∀ pre, Forall (λ m, msg_ok m ∧ m.1 ≠ MsgReadyForQuery) pre → Forall (λ m, completes m = false) pre →
    Forall (λ m, msg_ok m ∧ ∀ (a : unit) c, skip_step a m.1 m.2 (c, br) = (Ret (inl tt), (absorb c m, br))) pre) as Hgo.
  { intros pre H1 H2. apply Forall_forall. intros m Hm. rewrite Forall_forall in H1, H2.
    split; [by apply H1|]. intros [] c0. apply skip_step_other; [by apply H1|by apply H2]. }
  destruct (split_completes ms) as [Hn|(pre & [t b] & post & -> & Hpre & Hm)].
  - destruct (loopw skip_step (λ _ _, tt) absorb (λ _ e, throw e) MsgReadyForQuery z rest (Ret tt) br (set_br_done br) id
      absorb_conn Hz ms tt (rounds c) c) as (k & Hk & E); [by eapply fuel_ok|done|by apply Hgo|by intros; destruct (fold_left _ _ _)|].
    do 2 eexists. split; [exact E|]. destruct (absorbs_same ms c) as [H1 H2]. split; [done|]. split; [done|]. split; [done|].
    split; [done|]. split; [done|]. by right.
  - apply Forall_app in Hms as [Hp Hms]. apply Forall_cons in Hms as [[Hb Ht] Hpost]. cbn [fst snd] in *.
    assert (wire_of (pre ++ (t, b) :: post) = wire_of pre ++ frame t b ++ wire_of post) as Hw
      by (unfold wire_of; rewrite map_app, concat_app; done).
    rewrite Hw, <- !app_assoc in Hi.
    destruct (loopw skip_step (λ _ _, tt) absorb (λ _ e, throw e) t b (wire_of post ++ frame MsgReadyForQuery z ++ rest) (Ret tt) br br id
      absorb_conn Hb pre tt (rounds c) c) as (k & Hk & E); [by eapply fuel_ok|done|by apply Hgo| |].
    { intros c0. unfold completes in Hm. cbn [fst] in Hm. unfold skip_step. by rewrite Hm. }
    do 2 eexists. split; [exact E|]. destruct (absorbs_same pre c) as [H1 H2]. split; [done|]. split; [done|]. split; [done|].
    split; [done|]. split; [done|]. left. split; [done|]. exists post. pose proof (conn_at_in _ _ _ Hk) as Hin.
    split; [by split|]. cbn [id conn set_conn]. by rewrite Hin.
Qed.

Lemma recordEnd_keeps sql n b dur e c : ∃ c', recordEnd sql n b dur e c = (Ret tt, c') ∧ conn c' = conn c ∧ stmts c' = stmts c.
Proof. unfold recordEnd, modify. eexists. split; [reflexivity|]. by destruct e, (_ && _). Qed.

Lemma skipped_trans z rest c0 b0 c1 b1 c2 b2 ms : br_done b1 = br_done b0 → unread ms z rest c1 → stmts c1 = stmts c0 → cfg c1 = cfg c0 →
  br_n b1 = br_n b0 → br_closed b1 = br_closed b0 → conn_at (inbound (conn c1)) (conn c0) (conn c1) →
  skipped z rest c1 b1 c2 b2 → skipped z rest c0 b0 c2 b2.
Proof.
  intros Hd Hu H1 H2 H3 H4 Hk (S1 & S2 & S3 & S4 & S5). split; [congruence|]. split; [congruence|]. split; [congruence|].
  split; [congruence|]. destruct S5 as [(S5 & ms' & Hu' & Hk')|(S5 & Hk')].
  - left. split; [congruence|]. exists ms'. split; [done|]. by eapply conn_at_trans.
  - right. split; [done|]. by eapply conn_at_trans.
Qed.

Lemma skip_items_ok z rest : ∀ fuel ms c br, unread ms z rest c → br_done br = false →
  ∃ c' br', skip_items fuel (c, br) = (Ret tt, (c', br')) ∧ skipped z rest c br c' br'.
Proof.
  induction fuel as [|fuel IH]; intros ms c br Hu Hd; cbn [skip_items].
  - exists c, br. split; [done|]. do 4 (split; [done|]). left. split; [done|]. exists ms. split; [done|]. by split.
  - unfold mbind at 1, prog_bind at 1, gets at 1. cbn [snd]. rewrite Hd, orb_false_r.
    destruct (br_n br <=? br_idx br)%nat.
    { exists c, br. split; [done|]. do 4 (split; [done|]). left. split; [done|]. exists ms. split; [done|]. by split. }
    destruct (skipItem_ok ms z rest c br Hu) as (c1 & b1 & E & Hi & Hs). unfold mbind at 1, prog_bind at 1, catch. rewrite E.
    unfold mbind, prog_bind, ow, zoom, modify. cbn [fst snd].
    destruct Hs as (S1 & S2 & S3 & S4 & [(S5 & ms' & Hu' & Hk)|(S5 & Hk)]).
    + destruct (IH ms' c1 (set_br_idx (S (br_idx b1)) b1) Hu') as (c2 & b2 & E2 & Hs2); [cbn; congruence|].
      exists c2, b2. split; [exact E2|]. by eapply (skipped_trans _ _ _ _ c1 (set_br_idx (S (br_idx b1)) b1)).
    + exists c1, (set_br_idx (S (br_idx b1)) b1). split; [|by repeat split; [done..|right]].
      destruct fuel; cbn [skip_items]; [done|]. unfold mbind, prog_bind, gets. cbn [snd set_br_idx br_done]. rewrite S5.
      by rewrite orb_true_r.
Qed.

(** Close, whatever has been read of the results and
    whatever the server still has to say up to its ReadyForQuery: it reads all
    of it, so the connection is left in step with the server, keeps the
    statement cache as it is, returns no error, and is done once and for all. *)
Theorem batch_close_restores dur ms z rest c br : br_closed br = false → br_done br = false → unread ms z rest c →
  ∃ c' br', br_Close dur (c, br) = (Ret tt, (c', br')) ∧ conn_at rest (conn c) (conn c') ∧
    br_done br' = true ∧ br_closed br' = true ∧ stmts c' = stmts c ∧ br_Close dur (c', br') = (Ret tt, (c', br')).
Proof.
  intros Hc Hd Hu. unfold br_Close at 1. unfold mbind at 1, prog_bind at 1, gets at 1. cbn [snd]. rewrite Hc.
  unfold mbind at 1, prog_bind at 1, ow at 1, zoom at 1, modify at 1. cbn [fst snd].
  destruct (skip_items_ok z rest (br_n br - br_idx br) ms c (set_br_closed br) Hu Hd) as (c1 & b1 & E1 & S1 & S2 & S3 & S4 & S5).
  unfold mbind at 1, prog_bind at 1. rewrite E1.
  assert (∃ c2 b2, br_drainUntilReady (c1, b1) = (Ret tt, (c2, b2)) ∧ conn_at rest (conn c) (conn c2) ∧ br_done b2 = true ∧
    br_closed b2 = true ∧ stmts c2 = stmts c) as (c2 & b2 & E2 & D1 & D2 & D3 & D4).
  { unfold br_drainUntilReady, mbind, prog_bind, gets. cbn [snd]. destruct S5 as [(Hd1 & ms' & (Hi & Hms & Hz) & Hk)|(Hd1 & Hk)].
    - cbn [set_br_closed br_done] in Hd1. rewrite Hd1, Hd.
      destruct (loopw bdrain_step (λ _ _, tt) (λ c _, c) (λ _ _, mret tt) MsgReadyForQuery z rest (Ret tt) b1 (set_br_done b1) id
        (λ _ _ _, eq_refl) Hz ms' tt (rounds c1) c1) as (k & Hk1 & E); [by eapply fuel_ok|done| |by intros; destruct (fold_left _ _ _)|].
      { eapply Forall_impl; [exact Hms|]. intros [t b] [Hm Ht]. split; [done|]. intros [] c0. cbn [fst snd] in *.
        unfold bdrain_step. destruct (beq t MsgReadyForQuery) eqn:E0; [by apply beq_true in E0|done]. }
      do 2 eexists. split; [exact E|]. cbn [id].
      assert (fold_left (λ (c0 : Client) (_ : byte * bytes), c0) ms' c1 = c1) as -> by (clear; by induction ms').
      split; [by eapply conn_at_trans|]. repeat split; first [exact S4|exact S1|done].
    - rewrite Hd1. exists c1, b1. repeat split; first [exact Hk|exact S4|exact S1|exact Hd1|apply Hk]. }
  unfold mbind at 1, prog_bind at 1. rewrite E2.
  unfold mbind at 1, prog_bind at 1, ow at 1, zoom at 1, modify at 1. cbn [fst snd]. unfold cl, zoom. cbn [fst snd].
  destruct (recordEnd_keeps (str "pgz.SendBatch") (Z.of_nat (br_n br)) 0 dur None c2) as (c3 & -> & R1 & R2).
  exists c3, (clear_ctxStop b2). rewrite R1, R2. repeat split; try done; try apply D1.
  unfold br_Close, mbind, prog_bind, gets. cbn [snd clear_ctxStop br_closed]. by rewrite D3.
Qed.
End Close.

Section Outcome.
Context {MO : MapOrder}.

Lemma settles_conn stage k ms : ∀ c, fold_left (settle stage) ms (set_conn k c) = set_conn k (fold_left (settle stage) ms c).
Proof. apply (fold_touch_conn (settle stage) (settle_conn stage)). Qed.
Lemma commit_conn stage k c : (commitStage stage (set_conn k c)).2 = set_conn k (commitStage stage c).2.
Proof. destruct (commit_returns stage c) as (c1 & E1 & E2 & _). by rewrite E2, E1. Qed.
Lemma committed_conn k : ∀ plan oks c, committed plan oks (set_conn k c) = set_conn k (committed plan oks c).
Proof. induction plan as [|st plan IH]; intros [|x oks] c; try done. cbn [committed]. by rewrite settles_conn, commit_conn, IH. Qed.

Lemma exec_calls_add n1 n2 : ∀ s, exec_calls (n1 + n2) s = (l ← exec_calls n1; l' ← exec_calls n2; mret (l ++ l')) s.
Proof.
  induction n1 as [|n1 IH]; intros s; cbn [Nat.add exec_calls].
  - unfold mbind, prog_bind, mret, prog_ret. by destruct (exec_calls n2 s) as [[] ?].
  - unfold mbind, prog_bind in *. destruct (catch br_Exec s) as [[x|e| |] s1]; try done. rewrite IH.
    destruct (exec_calls n1 s1) as [[l|e| |] s2]; try done. cbn. by destruct (exec_calls n2 s2) as [[] ?].
Qed.

Lemma exec_oks tail : ∀ oks br c, br_closed br = false → br_aborted br = false →
  (br_idx br + length oks <= br_n br)%nat → (br_n br <= length (br_parsePlan br))%nat → Forall completed_ok oks →
  inbound (conn c) = concat (map completed_wire oks) ++ tail →
  ∃ k, conn_at tail (conn c) k ∧
    exec_calls (length oks) (c, br) =
      (Ret (map (λ x, inr (completed_res x)) oks),
       (set_conn k (committed (drop (br_idx br) (br_parsePlan br)) oks c), set_br_idx (br_idx br + length oks) br)).
Proof.
  induction oks as [|x oks IH]; intros br c H1 H2 H3 H4 Hok Hi; cbn [length exec_calls map concat app] in *.
  - exists (conn c). split; [by split|]. rewrite Nat.add_0_r. destruct (drop _ _); by destruct c, br.
  - apply Forall_cons in Hok as [Hx Hok]. rewrite <- app_assoc in Hi.
    destruct (lookup_lt_is_Some_2 (br_parsePlan br) (br_idx br) ltac:(lia)) as [stage Hs].
    destruct (exec_completes stage br c x _ ltac:(repeat split; [done|done|lia|done]) Hx Hi) as (k1 & Hk1 & E1).
    set (c1 := (commitStage stage (fold_left (settle stage) x.1 c)).2) in *.
    destruct (IH (set_br_idx (S (br_idx br)) br) (set_conn k1 c1) H1 H2) as (k & Hk & E); [cbn; lia|done|done|by apply (conn_at_in _ _ _ Hk1)|].
    exists k. split; [by eapply conn_at_trans|]. unfold mbind at 1, prog_bind at 1, catch. rewrite E1.
    unfold mbind, prog_bind. rewrite E. cbn [br_idx br_parsePlan set_br_idx]. rewrite (drop_S _ _ _ Hs). cbn [committed]. fold c1.
    rewrite committed_conn, set_conn_twice. 
    replace (br_idx br + S (length oks))%nat with (S (br_idx br) + length oks)%nat by lia. done.
Qed.

(** *** The cache, in the specification's terms *)

Lemma taught_one stage m ms sc : taught stage (m :: ms) sc = taught stage ms (taught stage [m] sc).
Proof.
  unfold taught. destruct (ps_cached stage) as [r|]; [|done]. unfold update. cbn [byKey closed seq max heap]. f_equal.
  by rewrite list_alter_alter_eq.
Qed.
Lemma settle_told stage c m : settle stage c m = set_stmts (taught stage [m] (stmts c)) (absorb c m).
Proof.
  unfold settle, taught, told, on_cached, set_oids, set_plan, modify, absorb. cbn [fold_left].
  assert (∀ r sc, update r (λ st, st) sc = sc) as Hid.
  { intros r sc. unfold update. rewrite (list_alter_id (λ st, st)) by done. by destruct sc. }
  destruct (beq m.1 MsgParameterDescription) eqn:E1; [apply beq_true in E1; rewrite E1|
    destruct (beq m.1 MsgRowDescription) eqn:E2; [apply beq_true in E2; rewrite E2|]].
  - cbn. destruct (ps_cached stage); [done|by destruct c].
  - cbn -[ParseRowDescription]. destruct (ParseRowDescription m.2); destruct (ps_cached stage); rewrite ?Hid; by destruct c.
  - destruct (beq m.1 MsgParameterStatus); [|destruct (beq m.1 MsgNoticeResponse)]; destruct (ps_cached stage); rewrite ?Hid;
      try (destruct (splitParameter m.2)); by destruct c.
Qed.
Lemma settles_told stage ms : ∀ c, fold_left (settle stage) ms c = set_stmts (taught stage ms (stmts c)) (fold_left absorb ms c).
Proof.
  induction ms as [|m ms IH]; intros c.
  - cbn [fold_left]. enough (taught stage [] (stmts c) = stmts c) as -> by (by destruct c). unfold taught.
    destruct (ps_cached stage) as [r|]; [|done]. unfold update. cbn [fold_left].
    rewrite (list_alter_id (λ st, st)) by done. by destruct (stmts c).
  - cbn [fold_left]. rewrite IH, settle_told, (taught_one stage m ms). cbn [stmts set_stmts]. by rewrite absorbs_stmts.
Qed.
Lemma committed_cached : ∀ plan oks c, (length oks <= length plan)%nat →
  committed plan oks c = set_stmts (cached_after plan oks (stmts c)) (fold_left absorb (concat (map fst oks)) c).
Proof.
  induction plan as [|stage plan IH]; intros [|x oks] c Hl; try (cbn in Hl; lia); try (by destruct c).
  cbn [committed cached_after map concat]. rewrite IH by (cbn in Hl; lia). rewrite settles_told, fold_left_app.
  unfold commitStage, on_cached, cache_put, modify. destruct (hasParse stage), (ps_cached stage); cbn [negb snd stmts set_stmts mret prog_ret];
    by rewrite ?absorbs_stmts.
Qed.

Lemma put_room sql r sc : Z.of_nat (size (byKey sc)) < max sc →
  put sql r sc = mkCache (max sc) (<[sql := r]> (byKey sc)) (closed sc) (seq sc) (heap sc).
Proof. intros H. unfold put, evict. by destruct (Z.geb_spec (Z.of_nat (size (byKey sc))) (max sc)); [lia|]. Qed.

(** With room for all of them, exactly the completed items' statements are added. *)
Lemma cached_entries sql : ∀ plan oks sc, Z.of_nat (size (byKey sc)) + Zlen oks <= max sc →
  get sql (cached_after plan oks sc) = entry plan oks sql (get sql sc).
Proof.
  induction plan as [|stage plan IH]; intros [|x oks] sc Hr; try done. cbn [cached_after entry].
  rewrite Zlen_cons in Hr. pose proof (Zlen_nonneg oks).
  assert (byKey (taught stage x.1 sc) = byKey sc ∧ max (taught stage x.1 sc) = max sc) as [Ek Em] by (unfold taught; by destruct (ps_cached stage)).
  assert (get sql (cached_after plan oks (taught stage x.1 sc)) = entry plan oks sql (get sql sc)) as Hno.
  { rewrite IH by (rewrite Ek, Em; lia). unfold get. by rewrite Ek. }
  destruct (hasParse stage); [|done]. destruct (ps_cached stage) as [r|]; [|done].
  rewrite put_room by (rewrite Ek, Em; lia). rewrite IH.
  - unfold get. cbn [byKey]. rewrite Ek. case_bool_decide as E; [subst; by rewrite lookup_insert_eq|by rewrite lookup_insert_ne].
  - cbn [byKey max]. rewrite Ek, Em. rewrite map_size_insert. destruct (byKey sc !! ps_sql stage); cbn [id]; lia.
Qed.

(** C14. The results of a batch, item by item. When the server
    completes every item, the n-th Exec returns the n-th command tag and its
    row count; when it refuses one, the calls before it return their results,
    that call returns the server's error and every later one ErrBatchAborted
    without reading a byte. The statements that the completed items had parsed,
    and only those, are put into the statement cache (all of them are in it when
    there is room), with the parameter types and plan the
    server described; and the reply is consumed up to ReadyForQuery, or, after
    a failure, through it.  The replies are those of a batch sent while no Close
    was pending: Exec does not know CloseComplete (batch_faults). *)
Theorem batch_results_exact oks fail z rest br c :
  br_closed br = false → br_aborted br = false → br_done br = false → br_idx br = 0%nat → length (br_parsePlan br) = br_n br →
  Forall completed_ok oks → msg_ok (MsgReadyForQuery, z) →
  match fail with
  | None => length oks = br_n br
  | Some (ms, e) => (length oks < br_n br)%nat ∧ Forall batch_known ms ∧ last_error None ms = Some e
  end →
  inbound (conn c) = concat (map completed_wire oks) ++ match fail with None => [] | Some (ms, _) => wire_of ms end ++
    frame MsgReadyForQuery z ++ rest →
  let plan := br_parsePlan br in
  let failed := match fail with None => [] | Some (ms, _) => ms end in
  let sc := cached_after plan oks (stmts c) in
  ∃ k br', exec_calls (br_n br) (c, br) =
      (Ret (batch_expected (br_n br) oks (snd <$> fail)),
       (set_conn k (set_stmts (taught (nth (length oks) plan zeroStage) failed sc)
          (fold_left absorb (concat (map fst oks) ++ failed) c)), br')) ∧
    (Z.of_nat (size (byKey (stmts c))) + Zlen oks <= max (stmts c) → ∀ sql, get sql sc = entry plan oks sql (get sql (stmts c))) ∧
    conn_at match fail with None => frame MsgReadyForQuery z ++ rest | Some _ => rest end (conn c) k ∧
    br_idx br' = br_n br ∧ br_closed br' = false ∧ br_done br' = (match fail with None => false | Some _ => true end).
Proof.
  intros H1 H2 H3 H4 H5 Hok Hz Hf Hi plan failed sc. set (c1 := committed plan oks c).
  assert (c1 = set_stmts sc (fold_left absorb (concat (map fst oks)) c)) as Hc1
    by (apply committed_cached; destruct fail as [[? ?]|]; [destruct Hf|]; unfold plan; lia).
  assert (Z.of_nat (size (byKey (stmts c))) + Zlen oks <= max (stmts c) → ∀ sql, get sql sc = entry plan oks sql (get sql (stmts c))) as Hget
    by (intros ? ?; by apply cached_entries).
  destruct fail as [[ms e]|]; cbn [fmap option_fmap option_map snd].
  - destruct Hf as (Hl & Hms & He).
    destruct (exec_oks (wire_of ms ++ frame MsgReadyForQuery z ++ rest) oks br c H1 H2 ltac:(lia) ltac:(lia) Hok Hi) as (k1 & Hk1 & E1).
    rewrite H4 in E1. cbn [drop Nat.add] in E1. rewrite drop_0 in E1. fold c1 in E1.
    destruct (lookup_lt_is_Some_2 (br_parsePlan br) (length oks) ltac:(lia)) as [stage Hs].
    set (br1 := set_br_idx (length oks) br) in *. assert (at_item stage br1) as Hat by (repeat split; [done|done|done|done]).
    destruct (exec_fails stage br1 (set_conn k1 c1) ms e z rest Hat Hms He Hz ltac:(by apply (conn_at_in _ _ _ Hk1))) as (k & Hk & E2).
    set (br2 := set_br_aborted (set_br_done (set_br_idx (S (br_idx br1)) br1))) in *.
    assert (exec_calls (1 + (br_n br - length oks - 1)) (set_conn k1 c1, br1) =
      (Ret (inl (EPg e) :: repeat (inl ErrBatchAborted) (br_n br - length oks - 1)),
       (set_conn k (fold_left (settle stage) ms (set_conn k1 c1)), set_br_idx (br_n br) br2))) as E3.
    { cbn [Nat.add exec_calls]. unfold mbind at 1, prog_bind at 1, catch. rewrite E2. unfold mbind, prog_bind.
      rewrite exec_aborted by (done || (cbn; lia)). cbn [br2 br1 br_idx set_br_idx set_br_aborted set_br_done].
      by replace (S (length oks) + (br_n br - length oks - 1))%nat with (br_n br) by lia. }
    exists k, (set_br_idx (br_n br) br2).
    assert (exec_calls (br_n br) (c, br) =
      (l ← exec_calls (length oks); l' ← exec_calls (1 + (br_n br - length oks - 1)); mret (l ++ l')) (c, br)) as ->
      by (rewrite <- exec_calls_add; by replace (length oks + (1 + (br_n br - length oks - 1)))%nat with (br_n br) by lia).
    step E1. cbv beta. step E3.
    split; [|split; [done|split; [by eapply conn_at_trans|done]]]. unfold batch_expected.
    rewrite (nth_lookup_Some _ _ _ _ Hs), settles_conn, set_conn_twice, settles_told, Hc1, fold_left_app, absorbs_stmts. done.
  - cbn [app] in Hi. destruct (exec_oks (frame MsgReadyForQuery z ++ rest) oks br c H1 H2 ltac:(lia) ltac:(lia) Hok Hi) as (k & Hk & E).
    rewrite H4 in E. cbn [Nat.add] in E. rewrite drop_0 in E. rewrite Hf in E at 1. rewrite E.
    exists k, (set_br_idx (length oks) br). unfold batch_expected. rewrite !app_nil_r. fold plan c1. rewrite Hc1. split.
    + unfold taught. destruct (ps_cached _); [|done]. unfold update. cbn [fold_left]. rewrite (list_alter_id (λ st, st)) by done.
      by destruct sc.
    + split; [done|]. by repeat split; try apply Hk.
Qed.
End Outcome.

(** ** What SendBatch sends *)

(** Bind and Execute of a statement, and the Parse and Describe of a new one. *)
Definition item_wire (st : preparedStmt) (args : list goarg) (vals : list (option bytes)) : bytes :=
  frame MsgBind ([x00] ++ (st_name st ++ [x00]) ++ params_wire (st_paramOIDs st) args vals ++ [x00; x00]) ++
  frame MsgExecute ([x00] ++ [x00; x00; x00; x00]).
Definition describe_wire (name sql : bytes) : bytes :=
  frame MsgParse ((name ++ [x00]) ++ (sql ++ [x00]) ++ [x00; x00]) ++ frame MsgDescribe (["S"%byte] ++ (name ++ [x00])).

(** The plan of a batch: a statement is parsed at its first appearance unless
    the cache has it, and shared by every later item with the same text. *)
Inductive staged : gmap bytes nat → stmtCache → Batch → list parseStage → stmtCache → bytes → Prop :=
  | staged_nil seen sc : staged seen sc [] [] sc []
  | staged_shared seen sc sql args r vals items plan sc' w :
      seen !! sql = Some r → arg_values (st_paramOIDs (deref r sc)) 0 args = Some vals → staged seen sc items plan sc' w →
      staged seen sc (mkItem sql args :: items) (mkStage false false sql [] (Some r) :: plan) sc' (item_wire (deref r sc) args vals ++ w)
  | staged_cached seen sc sql args r vals items plan sc' w :
      seen !! sql = None → get sql sc = Some r → arg_values (st_paramOIDs (deref r sc)) 0 args = Some vals →
      staged (<[sql := r]> seen) sc items plan sc' w →
      staged seen sc (mkItem sql args :: items) (mkStage false false sql [] (Some r) :: plan) sc' (item_wire (deref r sc) args vals ++ w)
  | staged_new seen sc sql args name sc1 r sc2 vals items plan sc' w :
      seen !! sql = None → get sql sc = None → nextName sc = (name, sc1) → alloc (mkStmt name None [] []) sc1 = (r, sc2) →
      arg_values [] 0 args = Some vals → staged (<[sql := r]> seen) sc2 items plan sc' w →
      staged seen sc (mkItem sql args :: items) (mkStage true true sql name (Some r) :: plan) sc'
        (describe_wire name sql ++ item_wire (mkStmt name None [] []) args vals ++ w).

Lemma writes_bind_execute st args vals : arg_values (st_paramOIDs st) 0 args = Some vals →
  writes (writeBindExecute st args) (item_wire st args vals).
Proof.
  intros Hv. unfold writeBindExecute, item_wire. apply writes_seq; apply writes_message.
  - apply writes_seq; [apply (writes_bCString [])|]. apply writes_seq; [apply writes_bCString|].
    apply writes_seq; [by apply writes_bind_params|]. apply (writes_bInt16 0).
  - apply writes_seq; [apply (writes_bCString [])|apply (writes_bInt32 0)].
Qed.
Lemma writes_describe name sql : writes (parseMessages name sql) (describe_wire name sql).
Proof.
  unfold parseMessages, describe_wire. apply writes_seq; apply writes_message.
  - apply writes_seq; [apply writes_bCString|]. apply writes_seq; [apply writes_bCString|apply (writes_bInt16 0)].
  - apply writes_seq; [apply writes_bByte|apply writes_bCString].
Qed.

(** Something buffered on the client's connection. *)
Definition buffer (p : bytes) (c : Client) : Client := set_conn (set_writeBuf (writeBuf (conn c) ++ p) (conn c)) c.
Lemma wire_writes m p c : writes m p → wire m c = (Ret tt, buffer p c).
Proof. intros Hm. unfold wire, zoom. by rewrite (Hm (conn c)). Qed.
Lemma buffer_nil c : buffer [] c = c.
Proof. unfold buffer. rewrite app_nil_r. by destruct c as [? []]. Qed.

Lemma deref_alloc_new st sc : deref (length (heap sc)) (alloc st sc).2 = st.
Proof. unfold deref, alloc. cbn. by rewrite app_nth2, Nat.sub_diag by lia. Qed.

Lemma queue_items_ok seen sc items plan sc' w : staged seen sc items plan sc' w → ∀ c, stmts c = sc →
  queue_items items seen c = (Ret (plan, true), buffer w (set_stmts sc' c)).
Proof.
  induction 1 as [seen sc|seen sc sql args r vals items plan sc' w Hs Hv Hst IH|seen sc sql args r vals items plan sc' w Hs Hg Hv Hst IH|
    seen sc sql args name sc1 r sc2 vals items plan sc' w Hs Hg Hn Ha Hv Hst IH]; intros c Hc; cbn [queue_items bi_sql bi_args].
  - rewrite buffer_nil. subst sc. by destruct c.
  - assert (stage_item sql seen c = (Ret (mkStage false false sql [] (Some r), r, seen), c)) as E by (unfold stage_item; by rewrite Hs).
    step E. cbv beta iota. step (eq_refl : load r c = (Ret (deref r (stmts c)), c)). rewrite Hc. unfold mbind at 1, prog_bind at 1, catch.
    rewrite (wire_writes _ _ _ (writes_bind_execute _ _ _ Hv)). unfold mbind, prog_bind. rewrite IH by done.
    unfold buffer, mret, prog_ret. cbn. by rewrite <- app_assoc.
  - assert (stage_item sql seen c = (Ret (mkStage false false sql [] (Some r), r, <[sql := r]> seen), c)) as E.
    { unfold stage_item. rewrite Hs. unfold mbind, prog_bind, cache_get, gets. rewrite Hc. by rewrite Hg. }
    step E. cbv beta iota. step (eq_refl : load r c = (Ret (deref r (stmts c)), c)). rewrite Hc. unfold mbind at 1, prog_bind at 1, catch.
    rewrite (wire_writes _ _ _ (writes_bind_execute _ _ _ Hv)). unfold mbind, prog_bind. rewrite IH by done.
    unfold buffer, mret, prog_ret. cbn. by rewrite <- app_assoc.
  - set (c1 := buffer (describe_wire name sql) (set_stmts sc2 c)).
    assert (stage_item sql seen c = (Ret (mkStage true true sql name (Some r), r, <[sql := r]> seen), c1)) as E.
    { unfold stage_item. rewrite Hs. unfold mbind at 1, prog_bind at 1, cache_get, gets. rewrite Hc, Hg.
      unfold mbind at 1, prog_bind at 1, next_name. rewrite Hc, Hn. unfold mbind at 1, prog_bind at 1, new_stmt. cbn [stmts set_stmts].
      rewrite Ha. unfold mbind at 1, prog_bind at 1. by rewrite (wire_writes _ _ _ (writes_describe name sql)). }
    step E. cbv beta iota. step (eq_refl : load r c1 = (Ret (deref r sc2), c1)).
    assert (deref r sc2 = mkStmt name None [] []) as ->.
    { pose proof (deref_alloc_new (mkStmt name None [] []) sc1) as Hd. injection Ha as <- <-. exact Hd. }
    unfold mbind at 1, prog_bind at 1, catch. rewrite (wire_writes _ _ _ (writes_bind_execute (mkStmt name None [] []) _ _ Hv)).
    unfold mbind, prog_bind. rewrite IH by done.
    unfold c1, buffer, mret, prog_ret. cbn -[describe_wire item_wire]. by rewrite <- !app_assoc.
Qed.

(** A statement is parsed at most once in a batch, and never if it is known. *)
Lemma staged_once seen sc items plan sc' w : staged seen sc items plan sc' w →
  length plan = length items ∧ map ps_sql plan = map bi_sql items ∧
  NoDup (map ps_sql (List.filter hasParse plan)) ∧
  Forall (λ s, seen !! s = None) (map ps_sql (List.filter hasParse plan)).
Proof.
  induction 1 as [|seen sc sql args r vals items plan sc' w Hs Hv _ (H1 & H2 & H3 & H4)|
    seen sc sql args r vals items plan sc' w Hs Hg Hv _ (H1 & H2 & H3 & H4)|
    seen sc sql args name sc1 r sc2 vals items plan sc' w Hs Hg Hn Ha Hv _ (H1 & H2 & H3 & H4)]; cbn [length map bi_sql ps_sql List.filter hasParse].
  - split; [done|]. split; [done|]. split; constructor.
  - repeat split; [congruence|congruence|done..].
  - split; [congruence|]. split; [congruence|]. split; [done|]. eapply Forall_impl; [exact H4|]. intros s. cbn.
    rewrite lookup_insert_None. tauto.
  - split; [congruence|]. split; [congruence|]. cbn [map ps_sql]. split.
    + constructor; [|done]. intros Hin. rewrite Forall_forall in H4. specialize (H4 _ Hin). by rewrite lookup_insert_eq in H4.
    + constructor; [done|]. eapply Forall_impl; [exact H4|]. intros s. cbn. rewrite lookup_insert_None. tauto.
Qed.

(** C15. SendBatch sends a whole batch as one pipeline and reads
    nothing: the Closes of evicted statements, for every item its Bind and
    Execute, with Parse and Describe in front exactly where the text is new to
    the cache and to the batch, and one Sync at the end; the plan it hands to
    the results says, item by item, which of these replies to expect. *)
Theorem SendBatch_exact ctx b c plan sc' w :
  ctx_err ctx 0%nat = None → healthy (conn c) → staged ∅ (takePendingClose (stmts c)).2 b plan sc' w →
  (∃ k stop, SendBatch ctx b c =
      (Ret (mkBR (Len b) 0 false false false stop plan),
       set_conn k (set_stmts sc' (observe (OnQueryStart (str "pgz.SendBatch")) c))) ∧
    sent k = sent (conn c) ++ concat (map close_wire (closed (stmts c))) ++ w ++ frame MsgSync [] ∧
    inbound k = inbound (conn c) ∧ writeBuf k = []) ∧
  length plan = length b ∧ map ps_sql plan = map bi_sql b ∧ NoDup (map ps_sql (List.filter hasParse plan)).
Proof.
  intros Hc [Hr Hw] Hst. split; [|by destruct (staged_once _ _ _ _ _ _ Hst) as (? & ? & ? & _)].
  unfold SendBatch. step (eq_refl : gets cfg c = (Ret (cfg c), c)). cbv zeta.
  unfold mbind at 1, prog_bind at 1, catch at 1, attachContext. rewrite Hc. cbn [mret prog_ret].
  set (c0 := observe (OnQueryStart (str "pgz.SendBatch")) c).
  step (eq_refl : modify (observe (OnQueryStart (str "pgz.SendBatch"))) c = (Ret tt, c0)).
  set (c1 := set_stmts (takePendingClose (stmts c)).2 c0).
  step (eq_refl : take_pending c0 = (Ret (closed (stmts c)), c1)).
  assert (writes (closeMessages (closed (stmts c))) (concat (map close_wire (closed (stmts c))))) as Hcl.
  { apply (writes_mapM _ close_wire). intros n. apply writes_message.
    eapply writes_eq; [apply writes_seq; [apply writes_bByte|apply writes_bCString]|done]. }
  step (wire_writes _ _ c1 Hcl). set (p := concat (map close_wire (closed (stmts c)))).
  step (queue_items_ok _ _ _ _ _ _ Hst (buffer p c1) eq_refl). cbn [fst snd negb].
  step (wire_writes _ _ (buffer w (set_stmts sc' (buffer p c1))) (writes_message MsgSync _ _ writes_nil)).
  unfold mbind, prog_bind, catch, wire, zoom. rewrite Flush_ok by done. cbn [mret prog_ret].
  do 2 eexists. split; [reflexivity|]. cbn -[frame]. rewrite Hw. cbn [app]. by rewrite <- !app_assoc.
Qed.

(** ** Runs *)

Definition ended_ctx : context := {| ctx_err := λ _, Some (EUser "canceled"); ctx_deadline := false |}.
Definition cache_of (l : list (bytes * preparedStmt)) (cl : list bytes) : stmtCache :=
  mkCache 64 (list_to_map (imap (λ i x, (x.1, i)) l)) cl 9 (map snd l).
Definition ok_reply (tag : string) : completed := ([(MsgBindComplete, [])], Some (str tag ++ [x00])).
Definition parsed (row : bool) : list (byte * bytes) :=
  [(MsgParseComplete, []); (MsgParameterDescription, be_put 2 0);
   if row then (MsgRowDescription, row_description [demo_field]) else (MsgNoData, [])].
Definition row_reply : bytes :=
  wire_of [(MsgBindComplete, []); (MsgDataRow, data_row [None]); (MsgCommandComplete, str "SELECT 1" ++ [x00])].
Definition ready : bytes := frame MsgReadyForQuery (str "I").
Definition upd : bytes := str "update t set a = 1".
Definition sel : bytes := str "select 1".

(** A batch sent by a client with the given cache to a server with the given
    reply, and its results read by [m]. *)
Definition batch_run {A} (sc : stmtCache) (ctx : context) (b : Batch) (inb : bytes) (m : batch A) : res A * (Client * BatchResults) :=
  match SendBatch ctx b (set_stmts sc (fresh_client inb)) with
  | (Ret br, c) => m (c, br)
  | (_, c) => (Stuck, (c, mkBR 0 0 false false false false []))
  end.
(** Query, and then one row of its iterator. *)
Definition query_and_next : batch (res bytes) := λ s,
  match br_Query s with
  | (Ret it, (c, br)) => let '(r, (c, _)) := NextRaw (c, it) in (Ret r, (c, br))
  | (Err e, s) => (Err e, s)
  | (Panic, s) => (Panic, s)
  | (Stuck, s) => (Stuck, s)
  end.

(** Where batches stop working. A batch sent under an
    ended context has no plan, and asking for its first result panics. A Close
    sent in front of a batch (for an evicted statement) is answered by a
    message Exec does not expect: the item is reported as failed though the
    server executed it. Query does not deliver rows: a new statement's iterator
    meets the BindComplete behind the RowDescription and fails, and a cached
    statement is not described again, so its first row is unexpected. And a
    batch whose arguments do not encode is abandoned in the write buffer, its
    earlier items complete: the next query sends them for execution. *)
Theorem batch_faults :
  (batch_run (cache_of [] []) ended_ctx [mkItem upd []] [] br_Exec).1 = Panic ∧
  (batch_run (cache_of [] [str "s_5"]) background [mkItem upd []]
    (frame MsgCloseComplete [] ++ wire_of (parsed false) ++ completed_wire (ok_reply "UPDATE 1") ++ ready) br_Exec).1 =
    Err (EFmt "pgz: unexpected msg in batch Exec" [51]) ∧
  (batch_run (cache_of [] []) background [mkItem sel []] (wire_of (parsed true) ++ row_reply ++ ready) query_and_next).1 =
    Ret (Err (EFmt "pgz: unexpected msg during iterate" [50])) ∧
  (batch_run (cache_of [(sel, demo_stmt)] []) background [mkItem sel []] (row_reply ++ ready) query_and_next).1 =
    Err (EFmt "pgz: unexpected msg in batch Query" [68]) ∧
  (let '(r, c) := SendBatch background [mkItem upd []; mkItem upd [AOther]] (fresh_client []) in
   (∃ br, r = Ret br ∧ br_aborted br = true) ∧ sent (conn c) = [] ∧
   ∃ half, writeBuf (conn c) = describe_wire (str "s_1") upd ++ item_wire (mkStmt (str "s_1") None [] []) [] [] ++ half).
Proof.
  split; [vm_compute; reflexivity|]. split; [vm_compute; reflexivity|]. split; [vm_compute; reflexivity|].
  split; [vm_compute; reflexivity|]. vm_compute. split; [by eexists|]. split; [reflexivity|]. by eexists.
Qed.

(** ** Witnesses *)

Definition three_items : Batch := [mkItem upd []; mkItem sel [ANil]; mkItem upd []].
Definition three_plan : list parseStage :=
  [mkStage true true upd (str "s_a") (Some 1%nat); mkStage false false sel [] (Some 0%nat); mkStage false false upd [] (Some 1%nat)].
Definition three_client (inb : bytes) : Client := set_stmts (cache_of [(sel, demo_stmt)] [str "s_5"]) (fresh_client inb).
Definition new_upd : preparedStmt := mkStmt (str "s_a") None [] [].
Definition three_stmts : stmtCache := mkCache 64 {[sel := 0%nat]} [] 10 [demo_stmt; new_upd].
Definition three_wire : bytes :=
  (describe_wire (str "s_a") upd ++ item_wire new_upd [] []) ++ item_wire demo_stmt [ANil] [None] ++ item_wire new_upd [] [].

Lemma SendBatch_exact_witness :
  (∃ k stop, SendBatch background three_items (three_client []) =
      (Ret (mkBR (Len three_items) 0 false false false stop three_plan),
       set_conn k (set_stmts three_stmts
         (observe (OnQueryStart (str "pgz.SendBatch")) (three_client [])))) ∧
    sent k = [] ++ concat (map close_wire [str "s_5"]) ++ three_wire ++ frame MsgSync [] ∧
    inbound k = [] ∧ writeBuf k = []) ∧
  length three_plan = length three_items ∧ map ps_sql three_plan = map bi_sql three_items ∧
  NoDup (map ps_sql (List.filter hasParse three_plan)).
Proof.
  apply (SendBatch_exact background three_items (three_client []) three_plan
    three_stmts three_wire).
  - reflexivity.
  - split; reflexivity.
  - unfold three_wire. rewrite <- app_assoc, <- (app_nil_r (item_wire new_upd [] [])).
    change (item_wire demo_stmt) with (item_wire (deref 0 three_stmts)).
    change (item_wire new_upd [] [] ++ []) with (item_wire (deref 1 three_stmts) [] [] ++ []) at 2.
    rewrite app_nil_r. apply (staged_new _ _ _ _ _ (mkCache 64 {[sel := 0%nat]} [] 10 [demo_stmt]) _ three_stmts).
    + reflexivity.
    + reflexivity.
    + vm_compute. reflexivity.
    + reflexivity.
    + reflexivity.
    + apply staged_cached; [reflexivity|reflexivity|reflexivity|].
      apply staged_shared; [vm_compute; reflexivity|reflexivity|]. constructor.
Defined.

Lemma batch_results_exact_witness :
  let br := mkBR 3 0 false false false false three_plan in
  let oks : list completed := [(parsed false ++ [(MsgBindComplete, [])], Some (str "UPDATE 4" ++ [x00]))] in
  let failed := [(MsgErrorResponse, [x00])] in
  let c := three_client (concat (map completed_wire oks) ++ wire_of failed ++ frame MsgReadyForQuery (str "I") ++ str "x") in
  let sc := cached_after three_plan oks (stmts c) in
  get upd (stmts c) = None ∧ get upd sc = Some 1%nat ∧ get sel sc = Some 0%nat ∧
  ∃ k br', exec_calls 3 (c, br) =
      (Ret [inr (mkRes 4 (str "UPDATE 4")); inl (EPg (Parse [x00])); inl ErrBatchAborted],
       (set_conn k (set_stmts (taught (nth 1 three_plan zeroStage) failed sc)
          (fold_left absorb (concat (map fst oks) ++ failed) c)), br')) ∧
    (Z.of_nat (size (byKey (stmts c))) + Zlen oks <= max (stmts c) → ∀ sql, get sql sc = entry three_plan oks sql (get sql (stmts c))) ∧
    conn_at (str "x") (conn c) k ∧ br_idx br' = 3%nat ∧ br_closed br' = false ∧ br_done br' = true.
Proof.
  split; [vm_compute; reflexivity|]. split; [vm_compute; reflexivity|]. split; [vm_compute; reflexivity|].
  apply (batch_results_exact [(parsed false ++ [(MsgBindComplete, [])], Some (str "UPDATE 4" ++ [x00]))]
    (Some ([(MsgErrorResponse, [x00])], Parse [x00])) (str "I") (str "x") (mkBR 3 0 false false false false three_plan)
    (three_client (concat (map completed_wire [(parsed false ++ [(MsgBindComplete, [])], Some (str "UPDATE 4" ++ [x00]))]) ++
      wire_of [(MsgErrorResponse, [x00])] ++ frame MsgReadyForQuery (str "I") ++ str "x"))).
  - reflexivity.
  - reflexivity.
  - reflexivity.
  - reflexivity.
  - reflexivity.
  - constructor; [|constructor]. split; [|split; discriminate].
    repeat (apply Forall_cons; split; [split; [split; [vm_compute; discriminate|cbn; auto 10]|discriminate]|]). constructor.
  - discriminate.
  - split; [cbn; lia|]. split; [|reflexivity]. constructor; [|constructor]. split; [discriminate|cbn; auto 10].
  - reflexivity.
Defined.

Lemma batch_close_restores_witness :
  let c := three_client (wire_of [(MsgBindComplete, []); (MsgErrorResponse, [x00])] ++ frame MsgReadyForQuery (str "I") ++ str "x") in
  let br := mkBR 3 1 false true false false three_plan in
  ∃ c' br', br_Close 0 (c, br) = (Ret tt, (c', br')) ∧ conn_at (str "x") (conn c) (conn c') ∧
    br_done br' = true ∧ br_closed br' = true ∧ stmts c' = stmts c ∧ br_Close 0 (c', br') = (Ret tt, (c', br')).
Proof.
  apply (batch_close_restores 0 [(MsgBindComplete, []); (MsgErrorResponse, [x00])] (str "I") (str "x")
    (three_client (wire_of [(MsgBindComplete, []); (MsgErrorResponse, [x00])] ++ frame MsgReadyForQuery (str "I") ++ str "x"))
    (mkBR 3 1 false true false false three_plan)).
  - reflexivity.
  - reflexivity.
  - split; [reflexivity|]. split; [|discriminate]. repeat constructor; discriminate.
Defined.
