(* ===== verification/Sql.v ===== *)
(** pgz/stdlib/stdlib.go: the database/sql driver over a client.  A driver.Value
    is a [dvalue]; a Rows runs over the client and its iterator, a Tx over the
    connection and the pointer its handle keeps.  Opening one is the
    handshake of Conn.v on the socket a dialer gives, which is a parameter;
    registering the driver is not modelled. *)
From S2P Require Import Prelude Protocol Errors Effects Wire Rows Args StmtCache Stream Client Query QuerySpec.
From S2P Require Import QueryResult Exec Conn Dsn Iter Float Scan ScanSpec ScanQuery.

(** ** Arguments *)

Record NamedValue := mkNamed { nv_name : bytes; nv_ordinal : Z; nv_value : dvalue }.

(** The value as the [any] the client is called with; an instant is counted
    from 2000, as args.go counts it. *)
Definition any_of (v : dvalue) : goarg :=
  match v with
  | DNil => ANil
  | DInt z => AInt KInt64 z
  | DFloat x => AFloat64 x
  | DBool b => ABool b
  | DBytes b => ABytes b
  | DString s => AString s
  | DTime s n => ATime ((s - pgEpochUnixSec) * 1000000000 + n)
  end.

Fixpoint namedToAny (args : list NamedValue) : gerror + list goarg :=
  match args with
  | [] => inr []
  | a :: args =>
      match nv_name a with
      | [] => match namedToAny args with inl e => inl e | inr out => inr (any_of (nv_value a) :: out) end
      | _ => inl (EFmt "pgz/stdlib: named parameters not supported; use positional $1..$N" [])
      end
  end.

Definition valuesToNamed (args : list dvalue) : list NamedValue :=
  imap (λ i v, mkNamed [] (Z.of_nat i + 1) v) args.

(** ** Conn *)

(** [sc_client] is nil once the connection is closed. *)
Record SqlConn := mkSqlConn { sc_client : option Client; sc_bad : bool; sc_inTx : bool }.
Definition set_bad (s : SqlConn) : SqlConn := mkSqlConn (sc_client s) true (sc_inTx s).
Definition set_inTx (b : bool) (s : SqlConn) : SqlConn := mkSqlConn (sc_client s) (sc_bad s) b.

Definition ErrBadConn : gerror := EFmt "driver: bad connection" [].
(** context.Canceled and context.DeadlineExceeded, by their text. *)
Definition ctx_errors : list string := ["context canceled"; "context deadline exceeded"].

(** [errors.Is(err, context.Canceled) || errors.Is(err, context.DeadlineExceeded)] *)
Fixpoint is_ctx (e : gerror) : bool :=
  match e with
  | EUser t => existsb (String.eqb t) ctx_errors
  | EWrapped _ e => is_ctx e
  | _ => false
  end.

Abbreviation sqlconn := (prog SqlConn).

(** A method of c.client: nil panics. *)
Definition on_client {A} (m : client A) : sqlconn A := λ s,
  match sc_client s with
  | None => (Panic, s)
  | Some c => let '(r, c) := m c in (r, mkSqlConn (Some c) (sc_bad s) (sc_inTx s))
  end.

Definition unusable (s : SqlConn) : bool := sc_bad s || match sc_client s with None => true | Some _ => false end.

Definition markBad (e : gerror) : sqlconn unit :=
  match as_pg e with
  | Some _ => mret tt
  | None => if is_ctx e then mret tt else modify set_bad
  end.
(** [if err != nil { c.markBad(err); return nil, err }] *)
Definition or_bad {A} (m : client A) : sqlconn A :=
  x ← catch (on_client m);
  match x with inl e => _ ← markBad e; throw e | inr a => mret a end.

Definition IsValid (s : SqlConn) : bool := match sc_client s with Some _ => negb (sc_bad s) | None => false end.

(** [c.client.Close()] closes the socket. *)
Definition SqlClose (s : SqlConn) : SqlConn := mkSqlConn None (sc_bad s) (sc_inTx s).

Definition SqlPing (ctx : context) : sqlconn unit :=
  s ← ask;
  match sc_client s with None => throw ErrBadConn | Some _ => on_client (Ping ctx) end.

(** TxOptions, the isolation level by its number in database/sql. *)
Record TxOptions := mkTx { Isolation : Z; ReadOnly : bool }.
Definition buildBeginStmt (opts : TxOptions) : bytes :=
  let i := Isolation opts in
  let base := str "BEGIN" ++
    (if i =? 1 then str " ISOLATION LEVEL READ UNCOMMITTED"
     else if i =? 2 then str " ISOLATION LEVEL READ COMMITTED"
     else if i =? 4 then str " ISOLATION LEVEL REPEATABLE READ"
     else if i =? 6 then str " ISOLATION LEVEL SERIALIZABLE"
     else []) in
  if ReadOnly opts then base ++ str " READ ONLY" else base.

(** ** Opening *)

Section Connecting.
Context (handshake : bytes * tls_check → Wire.Conn → gerror + Wire.Conn) (n1 n2 : nat).
Context (rnd : gerror + bytes) (dial : bytes → Z → gerror + Wire.Conn).

(** pgz.Open, from the dial on; Dial errors are wrapped as Open wraps them. *)
Definition Connect (c : Config) : res SqlConn :=
  let cfg := applyDefaults c in
  match dial (Host cfg) (Port cfg) with
  | inl e => Err (EWrapped "pgz: dial" e)
  | inr nc =>
      match Conn.Open handshake n1 n2 rnd c nc with
      | (Ret _, cl) => Ret (mkSqlConn (Some cl) false false)
      | (Err e, _) => Err e
      | (Panic, _) => Panic
      | (Stuck, _) => Stuck
      end
  end.
Definition DriverOpen (dsn : bytes) : res SqlConn :=
  match ParseDSN dsn with inl e => Err e | inr cfg => Connect cfg end.
(** A connector is its configuration. *)
Definition OpenConnector (dsn : bytes) : gerror + Config := ParseDSN dsn.
End Connecting.

(** ** Rows *)

Inductive next_op :=
| opNextFallback | opNextInt2 | opNextInt4 | opNextInt8 | opNextFloat4 | opNextFloat8 | opNextBool | opNextText
| opNextJSONB | opNextJSON | opNextBytea.

Definition opForNext (oid : OID) (fmt : Z) : next_op :=
  if negb (fmt =? 1) then opNextFallback
  else if oid =? OIDBool then opNextBool
  else if oid =? OIDInt2 then opNextInt2
  else if oid_in oid [OIDInt4; OIDOID] then opNextInt4
  else if oid =? OIDInt8 then opNextInt8
  else if oid =? OIDFloat4 then opNextFloat4
  else if oid =? OIDFloat8 then opNextFloat8
  else if oid_in oid [OIDText; OIDVarchar; OIDBPChar; OIDName] then opNextText
  else if oid =? OIDJSONB then opNextJSONB
  else if oid =? OIDJSON then opNextJSON
  else if oid =? OIDBytea then opNextBytea
  else opNextFallback.

(** The [switch r.ops[i]] of Next: [None] falls through to the decoder. *)
Definition run_next_op (o : next_op) (raw : bytes) : option dvalue :=
  let when (n : Z) (v : dvalue) := if Zlen raw =? n then Some v else None in
  match o with
  | opNextFallback => None
  | opNextInt4 => when 4 (DInt (int32 (be_get raw)))
  | opNextInt8 => when 8 (DInt (int64 (be_get raw)))
  | opNextInt2 => when 2 (DInt (int16 (be_get raw)))
  | opNextBool => match raw with [c] => Some (DBool (negb (beq c x00))) | _ => None end
  | opNextFloat8 => when 8 (DFloat (be_get raw))
  | opNextFloat4 => when 4 (DFloat (convert f32 f64 (be_get raw)))
  | opNextText => Some (DString raw)
  | opNextJSONB => match raw with x01 :: body => Some (DBytes body) | _ => None end
  | opNextJSON | opNextBytea => Some (DBytes raw)
  end.

(** What newRows prepares for a column. *)
Record next_column := mkNext { nc_name : bytes; nc_op : next_op; nc_dec : bytes → res dvalue }.
Definition next_of (c : Column) : next_column :=
  mkNext (Name c) (opForNext (TypeOID c) (Format c)) (DriverValueDecoder (TypeOID c) (Format c)).

Record pgRows := mkRows { r_it : Iterator; r_cols : list next_column }.
Definition RowsColumns (r : pgRows) : list bytes := map nc_name (r_cols r).

Definition decode_cell (c : next_column) (raw : bytes) : res dvalue :=
  match run_next_op (nc_op c) raw with Some v => Ret v | None => nc_dec c raw end.

(** The loop over the columns: the values of dest, when there is no error. *)
Fixpoint decode_columns (cols : list next_column) (body : bytes) : res (list dvalue) :=
  match cols with
  | [] => Ret []
  | c :: cols =>
      if Zlen body <? 4 then Err (EFmt "pgz/stdlib: short column header" [])
      else
        let l := int32 (be_get (take 4 body)) in
        let body := drop 4 body in
        let rest body v := match decode_columns cols body with Ret l => Ret (v :: l) | r => r end in
        if l =? -1 then rest body DNil
        else if (l <? 0) || (Zlen body <? l) then Err (EFmt "pgz/stdlib: bad column length" [l])
        else
          match decode_cell c (take (Z.to_nat l) body) with
          | Ret v => rest (drop (Z.to_nat l) body) v
          | Err e => Err e
          | Panic => Panic
          | Stuck => Stuck
          end
  end.
Definition decode_body (cols : list next_column) (body : bytes) : res (list dvalue) :=
  if Zlen body <? 2 then Err (EFmt "pgz/stdlib: short DataRow" [])
  else
    let n := int16 (be_get (take 2 body)) in
    if negb (n =? Zlen cols) then Err (EFmt "pgz/stdlib: column count mismatch" [n; Zlen cols])
    else decode_columns cols (drop 2 body).

(** The iterator of a Rows, with its client. *)
Abbreviation sqlrows := (prog (Client * pgRows)).
Definition on_iter {A} (m : iter A) : sqlrows A :=
  zoom (λ s, (s.1, r_it s.2)) (λ x s, (x.1, mkRows x.2 (r_cols s.2))) m.

Definition Next : sqlrows (list dvalue) :=
  body ← on_iter NextRaw;
  r ← gets snd;
  of_res (decode_body (r_cols r) body).
Definition RowsClose : sqlrows unit := on_iter it_Close.

(** newRows: without a plan the iterator is closed, its error dropped. *)
Definition newRows (it : Iterator) : client pgRows := λ c,
  match it_plan it with
  | Some p => (Ret (mkRows it (map next_of (Columns p))), c)
  | None =>
      match catch it_Close (c, it) with
      | (Ret _, (c, _)) => (Err (EFmt "pgz/stdlib: no plan resolved for query" []), c)
      | (Err e, (c, _)) => (Err e, c)
      | (Panic, (c, _)) => (Panic, c)
      | (Stuck, (c, _)) => (Stuck, c)
      end
  end.

(** ** Statements, queries and transactions *)

Section Sql.
Context {MO : MapOrder}.

Definition ExecContext (ctx : context) (dur : Z) (query : bytes) (args : list NamedValue) : sqlconn Z :=
  s ← ask;
  if unusable s then throw ErrBadConn
  else
    anyArgs ← of_sum (namedToAny args);
    res ← or_bad (Exec ctx dur query anyArgs);
    mret (RowsAffected res).

Definition QueryContext (ctx : context) (query : bytes) (args : list NamedValue) : sqlconn pgRows :=
  s ← ask;
  if unusable s then throw ErrBadConn
  else
    anyArgs ← of_sum (namedToAny args);
    o ← or_bad (RawQueryAny ctx query anyArgs);
    match o with
    | None => panic                 (* it.Plan() of a nil iterator *)
    | Some it => on_client (newRows it)
    end.

Definition BeginTx (ctx : context) (dur : Z) (opts : TxOptions) : sqlconn unit :=
  s ← ask;
  if unusable s then throw ErrBadConn
  else if sc_inTx s then throw (EFmt "pgz/stdlib: nested transaction not supported" [])
  else
    _ ← or_bad (Exec ctx dur (buildBeginStmt opts) []);
    modify (set_inTx true).

Definition background : context := {| ctx_err := λ _, None; ctx_deadline := false |}.
Definition Begin (dur : Z) : sqlconn unit := BeginTx background dur (mkTx 0 false).

(** [t.finish(stmt)]: the handle is live until its c is cleared. *)
Definition finish (dur : Z) (stmt : bytes) : prog (SqlConn * bool) unit :=
  live ← gets snd;
  if negb live then throw (EFmt "pgz/stdlib: tx already finished" [])
  else
    _ ← modify (λ s, (s.1, false));
    c ← gets fst;
    if negb (sc_inTx c) then mret tt
    else
      _ ← modify (λ s, (set_inTx false s.1, s.2));
      if unusable c then throw ErrBadConn
      else zoom fst (λ c s, (c, s.2)) (_ ← or_bad (Exec background dur stmt []); mret tt).
Definition Commit (dur : Z) : prog (SqlConn * bool) unit := finish dur (str "COMMIT").
Definition Rollback (dur : Z) : prog (SqlConn * bool) unit := finish dur (str "ROLLBACK").

(** Stmt keeps the text of its query: preparing sends nothing. *)
Record Stmt := mkSqlStmt { s_query : bytes; s_numInput : Z }.
Definition PrepareContext (query : bytes) : Stmt := mkSqlStmt query (-1).
Definition Prepare (query : bytes) : Stmt := PrepareContext query.
Definition StmtExecContext (ctx : context) (dur : Z) (s : Stmt) (args : list NamedValue) : sqlconn Z :=
  ExecContext ctx dur (s_query s) args.
Definition StmtQueryContext (ctx : context) (s : Stmt) (args : list NamedValue) : sqlconn pgRows :=
  QueryContext ctx (s_query s) args.
Definition StmtExec (dur : Z) (s : Stmt) (args : list dvalue) : sqlconn Z :=
  StmtExecContext background dur s (valuesToNamed args).
Definition StmtQuery (s : Stmt) (args : list dvalue) : sqlconn pgRows :=
  StmtQueryContext background s (valuesToNamed args).
Definition LastInsertId : gerror + Z :=
  inl (EFmt "pgz/stdlib: LastInsertId not supported; use INSERT ... RETURNING id with QueryRow" []).
End Sql.

(** ** Specification *)

(** A cell as database/sql sees it: nil, or what the decoder of its type makes
    of it. *)
Definition cell_value (c : Column) (raw : option bytes) (v : dvalue) : Prop :=
  match raw with None => v = DNil | Some raw => DriverValueDecoder (TypeOID c) (Format c) raw = Ret v end.
Definition row_values (p : Plan) (cells : list (option bytes)) (vals : list dvalue) : Prop :=
  Forall3 cell_value (Columns p) cells vals ∧ Forall cell_ok cells ∧ Zlen cells < 2 ^ 15.

(** [for rows.Next() { rows.Scan(...) }; rows.Err()], with the error that ends
    it; database/sql takes io.EOF for the end of the rows. *)
Fixpoint next_all (fuel : nat) : sqlrows (list (list dvalue) * gerror) :=
  match fuel with
  | O => stuck
  | S fuel =>
      x ← catch Next;
      match x with
      | inl e => mret ([], e)
      | inr row => r ← next_all fuel; mret (row :: r.1, r.2)
      end
  end.

(** ** Lemmas *)

Lemma run_next_op_eq oid fmt raw v : run_next_op (opForNext oid fmt) raw = Some v → DriverValueDecoder oid fmt raw = Ret v.
Proof.
  unfold opForNext, DriverValueDecoder, scannerDecoderFor. destruct (fmt =? 1); cbn [negb]; [|done].
  destruct (oid =? OIDBool) eqn:E1; [cbn; intros H; repeat (case_match; try done); by simplify_eq|].
  assert (∀ n d (r : res dvalue), (if Zlen raw =? n then Some d else None) = Some v →
    (Zlen raw = n → r = Ret d) → r = Ret v) as Hw by (intros n d r H Hr; destruct (Z.eqb_spec (Zlen raw) n); simplify_eq; auto).
  assert (∀ n f, Zlen raw = Z.of_nat n → be_first n raw f = Ret (f (be_get raw))) as Hb.
  { intros n f Hn. unfold be_first. unfold Zlen in Hn. destruct (Nat.ltb_spec (length raw) n); [lia|]. by rewrite take_ge by lia. }
  repeat match goal with
  | |- context [if ?b then opNextInt2 else _] => destruct b; [cbn [run_next_op]; intros H; eapply Hw; [exact H|]; intros; by apply Hb|]
  | |- context [if ?b then opNextInt4 else _] => destruct b; [cbn [run_next_op]; intros H; eapply Hw; [exact H|]; intros; by apply Hb|]
  | |- context [if ?b then opNextInt8 else _] => destruct b; [cbn [run_next_op]; intros H; eapply Hw; [exact H|]; intros; by apply Hb|]
  | |- context [if ?b then opNextFloat4 else _] => destruct b; [cbn [run_next_op]; intros H; eapply Hw; [exact H|]; intros; by apply (Hb 4%nat (λ u, DFloat (convert f32 f64 u)))|]
  | |- context [if ?b then opNextFloat8 else _] => destruct b; [cbn [run_next_op]; intros H; eapply Hw; [exact H|]; intros; by apply Hb|]
  end.
  destruct (oid_in oid [OIDText; OIDVarchar; OIDBPChar; OIDName]); [by intros [= <-]|].
  destruct (oid =? OIDJSONB) eqn:E2.
  - apply Z.eqb_eq in E2 as ->. cbn. destruct raw as [|[] raw]; try done. by intros [= <-].
  - destruct (oid =? OIDJSON) eqn:E3; [apply Z.eqb_eq in E3 as ->; by intros [= <-]|].
    destruct (oid =? OIDBytea) eqn:E4; [apply Z.eqb_eq in E4 as ->; by intros [= <-]|]. done.
Qed.

Lemma decode_cell_ok c raw v : cell_value c (Some raw) v → decode_cell (next_of c) raw = Ret v.
Proof.
  intros Hv. unfold decode_cell, next_of. cbn. destruct (run_next_op _ raw) eqn:E; [|done].
  apply run_next_op_eq in E. unfold cell_value in Hv. congruence.
Qed.

Lemma decode_columns_ok cols cells vals : Forall3 cell_value cols cells vals → Forall cell_ok cells →
  decode_columns (map next_of cols) (concat (map cell_wire cells)) = Ret vals.
Proof.
  induction 1 as [|c raw v cols cells vals Hv _ IH]; intros Hok; cbn [map concat decode_columns]; [done|].
  apply Forall_cons in Hok as [Hc Hok]. destruct raw as [raw|]; cbn [cell_wire].
  - rewrite <- !app_assoc, take_app_len, drop_app_len by apply length_be_put. rewrite !Zlen_app.
    replace (Zlen (be_put 4 (Zlen raw))) with 4 by (unfold Zlen; by rewrite length_be_put).
    pose proof (Zlen_nonneg raw). pose proof (Zlen_nonneg (concat (map cell_wire cells))). cbn in Hc.
    rewrite int32_get_put. unfold int32. rewrite wraps_small by lia. rewrite (proj2 (Z.ltb_ge _ 4)) by lia.
    rewrite (proj2 (Z.eqb_neq _ (-1))), (proj2 (Z.ltb_ge (Zlen raw) 0)), (proj2 (Z.ltb_ge _ (Zlen raw))) by lia. cbn [orb].
    rewrite take_app_len, drop_app_len by (unfold Zlen; lia). rewrite (decode_cell_ok _ _ _ Hv). by rewrite IH.
  - rewrite take_app_len, drop_app_len by apply length_be_put. rewrite !Zlen_app.
    replace (Zlen (be_put 4 (-1))) with 4 by (unfold Zlen; by rewrite length_be_put).
    pose proof (Zlen_nonneg (concat (map cell_wire cells))). rewrite (proj2 (Z.ltb_ge _ 4)) by lia.
    rewrite int32_get_put. change (int32 (-1) =? -1) with true. cbv iota. rewrite (IH Hok). by cbn in Hv; subst.
Qed.
Lemma decode_body_ok p cells vals : row_values p cells vals → decode_body (map next_of (Columns p)) (data_row cells) = Ret vals.
Proof.
  intros (Hv & Hok & Hn). unfold decode_body, data_row. rewrite take_app_len, drop_app_len by apply length_be_put.
  rewrite Zlen_app. replace (Zlen (be_put 2 (Zlen cells))) with 2 by (unfold Zlen; by rewrite length_be_put).
  pose proof (Zlen_nonneg (concat (map cell_wire cells))). rewrite (proj2 (Z.ltb_ge _ 2)) by lia.
  rewrite int16_get_put. unfold int16. rewrite wraps_small by (pose proof (Zlen_nonneg cells); lia).
  assert (Zlen (map next_of (Columns p)) = Zlen cells) as ->.
  { unfold Zlen. rewrite length_map. by rewrite (Forall3_length_lm _ _ _ _ Hv). }
  rewrite Z.eqb_refl. cbn [negb]. by apply decode_columns_ok.
Qed.

Lemma Next_at p rs z rest c it cells e rs' vals : streaming rs z rest (c, it) → next_row (it_pgErr it) rs = (Some cells, e, rs') →
  row_values p cells vals →
  ∃ k, catch Next (c, mkRows it (map next_of (Columns p))) =
      (Ret (inr vals), (set_conn k (reacts c (before_row rs)), mkRows (add_it_row (set_it_pgErr e it)) (map next_of (Columns p)))) ∧
    streaming rs' z rest (set_conn k (reacts c (before_row rs)), add_it_row (set_it_pgErr e it)) ∧ sent k = sent (conn c).
Proof.
  intros Hs Hn Hv. pose proof (NextRaw_at rs z rest c it Hs) as H. unfold next_result in H. rewrite Hn in H.
  destruct H as (k & E & Hk). exists k. split; [|split; [|by destruct Hk as (_ & -> & _)]].
  - unfold catch, Next. assert (on_iter NextRaw (c, mkRows it (map next_of (Columns p))) =
      (Ret (data_row cells), (set_conn k (reacts c (before_row rs)), mkRows (add_it_row (set_it_pgErr e it)) (map next_of (Columns p))))) as E1
      by (unfold on_iter, zoom; cbn [fst snd r_it r_cols]; by rewrite E).
    step E1. cbn [gets snd r_cols]. unfold mbind, prog_bind, gets, of_res. cbn [snd r_cols]. by rewrite (decode_body_ok p cells vals Hv).
  - destruct Hs as (S1 & S2 & S3 & S4 & S5). cbn [fst snd] in *. pose proof (next_row_rest rs (it_pgErr it)) as Hr. rewrite Hn in Hr.
    destruct Hr as (_ & _ & _ & Hall). split; [by destruct it|]. split; [by destruct it|]. split; [by apply (conn_at_in _ _ _ Hk)|].
    split; [by apply Hall|done].
Qed.

Lemma next_all_ok p z rest : ∀ vals rs c it, streaming rs z rest (c, it) → Forall2 (row_values p) (rows_of rs) vals →
  ∃ c' it', next_all (S (length vals)) (c, mkRows it (map next_of (Columns p))) =
      (Ret (vals, last_word (error_of (it_pgErr it) rs)), (c', mkRows it' (map next_of (Columns p)))) ∧
    inbound (conn c') = rest ∧ sent (conn c') = sent (conn c) ∧ it_done it' = true.
Proof.
  induction vals as [|v vals IH]; intros rs c it Hs Hv; pose proof (NextRaw_at rs z rest c it Hs) as H; unfold next_result in H;
    pose proof (next_row_rest rs (it_pgErr it)) as Hr; destruct (next_row (it_pgErr it) rs) as [[[cells|] e] rs'] eqn:En.
  - destruct Hr as (Hr & _). rewrite Hr in Hv. inversion Hv.
  - destruct Hr as [Hr ->], H as (k & E & Hk). eexists _, (ended e it). split; [|split; [|split]].
    + cbn [next_all length]. assert (catch Next (c, mkRows it (map next_of (Columns p))) = (Ret (inl (last_word e)),
        (set_lastRows (it_rowCount it) (set_conn k (reacts c rs)), mkRows (ended e it) (map next_of (Columns p))))) as E1.
      { unfold catch, Next, on_iter, zoom, mbind, prog_bind. cbn [fst snd r_it r_cols]. by rewrite E. }
      step E1. done.
    + by apply (conn_at_in _ _ _ Hk).
    + by destruct Hk as (_ & Hse & _).
    + unfold ended. by destruct e.
  - destruct Hr as (Hr & He & _). rewrite Hr in Hv. apply Forall2_cons in Hv as [Hv Hvs].
    destruct (Next_at p rs z rest c it cells e rs' v Hs En Hv) as (k & E & Hs' & Hse).
    destruct (IH rs' _ _ Hs' Hvs) as (c' & it' & E' & I' & S' & D'). exists c', it'. split; [|split; [done|split; [by rewrite S'|done]]].
    cbn [length]. remember (S (length vals)) as m. cbn [next_all]. step E. step E'. cbn [fst snd]. rewrite He. by destruct it.
  - destruct Hr as (Hr & _). rewrite Hr in Hv. inversion Hv.
Qed.

(** ** The theorems *)

(** C21. db.Query on a statement the connection has prepared: exactly Bind, Execute
    and Sync are sent, and looping over Next yields, row by row and cell by
    cell, what the column's decoder makes of the server's bytes, whether or
    not the inline cases apply, then io.EOF or the server's error; the reply
    is consumed exactly and the connection stays valid. *)
Theorem sql_query_exact {MO : MapOrder} ctx query args anys s c r p vals quiet b rs rows z rest
  (Hconn : sc_client s = Some c ∧ sc_bad s = false ∧ ctx_err ctx 0 = None)
  (Hargs : namedToAny args = inr anys ∧ arg_values (st_paramOIDs (deref r (stmts c))) 0 anys = Some vals)
  (Hst : get query (stmts c) = Some r ∧ st_plan (deref r (stmts c)) = Some p ∧ room (conn c) = None)
  (Hin : inbound (conn c) = wire_of (map reply_msg quiet) ++ frame MsgBindComplete b ++
     wire_of (map reply_msg rs) ++ frame MsgReadyForQuery z ++ rest)
  (Hok : Forall bind_quiet quiet ∧ msg_ok (MsgBindComplete, b) ∧ Forall iter_ok rs ∧ msg_ok (MsgReadyForQuery, z))
  (Hrows : Forall2 (row_values p) (rows_of rs) rows) :
  ∃ c1 r1, QueryContext ctx query args s = (Ret r1, mkSqlConn (Some c1) false (sc_inTx s)) ∧ RowsColumns r1 = map Name (Columns p) ∧
    ∃ c2 r2, next_all (S (length rows)) (c1, r1) = (Ret (rows, last_word (error_of None rs)), (c2, r2)) ∧
      inbound (conn c2) = rest ∧ sent (conn c2) = sent (conn c) ++ writeBuf (conn c) ++ request (deref r (stmts c)) anys vals ∧
      RowsClose (c2, r2) = (Ret tt, (c2, r2)).
Proof.
  destruct Hconn as (Hc & Hb & Hctx), Hargs as (Hn & Ha), Hst as (Hg & Hp & Hr), Hok as (Hq & Hbm & Hrs & Hz).
  destruct (startRawExecute_ok r anys c _ vals quiet b _ eq_refl Ha Hr Hin Hq Hbm) as (k & Es & Hki & Hks & _). rewrite Hp in Es.
  set (it := mkIter (Some r) (Some p) true false None None 0) in *. set (c1 := set_conn k (reacts c quiet)) in *.
  assert (streaming rs z rest (c1, it)) as Hs by done.
  destruct (next_all_ok p z rest rows rs c1 it Hs Hrows) as (c2 & it2 & E2 & I2 & S2 & D2).
  exists c1, (mkRows it (map next_of (Columns p))). split; [|split; [by unfold RowsColumns; cbn; rewrite map_map|]].
  - assert (RawQueryAny ctx query anys c = (Ret (Some it), c1)) as Eq.
    { unfold RawQueryAny, attachContext. rewrite Hctx, bind_ret. cbn [raw_loop]. step (obtain_cached query r c Hg). cbn [fst snd].
      unfold mbind, prog_bind, catch. by rewrite Es. }
    unfold QueryContext. step (eq_refl : ask s = (Ret s, s)). unfold unusable. rewrite Hc, Hb, Hn. cbn [orb]. unfold of_sum. rewrite bind_ret.
    assert (or_bad (RawQueryAny ctx query anys) s = (Ret (Some it), mkSqlConn (Some c1) false (sc_inTx s))) as Eo
      by (unfold or_bad, catch, on_client, mbind, prog_bind; by rewrite Hc, Eq, Hb).
    step Eo. done.
  - eexists _, _. split; [exact E2|]. split; [exact I2|]. split; [by rewrite S2|].
    unfold RowsClose, on_iter, zoom. cbn [fst snd r_it r_cols]. by rewrite it_Close_done.
Qed.

(** *** Validity *)

Lemma or_bad_err {A} (m : client A) s e s' : or_bad m s = (Err e, s') → unusable s = false →
  IsValid s' = (match as_pg e with Some _ => true | None => is_ctx e end) ∧ sc_inTx s' = sc_inTx s.
Proof.
  unfold or_bad, catch, on_client, unusable, mbind, prog_bind. intros H Hu. destruct (sc_client s) as [c|]; [|by rewrite orb_true_r in Hu].
  rewrite orb_false_r in Hu. rewrite Hu in H. destruct (m c) as [[a|e1| |] c1]; try done. unfold markBad in H.
  destruct (as_pg e1) eqn:E1; [|destruct (is_ctx e1) eqn:E2]; cbn in H; unfold throw in H; simplify_eq; by rewrite ?E1, ?E2.
Qed.
Lemma or_bad_ok {A} (m : client A) s a s' : or_bad m s = (Ret a, s') → sc_bad s' = sc_bad s ∧ sc_inTx s' = sc_inTx s.
Proof.
  unfold or_bad, catch, on_client, mbind, prog_bind. intros H. destruct (sc_client s) as [c|]; [|done].
  destruct (m c) as [[x|e1| |] c1]; try done; [unfold mret, prog_ret in H; by simplify_eq|]. unfold markBad in H.
  destruct (as_pg e1); [|destruct (is_ctx e1)]; cbn in H; unfold throw in H; done.
Qed.

(** A connection is retired exactly when it should be: a call on a connection
    marked bad, or closed, answers driver.ErrBadConn and touches nothing; a
    statement that fails on a usable one leaves it valid if and only if the
    error is, or wraps, an error of the server or of the context. *)
Theorem sql_validity {MO : MapOrder} ctx dur query args s :
  (unusable s = true → ExecContext ctx dur query args s = (Err ErrBadConn, s) ∧ QueryContext ctx query args s = (Err ErrBadConn, s) ∧
     ∀ opts, BeginTx ctx dur opts s = (Err ErrBadConn, s)) ∧
  (unusable s = false → ∀ anys, namedToAny args = inr anys →
     (∀ e s', ExecContext ctx dur query args s = (Err e, s') →
        IsValid s' = (match as_pg e with Some _ => true | None => is_ctx e end)) ∧
     (∀ n s', ExecContext ctx dur query args s = (Ret n, s') → sc_bad s' = false)).
Proof.
  split.
  - intros Hu. unfold ExecContext, QueryContext, BeginTx, mbind, prog_bind, ask. by rewrite Hu.
  - intros Hu anys Ha. unfold ExecContext. unfold mbind, prog_bind, ask, of_sum. rewrite Hu, Ha. cbn [mret prog_ret].
    unfold mret, prog_ret. split.
    + intros e s' H. destruct (or_bad _ s) as [[x|e1| |] s1] eqn:E; simplify_eq. by apply (or_bad_err _ _ _ _ E).
    + intros n s' H. destruct (or_bad _ s) as [[x|e1| |] s1] eqn:E; simplify_eq. apply or_bad_ok in E as [-> _].
      unfold unusable in Hu. by destruct (sc_bad s).
Qed.

(** ** Transactions *)

Section Tx.
Context {MO : MapOrder}.

(** A connection with the handles of the transactions begun on it: what the
    calls on them do, whether they return or panic.  [tx_uses] is whatever else
    goes through the client: Ping, and the Next and Close of a query's Rows. *)
Inductive tx_step : SqlConn * list bool → SqlConn * list bool → Prop :=
| tx_begin ctx dur opts s hs s' : BeginTx ctx dur opts s = (Ret tt, s') → tx_step (s, hs) (s', hs ++ [true])
| tx_begin_failed ctx dur opts s hs r s' : BeginTx ctx dur opts s = (r, s') → r ≠ Ret tt → tx_step (s, hs) (s', hs)
| tx_finish i dur stmt s hs live r s' live' : hs !! i = Some live → finish dur stmt (s, live) = (r, (s', live')) →
    tx_step (s, hs) (s', <[i := live']> hs)
| tx_exec ctx dur query args s hs r s' : ExecContext ctx dur query args s = (r, s') → tx_step (s, hs) (s', hs)
| tx_query ctx query args s hs r s' : QueryContext ctx query args s = (r, s') → tx_step (s, hs) (s', hs)
| tx_uses {A} (m : client A) s hs r s' : on_client m s = (r, s') → tx_step (s, hs) (s', hs)
| tx_close s hs : tx_step (s, hs) (SqlClose s, hs).

Fixpoint lives (hs : list bool) : nat := match hs with [] => 0 | b :: hs => (if b then 1 else 0) + lives hs end.
Definition tx_ok (x : SqlConn * list bool) : Prop := lives x.2 = if sc_inTx x.1 then 1%nat else 0%nat.

Lemma or_bad_inTx {A} (m : client A) s r s' : or_bad m s = (r, s') → sc_inTx s' = sc_inTx s.
Proof.
  unfold or_bad, catch, on_client, mbind, prog_bind. intros H. destruct (sc_client s) as [c|]; [|by simplify_eq].
  destruct (m c) as [[x|e1| |] c1]; [unfold mret, prog_ret in H; by simplify_eq| |by simplify_eq..]. unfold markBad in H.
  destruct (as_pg e1); [|destruct (is_ctx e1)]; cbn in H; unfold throw in H; by simplify_eq.
Qed.
Lemma ExecContext_inTx ctx dur query args s r s' : ExecContext ctx dur query args s = (r, s') → sc_inTx s' = sc_inTx s.
Proof.
  unfold ExecContext. intros H. unfold mbind at 1, prog_bind at 1, ask in H. destruct (unusable s); [unfold throw in H; by simplify_eq|].
  unfold mbind, prog_bind, of_sum in H. destruct (namedToAny args); [unfold throw in H; by simplify_eq|]. unfold mret, prog_ret in H.
  destruct (or_bad _ s) as [[x|e1| |] s1] eqn:E; simplify_eq; by eapply or_bad_inTx.
Qed.
Lemma on_client_inTx {A} (m : client A) s r s' : on_client m s = (r, s') → sc_inTx s' = sc_inTx s.
Proof. unfold on_client. intros H. destruct (sc_client s) as [c|]; [|by simplify_eq]. destruct (m c). by simplify_eq. Qed.
Lemma QueryContext_inTx ctx query args s r s' : QueryContext ctx query args s = (r, s') → sc_inTx s' = sc_inTx s.
Proof.
  unfold QueryContext. intros H. unfold mbind at 1, prog_bind at 1, ask in H. destruct (unusable s); [unfold throw in H; by simplify_eq|].
  unfold mbind, prog_bind, of_sum in H. destruct (namedToAny args); [unfold throw in H; by simplify_eq|]. unfold mret, prog_ret in H.
  destruct (or_bad _ s) as [[[it|]|e1| |] s1] eqn:E; apply or_bad_inTx in E; [|unfold panic in H; by simplify_eq|by simplify_eq..].
  apply on_client_inTx in H. congruence.
Qed.
Lemma BeginTx_inTx ctx dur opts s r s' : BeginTx ctx dur opts s = (r, s') →
  match r with Ret _ => sc_inTx s = false ∧ sc_inTx s' = true | _ => sc_inTx s' = sc_inTx s end.
Proof.
  unfold BeginTx. intros H. unfold mbind at 1, prog_bind at 1, ask in H. destruct (unusable s); [unfold throw in H; by simplify_eq|].
  destruct (sc_inTx s) eqn:Ei; [unfold throw in H; by simplify_eq|]. unfold mbind, prog_bind in H.
  destruct (or_bad _ s) as [[x|e1| |] s1] eqn:E; unfold modify in H; simplify_eq; [done|..]; apply or_bad_inTx in E; congruence.
Qed.
Lemma finish_inTx dur stmt s live r s' live' : finish dur stmt (s, live) = (r, (s', live')) →
  live' = false ∧ sc_inTx s' = if live then false else sc_inTx s.
Proof.
  unfold finish. intros H. unfold mbind at 1, prog_bind at 1, gets in H. cbn [snd] in H. destruct live; cbn [negb] in H.
  2:{ unfold throw in H. by simplify_eq. }
  unfold mbind at 1, prog_bind at 1, modify in H. unfold mbind at 1, prog_bind at 1 in H. cbn [fst snd] in H.
  destruct (sc_inTx s) eqn:Ei; cbn [negb] in H; [|unfold mret, prog_ret in H; by simplify_eq].
  unfold mbind at 1, prog_bind at 1 in H. cbn [fst snd] in H.
  destruct (unusable s); [unfold throw in H; by simplify_eq|].
  unfold zoom, mbind, prog_bind in H. cbn [fst snd] in H.
  destruct (or_bad _ _) as [[x|e1| |] s1] eqn:E; unfold mret, prog_ret in H; simplify_eq; apply or_bad_inTx in E; done.
Qed.

Lemma lives_app hs (b : bool) : lives (hs ++ [b]) = (lives hs + if b then 1 else 0)%nat.
Proof. induction hs as [|h hs IH]; cbn; [lia|]. rewrite IH. lia. Qed.
Lemma lives_insert hs : ∀ i (live b : bool), hs !! i = Some live →
  (lives (<[i := b]> hs) + (if live then 1 else 0) = lives hs + if b then 1 else 0)%nat.
Proof.
  induction hs as [|h hs IH]; intros [|i] live b Hi; cbn in Hi; simplify_eq; [cbn; lia|]. specialize (IH i live b Hi). change (<[S i := b]> (h :: hs)) with (h :: <[i := b]> hs). cbn [lives]. lia.
Qed.

(** C22. database/sql's transactions: over any sequence of BeginTx, Commit and
    Rollback (on any handle, in any order, repeatedly), ExecContext,
    QueryContext, Ping, uses of their Rows and Close, successful, failing or
    panicking, at most one handle is live, and the connection says it
    is in a transaction exactly while one is; so a second BeginTx is refused
    before anything is sent and a finished handle sends nothing. *)
Theorem sql_transactions c x : rtc tx_step (mkSqlConn (Some c) false false, []) x →
  tx_ok x ∧
  (∀ ctx dur opts, unusable x.1 = false → (∃ i, x.2 !! i = Some true) →
     BeginTx ctx dur opts x.1 = (Err (EFmt "pgz/stdlib: nested transaction not supported" []), x.1)) ∧
  (∀ dur stmt, finish dur stmt (x.1, false) = (Err (EFmt "pgz/stdlib: tx already finished" []), (x.1, false))).
Proof.
  intros Hx. assert (tx_ok x) as Hok.
  { assert (∀ y, rtc tx_step y x → tx_ok y → tx_ok x) as Hgo; [|by apply (Hgo _ Hx)].
    clear Hx. intros y Hy. induction Hy as [|y1 y2 y3 Hs _ IH]; [done|]. intros H. apply IH. clear IH.
    unfold tx_ok in *. inversion Hs as [? ? ? s hs s' E|? ? ? s hs r s' E Hr|i dur stmt s hs live r s' live' Hi E|
      ? ? ? ? s hs r s' E|? ? ? s hs r s' E|? ? s hs r s' E|s hs]; subst; cbn [fst snd] in *.
    - apply BeginTx_inTx in E as [E1 E2]. rewrite lives_app, E2. rewrite E1 in H. lia.
    - apply BeginTx_inTx in E. destruct r as [[]| | |]; [done|by rewrite E..].
    - apply finish_inTx in E as [-> ->]. pose proof (lives_insert _ _ _ false Hi). destruct live, (sc_inTx s); lia.
    - apply ExecContext_inTx in E. by rewrite E.
    - apply QueryContext_inTx in E. by rewrite E.
    - apply on_client_inTx in E. by rewrite E.
    - done. }
  split; [done|]. split; [|done]. intros ctx dur opts Hu [i Hi].
  assert (sc_inTx x.1 = true) as Ht.
  { unfold tx_ok in Hok. pose proof (lives_insert _ _ _ false Hi). destruct (sc_inTx x.1); [done|]. cbn in *. lia. }
  unfold BeginTx, mbind, prog_bind, ask. by rewrite Hu, Ht.
Qed.
End Tx.

(** ** Where the end of a result is not what it looks like *)

Lemma read_cut c : (length (inbound (conn c)) < 5)%nat → wire ReadMessage c = (Err (EEOF false), c).
Proof.
  intros Hl. unfold wire, zoom, ReadMessage, mbind, prog_bind, Peek. destruct (Nat.ltb_spec (length (inbound (conn c))) 5); [|lia].
  by destruct c.
Qed.

(** The next row of a reply the connection ends in the middle of. *)
Lemma next_cut cut onerr : (length cut < 5)%nat → ∀ rs fuel c it, (length rs < fuel)%nat → Forall iter_ok rs →
  inbound (conn c) = wire_of (map reply_msg rs) ++ cut →
  match next_row (it_pgErr it) rs with
  | (Some cells, e, rs') => ∃ k, read_loop (cl (wire ReadMessage)) next_step onerr fuel tt (c, it) =
      (Ret (data_row cells), (set_conn k (reacts c (before_row rs)), add_it_row (set_it_pgErr e it))) ∧
      inbound k = wire_of (map reply_msg rs') ++ cut
  | (None, e, _) => ∃ k, read_loop (cl (wire ReadMessage)) next_step onerr fuel tt (c, it) =
      onerr tt (EEOF false) (set_conn k (reacts c rs), set_it_pgErr e it)
  end.
Proof.
  intros Hcut rs. induction rs as [|r rs IH]; intros fuel c it Hf Hrs Hin; destruct fuel as [|fuel]; try (cbn in Hf; lia).
  - cbn [next_row]. cbn in Hin. exists (conn c). cbn [read_loop]. unfold mbind, prog_bind, catch, cl, zoom. cbn [fst snd].
    rewrite read_cut by (by rewrite Hin). by destruct c, it.
  - apply Forall_cons in Hrs as [Hr Hrs]. unfold wire_of in Hin. cbn [map concat] in Hin. rewrite <- app_assoc in Hin.
    fold (wire_of (map reply_msg rs)) in Hin.
    destruct (loop_round next_step onerr fuel tt c it _ _ _ Hin ltac:(destruct Hr; by destruct (reply_msg r))) as (k & Hk & E).
    assert ((∃ cells, r = RRow cells) ∨ ∀ cells, r ≠ RRow cells) as [[cells ->]|Hn] by (destruct r; [left; by eexists|by right..]).
    + cbn [next_row before_row]. exists k. rewrite E. split; [by destruct it|]. by apply (conn_at_in _ _ _ Hk).
    + rewrite next_step_reply in E by done. cbn [after] in E.
      set (it1 := match r with RError b => set_it_pgErr (Some (Parse b)) it | _ => it end) in *.
      specialize (IH fuel (react (set_conn k c) r) it1 ltac:(cbn in Hf; lia) Hrs).
      rewrite react_conn in IH. specialize (IH (conn_at_in _ _ _ Hk)).
      assert (next_row (it_pgErr it) (r :: rs) = next_row (it_pgErr it1) rs ∧ before_row (r :: rs) = r :: before_row rs ∧
        (∀ e, set_it_pgErr e it1 = set_it_pgErr e it)) as (H1 & H2 & H3)
        by (destruct r; try (by destruct (Hn cells)); by destruct it).
      rewrite H1, H2. destruct (next_row (it_pgErr it1) rs) as [[[cells|] e] rs']; destruct IH as (k1 & IH).
      * destruct IH as [E1 I1]. exists k1. rewrite E, react_conn. split; [|done]. etransitivity; [exact E1|]. by rewrite H3, reacts_conn.
      * exists k1. rewrite E, react_conn. etransitivity; [exact IH|]. by rewrite H3, reacts_conn.
Qed.

Lemma cut_rows p cut : (length cut < 5)%nat → ∀ vals rs c it, it_done it = false → it_err it = None → Forall iter_ok rs →
  Forall2 (row_values p) (rows_of rs) vals → inbound (conn c) = wire_of (map reply_msg rs) ++ cut →
  ∃ s, next_all (S (length vals)) (c, mkRows it (map next_of (Columns p))) = (Ret (vals, EEOF false), s).
Proof.
  intros Hcut. induction vals as [|v vals IH]; intros rs c it Hd He Hrs Hv Hin;
    pose proof (next_cut cut (λ _ e, _ ← ow (modify (set_it_err (Some e))); throw e) Hcut rs (rounds c) c it) as H;
    pose proof (next_row_rest rs (it_pgErr it)) as Hr; destruct (next_row (it_pgErr it) rs) as [[[cells|] e] rs'] eqn:En.
  all: destruct (H ltac:(unfold rounds; rewrite Hin; apply fuel_enough) Hrs Hin) as (k & E); clear H.
  all: assert (∀ x s, read_loop (cl (wire ReadMessage)) next_step (λ _ e, _ ← ow (modify (set_it_err (Some e))); throw e) (rounds c) tt (c, it) = (x, s) →
    NextRaw (c, it) = (x, s)) as Hnr
    by (intros x s Hx; unfold NextRaw; step (eq_refl : gets snd (c, it) = (Ret it, (c, it))); rewrite Hd, He; exact Hx).
  - destruct Hr as (Hr & _). rewrite Hr in Hv. inversion Hv.
  - apply Hnr in E. eexists. cbn [next_all length].
    assert (catch Next (c, mkRows it (map next_of (Columns p))) = (Ret (inl (EEOF false)), (set_conn k (reacts c rs),
      mkRows (set_it_err (Some (EEOF false)) (set_it_pgErr e it)) (map next_of (Columns p))))) as E1.
    { unfold catch, Next. erewrite bind_Err; [reflexivity|]. unfold on_iter, zoom. cbn [fst snd r_it r_cols]. by rewrite E. }
    step E1. reflexivity.
  - destruct Hr as (Hr & _ & _ & Hall). rewrite Hr in Hv. apply Forall2_cons in Hv as [Hv Hvs]. destruct E as [E Ik]. apply Hnr in E.
    destruct (IH rs' (set_conn k (reacts c (before_row rs))) (add_it_row (set_it_pgErr e it))) as (s & E'); try done; [by apply Hall|].
    exists s. cbn [length]. remember (S (length vals)) as m. cbn [next_all].
    assert (catch Next (c, mkRows it (map next_of (Columns p))) =
      (Ret (inr v), (set_conn k (reacts c (before_row rs)), mkRows (add_it_row (set_it_pgErr e it)) (map next_of (Columns p))))) as E1.
    { unfold catch, Next. assert (on_iter NextRaw (c, mkRows it (map next_of (Columns p))) =
        (Ret (data_row cells), (set_conn k (reacts c (before_row rs)), mkRows (add_it_row (set_it_pgErr e it)) (map next_of (Columns p))))) as E2
        by (unfold on_iter, zoom; cbn [fst snd r_it r_cols]; by rewrite E).
      step E2. unfold mbind, prog_bind, gets, of_res. cbn [snd r_cols]. by rewrite (decode_body_ok p cells v Hv). }
    step E1. step E'. done.
  - destruct Hr as (Hr & _). rewrite Hr in Hv. inversion Hv.
Qed.

(** A result set the server stops sending half-way, because it was shut down
    or the network failed, looks like a complete one: wherever between two
    messages (or inside the header of one) the connection ends, and even when
    the server's last message was the error that says why, reading the rows
    ends with io.EOF after the rows that arrived, exactly as after ReadyForQuery. *)
Theorem cut_result_looks_complete p cut vals rs c it
  (Hit : it_done it = false ∧ it_err it = None ∧ Forall iter_ok rs)
  (Hrows : Forall2 (row_values p) (rows_of rs) vals)
  (Hin : inbound (conn c) = wire_of (map reply_msg rs) ++ cut) (Hcut : (length cut < 5)%nat) :
  ∃ s, next_all (S (length vals)) (c, mkRows it (map next_of (Columns p))) = (Ret (vals, EEOF false), s).
Proof. destruct Hit as (? & ? & ?). by apply (cut_rows p cut Hcut vals rs c it). Qed.

(** ** Witnesses and runs *)

Definition sql_reply (tag : string) : bytes :=
  frame MsgBindComplete [] ++ frame MsgCommandComplete (str tag ++ [x00]) ++ frame MsgReadyForQuery (str "I").
Definition tx_client (inb : bytes) : Client :=
  let '(_, sc) := alloc (mkStmt (str "s_1") None [] []) (newStmtCache 4) in
  let '(_, sc) := alloc (mkStmt (str "s_2") None [] []) sc in
  set_stmts (put (str "COMMIT") 1 (put (str "BEGIN") 0 sc)) (newClient zero_config (New inb None)).
Definition begun (inb : bytes) : SqlConn := (BeginTx background 0 (mkTx 0 false) (mkSqlConn (Some (tx_client inb)) false false)).2.

Lemma sql_transactions_witness :
  let x0 := begun (sql_reply "BEGIN" ++ sql_reply "COMMIT") in
  let x := ((Commit 0 (x0, true)).2.1, [false]) in
  tx_ok x ∧
  (∀ ctx dur opts, unusable x.1 = false → (∃ i, x.2 !! i = Some true) →
     BeginTx ctx dur opts x.1 = (Err (EFmt "pgz/stdlib: nested transaction not supported" []), x.1)) ∧
  (∀ dur stmt, finish dur stmt (x.1, false) = (Err (EFmt "pgz/stdlib: tx already finished" []), (x.1, false))).
Proof.
  apply (sql_transactions (tx_client (sql_reply "BEGIN" ++ sql_reply "COMMIT"))).
  apply (rtc_l _ _ (begun (sql_reply "BEGIN" ++ sql_reply "COMMIT"), [] ++ [true])).
  { apply (tx_begin background 0 (mkTx 0 false)). vm_compute. reflexivity. }
  apply (rtc_l _ _ ((Commit 0 (begun (sql_reply "BEGIN" ++ sql_reply "COMMIT"), true)).2.1, <[0%nat := false]> [true])).
  { apply (tx_finish 0 0 (str "COMMIT") _ [true] true (Ret tt)); [reflexivity|vm_compute; reflexivity]. }
  apply rtc_refl.
Defined.

(** When a statement of the transaction failed, the server answers COMMIT with
    the tag ROLLBACK; Commit reports success. *)
Theorem commit_hides_rollback : ∃ s,
  Commit 0 (begun (sql_reply "BEGIN" ++ sql_reply "ROLLBACK"), true) = (Ret tt, (s, false)) ∧ sc_inTx s = false ∧ IsValid s = true.
Proof. eexists. split; [vm_compute; reflexivity|]. split; reflexivity. Qed.

(** The isolation levels PostgreSQL does not name are begun at its default. *)
Theorem isolation_ignored ro : Forall (λ i, buildBeginStmt (mkTx i ro) = buildBeginStmt (mkTx 0 ro)) [3; 5; 7].
Proof. repeat constructor. Qed.

Definition sql_conn (inb : bytes) : SqlConn := mkSqlConn (Some (scan_client inb)) false false.
Definition sql_rows : list reply := [RRow (user_cells 1 "ana"); RRow [None; Some (str "bo")]; RNeutral MsgCommandComplete (str "SELECT 2")].
Definition sql_inbound : bytes :=
  wire_of (map reply_msg [RNotice [x00]]) ++ frame MsgBindComplete [] ++ wire_of (map reply_msg sql_rows) ++
  frame MsgReadyForQuery (str "I") ++ str "later".
Definition sql_values : list (list dvalue) := [[DInt 1; DString (str "ana")]; [DNil; DString (str "bo")]].

Lemma sql_rows_decode : Forall2 (row_values (scan_plan plain_columns)) (rows_of sql_rows) sql_values.
Proof. repeat constructor. Qed.
Lemma sql_rows_ok : Forall iter_ok sql_rows.
Proof. repeat constructor; discriminate. Qed.

Lemma sql_query_exact_witness :
  ∃ c1 r1, QueryContext background scan_sql [mkNamed [] 1 (DInt 7)] (sql_conn sql_inbound) = (Ret r1, mkSqlConn (Some c1) false false) ∧
    RowsColumns r1 = [str "id"; str "name"] ∧
    ∃ c2 r2, next_all 3 (c1, r1) = (Ret (sql_values, EEOF false), (c2, r2)) ∧ inbound (conn c2) = str "later" ∧
      sent (conn c2) = [] ++ [] ++ request scan_stmt [AInt KInt64 7] [Some (be_put 4 7)] ∧ RowsClose (c2, r2) = (Ret tt, (c2, r2)).
Proof.
  apply (sql_query_exact background scan_sql [mkNamed [] 1 (DInt 7)] [AInt KInt64 7] (sql_conn sql_inbound) (scan_client sql_inbound) 0
    (scan_plan plain_columns) [Some (be_put 4 7)] [RNotice [x00]] [] sql_rows sql_values (str "I") (str "later")).
  - split; [|split]; reflexivity.
  - split; reflexivity.
  - split; [|split]; reflexivity.
  - reflexivity.
  - split; [repeat constructor; discriminate|]. split; [discriminate|]. split; [apply sql_rows_ok|discriminate].
  - exact sql_rows_decode.
Defined.

Lemma cut_result_looks_complete_witness : ∃ s,
  next_all 3 (scan_client (wire_of (map reply_msg (sql_rows ++ [RError (error_wire [("C"%byte, str "57P01")])])) ++ [MsgDataRow; x00]),
      mkRows (mkIter (Some 0%nat) (Some (scan_plan plain_columns)) true false None None 0) (map next_of (Columns (scan_plan plain_columns)))) =
    (Ret (sql_values, EEOF false), s).
Proof.
  apply (cut_result_looks_complete (scan_plan plain_columns) [MsgDataRow; x00] sql_values
    (sql_rows ++ [RError (error_wire [("C"%byte, str "57P01")])])).
  - split; [reflexivity|]. split; [reflexivity|]. repeat constructor; discriminate.
  - exact sql_rows_decode.
  - reflexivity.
  - cbn. lia.
Defined.

Lemma sql_validity_witness :
  let s := mkSqlConn None true false in
  (unusable s = true ∧ ExecContext background 0 (str "x") [] s = (Err ErrBadConn, s)) ∧
  (∀ e s', ExecContext background 0 (str "x") [] (sql_conn []) = (Err e, s') →
     IsValid s' = (match as_pg e with Some _ => true | None => is_ctx e end)).
Proof.
  split.
  - split; [reflexivity|]. exact (proj1 (proj1 (sql_validity background 0 (str "x") [] (mkSqlConn None true false)) eq_refl)).
  - exact (proj1 (proj2 (sql_validity background 0 (str "x") [] (sql_conn [])) eq_refl [] eq_refl)).
Defined.
