(* ===== verification/Otel.v ===== *)
(** pgz/otel/otel.go: the observer that reports queries to OpenTelemetry, and
    what a client reports to any observer (pgz/observer.go).  The tracer and
    the meter are OpenTelemetry's: what the observer does to them is the list
    of the calls it makes, a span being the number it was started as. *)
From S2P Require Import Prelude Protocol Errors Effects Wire Rows Args StmtCache Stream Client Query QuerySpec.
From S2P Require Import Footprint QueryResult QueryLife Exec Conn.

(** ** Calls on OpenTelemetry *)

Definition attrs : Type := list (string * bytes).
Inductive tel :=
| SpanStart (id : nat) (name : bytes)
| SpanString (id : nat) (key : bytes) (v : bytes)
| SpanInt (id : nat) (key : string) (v : Z)
| SpanStatus (id : nat) (e : gerror)
| SpanError (id : nat) (e : gerror)
| SpanEvent (id : nat) (severity code message : bytes)
| SpanEnd (id : nat)
| DurationRecord (a : attrs)
| RowsAdd (n : Z) (a : attrs)
| ErrorsAdd (a : attrs)
| SlowAdd.

Record options := mkOptions { recordSQL : bool; sqlAttrKey : bytes; sqlMaxLen : Z; spanNameFromSQL : bool }.
Definition WithRecordSQL (record : bool) (o : options) : options := mkOptions record (sqlAttrKey o) (sqlMaxLen o) (spanNameFromSQL o).
Definition WithSQLMaxLen (n : Z) (o : options) : options := mkOptions (recordSQL o) (sqlAttrKey o) n (spanNameFromSQL o).
Definition WithSQLAttributeKey (k : bytes) (o : options) : options := mkOptions (recordSQL o) k (sqlMaxLen o) (spanNameFromSQL o).

(** [o_slow]: the slow counter exists; [o_start]: the span the slot holds. *)
Record Observer := mkObserver {
  o_opts : options;
  o_meter : bool;
  o_slow : bool;
  o_start : option nat;
  o_next : nat;
  o_calls : list tel
}.
Definition call (l : list tel) (o : Observer) : Observer :=
  mkObserver (o_opts o) (o_meter o) (o_slow o) (o_start o) (o_next o) (o_calls o ++ l).
Definition set_start (s : option nat) (o : Observer) : Observer :=
  mkObserver (o_opts o) (o_meter o) (o_slow o) s (o_next o) (o_calls o).

(** The providers: whether the tracer's spans record, whether there is a meter
    provider, and what making an instrument answers. *)
Section Otel.
Context (recording : bool) (instrument : string → option gerror).

Definition defaults : options := mkOptions true (str "db.statement") 1024 false.
Fixpoint make_instruments (l : list string) : option gerror :=
  match l with [] => None | i :: l => match instrument i with Some e => Some e | None => make_instruments l end end.
Definition New (mp : bool) (opts : list (options → options)) : gerror + Observer :=
  let o := mkObserver (fold_left (λ o f, f o) opts defaults) mp false None 0 [] in
  match (if mp then make_instruments ["pgz.query.duration"; "pgz.query.rows"; "pgz.query.errors"]%string else None) with
  | Some e => inl e
  | None => inr o
  end.

Definition is_space (c : byte) : bool := beq c x20 || beq c x09 || beq c x0a || beq c x0d.
Fixpoint TrimLeft (s : bytes) : bytes :=
  match s with c :: r => if is_space c then TrimLeft r else s | [] => [] end.
Fixpoint word (s : bytes) : bytes :=
  match s with c :: r => if is_space c then [] else c :: word r | [] => [] end.
(** [ToUpper] is on the letters of ASCII, which SQL's keywords are made of; the
    source's maps other letters too. *)
Definition firstToken (s : bytes) : bytes := ToUpper (word (TrimLeft s)).

Definition on_start (sql : bytes) (o : Observer) : Observer :=
  let opts := o_opts o in
  let name := if spanNameFromSQL opts then firstToken sql else str "pgz.query" in
  let id := o_next o in
  let stmt := if (0 <? sqlMaxLen opts) && (sqlMaxLen opts <? Zlen sql) then take (Z.to_nat (sqlMaxLen opts)) sql else sql in
  mkObserver opts (o_meter o) (o_slow o) (Some id) (S id)
    (o_calls o ++ [SpanStart id name] ++ (if recordSQL opts && recording then [SpanString id (sqlAttrKey opts) stmt] else [])).

Definition state_attrs (ev : QueryEvent) : attrs :=
  match ev_state ev with [] => [] | s => [("db.sqlstate"%string, s)] end.

Definition end_span (id : nat) (ev : QueryEvent) : list tel :=
  match ev_err ev with Some e => [SpanStatus id e; SpanError id e] | None => [] end ++
  (if 0 <? ev_rows ev then [SpanInt id "pgz.rows" (ev_rows ev)] else []) ++
  (if 0 <? ev_bytes ev then [SpanInt id "pgz.bytes" (ev_bytes ev)] else []) ++
  match ev_state ev with [] => [] | s => [SpanString id (str "db.sqlstate") s] end ++
  (if 0 <? ev_retries ev then [SpanInt id "pgz.retries" (ev_retries ev)] else []) ++
  [SpanEnd id].
Definition end_metrics (ev : QueryEvent) : list tel :=
  let a := state_attrs ev in
  [DurationRecord a] ++ (if 0 <? ev_rows ev then [RowsAdd (ev_rows ev) a] else []) ++
  match ev_err ev with Some _ => [ErrorsAdd a] | None => [] end.

Definition on_end (ev : QueryEvent) (o : Observer) : Observer :=
  let o := match o_start o with
           | Some id => set_start None (call (end_span id ev) o)
           | None => o
           end in
  if o_meter o then call (end_metrics ev) o else o.

(** The notice is never nil: the client parses one for every call. *)
Definition on_notice_event (n : PGError) (o : Observer) : Observer :=
  match o_start o with
  | None => o
  | Some id => call [SpanEvent id (Severity n) (Code n) (Message n)] o
  end.

Definition on_slow (ev : QueryEvent) (o : Observer) : Observer :=
  if negb (o_meter o) then o
  else
    let have := o_slow o || match instrument "pgz.query.slow" with None => true | Some _ => false end in
    let o := mkObserver (o_opts o) (o_meter o) have (o_start o) (o_next o) (o_calls o) in
    if have then call [SlowAdd] o else o.

(** The client's calls, in order, to an observer that stays installed. *)
Definition notify (o : Observer) (x : observed) : Observer :=
  match x with
  | OnQueryStart sql => on_start sql o
  | OnQueryEnd ev => on_end ev o
  | OnNotice n => on_notice_event n o
  | OnQuerySlow ev => on_slow ev o
  | Installed _ => o
  end.
Definition notify_all (o : Observer) (l : list observed) : Observer := fold_left notify l o.
End Otel.

(** ** Specification *)

(** The calls one query makes: its start, notices, its end, and perhaps the
    slow-query call. *)
Definition episode (sql : bytes) (ns : list PGError) (ev : QueryEvent) (slow : bool) : list observed :=
  OnQueryStart sql :: map OnNotice ns ++ OnQueryEnd ev :: (if slow then [OnQuerySlow ev] else []).
(** What a client that runs one query after another calls; notices may come in
    between. *)
Inductive sequential : list observed → list QueryEvent → Prop :=
| seq_nil : sequential [] []
| seq_notice n l evs : sequential l evs → sequential (OnNotice n :: l) evs
| seq_query sql ns ev slow l evs : sequential l evs → sequential (episode sql ns ev slow ++ l) (ev :: evs).

Definition started (l : list tel) : list nat := omap (λ t, match t with SpanStart i _ => Some i | _ => None end) l.
Definition span_ends (l : list tel) : list nat := omap (λ t, match t with SpanEnd i => Some i | _ => None end) l.
Definition rows_added (l : list tel) : Z := foldr (λ t n, match t with RowsAdd m _ => m + n | _ => n end) 0 l.
Definition errors_added (l : list tel) : nat := length (omap (λ t, match t with ErrorsAdd _ => Some tt | _ => None end) l).

Definition rows_seen (evs : list QueryEvent) : Z := foldr (λ ev n, Z.max 0 (ev_rows ev) + n) 0 evs.
Definition errors_seen (evs : list QueryEvent) : nat := length (omap ev_err evs).

(** ** Lemmas: the observer *)

Section OtelLemmas.
Context (recording : bool) (instrument : string → option gerror).

(** What stands after calls that neither start nor end a span. *)
Record same_spans (o o' : Observer) : Prop := {
  ss_start : o_start o' = o_start o;
  ss_next : o_next o' = o_next o;
  ss_meter : o_meter o' = o_meter o;
  ss_started : started (o_calls o') = started (o_calls o);
  ss_ended : span_ends (o_calls o') = span_ends (o_calls o);
  ss_rows : rows_added (o_calls o') = rows_added (o_calls o);
  ss_errors : errors_added (o_calls o') = errors_added (o_calls o)
}.
#[local] Instance same_spans_pre : PreOrder same_spans.
Proof. split; [by intros o; split|]. intros o1 o2 o3 [] []. split; congruence. Qed.

Lemma started_app l k : started (l ++ k) = started l ++ started k.
Proof. apply omap_app. Qed.
Lemma ends_app l k : span_ends (l ++ k) = span_ends l ++ span_ends k.
Proof. apply omap_app. Qed.
Lemma rows_app l k : rows_added (l ++ k) = rows_added l + rows_added k.
Proof. induction l as [|t l IH]; [done|]. cbn [app rows_added foldr] in *. destruct t; cbn; unfold rows_added in *; lia. Qed.
Lemma errors_app l k : errors_added (l ++ k) = (errors_added l + errors_added k)%nat.
Proof. unfold errors_added. by rewrite omap_app, length_app. Qed.

Lemma quiet_call l o : started l = [] → span_ends l = [] → rows_added l = 0 → errors_added l = 0%nat → same_spans o (call l o).
Proof.
  intros H1 H2 H3 H4. split; try done; cbn [call o_calls].
  - by rewrite started_app, H1, app_nil_r.
  - by rewrite ends_app, H2, app_nil_r.
  - rewrite rows_app. lia.
  - rewrite errors_app. lia.
Qed.

Lemma notice_same n o : same_spans o (on_notice_event n o).
Proof. unfold on_notice_event. destruct (o_start o); [by apply quiet_call|reflexivity]. Qed.
Lemma slow_same ev o : same_spans o (on_slow instrument ev o).
Proof. unfold on_slow. destruct (negb (o_meter o)); [reflexivity|]. cbv zeta. destruct (_ || _); [|done]. 
  etransitivity; [|by apply quiet_call]. done. Qed.
Lemma notices_same ns : ∀ o, same_spans o (notify_all recording instrument o (map OnNotice ns)).
Proof. induction ns as [|n ns IH]; intros o; [reflexivity|]. cbn [map notify_all fold_left]. etransitivity; [apply notice_same|apply IH]. Qed.

Lemma notify_app o l k : notify_all recording instrument o (l ++ k) = notify_all recording instrument (notify_all recording instrument o l) k.
Proof. apply fold_left_app. Qed.

Lemma end_span_counts id ev : started (end_span id ev) = [] ∧ span_ends (end_span id ev) = [id] ∧ rows_added (end_span id ev) = 0 ∧
  errors_added (end_span id ev) = 0%nat.
Proof. unfold end_span. destruct (ev_err ev), (0 <? ev_rows ev), (0 <? ev_bytes ev), (ev_state ev), (0 <? ev_retries ev); done. Qed.
Lemma end_metrics_counts ev : started (end_metrics ev) = [] ∧ span_ends (end_metrics ev) = [] ∧
  rows_added (end_metrics ev) = Z.max 0 (ev_rows ev) ∧ errors_added (end_metrics ev) = length (option_list (ev_err ev)).
Proof.
  unfold end_metrics. destruct (Z.ltb_spec 0 (ev_rows ev)), (ev_err ev); (split; [done|]; split; [done|]; split; [cbn; lia|done]).
Qed.

Lemma episode_counts o sql ns ev slow : o_start o = None →
  let o' := notify_all recording instrument o (episode sql ns ev slow) in
  o_start o' = None ∧ o_next o' = S (o_next o) ∧ o_meter o' = o_meter o ∧
  started (o_calls o') = started (o_calls o) ++ [o_next o] ∧ span_ends (o_calls o') = span_ends (o_calls o) ++ [o_next o] ∧
  (o_meter o = true → rows_added (o_calls o') = rows_added (o_calls o) + Z.max 0 (ev_rows ev) ∧
     errors_added (o_calls o') = (errors_added (o_calls o) + length (option_list (ev_err ev)))%nat).
Proof.
  intros Hs. cbv zeta. unfold episode. change (OnQueryStart sql :: map OnNotice ns ++ ?x) with ([OnQueryStart sql] ++ map OnNotice ns ++ x).
  rewrite !notify_app. set (o1 := notify_all recording instrument o [OnQueryStart sql]).
  assert (o_start o1 = Some (o_next o) ∧ o_next o1 = S (o_next o) ∧ o_meter o1 = o_meter o ∧
    started (o_calls o1) = started (o_calls o) ++ [o_next o] ∧ span_ends (o_calls o1) = span_ends (o_calls o) ∧
    rows_added (o_calls o1) = rows_added (o_calls o) ∧ errors_added (o_calls o1) = errors_added (o_calls o)) as (A1 & A2 & A3 & A4 & A5 & A6 & A7).
  { unfold o1. cbn [notify_all fold_left notify]. unfold on_start. cbn [o_start o_next o_meter o_calls].
    rewrite !started_app, !ends_app, !rows_app, !errors_app.
    destruct (recordSQL (o_opts o) && recording); cbn; rewrite ?app_nil_r; (repeat split; try done; lia). }
  destruct (notices_same ns o1) as [B1 B2 B3 B4 B5 B6 B7]. set (o2 := notify_all recording instrument o1 (map OnNotice ns)) in *.
  change (OnQueryEnd ev :: ?x) with ([OnQueryEnd ev] ++ x). rewrite notify_app.
  set (o3 := notify_all recording instrument o2 [OnQueryEnd ev]).
  destruct (end_span_counts (o_next o) ev) as (S1 & S2 & S3 & S4), (end_metrics_counts ev) as (M1 & M2 & M3 & M4).
  assert (o_start o3 = None ∧ o_next o3 = S (o_next o) ∧ o_meter o3 = o_meter o ∧
    started (o_calls o3) = started (o_calls o) ++ [o_next o] ∧ span_ends (o_calls o3) = span_ends (o_calls o) ++ [o_next o] ∧
    (o_meter o = true → rows_added (o_calls o3) = rows_added (o_calls o) + Z.max 0 (ev_rows ev) ∧
     errors_added (o_calls o3) = (errors_added (o_calls o) + length (option_list (ev_err ev)))%nat)) as (C1 & C2 & C3 & C4 & C5 & C6).
  { unfold o3. cbn [notify_all fold_left notify]. unfold on_end. rewrite B1, A1. cbn [set_start o_meter call]. rewrite B3, A3.
    destruct (o_meter o); cbn [call set_start o_start o_next o_meter o_calls];
      rewrite !started_app, !ends_app, ?rows_app, ?errors_app, S1, S2, ?S3, ?S4, ?M1, ?M2, ?M3, ?M4, ?app_nil_r;
      (repeat split; try congruence; intros; try done; lia). }
  assert (same_spans o3 (notify_all recording instrument o3 (if slow then [OnQuerySlow ev] else []))) as [D1 D2 D3 D4 D5 D6 D7]
    by (destruct slow; [apply slow_same|reflexivity]).
  rewrite D1, D2, D3, D4, D5, D6, D7. done.
Qed.
End OtelLemmas.

(** C23. One span per query, ended in the order started, none left open, and
    counters that add up: for whatever sequence of queries one client reports,
    the rows counter is the number of rows and the error counter the number of
    failed queries. *)
Theorem otel_accounts recording instrument o l evs (Hl : sequential l evs) (Hs : o_start o = None) :
  let o' := notify_all recording instrument o l in
  o_start o' = None ∧
  started (o_calls o') = started (o_calls o) ++ List.seq (o_next o) (length evs) ∧
  span_ends (o_calls o') = span_ends (o_calls o) ++ List.seq (o_next o) (length evs) ∧
  (o_meter o = true → rows_added (o_calls o') = rows_added (o_calls o) + rows_seen evs ∧
     errors_added (o_calls o') = (errors_added (o_calls o) + errors_seen evs)%nat).
Proof.
  revert o Hs. induction Hl as [|n l evs _ IH|sql ns ev slow l evs _ IH]; intros o Hs.
  - cbn. rewrite !app_nil_r. repeat split; try done; lia.
  - destruct (notice_same n o) as [B1 B2 B3 B4 B5 B6 B7]. destruct (IH (on_notice_event n o)) as (C1 & C2 & C3 & C4); [congruence|].
    cbv zeta. cbn [notify_all fold_left notify]. unfold notify_all in *. rewrite B2, B3, B4, B5, B6, B7 in *. done.
  - cbv zeta. rewrite notify_app. destruct (episode_counts recording instrument o sql ns ev slow Hs) as (A1 & A2 & A3 & A4 & A5 & A6).
    destruct (IH _ A1) as (C1 & C2 & C3 & C4). rewrite A2, A3, A4, A5 in *.
    split; [done|]. split; [by rewrite C2, <- app_assoc|]. split; [by rewrite C3, <- app_assoc|].
    intros Hm. destruct (C4 Hm) as [R E]. rewrite R, E. destruct (A6 Hm) as [-> ->].
    unfold rows_seen, errors_seen. cbn [foldr omap list_omap]. split; [lia|].
    destruct (ev_err ev); cbn; lia.
Qed.

(** ** What a client reports *)

(** The observer's log only gains notices. *)
Definition only_notices (c c' : Client) : Prop := ∃ ns, log c' = log c ++ map OnNotice ns.
#[export] Instance only_notices_pre : PreOrder only_notices.
Proof.
  split; [intros c; exists []; by rewrite app_nil_r|]. intros c1 c2 c3 [n1 H1] [n2 H2]. exists (n1 ++ n2).
  by rewrite H2, H1, <- app_assoc, map_app.
Qed.
#[export] Instance only_notices_footprint : Footprint only_notices.
Proof.
  split; [apply _|..]; intros; try (exists []; by rewrite app_nil_r). by exists [e].
Qed.

Section ExecLog.
Context {MO : MapOrder}.
Lemma execPrepare_log sql : stable only_notices (execPrepare sql).
Proof. unfold execPrepare, prepare_step. footprint. Qed.
Lemma execBind_log r args : stable only_notices (execBind r args).
Proof. unfold execBind, exec_step. footprint. Qed.
Lemma exec_cached_log n : ∀ first sql args, stable only_notices (exec_cached_loop n first sql args).
Proof.
  induction n as [|n IH]; intros first sql args; cbn [exec_cached_loop]; [footprint|]. unfold exec_obtain.
  pose proof execPrepare_log. pose proof execBind_log. footprint.
Qed.
Lemma exec_retry_log n : ∀ k ctx sql args, stable only_notices (exec_retry_loop n k ctx sql args).
Proof. induction n as [|n IH]; intros k ctx sql args; cbn [exec_retry_loop]; unfold execCached; pose proof exec_cached_log; footprint. Qed.
End ExecLog.

(** recordEnd makes the two calls that end an episode. *)
Lemma recordEnd_log sql n b dur err c : ∃ ev slow, log (recordEnd sql n b dur err c).2 =
    log c ++ OnQueryEnd ev :: (if slow : bool then [OnQuerySlow ev] else []) ∧ ev_sql ev = sql ∧ ev_err ev = err.
Proof.
  set (ev := mkEvent sql n b err (match err with Some (EPg e) => Code e | _ => [] end) (lastRetries c)).
  exists ev, ((0 <? SlowQueryThreshold (cfg c)) && (SlowQueryThreshold (cfg c) <=? dur)).
  split; [|by destruct err]. unfold recordEnd, modify. destruct err; cbn [snd log set_lastRetries];
    (destruct (_ && _) eqn:E; cbn in E |- *; rewrite ?E; cbn; by rewrite <- ?app_assoc).
Qed.

(** C24. Whatever the server, the writer and the context do, a query and a statement
    each report exactly one episode to the observer: their start, the notices
    met on the way, and one end event with the statement's text and the error
    the caller gets, also when the call panics. *)
Theorem queries_report_once {MO : MapOrder} ctx dur sql args :
  (∀ (W : Type) (OW : OutWriter W) mode (s : Client * W), let '(o, s') := runQueryInner ctx dur mode sql args s in
     ∃ ns ev slow, log s'.1 = log s.1 ++ episode sql ns ev slow ∧ ev_sql ev = sql ∧
       ev_err ev = match o with Err e => Some e | _ => None end) ∧
  (∀ c, let '(o, c') := Exec ctx dur sql args c in
     ∃ ns ev slow, log c' = log c ++ episode sql ns ev slow ∧ ev_sql ev = sql ∧
       ev_err ev = match o with Err e => Some e | _ => None end).
Proof.
  split.
  - intros W OW mode [c w]. unfold runQueryInner, with_record.
    assert (cl (modify (observe (OnQueryStart sql))) (c, w) = (Ret tt, (observe (OnQueryStart sql) c, w))) as E0 by done.
    step E0. set (m := _ ← cl (attachContext ctx); retry_loop maxRetries 1 ctx mode sql args).
    assert (bounded only_notices m) as Hm by (apply b_bind; [apply _|apply b_cl, f_attach, _|intros; apply b_retry, _]).
    specialize (Hm (observe (OnQueryStart sql) c, w)). destruct (m (observe (OnQueryStart sql) c, w)) as [o [c1 w1]].
    destruct Hm as [ns Hns]. cbn [fst snd] in Hns. unfold cl, zoom. cbn [fst snd].
    set (err := match o with Err e => Some e | _ => None end).
    destruct (recordEnd_log sql (lastRows c1) (BytesOut w1) dur err c1) as (ev & slow & Hl & H1 & H2).
    destruct (recordEnd _ _ _ _ _ c1) as [x c2]. cbn [fst snd] in *. exists ns, ev, slow. split; [|done].
    rewrite Hl, Hns. unfold episode. cbn. by rewrite <- !app_assoc.
  - intros c. unfold Exec, exec_record.
    assert (modify (observe (OnQueryStart sql)) c = (Ret tt, observe (OnQueryStart sql) c)) as E0 by done. step E0.
    set (m := _ ← attachContext ctx; exec_retry_loop 3 1 ctx sql args).
    assert (stable only_notices m) as Hm by (apply stable_bind; [apply _|apply f_attach, _|intros; apply exec_retry_log]).
    specialize (Hm (observe (OnQueryStart sql) c)). destruct (m (observe (OnQueryStart sql) c)) as [o c1].
    destruct Hm as [ns Hns]. set (err := match o with Err e => Some e | _ => None end).
    destruct (recordEnd_log sql 0 0 dur err c1) as (ev & slow & Hl & H1 & H2).
    destruct (recordEnd _ _ _ _ _ c1) as [x c2]. cbn [fst snd] in *. exists ns, ev, slow. split; [|done].
    rewrite Hl, Hns. unfold episode. cbn. by rewrite <- !app_assoc.
Qed.

(** An observer two clients share, as a pool's do, keeps one span at a time:
    when two queries overlap, the first one's span is never ended, the second
    one's carries the first one's outcome, and the second end finds none. *)
Theorem shared_observer_leaks recording instrument o sqlA sqlB evA evB : o_start o = None →
  let o' := notify_all recording instrument o [OnQueryStart sqlA; OnQueryStart sqlB; OnQueryEnd evA; OnQueryEnd evB] in
  started (o_calls o') = started (o_calls o) ++ [o_next o; S (o_next o)] ∧
  span_ends (o_calls o') = span_ends (o_calls o) ++ [S (o_next o)] ∧
  (∀ e, ev_err evA = Some e → SpanError (S (o_next o)) e ∈ o_calls o') ∧ o_start o' = None.
Proof.
  intros Hs. cbn [notify_all fold_left notify]. unfold on_end, on_start.
  cbn [o_opts o_meter o_slow o_start o_next o_calls set_start call].
  destruct (end_span_counts (S (o_next o)) evA) as (S1 & S2 & _), (end_metrics_counts evA) as (M1 & M2 & _), (end_metrics_counts evB) as (N1 & N2 & _).
  destruct (o_meter o), (recordSQL (o_opts o) && recording); cbn [call set_start o_start o_calls o_meter];
    rewrite !started_app, !ends_app, S1, S2, ?M1, ?M2, ?N1, ?N2; cbn; rewrite ?app_nil_r, <- ?app_assoc;
    (split; [done|]; split; [done|]; split; [|done]);
    intros e He; unfold end_span; rewrite He; set_solver.
Qed.

Definition demo_observer : Observer := mkObserver defaults true false None 0 [].
Definition demo_event (e : option gerror) (n : Z) : QueryEvent := mkEvent (str "select 1") n 0 e [] 0.

Lemma otel_accounts_witness :
  let l := OnNotice emptyError :: episode (str "select 1") [emptyError] (demo_event None 2) true ++
           episode (str "select 1") [] (demo_event (Some EWrite) 0) false in
  let o' := notify_all true (λ _, None) demo_observer l in
  o_start o' = None ∧ started (o_calls o') = [0; 1]%nat ∧ span_ends (o_calls o') = [0; 1]%nat ∧
  (true = true → rows_added (o_calls o') = 2 ∧ errors_added (o_calls o') = 1%nat).
Proof.
  apply (otel_accounts true (λ _, None) demo_observer _ [demo_event None 2; demo_event (Some EWrite) 0]); [|reflexivity].
  apply seq_notice, seq_query. rewrite <- (app_nil_r (episode (str "select 1") [] _ _)). apply seq_query, seq_nil.
Defined.

Lemma shared_observer_leaks_witness :
  let o' := notify_all true (λ _, None) demo_observer
              [OnQueryStart (str "a"); OnQueryStart (str "b"); OnQueryEnd (demo_event (Some EWrite) 0); OnQueryEnd (demo_event None 1)] in
  started (o_calls o') = [0; 1]%nat ∧ span_ends (o_calls o') = [1]%nat ∧
  (∀ e, Some EWrite = Some e → SpanError 1 e ∈ o_calls o') ∧ o_start o' = None.
Proof.
  exact (shared_observer_leaks true (λ _, None) demo_observer (str "a") (str "b") (demo_event (Some EWrite) 0) (demo_event None 1) eq_refl).
Defined.
