(* ===== verification/Pool.v ===== *)
(** pgz/pool/pool.go: the connection pool as a system of goroutines.  Every
    critical section is one function on the [Pool]; a goroutine is its program
    point between two of them ([goroutine]), [advance] runs it to the next one,
    and [step] interleaves any number of goroutines.  The clock, the outcome of
    a dial or a ping and the end of a context are inputs of a step.  A client
    is its identity; a one-slot channel is empty or holds an entry or nil. *)
From S2P Require Import Prelude Client.

(** ** Configuration *)

Record Config := mkConfig {
  client : Client.Config;
  MaxConns : Z;
  MinIdle : Z;
  IdleTimeout : Z;
  AcquireTimeout : Z;
  HealthCheck : Z;
  PingAfterIdle : Z;
  MaxConnLifetime : Z;
  MaxInFlightBuffers : Z
}.

(** The defaults, and the call to bufferpool.SetMaxLive, if any. *)
Definition applyDefaults (c : Config) : Config * option Z :=
  (mkConfig (client c)
     (if MaxConns c <=? 0 then 16 else MaxConns c)
     (MinIdle c)
     (if IdleTimeout c <=? 0 then 5 * 60 * second else IdleTimeout c)
     (AcquireTimeout c)
     (if HealthCheck c <=? 0 then 30 * second else HealthCheck c)
     (if PingAfterIdle c =? 0 then 30 * second else PingAfterIdle c)
     (if MaxConnLifetime c =? 0 then 60 * 60 * second else MaxConnLifetime c)
     (MaxInFlightBuffers c),
   if 0 <? MaxInFlightBuffers c then Some (MaxInFlightBuffers c) else None).

(** ** State *)

(** [bornAt] is [None] for the zero time.Time. *)
Record entry := mkEntry { e_c : nat; lastUsed : Z; bornAt : option Z }.

Record Pool := mkPool {
  cfg : Config;
  idle : list entry;
  open : Z;
  inUse : Z;
  closed : bool;
  draining : bool;
  waiters : list nat
}.

Definition set_idle x (p : Pool) := mkPool (cfg p) x (open p) (inUse p) (closed p) (draining p) (waiters p).
Definition set_open x (p : Pool) := mkPool (cfg p) (idle p) x (inUse p) (closed p) (draining p) (waiters p).
Definition set_inUse x (p : Pool) := mkPool (cfg p) (idle p) (open p) x (closed p) (draining p) (waiters p).
Definition set_closed x (p : Pool) := mkPool (cfg p) (idle p) (open p) (inUse p) x (draining p) (waiters p).
Definition set_draining x (p : Pool) := mkPool (cfg p) (idle p) (open p) (inUse p) (closed p) x (waiters p).
Definition set_waiters x (p : Pool) := mkPool (cfg p) (idle p) (open p) (inUse p) (closed p) (draining p) x.

(** [now.Sub(t)], which saturates; the zero time is centuries away. *)
Definition maxDuration : Z := 2 ^ 63 - 1.
Definition Sub (now : Z) (t : option Z) : Z :=
  match t with
  | None => maxDuration
  | Some t => Z.max (- 2 ^ 63) (Z.min maxDuration (now - t))
  end.

(** ** The critical sections *)

Inductive entered := EnClosed | EnIdle (e : entry) | EnDial | EnWait.

(** acquireOnce; [ch] is the channel it would wait on. *)
Definition acquire_enter (ch : nat) (p : Pool) : entered * Pool :=
  if closed p || draining p then (EnClosed, p)
  else match last (idle p) with
  | Some e => (EnIdle e, set_inUse (inUse p + 1) (set_idle (removelast (idle p)) p))
  | None =>
      if open p <? MaxConns (cfg p)
      then (EnDial, set_inUse (inUse p + 1) (set_open (open p + 1) p))
      else (EnWait, set_waiters (waiters p ++ [ch]) p)
  end.

(** The [ctx.Done()] case: stop waiting on [ch]. *)
Fixpoint remove_first (ch : nat) (l : list nat) : list nat :=
  match l with [] => [] | w :: l => if Nat.eqb w ch then l else w :: remove_first ch l end.
Definition waiter_leave (ch : nat) (p : Pool) : Pool := set_waiters (remove_first ch (waiters p)) p.

Inductive put_result := PutClose | PutSend (w : nat) | PutIdle.

(** put, up to its first unlock; the flag is the Broadcast. *)
Definition put (e : entry) (p : Pool) : put_result * bool * Pool :=
  let p := set_inUse (inUse p - 1) p in
  let bc := inUse p =? 0 in
  if closed p || draining p then (PutClose, bc, p)
  else match waiters p with
  | w :: ws => (PutSend w, bc, set_waiters ws p)
  | [] => (PutIdle, bc, set_idle (idle p ++ [e]) p)
  end.

(** Discard's own section, and discard: the waiter to replace for, if any. *)
Definition discard_count (p : Pool) : bool * Pool :=
  let p := set_inUse (inUse p - 1) p in (inUse p =? 0, p).
Definition discard (p : Pool) : option nat * Pool :=
  let p := set_open (open p - 1) p in
  match waiters p with
  | w :: ws => (Some w, set_waiters ws p)
  | [] => (None, p)
  end.

Definition drain_enter (p : Pool) : option (list entry * list nat) * Pool :=
  if closed p then (None, p)
  else (Some (idle p, waiters p), set_waiters [] (set_idle [] (set_draining true p))).

Definition close_enter (p : Pool) : option (list entry * list nat) * Pool :=
  if closed p then (None, p)
  else (Some (idle p, waiters p), set_waiters [] (set_idle [] (set_closed true p))).

(** evictIdle's loop over the idle entries. *)
Definition evict_one (cutoff minIdle : Z) (a : list entry * list entry * Z) (e : entry) : list entry * list entry * Z :=
  let '(keep, drop, opn) := a in
  if (lastUsed e <? cutoff) && (minIdle <? Zlen keep + 1) then (keep, drop ++ [e], opn - 1)
  else (keep ++ [e], drop, opn).
Definition evictIdle (now : Z) (p : Pool) : list entry * Pool :=
  let '(keep, drop, opn) :=
    fold_left (evict_one (now - IdleTimeout (cfg p)) (MinIdle (cfg p))) (idle p) ([], [], open p) in
  (drop, set_open opn (set_idle keep p)).

Record Stats_ := mkStats { Open : Z; Idle : Z; InUse : Z; Waiting_ : Z; Max : Z }.
Definition Stats (p : Pool) : Stats_ :=
  mkStats (open p) (Zlen (idle p)) (inUse p) (Zlen (waiters p)) (MaxConns (cfg p)).

(** ** Goroutines *)

Inductive outcome := OErrClosed | OErrDial | OErrCtx | OErrExhausted | OReleased | ODiscarded | OQuiet | OStopped.

(** Program points.  [retry] is Acquire's loop counter; a discarding goroutine
    is in Acquire's loop or was called by the connection's user. *)
Inductive goroutine :=
  | Acquiring (retry : nat)
  | Dialing (retry : nat)
  | DialFailed
  | Waiting (retry ch : nat)
  | GivingUp (ch : nat)
  | Received (retry : nat) (e : entry)
  | Validating (retry : nat) (e : entry)
  | Pinging (retry : nat) (e : entry)
  | Holding (e : entry)
  | Putting (e : entry)
  | PutClosing (e : entry)
  | PutClosed
  | Discarding (k : nat + outcome)
  | Dropping (k : nat + outcome)
  | Sending (ch : nat) (o : option entry)
  | Replacing (ch : nat)
  | ReplaceFailed (ch : nat)
  | ReplaceUndo
  | Replaced (ch : nat) (e : entry)
  | ReplaceClosing (ch : nat) (e : entry)
  | DrainCall
  | Draining (es : list entry) (n : Z) (ws : list nat)
  | DrainCount (n : Z) (ws : list nat)
  | DrainWake (ws : list nat)
  | WaitIdleCall
  | IdleSelect (d : nat)
  | IdleCheck (d : nat) (strict : bool)
  | IdleParked (d : nat) (strict : bool)
  | CloseCall
  | CloseStop (es : list entry) (ws : list nat)
  | CloseWake (es : list entry) (ws : list nat)
  | Reaping
  | Evicting (es : list entry)
  | Finished (o : outcome).

#[export] Instance entry_eq_dec : EqDecision entry.
Proof. solve_decision. Defined.
#[export] Instance outcome_eq_dec : EqDecision outcome.
Proof. solve_decision. Defined.
#[export] Instance goroutine_eq_dec : EqDecision goroutine.
Proof. solve_decision. Defined.

Record Shared := mkShared {
  pool : Pool;
  bufs : list (nat * option entry);   (* the full channels *)
  dones : list nat;                   (* the [done] channels already closed *)
  stop : bool;                        (* stopReaper is closed *)
  dead : list nat;                    (* the clients closed *)
  nextClient : nat;
  nextChan : nat;
  (* history: replacements registered, replacements that failed and undid a
     slot, idle connections closed by Close *)
  replaced : Z;
  failures : Z;
  abandoned : Z
}.

Definition set_pool x (s : Shared) := mkShared x (bufs s) (dones s) (stop s) (dead s) (nextClient s) (nextChan s) (replaced s) (failures s) (abandoned s).
Definition set_bufs x (s : Shared) := mkShared (pool s) x (dones s) (stop s) (dead s) (nextClient s) (nextChan s) (replaced s) (failures s) (abandoned s).
Definition set_dones x (s : Shared) := mkShared (pool s) (bufs s) x (stop s) (dead s) (nextClient s) (nextChan s) (replaced s) (failures s) (abandoned s).
Definition set_stop (s : Shared) := mkShared (pool s) (bufs s) (dones s) true (dead s) (nextClient s) (nextChan s) (replaced s) (failures s) (abandoned s).
(** [e.c.Close()] *)
Definition close_client (e : entry) (s : Shared) := mkShared (pool s) (bufs s) (dones s) (stop s) (e_c e :: dead s) (nextClient s) (nextChan s) (replaced s) (failures s) (abandoned s).
(** A new client, a new channel. *)
Definition mint (s : Shared) := mkShared (pool s) (bufs s) (dones s) (stop s) (dead s) (S (nextClient s)) (nextChan s) (replaced s) (failures s) (abandoned s).
Definition make_chan (s : Shared) := mkShared (pool s) (bufs s) (dones s) (stop s) (dead s) (nextClient s) (S (nextChan s)) (replaced s) (failures s) (abandoned s).
Definition count_replaced (s : Shared) := mkShared (pool s) (bufs s) (dones s) (stop s) (dead s) (nextClient s) (nextChan s) (replaced s + 1) (failures s) (abandoned s).
Definition count_failure (s : Shared) := mkShared (pool s) (bufs s) (dones s) (stop s) (dead s) (nextClient s) (nextChan s) (replaced s) (failures s + 1) (abandoned s).
Definition count_abandoned n (s : Shared) := mkShared (pool s) (bufs s) (dones s) (stop s) (dead s) (nextClient s) (nextChan s) (replaced s) (failures s) (abandoned s + n).

Definition full (ch : nat) (l : list (nat * option entry)) : bool := existsb (λ b, Nat.eqb (fst b) ch) l.
(** [e := <-ch] *)
Fixpoint recv (ch : nat) (l : list (nat * option entry)) : option (option entry * list (nat * option entry)) :=
  match l with
  | [] => None
  | (c, o) :: l => if Nat.eqb c ch then Some (o, l) else match recv ch l with Some (x, l) => Some (x, (c, o) :: l) | None => None end
  end.

(** What the environment decides at a step. *)
Inductive input := Go | At (now : Z) | Fails.

(** The goroutine's next point, what it spawns, whether it broadcasts. *)
Definition moved : Type := goroutine * list goroutine * bool * Shared.
Definition moves (g : goroutine) (s : Shared) : option moved := Some (g, [], false, s).
(** Acquire's [maxRetries]. *)
Definition maxAcquireRetries : nat := 3.

(** acquireOnce, behind Acquire's loop head. *)
Definition acquireOnce_step (i : input) (g : goroutine) (s : Shared) : option moved :=
  let p := pool s in
  match g, i with
  | Acquiring retry, Go =>
      if Nat.leb maxAcquireRetries retry then moves (Finished OErrExhausted) s
      else match acquire_enter (nextChan s) p with
           | (EnClosed, p) => moves (Finished OErrClosed) (set_pool p s)
           | (EnIdle e, p) => moves (Validating retry e) (set_pool p s)
           | (EnDial, p) => moves (Dialing retry) (set_pool p s)
           | (EnWait, p) => moves (Waiting retry (nextChan s)) (make_chan (set_pool p s))
           end
  | Dialing retry, At now => moves (Validating retry (mkEntry (nextClient s) now (Some now))) (mint s)
  | Dialing _, Fails => moves DialFailed s
  | DialFailed, Go => moves (Dropping (inr OErrDial)) (set_pool (set_inUse (inUse p - 1) p) s)
  | Waiting retry ch, Go =>
      match recv ch (bufs s) with
      | Some (Some e, l) => moves (Received retry e) (set_bufs l s)
      | Some (None, l) => moves (Finished OErrClosed) (set_bufs l s)
      | None => None
      end
  | Waiting _ ch, Fails => moves (GivingUp ch) s
  | GivingUp ch, Go => moves (Finished OErrCtx) (set_pool (waiter_leave ch p) s)
  | Received retry e, Go => moves (Validating retry e) (set_pool (set_inUse (inUse p + 1) p) s)
  | _, _ => None
  end.

(** Acquire: lifetime and liveness of the connection it was given. *)
Definition validate_step (i : input) (g : goroutine) (s : Shared) : option moved :=
  let p := pool s in
  match g, i with
  | Validating retry e, At now =>
      if (0 <? MaxConnLifetime (cfg p)) && (MaxConnLifetime (cfg p) <? Sub now (bornAt e))
      then moves (Discarding (inl retry)) (close_client e s)
      else if (0 <? PingAfterIdle (cfg p)) && (PingAfterIdle (cfg p) <? Sub now (Some (lastUsed e)))
      then moves (Pinging retry e) s
      else moves (Holding e) s
  | Pinging _ e, Go => moves (Holding e) s
  | Pinging retry e, Fails => moves (Discarding (inl retry)) (close_client e s)
  | _, _ => None
  end.

(** Release (put) and Discard, by the user or by Acquire, and discard. *)
Definition release_step (i : input) (g : goroutine) (s : Shared) : option moved :=
  let p := pool s in
  match g, i with
  | Holding e, At now => moves (Putting (mkEntry (e_c e) now (bornAt e))) s
  | Holding e, Fails => moves (Discarding (inr ODiscarded)) (close_client e s)
  | Putting e, Go =>
      match put e p with
      | (PutClose, bc, p) => Some (PutClosing e, [], bc, set_pool p s)
      | (PutSend w, bc, p) => Some (Sending w (Some e), [], bc, set_pool p s)
      | (PutIdle, bc, p) => Some (Finished OReleased, [], bc, set_pool p s)
      end
  | PutClosing e, Go => moves PutClosed (close_client e s)
  | PutClosed, Go => moves (Finished OReleased) (set_pool (set_open (open p - 1) p) s)
  | Discarding k, Go => let '(bc, p) := discard_count p in Some (Dropping k, [], bc, set_pool p s)
  | Dropping k, Go =>
      let '(w, p) := discard p in
      Some (match k with inl retry => Acquiring (S retry) | inr o => Finished o end,
            match w with Some w => [Replacing w] | None => [] end, false, set_pool p s)
  | Sending ch o, Go => if full ch (bufs s) then None else moves (Finished OReleased) (set_bufs ((ch, o) :: bufs s) s)
  | _, _ => None
  end.

(** discard's replacement goroutine. *)
Definition replace_step (i : input) (g : goroutine) (s : Shared) : option moved :=
  let p := pool s in
  match g, i with
  | Replacing ch, At now => moves (Replaced ch (mkEntry (nextClient s) now None)) (mint s)
  | Replacing ch, Fails => moves (ReplaceFailed ch) s
  | ReplaceFailed ch, Go => if full ch (bufs s) then None else moves ReplaceUndo (set_bufs ((ch, None) :: bufs s) s)
  | ReplaceUndo, Go =>
      if closed p then moves (Finished OStopped) s
      else moves (Finished OStopped) (count_failure (set_pool (set_open (open p - 1) p) s))
  | Replaced ch e, Go =>
      if closed p then moves (ReplaceClosing ch e) s
      else moves (Sending ch (Some e)) (count_replaced (set_pool (set_open (open p + 1) p) s))
  | ReplaceClosing ch e, Go => moves (Sending ch None) (close_client e s)
  | _, _ => None
  end.

(** Drain. *)
Definition drainPool_step (i : input) (g : goroutine) (s : Shared) : option moved :=
  let p := pool s in
  match g, i with
  | DrainCall, Go =>
      match drain_enter p with
      | (None, _) => moves (Finished OQuiet) s
      | (Some (es, ws), p) => moves (Draining es (Zlen es) ws) (set_pool p s)
      end
  | Draining (e :: es) n ws, Go => moves (Draining es n ws) (close_client e s)
  | Draining [] n ws, Go => moves (DrainCount n ws) s
  | DrainCount n ws, Go => moves (DrainWake ws) (set_pool (set_open (open p - n) p) s)
  | DrainWake (w :: ws), Go => if full w (bufs s) then None else moves (DrainWake ws) (set_bufs ((w, None) :: bufs s) s)
  | DrainWake [], Go => Some (IdleSelect (nextChan s), [IdleCheck (nextChan s) false], false, make_chan s)
  | _, _ => None
  end.

(** WaitIdle, and the wait both share. *)
Definition idle_step (i : input) (g : goroutine) (s : Shared) : option moved :=
  let p := pool s in
  match g, i with
  | WaitIdleCall, Go => Some (IdleSelect (nextChan s), [IdleCheck (nextChan s) true], false, make_chan s)
  | IdleSelect d, Go => if existsb (Nat.eqb d) (dones s) then moves (Finished OQuiet) s else None
  | IdleSelect d, Fails => Some (Finished OErrCtx, [], true, s)
  | IdleCheck d strict, Go =>
      if (0 <? inUse p) && negb (strict && closed p) then moves (IdleParked d strict) s
      else moves (Finished OStopped) (set_dones (d :: dones s) s)
  | _, _ => None
  end.

(** Close. *)
Definition close_step (i : input) (g : goroutine) (s : Shared) : option moved :=
  let p := pool s in
  match g, i with
  | CloseCall, Go =>
      match close_enter p with
      | (None, _) => moves (Finished OStopped) s
      | (Some (es, ws), p) => Some (CloseStop es ws, [], true, count_abandoned (Zlen es) (set_pool p s))
      end
  | CloseStop es ws, Go => moves (CloseWake es ws) (set_stop s)
  | CloseWake es (w :: ws), Go => if full w (bufs s) then None else moves (CloseWake es ws) (set_bufs ((w, None) :: bufs s) s)
  | CloseWake (e :: es) [], Go => moves (CloseWake es []) (close_client e s)
  | CloseWake [] [], Go => moves (Finished OStopped) s
  | _, _ => None
  end.

(** The reaper, with evictIdle. *)
Definition reaper_step (i : input) (g : goroutine) (s : Shared) : option moved :=
  let p := pool s in
  match g, i with
  | Reaping, Go => if stop s then moves (Finished OStopped) s else None
  | Reaping, At now => let '(drop, p) := evictIdle now p in moves (Evicting drop) (set_pool p s)
  | Evicting (e :: es), Go => moves (Evicting es) (close_client e s)
  | Evicting [], Go => moves Reaping s
  | _, _ => None
  end.

Definition advance (i : input) (g : goroutine) (s : Shared) : option moved :=
  match g with
  | Acquiring _ | Dialing _ | DialFailed | Waiting _ _ | GivingUp _ | Received _ _ => acquireOnce_step i g s
  | Validating _ _ | Pinging _ _ => validate_step i g s
  | Holding _ | Putting _ | PutClosing _ | PutClosed | Discarding _ | Dropping _ | Sending _ _ => release_step i g s
  | Replacing _ | ReplaceFailed _ | ReplaceUndo | Replaced _ _ | ReplaceClosing _ _ => replace_step i g s
  | DrainCall | Draining _ _ _ | DrainCount _ _ | DrainWake _ => drainPool_step i g s
  | WaitIdleCall | IdleSelect _ | IdleCheck _ _ => idle_step i g s
  | CloseCall | CloseStop _ _ | CloseWake _ _ => close_step i g s
  | Reaping | Evicting _ => reaper_step i g s
  | IdleParked _ _ | Finished _ => None
  end.

(** idleCond.Broadcast *)
Definition wake (g : goroutine) : goroutine :=
  match g with IdleParked d strict => IdleCheck d strict | g => g end.

Record Sys := mkSys { shared : Shared; goroutines : list goroutine }.

Definition run (n : nat) (i : input) (s : Sys) : option Sys :=
  match goroutines s !! n with
  | None => None
  | Some g =>
      match advance i g (shared s) with
      | None => None
      | Some (g, sp, bc, sh) =>
          let gs := <[n := g]> (goroutines s) in
          Some (mkSys sh ((if bc : bool then map wake gs else gs) ++ sp))
      end
  end.

(** The calls a user of the pool can make at any moment, from any goroutine. *)
Definition calls : list goroutine := [Acquiring 0; DrainCall; WaitIdleCall; CloseCall].
Definition call (g : goroutine) (s : Sys) : Sys := mkSys (shared s) (goroutines s ++ [g]).

Inductive step (s : Sys) : Sys → Prop :=
  | step_call g : g ∈ calls → step s (call g s)
  | step_run n i s' : run n i s = Some s' → step s s'.

(** New opens MinIdle connections; [dials] are the times they are opened at.
    A failed dial closes the pool again and is not a start. *)
Fixpoint new_loop (n : nat) (dials : list Z) (s : Shared) : option Shared :=
  match n with
  | O => Some s
  | S n =>
      match dials with
      | [] => None
      | now :: dials =>
          let p := pool s in
          new_loop n dials
            (mint (set_pool (set_open (open p + 1) (set_idle (idle p ++ [mkEntry (nextClient s) now (Some now)]) p)) s))
      end
  end.
Definition New (c : Config) (dials : list Z) : option Sys :=
  let c := fst (applyDefaults c) in
  match new_loop (Z.to_nat (MinIdle c)) dials
          (mkShared (mkPool c [] 0 0 false false []) [] [] false [] 0 0 0 0 0) with
  | Some s => Some (mkSys s [Reaping])
  | None => None
  end.

Definition reachable (c : Config) (s : Sys) : Prop := ∃ dials s0, New c dials = Some s0 ∧ rtc step s0 s.
