(* ===== verification/PoolSpec.v ===== *)
(** What the pool keeps invariant, whatever its goroutines do and in whatever
    order: every connection is in exactly one place, the counters count what
    they are meant to, capacity, and sends that never block; and runs that show
    where the promises of the package's comments stop. *)
From S2P Require Import Prelude Client Pool.

(** ** Counting *)

Definition b2z (b : bool) : Z := if b then 1 else 0.
Fixpoint count (n : nat) (l : list nat) : Z := match l with [] => 0 | m :: l => b2z (Nat.eqb m n) + count n l end.
Fixpoint total (f : goroutine → Z) (gs : list goroutine) : Z := match gs with [] => 0 | g :: gs => f g + total f gs end.

(** The clients a goroutine has its hands on. *)
Definition holds (g : goroutine) : list nat :=
  match g with
  | Received _ e | Validating _ e | Pinging _ e | Holding e | Putting e | PutClosing e
  | Sending _ (Some e) | Replaced _ e | ReplaceClosing _ e => [e_c e]
  | Draining es _ _ | CloseStop es _ | CloseWake es _ | Evicting es => map e_c es
  | _ => []
  end.

(** The clients in full channels. *)
Definition in_flight (l : list (nat * option entry)) : list nat :=
  concat (map (λ b, match snd b with Some e => [e_c e] | None => [] end) l).

(** Goroutines the inUse counter counts: between acquireOnce and put or
    Discard. *)
Definition in_use (g : goroutine) : Z :=
  match g with
  | Dialing _ | DialFailed | Validating _ _ | Pinging _ _ | Holding _ | Putting _ | Discarding _ => 1
  | _ => 0
  end.

(** Slots of the open counter a goroutine accounts for. *)
Definition slots (g : goroutine) : Z :=
  match g with
  | Dialing _ | DialFailed | Received _ _ | Validating _ _ | Pinging _ _ | Holding _ | Putting _
  | PutClosing _ | PutClosed | Discarding _ | Dropping _ | Sending _ (Some _) => 1
  | Draining _ n _ | DrainCount n _ => n
  | _ => 0
  end.

(** The channels a goroutine has taken off the waiters list to send on. *)
Definition sends (g : goroutine) : list nat :=
  match g with
  | Sending ch _ | Replacing ch | ReplaceFailed ch | Replaced ch _ | ReplaceClosing ch _ => [ch]
  | Draining _ _ ws | DrainCount _ ws | DrainWake ws | CloseStop _ ws | CloseWake _ ws => ws
  | _ => []
  end.

(** Where a client can be: idle, in a channel, in a goroutine's hands, closed. *)
Definition places (c : nat) (s : Sys) : Z :=
  count c (map e_c (idle (pool (shared s)))) + count c (in_flight (bufs (shared s))) +
  total (λ g, count c (holds g)) (goroutines s) + count c (dead (shared s)).
Definition opened (c : nat) (s : Sys) : Z := b2z (Nat.ltb c (nextClient (shared s))).

(** Where a channel can be: waited on in the list, about to be sent on, full. *)
Definition uses_of (ch : nat) (s : Sys) : Z :=
  count ch (waiters (pool (shared s))) + total (λ g, count ch (sends g)) (goroutines s) +
  count ch (map fst (bufs (shared s))).

(** Connections and dials the pool is responsible for. *)
Definition held_slots (s : Sys) : Z :=
  Zlen (idle (pool (shared s))) + Zlen (in_flight (bufs (shared s))) + total slots (goroutines s).

(** The most the open counter may reach by itself. *)
Definition capacity (c : Config) : Z := Z.max (MaxConns c) (MinIdle c).

Record pool_ok (s : Sys) : Prop := {
  ok_places : ∀ c, places c s = opened c s;
  ok_uses : ∀ ch, uses_of ch s <= b2z (Nat.ltb ch (nextChan (shared s)));
  ok_inUse : inUse (pool (shared s)) = total in_use (goroutines s);
  ok_open : open (pool (shared s)) = held_slots s - failures (shared s) + abandoned (shared s);
  ok_slots : Forall (λ g, 0 <= slots g) (goroutines s);
  ok_cap : open (pool (shared s)) <= capacity (cfg (pool (shared s))) + replaced (shared s);
  ok_history : 0 <= replaced (shared s) ∧ 0 <= abandoned (shared s)
}.

(** Runs: calls and steps in the order they happen. *)
Inductive event := Calls (g : goroutine) | Runs (n : nat) (i : input).
Fixpoint exec (evs : list event) (s : Sys) : option Sys :=
  match evs with
  | [] => Some s
  | Calls g :: evs => if bool_decide (g ∈ calls) then exec evs (call g s) else None
  | Runs n i :: evs => match run n i s with Some s => exec evs s | None => None end
  end.

(** ** Sums *)

Lemma count_app n l k : count n (l ++ k) = count n l + count n k.
Proof. induction l as [|m l IH]; cbn; [done|]. rewrite IH. lia. Qed.
Lemma count_nonneg n l : 0 <= count n l.
Proof. induction l as [|m l IH]; cbn; [done|]. destruct (Nat.eqb m n); cbn; lia. Qed.
Lemma count_pos n l : n ∈ l → 1 <= count n l.
Proof.
  intros H. apply list_elem_of_split in H as (a & b & ->). rewrite count_app. cbn. rewrite Nat.eqb_refl.
  pose proof (count_nonneg n a). pose proof (count_nonneg n b). cbn. lia.
Qed.

Lemma total_app f l k : total f (l ++ k) = total f l + total f k.
Proof. induction l as [|g l IH]; cbn; [done|]. rewrite IH. lia. Qed.
Lemma total_nonneg f l : (∀ g, 0 <= f g) → 0 <= total f l.
Proof. intros Hf. induction l as [|g l IH]; cbn; [done|]. specialize (Hf g). lia. Qed.
Lemma total_insert f l : ∀ n g g', l !! n = Some g → total f (<[n := g']> l) = total f l - f g + f g'.
Proof.
  induction l as [|x l IH]; intros [|n] g g' H; cbn in *; simplify_eq; [lia|]. rewrite (IH _ _ _ H). lia.
Qed.
Lemma total_lookup f l : (∀ g, 0 <= f g) → ∀ n g, l !! n = Some g → f g <= total f l.
Proof.
  intros Hf. induction l as [|x l IH]; intros [|n] g H; cbn in *; simplify_eq.
  - pose proof (total_nonneg f l Hf). lia.
  - specialize (IH _ _ H). specialize (Hf x). lia.
Qed.
Lemma total_two f l : (∀ g, 0 <= f g) → ∀ n m g g', n ≠ m → l !! n = Some g → l !! m = Some g' → f g + f g' <= total f l.
Proof.
  intros Hf. induction l as [|x l IH]; intros [|n] [|m] g g' Hne Hn Hm; cbn in *; simplify_eq.
  - pose proof (total_lookup f l Hf _ _ Hm). lia.
  - pose proof (total_lookup f l Hf _ _ Hn). lia.
  - specialize (IH n m g g' ltac:(lia) Hn Hm). specialize (Hf x). lia.
Qed.
Lemma total_wake f gs : (∀ g, f (wake g) = f g) → total f (map wake gs) = total f gs.
Proof. intros Hf. induction gs as [|g gs IH]; cbn; [done|]. by rewrite Hf, IH. Qed.

(** ** One goroutine's step *)

Lemma recv_split ch l o l' : recv ch l = Some (o, l') → ∃ a b, l = a ++ (ch, o) :: b ∧ l' = a ++ b.
Proof.
  revert l'. induction l as [|[c x] l IH]; intros l' H; [done|]. cbn in H. destruct (Nat.eqb_spec c ch) as [->|Hc].
  - simplify_eq. by eexists [], _.
  - destruct (recv ch l) as [[y k]|]; [|done]. simplify_eq. destruct (IH _ eq_refl) as (a & b & -> & ->). by exists ((c, x) :: a), b.
Qed.

Lemma in_flight_app l k : in_flight (l ++ k) = in_flight l ++ in_flight k.
Proof. unfold in_flight. by rewrite map_app, concat_app. Qed.
Lemma in_flight_cons ch o l : in_flight ((ch, o) :: l) = match o with Some e => [e_c e] | None => [] end ++ in_flight l.
Proof. done. Qed.

Lemma last_split (l : list entry) e : last l = Some e → l = removelast l ++ [e].
Proof. intros H. apply last_Some in H as [l' ->]. by rewrite removelast_last. Qed.

Lemma evict_split cutoff m es : ∀ keep drop opn keep' drop' opn',
  fold_left (evict_one cutoff m) es (keep, drop, opn) = (keep', drop', opn') →
  (∀ c, count c (map e_c keep') + count c (map e_c drop') =
        count c (map e_c keep) + count c (map e_c drop) + count c (map e_c es)) ∧
  Zlen keep' + opn - opn' = Zlen keep + Zlen es ∧ Zlen drop' = Zlen drop + opn - opn'.
Proof.
  induction es as [|e es IH]; intros keep drop opn keep' drop' opn' H; cbn [fold_left] in H.
  - simplify_eq. change (Zlen (@nil entry)) with 0. split; [|split]; intros; cbn; lia.
  - unfold evict_one in H at 2. destruct (_ && _); destruct (IH _ _ _ _ _ _ H) as (Hc & Hk & Hd);
      rewrite ?Zlen_app, ?Zlen_cons in *; (split; [|split]).
    all: try (intros c; rewrite Hc, !map_app, !count_app; cbn; lia).
    all: change (Zlen (@nil entry)) with 0 in *; lia.
Qed.

Lemma b2z_range b : 0 <= b2z b <= 1.
Proof. by destruct b. Qed.
Ltac b2z_bounds :=
  let note b := (lazymatch goal with _ : 0 <= b2z b <= 1 |- _ => fail | _ => pose proof (b2z_range b) end) in
  repeat match goal with
  | H : context [b2z ?b] |- _ => note b
  | |- context [b2z ?b] => note b
  end.

Lemma lt_succ c n : b2z (Nat.ltb c (S n)) = b2z (Nat.ltb c n) + b2z (Nat.eqb n c).
Proof. destruct (Nat.ltb_spec c (S n)), (Nat.ltb_spec c n), (Nat.eqb_spec n c); cbn; lia. Qed.

Lemma count_remove_first c ch l : count c (remove_first ch l) <= count c l.
Proof.
  induction l as [|w l IH]; [done|]. cbn. pose proof (count_nonneg c l).
  destruct (Nat.eqb w ch); cbn; destruct (Nat.eqb w c); cbn; lia.
Qed.

Definition buffered (o : option entry) : list nat := match o with Some e => [e_c e] | None => [] end.

Lemma recv_facts ch l o l' : recv ch l = Some (o, l') →
  (∀ c, count c (in_flight l) = count c (buffered o) + count c (in_flight l')) ∧
  (∀ c, count c (map fst l) = b2z (Nat.eqb ch c) + count c (map fst l')) ∧
  Zlen (in_flight l) = Zlen (buffered o) + Zlen (in_flight l').
Proof.
  intros H. apply recv_split in H as (a & b & -> & ->).
  split; [|split]; intros; rewrite ?map_app, ?in_flight_app, ?in_flight_cons, ?count_app, ?Zlen_app;
    cbn [map fst count]; rewrite ?count_app; unfold buffered; lia.
Qed.

Lemma last_facts l e : last l = Some e →
  (∀ c, count c (map e_c l) = count c (map e_c (removelast l)) + b2z (Nat.eqb (e_c e) c)) ∧ Zlen l = Zlen (removelast l) + 1.
Proof.
  intros H. apply last_split in H. split; intros; rewrite H at 1; rewrite ?map_app, ?count_app, ?Zlen_app, ?Zlen_cons; cbn -[removelast Zlen]; change (Zlen (@nil entry)) with 0; lia.
Qed.

(** Opens every critical section, splits on what it finds, and notes what it
    moved. *)
Ltac open_step H :=
  cbn [advance acquireOnce_step validate_step release_step replace_step drainPool_step idle_step close_step reaper_step] in H;
  unfold moves, acquire_enter, put, discard, discard_count, drain_enter, close_enter, evictIdle in H;
  repeat case_match; simplify_eq;
  repeat match goal with
  | E : recv _ _ = Some _ |- _ => apply recv_facts in E as (? & ? & ?)
  | E : last _ = Some _ |- _ => apply last_facts in E as (? & ?)
  | E : fold_left _ _ _ = _ |- _ => apply evict_split in E as (? & ? & ?)
  end.

(** Closes the balance of one step for the client or channel [c]. *)
Ltac balance c :=
  repeat match goal with E : ∀ x : nat, _ |- _ => specialize (E c) end;
  cbn -[Z.sub Z.add Nat.ltb Zlen removelast in_flight Nat.eqb] in *; rewrite ?map_app, ?in_flight_cons, ?count_app, ?Zlen_app, ?Zlen_cons, ?Zlen_nil, ?lt_succ in *;
  cbn -[Z.sub Z.add Nat.ltb Zlen removelast in_flight Nat.eqb] in *;
  repeat match goal with E : waiters (pool _) = _ |- _ => rewrite E in *; clear E end;
  cbn -[Z.sub Z.add Nat.ltb Zlen removelast in_flight Nat.eqb] in *; try lia.

Definition static_places (c : nat) (s : Shared) : Z :=
  count c (map e_c (idle (pool s))) + count c (in_flight (bufs s)) + count c (dead s) - b2z (Nat.ltb c (nextClient s)).

Lemma advance_places i g s g' sp bc s' c : advance i g s = Some (g', sp, bc, s') →
  static_places c s' + count c (holds g') + total (λ g, count c (holds g)) sp = static_places c s + count c (holds g).
Proof. intros H. unfold static_places. destruct g, i; open_step H; balance c. Qed.

Definition static_uses (ch : nat) (s : Shared) : Z :=
  count ch (waiters (pool s)) + count ch (map fst (bufs s)) - b2z (Nat.ltb ch (nextChan s)).

Lemma advance_uses i g s g' sp bc s' ch : advance i g s = Some (g', sp, bc, s') →
  static_uses ch s' + count ch (sends g') + total (λ g, count ch (sends g)) sp <= static_uses ch s + count ch (sends g).
Proof.
  intros H. unfold static_uses.
  destruct g, i; open_step H; balance ch.
  all: b2z_bounds; try lia.
  match goal with |- context [remove_first ?d ?l] => pose proof (count_remove_first ch d l); lia end.
Qed.

Lemma advance_inUse i g s g' sp bc s' : advance i g s = Some (g', sp, bc, s') →
  inUse (pool s') - in_use g' - total in_use sp = inUse (pool s) - in_use g.
Proof. intros H. destruct g, i; open_step H; balance 0%nat. Qed.

Definition static_open (s : Shared) : Z :=
  open (pool s) - Zlen (idle (pool s)) - Zlen (in_flight (bufs s)) + failures s - abandoned s.

Lemma advance_open i g s g' sp bc s' : advance i g s = Some (g', sp, bc, s') →
  static_open s' - slots g' - total slots sp = static_open s - slots g.
Proof. intros H. unfold static_open. destruct g, i; open_step H; balance 0%nat; case_match; balance 0%nat. Qed.

Lemma advance_slots i g s g' sp bc s' : advance i g s = Some (g', sp, bc, s') →
  0 <= slots g → 0 <= slots g' ∧ Forall (λ g, 0 <= slots g) sp.
Proof.
  intros H Hs. destruct g, i; open_step H; cbn [slots] in *;
    (split; [first [case_match; lia|lia|apply Zlen_nonneg]|repeat (constructor; try (cbn; lia))]).
Qed.

Lemma advance_cap i g s g' sp bc s' : advance i g s = Some (g', sp, bc, s') → 0 <= slots g →
  cfg (pool s') = cfg (pool s) ∧ abandoned s <= abandoned s' ∧ replaced s <= replaced s' ∧
  (0 <= replaced s → open (pool s) <= capacity (cfg (pool s)) + replaced s →
   open (pool s') <= capacity (cfg (pool s')) + replaced s').
Proof.
  intros H Hs. destruct g, i; open_step H; cbn [slots] in Hs; unfold capacity.
  all: split; [done|cbn -[Z.add Z.sub Z.max]; try lia].
  - pose proof (Zlen_nonneg (idle (pool s))). lia.
  - match goal with E : Zlen ?d = _ |- _ => pose proof (Zlen_nonneg d); rewrite ?Zlen_nil in * end. intros. lia.
Qed.

(** ** A step of the system *)

Lemma run_inv n i s s' : run n i s = Some s' → ∃ g g' sp bc,
  goroutines s !! n = Some g ∧ advance i g (shared s) = Some (g', sp, bc, shared s') ∧
  goroutines s' = (if bc : bool then map wake (<[n := g']> (goroutines s)) else <[n := g']> (goroutines s)) ++ sp.
Proof.
  unfold run. destruct (goroutines s !! n) as [g|]; [|done].
  destruct (advance i g (shared s)) as [[[[g' sp] bc] sh]|] eqn:E; [|done]. intros. simplify_eq. eauto 10.
Qed.

Lemma total_step (f : goroutine → Z) n gs g g' sp bc : (∀ g, f (wake g) = f g) → gs !! n = Some g →
  total f ((if bc : bool then map wake (<[n := g']> gs) else <[n := g']> gs) ++ sp) = total f gs - f g + f g' + total f sp.
Proof. intros Hf Hn. rewrite total_app. destruct bc; rewrite ?total_wake by done; by rewrite (total_insert f gs n g g'). Qed.

Lemma run_ok n i s s' : run n i s = Some s' → pool_ok s → pool_ok s'.
Proof.
  intros H [P U I O S C A]. apply run_inv in H as (g & g' & sp & bc & Hn & Ha & Hg).
  assert (0 <= slots g) as Hs by (eapply Forall_lookup_1 in S; eauto).
  destruct (advance_cap _ _ _ _ _ _ _ Ha Hs) as (C1 & C2 & C3 & C4).
  split.
  - intros c. specialize (P c). pose proof (advance_places _ _ _ _ _ _ _ c Ha) as E.
    unfold places, opened, static_places in *. rewrite Hg, (total_step _ _ _ g) by (done || by intros []). lia.
  - intros ch. specialize (U ch). pose proof (advance_uses _ _ _ _ _ _ _ ch Ha) as E.
    unfold uses_of, static_uses in *. rewrite Hg, (total_step _ _ _ g) by (done || by intros []). lia.
  - pose proof (advance_inUse _ _ _ _ _ _ _ Ha). rewrite Hg, (total_step _ _ _ g) by (done || by intros []). lia.
  - pose proof (advance_open _ _ _ _ _ _ _ Ha). unfold held_slots, static_open in *.
    rewrite Hg, (total_step _ _ _ g) by (done || by intros []). lia.
  - destruct (advance_slots _ _ _ _ _ _ _ Ha Hs) as [S1 S2]. rewrite Hg. apply Forall_app. split; [|done].
    assert (Forall (λ g, 0 <= slots g) (<[n := g']> (goroutines s))) as F by (by apply Forall_insert).
    destruct bc; [|done]. apply Forall_map. eapply Forall_impl; [exact F|]. by intros [].
  - apply C4; [lia|done].
  - lia.
Qed.

Lemma call_ok g s : g ∈ calls → pool_ok s → pool_ok (call g s).
Proof.
  intros Hg [P U I O S C A].
  assert (∀ f, total f (goroutines (call g s)) = total f (goroutines s) + f g) as E.
  { intros f. cbn. rewrite total_app. cbn. lia. }
  assert (holds g = [] ∧ sends g = [] ∧ in_use g = 0 ∧ slots g = 0) as (G1 & G2 & G3 & G4).
  { unfold calls in Hg. by repeat (apply elem_of_cons in Hg as [->|Hg]; [done|]); apply elem_of_nil in Hg. }
  split; unfold places, uses_of, held_slots; rewrite ?E; try done.
  - intros c. specialize (P c). rewrite E, G1. unfold places, opened in *. cbn in *. lia.
  - intros ch. specialize (U ch). rewrite E, G2. unfold uses_of in *. cbn in *. lia.
  - rewrite G3. cbn. lia.
  - rewrite G4. cbn. unfold held_slots in O. lia.
  - cbn. apply Forall_app. split; [done|]. repeat constructor. lia.
Qed.

Lemma new_ok c dials s : New c dials = Some s → pool_ok s.
Proof.
  unfold New. set (c' := fst _). set (n := Z.to_nat (MinIdle c')). set (s0 := mkShared _ _ _ _ _ _ _ _ _ _).
  assert (∀ n dials s0 s1, new_loop n dials s0 = Some s1 →
    bufs s0 = [] → dead s0 = [] → waiters (pool s0) = [] → inUse (pool s0) = 0 → replaced s0 = 0 → failures s0 = 0 → abandoned s0 = 0 →
    open (pool s0) = Zlen (idle (pool s0)) → open (pool s0) + Z.of_nat n <= capacity (cfg (pool s0)) →
    (∀ c, count c (map e_c (idle (pool s0))) = b2z (Nat.ltb c (nextClient s0))) →
    pool_ok (mkSys s1 [Reaping])) as L.
  { clear. induction n as [|n IH]; intros dials s0 s1 H H1 H2 H3 H4 H5 H6 H7 H8 H9 H10; cbn [new_loop] in H.
    - simplify_eq. split; unfold places, uses_of, held_slots, opened; cbn [shared goroutines]; rewrite ?H1, ?H2, ?H3, ?H5, ?H6, ?H7;
        try (by repeat constructor); try (cbn; lia).
      + intros c. rewrite H10. cbn. lia.
      + intros ch. cbn. b2z_bounds. lia.
      + unfold in_flight. cbn -[Z.add Zlen]. rewrite Zlen_nil. lia.
    - destruct dials as [|now dials]; [done|]. eapply IH; [exact H|cbn -[Nat.ltb]..]; try done.
      + rewrite Zlen_app, Zlen_cons, Zlen_nil. lia.
      + lia.
      + intros c. rewrite map_app, count_app, H10. cbn -[Nat.ltb]. rewrite lt_succ. lia. }
  destruct (new_loop n dials s0) as [s1|] eqn:E; [|done]. intros [= <-]. eapply L; [exact E|done..| | |]; try done.
  change (0 + Z.of_nat n <= capacity c'). unfold capacity, n. assert (0 < MaxConns c'); [|lia].
  unfold c', applyDefaults. cbn. destruct (Z.leb_spec (MaxConns c) 0); lia.
Qed.

Lemma reachable_ok c s : reachable c s → pool_ok s.
Proof.
  intros (dials & s0 & H0 & Hs). apply new_ok in H0. induction Hs as [|s s1 s2 H1 _ IH]; [done|]. apply IH.
  destruct H1 as [g Hg|n i s' Hr]; [by apply call_ok|by eapply run_ok].
Qed.

Lemma exec_steps evs : ∀ s s', exec evs s = Some s' → rtc step s s'.
Proof.
  induction evs as [|[g|n i] evs IH]; intros s s' H; cbn in H; [simplify_eq; apply rtc_refl| |].
  - case_bool_decide; [|done]. eapply rtc_l; [by constructor|by apply IH].
  - destruct (run n i s) as [s1|] eqn:E; [|done]. eapply rtc_l; [by eapply step_run|by apply IH].
Qed.
Lemma exec_reachable c dials s0 evs s : New c dials = Some s0 → exec evs s0 = Some s → reachable c s.
Proof. intros H0 He. exists dials, s0. split; [done|by eapply exec_steps]. Qed.

Lemma in_use_nonneg g : 0 <= in_use g.
Proof. by destruct g. Qed.
Lemma full_in ch l : full ch l = true → ch ∈ map fst l.
Proof.
  unfold full. intros H. apply existsb_exists in H as ([c o] & Hin & E). apply Nat.eqb_eq in E. cbn in E. subst.
  apply list_elem_of_In. apply in_map_iff. by exists (ch, o).
Qed.

(** A client in a goroutine's hands is nowhere else, and exists. *)
Lemma exclusive s : pool_ok s → ∀ n m g g' k, n ≠ m → goroutines s !! n = Some g → goroutines s !! m = Some g' → k ∈ holds g →
  (k ∉ holds g') ∧ (k ∉ map e_c (idle (pool (shared s)))) ∧ (k ∉ in_flight (bufs (shared s))) ∧ (k ∉ dead (shared s)).
Proof.
  intros [P _ _ _ _ _ _] n m g g' k Hnm Hn Hm Hk. specialize (P k). unfold places, opened in P.
  pose proof (b2z_range (Nat.ltb k (nextClient (shared s)))).
  assert (∀ g, 0 <= count k (holds g)) as Hnn by (intros; apply count_nonneg).
  pose proof (total_two (λ g, count k (holds g)) (goroutines s) Hnn n m g g' Hnm Hn Hm) as T. cbn in T.
  apply count_pos in Hk.
  pose proof (count_nonneg k (map e_c (idle (pool (shared s))))). pose proof (count_nonneg k (in_flight (bufs (shared s)))).
  pose proof (count_nonneg k (dead (shared s))). pose proof (Hnn g').
  repeat split; intros Hin; apply count_pos in Hin; lia.
Qed.

Lemma held_exists s : pool_ok s → ∀ n g k, goroutines s !! n = Some g → k ∈ holds g → (k < nextClient (shared s))%nat.
Proof.
  intros [P _ _ _ _ _ _] n g k Hn Hk. specialize (P k). unfold places, opened in P.
  assert (∀ g, 0 <= count k (holds g)) as Hnn by (intros; apply count_nonneg).
  pose proof (total_lookup (λ g, count k (holds g)) (goroutines s) Hnn n g Hn) as T. cbn in T. apply count_pos in Hk.
  pose proof (count_nonneg k (map e_c (idle (pool (shared s))))). pose proof (count_nonneg k (in_flight (bufs (shared s)))).
  pose proof (count_nonneg k (dead (shared s))).
  destruct (Nat.ltb_spec k (nextClient (shared s))); [done|]. cbn in P. lia.
Qed.

(** ** What the pool guarantees *)

(** C10. Exclusive ownership: whatever the interleaving of Acquire, Release,
    Discard, Drain, Close, the reaper and the replacement goroutines, a
    connection in a goroutine's hands is in no other goroutine's, not on the
    idle stack, not in a channel, and not closed; and every connection ever
    opened is in exactly one of these places. *)
Theorem pool_exclusive (c : Config) (s : Sys) (H : reachable c s) :
  (∀ n m g g' k, n ≠ m → goroutines s !! n = Some g → goroutines s !! m = Some g' → k ∈ holds g →
     (k ∉ holds g') ∧ (k ∉ map e_c (idle (pool (shared s)))) ∧ (k ∉ in_flight (bufs (shared s))) ∧ (k ∉ dead (shared s))) ∧
  (∀ k, places k s = if Nat.ltb k (nextClient (shared s)) then 1 else 0).
Proof.
  apply reachable_ok in H as Hok. split; [by apply exclusive|]. apply (ok_places s Hok).
Qed.

(** C12. The counters: inUse is the number of goroutines between Acquire's
    section and Release or Discard, so at 0 nobody holds a connection; open is
    the number of connections and dials the pool answers for, less the slots
    failed replacements gave back twice, plus those Close never gave back; and
    those connections and dials exceed MaxConns (or MinIdle) by no more than
    the replacements discard made. *)
Theorem pool_accounting (c : Config) (s : Sys) (H : reachable c s) :
  let p := pool (shared s) in
  inUse p = total in_use (goroutines s) ∧
  (inUse p = 0 → ∀ n e, goroutines s !! n ≠ Some (Holding e)) ∧
  open p = held_slots s - failures (shared s) + abandoned (shared s) ∧
  held_slots s <= capacity (cfg p) + replaced (shared s) + failures (shared s).
Proof.
  apply reachable_ok in H as [_ _ I O _ C [_ A]]. cbn. split; [done|]. split; [|lia].
  intros H0 n e Hn. pose proof (total_lookup in_use _ in_use_nonneg _ _ Hn) as T. cbn in T. lia.
Qed.

(** C13. Progress: no goroutine ever waits to send. The channel of every
    waiter that was taken off the list is empty until its one message is sent,
    so the goroutine that owes the message can always take its step. *)
Theorem pool_sends_never_block (c : Config) (s : Sys) (H : reachable c s) (n : nat) (g : goroutine)
  (Hn : goroutines s !! n = Some g) :
  (∀ ch, ch ∈ sends g → full ch (bufs (shared s)) = false ∧ (ch ∉ waiters (pool (shared s))) ∧
     ∀ m g', m ≠ n → goroutines s !! m = Some g' → (ch ∉ sends g')) ∧
  (match g with Sending _ _ | ReplaceFailed _ | DrainWake (_ :: _) | CloseWake _ (_ :: _) => is_Some (run n Go s) | _ => True end).
Proof.
  apply reachable_ok in H as [_ U _ _ _ _ _].
  assert (∀ ch, ch ∈ sends g → full ch (bufs (shared s)) = false ∧ (ch ∉ waiters (pool (shared s))) ∧
     ∀ m g', m ≠ n → goroutines s !! m = Some g' → (ch ∉ sends g')) as F.
  { intros ch Hch. specialize (U ch). unfold uses_of in U. b2z_bounds.
    assert (∀ g, 0 <= count ch (sends g)) as Hnn by (intros; apply count_nonneg).
    pose proof (total_lookup _ _ Hnn n g Hn) as T. cbn in T. apply count_pos in Hch.
    pose proof (count_nonneg ch (waiters (pool (shared s)))). pose proof (count_nonneg ch (map fst (bufs (shared s)))).
    split; [|split].
    - destruct (full ch _) eqn:E; [|done]. apply full_in, count_pos in E. lia.
    - intros Hin. apply count_pos in Hin. lia.
    - intros m g' Hm Hg' Hin. pose proof (total_two _ _ Hnn m n g' g Hm Hg' Hn) as T2. apply count_pos in Hin. cbn in T2. lia. }
  split; [exact F|]. unfold run. destruct g; try done; try (destruct ws as [|ch ws]; [done|]); try destruct es; rewrite Hn; cbn [advance release_step replace_step drainPool_step close_step].
  all: match goal with |- context [full ?ch ?l] => assert (full ch l = false) as -> by (apply F; left); unfold moves; by eexists end.
Qed.

(** A pool with the given MaxConns, everything else by default. *)
Definition demo_pool (n : Z) : Config := mkConfig zero_config n 0 0 0 0 0 0 0.
Definition started (n : Z) : Sys := default (mkSys (mkShared (mkPool (demo_pool n) [] 0 0 false false []) [] [] false [] 0 0 0 0 0) []) (New (demo_pool n) []).
Definition after_run (n : Z) (evs : list event) : Sys := default (started n) (exec evs (started n)).

(** A goroutine, by number, acquires a connection it has to dial. *)
Definition dials (n : nat) : list event := [Calls (Acquiring 0); Runs n Go; Runs n (At 0); Runs n (At 0)].

Definition runs_through (n : Z) (evs : list event) : bool := match exec evs (started n) with Some _ => true | None => false end.
Lemma demo_reachable n evs : runs_through n evs = true → reachable (demo_pool n) (after_run n evs).
Proof.
  unfold runs_through. destruct (exec evs (started n)) as [s|] eqn:Hs; [intros _|done]. apply (exec_reachable _ [] (started n) evs); [done|].
  unfold after_run. by rewrite Hs.
Qed.

Lemma pool_exclusive_witness :
  let s := after_run 2 (dials 1 ++ dials 2) in
  (∀ n m g g' k, n ≠ m → goroutines s !! n = Some g → goroutines s !! m = Some g' → k ∈ holds g →
     (k ∉ holds g') ∧ (k ∉ map e_c (idle (pool (shared s)))) ∧ (k ∉ in_flight (bufs (shared s))) ∧ (k ∉ dead (shared s))) ∧
  (∀ k, places k s = if Nat.ltb k (nextClient (shared s)) then 1 else 0).
Proof. apply (pool_exclusive (demo_pool 2)). by apply demo_reachable. Defined.

Lemma pool_accounting_witness :
  let s := after_run 2 (dials 1 ++ dials 2) in
  let p := pool (shared s) in
  inUse p = total in_use (goroutines s) ∧
  (inUse p = 0 → ∀ n e, goroutines s !! n ≠ Some (Holding e)) ∧
  open p = held_slots s - failures (shared s) + abandoned (shared s) ∧
  held_slots s <= capacity (cfg p) + replaced (shared s) + failures (shared s).
Proof. apply (pool_accounting (demo_pool 2)). by apply demo_reachable. Defined.

(** One connection, a waiter for it, and its release up to the send. *)
Definition handing_over : list event :=
  dials 1 ++ [Calls (Acquiring 0); Runs 2 Go; Runs 1 (At 5); Runs 1 Go].
Lemma pool_sends_never_block_witness :
  let s := after_run 1 handing_over in
  (∀ ch, ch ∈ [0%nat] → full ch (bufs (shared s)) = false ∧ (ch ∉ waiters (pool (shared s))) ∧
     ∀ m g', m ≠ 1%nat → goroutines s !! m = Some g' → (ch ∉ sends g')) ∧ is_Some (run 1 Go s).
Proof.
  apply (pool_sends_never_block (demo_pool 1) (after_run 1 handing_over)
    (demo_reachable 1 handing_over eq_refl) 1 (Sending 0 (Some (mkEntry 0 5 (Some 0))))).
  vm_compute. reflexivity.
Defined.

(** ** Where the promises stop *)

Definition gos (n k : nat) : list event := repeat (Runs n Go) k.

(** Goroutine 1's connection is discarded while 2 waits: 3 dials for 2. *)
Definition discarding : list event :=
  dials 1 ++ [Calls (Acquiring 0); Runs 2 Go; Runs 1 Fails; Runs 1 Go; Runs 1 Go].
Definition overshoot : list event := discarding ++ dials 4 ++ [Runs 3 (At 9); Runs 3 Go].
Definition failed_replacement : list event :=
  discarding ++ [Runs 3 Fails; Runs 3 Go; Runs 3 Go; Runs 2 Go].
Definition lost_connection : list event :=
  handing_over ++ [Runs 2 Fails; Runs 1 Go; Runs 2 Go] ++ [Calls (Acquiring 0); Runs 3 Go].
Definition early_drain : list event :=
  handing_over ++ [Calls DrainCall] ++ gos 3 4 ++ [Runs 4 Go; Runs 3 Go; Runs 1 Go; Runs 2 Go; Runs 2 Go; Runs 2 (At 5)].
Definition missed_wakeup : list event :=
  [Calls (Acquiring 0); Runs 1 Go; Calls DrainCall] ++ gos 2 4 ++ [Runs 3 Go; Runs 1 Fails; Runs 1 Go; Runs 1 Go].

(** Five runs of a pool with MaxConns 1.  A discard with a waiter lets an
    Acquire in before its replacement registers: two live connections.  A
    replacement that fails gives the slot back twice and tells the waiter the
    pool is closed when it is not.  A waiter whose context ends while its
    connection is being sent leaves it in the channel: the pool has no idle
    connection, no user and no free slot left, and the next Acquire waits.
    Drain returns while a connection is on its way to a waiter, which then
    holds it.  And a Drain that waits on a dial which fails is not woken. *)
Theorem pool_faults :
  (∃ s, reachable (demo_pool 1) s ∧ held_slots s = 2 ∧ dead (shared s) = [0%nat] ∧ nextClient (shared s) = 3%nat) ∧
  (∃ s, reachable (demo_pool 1) s ∧ goroutines s !! 2%nat = Some (Finished OErrClosed) ∧
     closed (pool (shared s)) = false ∧ draining (pool (shared s)) = false ∧ open (pool (shared s)) = -1) ∧
  (∃ s, reachable (demo_pool 1) s ∧ in_flight (bufs (shared s)) = [0%nat] ∧ dead (shared s) = [] ∧
     goroutines s = [Reaping; Finished OReleased; Finished OErrCtx; Waiting 0 1] ∧ run 3 Go s = None) ∧
  (∃ s e, reachable (demo_pool 1) s ∧ goroutines s !! 3%nat = Some (Finished OQuiet) ∧
     goroutines s !! 2%nat = Some (Holding e) ∧ e_c e ∉ dead (shared s)) ∧
  (∃ s, reachable (demo_pool 1) s ∧ inUse (pool (shared s)) = 0 ∧
     (∃ d, goroutines s = [Reaping; Finished OErrDial; IdleSelect d; IdleParked d false] ∧ run 2 Go s = None) ∧
     ∀ i, run 3 i s = None).
Proof.
  split; [|split; [|split; [|split]]].
  - exists (after_run 1 overshoot). split; [apply demo_reachable; vm_compute; reflexivity|]. by vm_compute.
  - exists (after_run 1 failed_replacement). split; [apply demo_reachable; vm_compute; reflexivity|]. by vm_compute.
  - exists (after_run 1 lost_connection). split; [apply demo_reachable; vm_compute; reflexivity|]. by vm_compute.
  - exists (after_run 1 early_drain), (mkEntry 0 5 (Some 0)). split; [apply demo_reachable; vm_compute; reflexivity|].
    split; [by vm_compute|]. split; [by vm_compute|].
    assert (dead (shared (after_run 1 early_drain)) = []) as -> by (vm_compute; reflexivity). apply not_elem_of_nil.
  - exists (after_run 1 missed_wakeup). split; [apply demo_reachable; vm_compute; reflexivity|].
    split; [by vm_compute|]. split; [exists 0%nat; by vm_compute|]. intros i.
    assert (goroutines (after_run 1 missed_wakeup) !! 3%nat = Some (IdleParked 0 false)) as E by (vm_compute; reflexivity).
    unfold run. rewrite E. by destruct i.
Qed.

(** discard never sets bornAt, so Acquire takes every replacement for one that
    outlived MaxConnLifetime, and closes it. *)
Theorem replacements_expire (retry : nat) (ch : nat) (opened now : Z) (s s' : Shared) (g : goroutine) (e : entry)
  (Hnew : advance (At opened) (Replacing ch) s = moves (Replaced ch e) s')
  (Hlife : 0 < MaxConnLifetime (cfg (pool s)) < maxDuration) :
  advance (At now) (Validating retry e) s = moves (Discarding (inl retry)) (close_client e s).
Proof.
  cbn in Hnew. injection Hnew as <- _. cbn [advance validate_step Sub bornAt].
  assert ((0 <? MaxConnLifetime (cfg (pool s))) = true ∧ (MaxConnLifetime (cfg (pool s)) <? maxDuration) = true) as [-> ->] by lia.
  done.
Qed.

(** evictIdle closes nothing while no more than MinIdle connections are idle. *)
Lemma evict_keeps now p : Zlen (idle p) <= MinIdle (cfg p) → evictIdle now p = ([], p).
Proof.
  unfold evictIdle. intros Hm.
  assert (∀ es keep opn, Zlen keep + Zlen es <= MinIdle (cfg p) →
    fold_left (evict_one (now - IdleTimeout (cfg p)) (MinIdle (cfg p))) es (keep, [], opn) = (keep ++ es, [], opn)) as L.
  { induction es as [|e es IH]; intros keep opn Hk; cbn [fold_left]; [by rewrite app_nil_r|]. rewrite Zlen_cons in Hk.
    pose proof (Zlen_nonneg es). unfold evict_one at 2. destruct (Z.ltb_spec (MinIdle (cfg p)) (Zlen keep + 1)); [lia|].
    rewrite andb_false_r, IH, <- app_assoc; [done|]. rewrite Zlen_app, Zlen_cons, Zlen_nil. lia. }
  rewrite L by (rewrite Zlen_nil; lia). by destruct p.
Qed.
