(* ===== verification/Buffers.v ===== *)
(** internal/bufferpool/pool.go: the scratch buffers queries borrow.  A
    [*[]byte] is a reference into a heap of slices; sync.Pool is a list of
    references from which Get takes any one, or makes a new buffer, and which
    may lose entries at any time.  The atomics of the two counters run one
    operation at a time here: the counters are advisory. *)
From S2P Require Import Prelude.

Definition defaultCap : Z := 32 * 1024.

(** What a slice header holds: the elements and the capacity. *)
Record backing := mkBacking { b_data : bytes; b_cap : Z }.
Record Buffers := mkBuffers { heap : gmap nat backing; fresh : nat; pooled : list nat; live : Z; maxLive : Z }.
Definition set_heap (h : gmap nat backing) (b : Buffers) : Buffers := mkBuffers h (fresh b) (pooled b) (live b) (maxLive b).
Definition set_pooled (l : list nat) (b : Buffers) : Buffers := mkBuffers (heap b) (fresh b) l (live b) (maxLive b).
Definition set_live (n : Z) (b : Buffers) : Buffers := mkBuffers (heap b) (fresh b) (pooled b) n (maxLive b).
Definition start : Buffers := mkBuffers ∅ 0 [] 0 0.

(** [atomic.AddInt64(&live, d)] *)
Definition add_live (d : Z) (b : Buffers) : Buffers := set_live (int64 (live b + d)) b.

Definition SetMaxLive (n : Z) (b : Buffers) : Buffers := mkBuffers (heap b) (fresh b) (pooled b) (live b) n.
Definition Live (b : Buffers) : Z := if live b <? 0 then 0 else live b.

(** [b := make([]byte, 0, defaultCap); return &b] *)
Definition make_buffer (b : Buffers) : nat * Buffers :=
  (fresh b, mkBuffers (<[fresh b := mkBacking [] defaultCap]> (heap b)) (S (fresh b)) (pooled b) (live b) (maxLive b)).

(** [pool.Get()]: the entry at [pick], or what New makes. *)
Definition pool_get (pick : option nat) (b : Buffers) : nat * Buffers :=
  match pick with
  | Some i =>
      match pooled b !! i with
      | Some r => (r, set_pooled (delete i (pooled b)) b)
      | None => make_buffer b
      end
  | None => make_buffer b
  end.

(** [*bp = ( *bp)[:0]] *)
Definition truncate (r : nat) (b : Buffers) : Buffers :=
  set_heap (alter (λ s, mkBacking [] (b_cap s)) r (heap b)) b.

Definition Get (pick : option nat) (b : Buffers) : nat * Buffers :=
  if (0 <? maxLive b) && (maxLive b <=? live b) then make_buffer b
  else
    let b := if 0 <? maxLive b then add_live 1 b else b in
    let '(r, b) := pool_get pick b in
    (r, truncate r b).

Definition capacity (r : nat) (b : Buffers) : Z := match heap b !! r with Some s => b_cap s | None => 0 end.

Definition Put (bp : option nat) (b : Buffers) : Buffers :=
  match bp with
  | None => b
  | Some r =>
      if 2 ^ 20 <? capacity r b then if 0 <? maxLive b then add_live (-1) b else b
      else
        let b := if 0 <? maxLive b then add_live (-1) b else b in
        set_pooled (r :: pooled b) b
  end.

(** ** Specification *)

(** The pool with the buffers its callers hold.  A caller gives back only what
    it holds, and what it writes through its pointer is a slice append made:
    no smaller than before. *)
Inductive use : Buffers * list nat → Buffers * list nat → Prop :=
| use_get pick b out : use (b, out) ((Get pick b).2, (Get pick b).1 :: out)
| use_put i r b out : out !! i = Some r → use (b, out) (Put (Some r) b, delete i out)
| use_put_nil b out : use (b, out) (Put None b, out)
| use_write r s s' b out : r ∈ out → heap b !! r = Some s → b_cap s <= b_cap s' → Zlen (b_data s') <= b_cap s' →
    use (b, out) (set_heap (<[r := s']> (heap b)) b, out)
| use_collect i b out : use (b, out) (set_pooled (delete i (pooled b)) b, out)
| use_max n b out : use (b, out) (SetMaxLive n b, out).

Record buffers_ok (b : Buffers) (out : list nat) : Prop := {
  bo_nodup : NoDup (out ++ pooled b);
  bo_heap : ∀ r, r ∈ out ++ pooled b → (r < fresh b)%nat ∧ ∃ s, heap b !! r = Some s ∧ defaultCap <= b_cap s;
  bo_small : ∀ r, r ∈ pooled b → capacity r b <= 2 ^ 20
}.

(** ** Lemmas *)

Lemma nodup_submseteq {A} (l k : list A) : NoDup k → l ⊆+ k → NoDup l.
Proof. intros Hk Hs. apply submseteq_Permutation in Hs as [k' Hs]. rewrite Hs in Hk. by apply NoDup_app in Hk as [? _]. Qed.

(** References change hands, or are dropped; no slice changes. *)
Lemma ok_move b out b' out' : buffers_ok b out → heap b' = heap b → fresh b' = fresh b →
  out' ++ pooled b' ⊆+ out ++ pooled b → (∀ r, r ∈ pooled b' → capacity r b <= 2 ^ 20) → buffers_ok b' out'.
Proof.
  intros [H1 H2 H3] Hh Hf Hs Hc. split.
  - by eapply nodup_submseteq.
  - rewrite Hh, Hf. intros r Hr. by apply H2, (elem_of_submseteq _ _ _ Hr).
  - unfold capacity. rewrite Hh. exact Hc.
Qed.

(** A slice changes, keeping or growing its capacity, in a buffer outside the
    pool or without growing. *)
Lemma ok_slice b out r s s' : buffers_ok b out → heap b !! r = Some s → b_cap s <= b_cap s' →
  (r ∈ out ∨ b_cap s' = b_cap s) → buffers_ok (set_heap (<[r := s']> (heap b)) b) out.
Proof.
  intros [H1 H2 H3] Hr Hle Ho. split; cbn [set_heap pooled heap fresh]; [done| |].
  - intros r' Hr'. destruct (H2 r' Hr') as [Hf (t & Ht & Hc)]. split; [done|]. destruct (decide (r' = r)) as [->|Hne].
    + exists s'. rewrite lookup_insert_eq. split; [done|]. simplify_eq. lia.
    + exists t. by rewrite lookup_insert_ne by done.
  - intros r' Hr'. specialize (H3 r' Hr'). unfold capacity in *. cbn [set_heap heap]. destruct (decide (r' = r)) as [->|Hne].
    + rewrite lookup_insert_eq. rewrite Hr in H3. destruct Ho as [Ho|Ho]; [|lia].
      apply NoDup_app in H1 as (_ & H1 & _). by destruct (H1 r Ho).
    + by rewrite lookup_insert_ne by done.
Qed.

Lemma ok_make b out : buffers_ok b out → buffers_ok (make_buffer b).2 (fresh b :: out).
Proof.
  intros [H1 H2 H3]. assert (fresh b ∉ out ++ pooled b) as Hn by (intros Hin; destruct (H2 _ Hin); lia). split; cbn.
  - by apply NoDup_cons.
  - intros r Hr. apply elem_of_cons in Hr as [->|Hr].
    + split; [lia|]. exists (mkBacking [] defaultCap). by rewrite lookup_insert_eq.
    + destruct (H2 r Hr) as [Hf Hs]. split; [lia|]. rewrite lookup_insert_ne by lia. done.
  - intros r Hr. unfold capacity. cbn. rewrite lookup_insert_ne; [by apply H3|].
    intros E. apply Hn. rewrite E. apply elem_of_app. by right.
Qed.

(** What Get promises of the buffer it hands out. *)
Definition handed (b : Buffers) (out : list nat) (r : nat) (b' : Buffers) : Prop :=
  buffers_ok b' (r :: out) ∧ (∃ c, heap b' !! r = Some (mkBacking [] c) ∧ defaultCap <= c) ∧
  ∀ r', r' ≠ r → heap b' !! r' = heap b !! r'.

Lemma make_handed b out : buffers_ok b out → handed b out (make_buffer b).1 (make_buffer b).2.
Proof.
  intros H. split; [by apply ok_make|]. cbn. split; [exists defaultCap; by rewrite lookup_insert_eq|].
  intros r' Hr'. by rewrite lookup_insert_ne.
Qed.

Lemma ok_live d b out : buffers_ok b out → buffers_ok (add_live d b) out.
Proof. intros [H1 H2 H3]. by split. Qed.

Lemma truncate_handed b out r b1 : buffers_ok b1 (r :: out) → (∀ r', r' ≠ r → heap b1 !! r' = heap b !! r') →
  handed b out r (truncate r b1).
Proof.
  intros Ho Hh. destruct (bo_heap _ _ Ho r) as [_ (s & Hs & Hc)]; [by left|]. unfold truncate.
  assert (alter (λ s, mkBacking [] (b_cap s)) r (heap b1) = <[r := mkBacking [] (b_cap s)]> (heap b1)) as ->.
  { apply map_eq. intros i. destruct (decide (i = r)) as [->|Hne]; [by rewrite lookup_alter_eq, lookup_insert_eq, Hs|].
    by rewrite lookup_alter_ne, lookup_insert_ne by done. }
  split; [eapply ok_slice; [done|exact Hs|cbn; lia|by right]|]. cbn. split; [exists (b_cap s); by rewrite lookup_insert_eq|].
  intros r' Hr'. rewrite lookup_insert_ne by done. by apply Hh.
Qed.

Lemma Get_handed pick b out : buffers_ok b out → handed b out (Get pick b).1 (Get pick b).2.
Proof.
  intros Ho. unfold Get. destruct ((0 <? maxLive b) && (maxLive b <=? live b)); [by apply make_handed|].
  set (b1 := if 0 <? maxLive b then add_live 1 b else b). assert (buffers_ok b1 out ∧ heap b1 = heap b) as [Ho1 Hh].
  { unfold b1. destruct (0 <? maxLive b); [|done]. split; [by apply ok_live|done]. }
  assert (let '(r, b2) := pool_get pick b1 in buffers_ok b2 (r :: out) ∧ ∀ r', r' ≠ r → heap b2 !! r' = heap b !! r') as Hp.
  { assert (let '(r, b2) := make_buffer b1 in buffers_ok b2 (r :: out) ∧ ∀ r', r' ≠ r → heap b2 !! r' = heap b !! r') as Hm.
    { split; [by apply ok_make|]. intros r' Hr'. cbn. rewrite lookup_insert_ne by done. by rewrite Hh. }
    unfold pool_get. destruct pick as [i|]; [|done]. destruct (pooled b1 !! i) as [r|] eqn:E; [|done]. split; [|by intros; rewrite <- Hh].
    eapply ok_move; [exact Ho1|done|done| |].
    - cbn. rewrite (delete_Permutation (pooled b1) i r) at 2 by done. rewrite <- Permutation_middle. reflexivity.
    - cbn. intros r' Hr'. apply (bo_small _ _ Ho1). eapply elem_of_submseteq; [exact Hr'|]. apply sublist_submseteq, sublist_delete. }
  destruct (pool_get pick b1) as [r b2]. cbn in *. destruct Hp. by apply truncate_handed.
Qed.

Lemma use_ok x y : use x y → buffers_ok x.1 x.2 → buffers_ok y.1 y.2.
Proof.
  intros Hu Ho. destruct Hu as [pick b out|i r b out Hi|b out|r s s' b out Hin Hs Hc Hl|i b out|n b out]; cbn in *.
  - apply (Get_handed pick) in Ho. apply Ho.
  - assert (buffers_ok b (delete i out)) as Hd.
    { eapply ok_move; [exact Ho|done|done| |apply Ho]. apply submseteq_skips_r, sublist_submseteq, sublist_delete. }
    unfold Put. destruct (Z.ltb_spec (2 ^ 20) (capacity r b)); [destruct (0 <? maxLive b); [by apply ok_live|done]|].
    assert (∀ b1, buffers_ok b1 out → heap b1 = heap b → pooled b1 = pooled b → buffers_ok (set_pooled (r :: pooled b1) b1) (delete i out)) as Hp.
    { intros b1 H1 Hh Hp. eapply ok_move; [exact H1|done|done| |].
      - cbn. rewrite (delete_Permutation out i r) at 2 by done. rewrite <- Permutation_middle. reflexivity.
      - cbn. intros r' Hr'. unfold capacity in *. rewrite Hh. apply elem_of_cons in Hr' as [->|Hr']; [done|]. apply (bo_small _ _ Ho). by rewrite <- Hp. }
    destruct (0 <? maxLive b); [apply Hp; [by apply ok_live|done|done]|by apply Hp].
  - done.
  - eapply ok_slice; [done|exact Hs|done|by left].
  - eapply ok_move; [exact Ho|done|done| |].
    + cbn. apply submseteq_skips_l, sublist_submseteq, sublist_delete.
    + cbn. intros r Hr. apply (bo_small _ _ Ho). eapply elem_of_submseteq; [exact Hr|]. apply sublist_submseteq, sublist_delete.
  - destruct Ho as [H1 H2 H3]. by split.
Qed.

(** ** Theorems *)

(** Whatever callers do with the buffers they hold, and whatever the runtime
    does to its pool, no buffer is in two hands, every pooled buffer is at most
    1 MiB, and Get hands out an empty buffer of at least 32 KiB nobody holds
    without touching any other. *)
Theorem buffers_exclusive b out : rtc use (start, []) (b, out) →
  NoDup (out ++ pooled b) ∧ (∀ r, r ∈ pooled b → capacity r b <= 2 ^ 20) ∧
  ∀ pick, let '(r, b') := Get pick b in
    (¬ r ∈ out ∧ (∃ c, heap b' !! r = Some (mkBacking [] c) ∧ 32 * 1024 <= c) ∧ ∀ r', r' ≠ r → heap b' !! r' = heap b !! r').
Proof.
  intros Hr. assert (buffers_ok b out) as Ho.
  { apply (rtc_ind_r (λ y, buffers_ok y.1 y.2) (start, []) ) with (z := (b, out)) in Hr; [done| |].
    - split; [by apply NoDup_nil|intros r H; by apply elem_of_nil in H..].
    - intros y z _ Hs Hy. by apply (use_ok y z). }
  split; [apply Ho|]. split; [apply Ho|]. intros pick. destruct (Get pick b) as [r b'] eqn:E.
  destruct (Get_handed pick b out Ho) as (H1 & H2 & H3). rewrite E in *. cbn in *. split; [|done].
  apply bo_nodup in H1. cbn in H1. apply NoDup_cons in H1 as [H1 _]. intros Hin. apply H1, elem_of_app. by left.
Qed.

(** [n] Gets in a row, and the Puts of what they handed out. *)
Fixpoint gets (n : nat) (b : Buffers) : list nat * Buffers :=
  match n with
  | O => ([], b)
  | S n => let '(r, b) := Get None b in let '(l, b) := gets n b in (r :: l, b)
  end.
Definition puts (l : list nat) (b : Buffers) : Buffers := fold_left (λ b r, Put (Some r) b) l b.

Lemma gets_live n : ∀ b, 0 < maxLive b < 2 ^ 62 → - 2 ^ 62 < live b <= maxLive b →
  maxLive (gets n b).2 = maxLive b ∧ live (gets n b).2 = Z.min (maxLive b) (live b + Z.of_nat n).
Proof.
  induction n as [|n IH]; intros b Hm Hl; [cbn; lia|]. cbn [gets].
  assert (maxLive (Get None b).2 = maxLive b ∧ live (Get None b).2 = Z.min (maxLive b) (live b + 1)) as [E1 E2].
  { unfold Get. rewrite (proj2 (Z.ltb_lt 0 (maxLive b))) by lia. destruct (Z.leb_spec (maxLive b) (live b)); cbn [andb]; cbn; [lia|].
    split; [done|]. unfold int64. rewrite wraps_small; lia. }
  destruct (Get None b) as [r b1]. cbn [snd] in *. specialize (IH b1). rewrite E1, E2 in IH. destruct (gets n b1) as [l b2]. cbn [snd] in *.
  destruct IH as [-> ->]; lia.
Qed.
Lemma puts_live l : ∀ b, 0 < maxLive b → - 2 ^ 62 + Zlen l < live b < 2 ^ 62 →
  maxLive (puts l b) = maxLive b ∧ live (puts l b) = live b - Zlen l.
Proof.
  induction l as [|r l IH]; intros b Hm Hl; [cbn; rewrite Zlen_nil; lia|]. rewrite Zlen_cons in *. pose proof (Zlen_nonneg l).
  assert (maxLive (Put (Some r) b) = maxLive b ∧ live (Put (Some r) b) = live b - 1) as [E1 E2].
  { unfold Put. rewrite (proj2 (Z.ltb_lt 0 (maxLive b))) by lia. destruct (2 ^ 20 <? capacity r b); cbn; (split; [done|]); unfold int64; rewrite wraps_small; lia. }
  change (puts (r :: l) b) with (puts l (Put (Some r) b)). specialize (IH (Put (Some r) b)). rewrite E1, E2 in IH.
  destruct IH as [-> ->]; lia.
Qed.
Lemma gets_length n : ∀ b, length (gets n b).1 = n.
Proof. induction n as [|n IH]; intros b; [done|]. cbn [gets]. destruct (Get None b) as [r b1]. specialize (IH b1). destruct (gets n b1). cbn in *. lia. Qed.

(** The counter does not come back from a burst: [k] Gets above the cap are not
    counted when they are made and are when their buffers come back, so with
    every buffer returned the counter stands at [-k], and the next burst gets
    [k] more buffers past the check than the cap allows. *)
Theorem burst_drifts m k : 0 < Z.of_nat m → Z.of_nat (m + k) < 2 ^ 61 →
  let '(l, b) := gets (m + k) (SetMaxLive (Z.of_nat m) start) in
  live b = Z.of_nat m ∧ live (puts l b) = - Z.of_nat k ∧
  let '(l2, b2) := gets (m + k) (puts l b) in live b2 = live (puts l b) + Zlen l2.
Proof.
  intros Hm Hk. destruct (gets_live (m + k) (SetMaxLive (Z.of_nat m) start) ltac:(cbn; lia) ltac:(cbn; lia)) as [E1 E2].
  pose proof (gets_length (m + k) (SetMaxLive (Z.of_nat m) start)) as El. destruct (gets (m + k) _) as [l b]. cbn [fst snd] in *.
  cbn [maxLive live SetMaxLive start] in *. assert (Zlen l = Z.of_nat (m + k)) as Ez by (unfold Zlen; lia).
  destruct (puts_live l b ltac:(lia) ltac:(lia)) as [P1 P2]. split; [lia|]. split; [lia|].
  destruct (gets_live (m + k) (puts l b) ltac:(lia) ltac:(lia)) as [E3 E4]. pose proof (gets_length (m + k) (puts l b)) as El2.
  destruct (gets (m + k) (puts l b)) as [l2 b2]. cbn [fst snd] in *. unfold Zlen. rewrite El2. lia.
Qed.

(** ** Witnesses *)

Lemma buffers_exclusive_witness :
  let b := (Get None (SetMaxLive 1 start)).2 in
  NoDup ([0%nat] ++ pooled b) ∧ (∀ r, r ∈ pooled b → capacity r b <= 2 ^ 20) ∧
  ∀ pick, let '(r, b') := Get pick b in
    (¬ r ∈ [0%nat] ∧ (∃ c, heap b' !! r = Some (mkBacking [] c) ∧ 32 * 1024 <= c) ∧ ∀ r', r' ≠ r → heap b' !! r' = heap b !! r').
Proof.
  apply (buffers_exclusive (Get None (SetMaxLive 1 start)).2 [0%nat]).
  eapply rtc_l; [apply (use_max 1)|]. eapply rtc_l; [apply (use_get None)|]. apply rtc_refl.
Defined.

Lemma burst_drifts_witness :
  let '(l, b) := gets 5 (SetMaxLive 2 start) in
  live b = 2 ∧ live (puts l b) = -3 ∧ let '(l2, b2) := gets 5 (puts l b) in live b2 = live (puts l b) + Zlen l2.
Proof. exact (burst_drifts 2 3 eq_refl eq_refl). Defined.
