(* ===== verification/Served.v ===== *)
(** The pool over real clients.  Pool moves identities; here every identity has
    its [Client], which the goroutine that holds it queries while the others
    acquire, dial, ping, query theirs, drain and close.  What a holder's calls
    return is what they would return alone. *)
From S2P Require Import Prelude Pool PoolSpec.
From S2P Require Import Effects Errors Wire StmtCache Client Conn Query QuerySpec Api Turns Calls Session.

(** ** The system *)

(** A pool, the clients it opened, by identity. *)
Record Served := mkServed { sys : Pool.Sys; clients : nat → Client }.

Definition upd (k : nat) (c : Client) (f : nat → Client) : nat → Client := λ n, if Nat.eqb n k then c else f n.

(** A move of the system: a caller's goroutine enters the pool; goroutine [n]
    runs to its next point, a dial having found the socket [nc]; goroutine [n]
    makes a call on the connection it was given. *)
Inductive label :=
  | Calls (g : Pool.goroutine)
  | Runs (n : nat) (i : Pool.input) (nc : Conn)
  | Uses (n : nat) (f : client answer).

Section Served.
Context (handshake : bytes * tls_check → Conn → gerror + Conn) (n1 n2 : nat) (rnd : gerror + bytes) (ping_ctx : context).

(** What the pool's own code does to the clients at a point: a dial is Open, and
    a Ping goes through the connection's Client; each moves on the way its
    result says.  Close only closes the socket. *)
Definition own_effect (i : Pool.input) (g : Pool.goroutine) (nc : Conn) (s : Served) : option (nat → Client) :=
  let opened := Open handshake n1 n2 rnd (Pool.client (Pool.cfg (Pool.pool (Pool.shared (sys s))))) nc in
  match g, i with
  | (Pool.Dialing _ | Pool.Replacing _), Pool.At _ =>
      match opened with
      | (Ret _, c) => Some (upd (Pool.nextClient (Pool.shared (sys s))) c (clients s))
      | _ => None
      end
  | (Pool.Dialing _ | Pool.Replacing _), Pool.Fails => match opened with (Err _, _) => Some (clients s) | _ => None end
  | Pool.Pinging _ e, Pool.Go =>
      match Ping ping_ctx (clients s (Pool.e_c e)) with (Ret _, c) => Some (upd (Pool.e_c e) c (clients s)) | _ => None end
  | Pool.Pinging _ e, Pool.Fails =>
      match Ping ping_ctx (clients s (Pool.e_c e)) with (Err _, c) => Some (upd (Pool.e_c e) c (clients s)) | _ => None end
  | _, _ => Some (clients s)
  end.

Definition serve (l : label) (s : Served) : option (Served * list (nat * res answer)) :=
  match l with
  | Calls g => if bool_decide (g ∈ Pool.calls) then Some (mkServed (Pool.call g (sys s)) (clients s), []) else None
  | Runs n i nc =>
      match Pool.goroutines (sys s) !! n with
      | None => None
      | Some g =>
          match own_effect i g nc s, Pool.run n i (sys s) with
          | Some cl, Some s' => Some (mkServed s' cl, [])
          | _, _ => None
          end
      end
  | Uses n f =>
      match Pool.goroutines (sys s) !! n with
      | Some (Pool.Holding e) =>
          let '(r, c) := f (clients s (Pool.e_c e)) in Some (mkServed (sys s) (upd (Pool.e_c e) c (clients s)), [(n, r)])
      | _ => None
      end
  end.

(** Moves in the order they happen, and the results of the calls. *)
Fixpoint serves (ls : list label) (s : Served) : option (Served * list (nat * res answer)) :=
  match ls with
  | [] => Some (s, [])
  | l :: ls =>
      match serve l s with
      | None => None
      | Some (s, out) => match serves ls s with Some (s, outs) => Some (s, out ++ outs) | None => None end
      end
  end.
End Served.

(** Goroutine [n]'s calls, and their results. *)
Definition uses_by (n : nat) (ls : list label) : list (client answer) :=
  omap (λ l, match l with Uses m f => if Nat.eqb m n then Some f else None | _ => None end) ls.
Definition results (n : nat) (log : list (nat * res answer)) : list (res answer) :=
  omap (λ x, if Nat.eqb x.1 n then Some x.2 else None) log.
(** It is between its Acquire and its Release: it makes no move of the pool's. *)
Definition keeps (n : nat) (ls : list label) : bool := forallb (λ l, match l with Runs m _ _ => negb (Nat.eqb m n) | _ => true end) ls.

(** ** Lemmas *)

Lemma upd_eq k c f : upd k c f k = c.
Proof. unfold upd. by rewrite Nat.eqb_refl. Qed.
Lemma upd_ne k j c f : j ≠ k → upd k c f j = f j.
Proof. intros H. unfold upd. by rewrite (proj2 (Nat.eqb_neq j k)). Qed.

Lemma in_turn_app {A} (fs gs : list (client A)) : ∀ c, in_turn (fs ++ gs) c =
  let '(rs, c1) := in_turn fs c in let '(qs, c2) := in_turn gs c1 in (rs ++ qs, c2).
Proof.
  induction fs as [|f fs IH]; intros c; cbn [in_turn app]; [by destruct (in_turn gs c)|]. destruct (f c) as [r c1]. rewrite IH.
  destruct (in_turn fs c1) as [rs c2]. by destruct (in_turn gs c2).
Qed.

(** A holder stays one while the others move. *)
Lemma hold_stays m i s s' n e : Pool.run m i s = Some s' → m ≠ n →
  Pool.goroutines s !! n = Some (Pool.Holding e) → Pool.goroutines s' !! n = Some (Pool.Holding e).
Proof.
  intros H Hne Hn. apply PoolSpec.run_inv in H as (g & g' & sp & bc & _ & _ & ->). apply lookup_app_l_Some.
  destruct bc; [rewrite list_lookup_fmap|]; by rewrite list_lookup_insert_ne, Hn.
Qed.

Section Alone.
Context (handshake : bytes * tls_check → Conn → gerror + Conn) (n1 n2 : nat) (rnd : gerror + bytes) (ping_ctx : context).
Abbreviation serve := (serve handshake n1 n2 rnd ping_ctx).
Abbreviation serves := (serves handshake n1 n2 rnd ping_ctx).

(** The pool's own code touches only what its goroutine holds, or a client
    that did not exist. *)
Lemma own_effect_elsewhere i g nc s cl k : own_effect handshake n1 n2 rnd ping_ctx i g nc s = Some cl →
  k ∉ PoolSpec.holds g → k ≠ Pool.nextClient (Pool.shared (sys s)) → cl k = clients s k.
Proof.
  intros H Hk Hnew. unfold own_effect in H. destruct g; try (by destruct i; injection H as <-); destruct i; try (by injection H as <-);
    repeat case_match; try done; injection H as <-; try done; apply upd_ne; try done; intros ->; apply Hk; cbn; by left.
Qed.

(** A move keeps the pool sound, the holder where it is, and, unless it is the
    holder's own call, the holder's client as it is. *)
Lemma serve_apart l s s' out n e : PoolSpec.pool_ok (sys s) → Pool.goroutines (sys s) !! n = Some (Pool.Holding e) →
  keeps n [l] = true → serve l s = Some (s', out) →
  PoolSpec.pool_ok (sys s') ∧ Pool.goroutines (sys s') !! n = Some (Pool.Holding e) ∧
  in_turn (uses_by n [l]) (clients s (Pool.e_c e)) = (results n out, clients s' (Pool.e_c e)).
Proof.
  intros Hok Hn Hk H. destruct l as [g|m i nc|m f]; cbn in H.
  - case_bool_decide as Hg; [|done]. simplify_eq. cbn. split; [by apply PoolSpec.call_ok|]. split; [by apply lookup_app_l_Some|done].
  - cbn in Hk. rewrite andb_true_r in Hk. apply negb_true_iff, Nat.eqb_neq in Hk.
    destruct (Pool.goroutines (sys s) !! m) as [g|] eqn:Hm; [|done].
    destruct (own_effect _ _ _ _ _ i g nc s) as [cl|] eqn:Eo; [|done]. destruct (Pool.run m i (sys s)) as [s1|] eqn:Er; [|done].
    simplify_eq. cbn. split; [by eapply PoolSpec.run_ok|]. split; [by eapply hold_stays|]. f_equal. symmetry.
    assert (Pool.e_c e ∈ PoolSpec.holds (Pool.Holding e)) as He by (by left).
    eapply own_effect_elsewhere; [exact Eo| |].
    + apply (PoolSpec.exclusive (sys s) Hok n m _ g _ (not_eq_sym Hk) Hn Hm He).
    + pose proof (PoolSpec.held_exists (sys s) Hok n _ _ Hn He). lia.
  - destruct (Pool.goroutines (sys s) !! m) as [g|] eqn:Hm; [|done]. destruct g as [| | | | | | | |e'| | | | | | | | | | | | | | | | | | | | | | | | |]; try done.
    destruct (f (clients s (Pool.e_c e'))) as [r c] eqn:Ef. simplify_eq. cbn [sys clients]. split; [done|]. split; [done|].
    cbn. destruct (Nat.eqb_spec m n) as [->|Hne].
    + rewrite Hn in Hm. simplify_eq. cbn. by rewrite Ef, upd_eq.
    + cbn. f_equal. symmetry. apply upd_ne. intros E.
      assert (Pool.e_c e' ∈ PoolSpec.holds (Pool.Holding e')) as He by (by left).
      destruct (PoolSpec.exclusive (sys s) Hok m n _ _ _ Hne Hm Hn He) as (Hno & _). apply Hno. rewrite <- E. by left.
Qed.

(** A holder's calls are as if it were alone. *)
Lemma alone ls : ∀ s s' log n e, PoolSpec.pool_ok (sys s) → Pool.goroutines (sys s) !! n = Some (Pool.Holding e) →
  keeps n ls = true → serves ls s = Some (s', log) →
  PoolSpec.pool_ok (sys s') ∧ Pool.goroutines (sys s') !! n = Some (Pool.Holding e) ∧
  in_turn (uses_by n ls) (clients s (Pool.e_c e)) = (results n log, clients s' (Pool.e_c e)).
Proof.
  induction ls as [|l ls IH]; intros s s' log n e Hok Hn Hk H; cbn [Served.serves] in H.
  { by simplify_eq. }
  destruct (serve l s) as [[s1 out]|] eqn:E1; [|done]. destruct (serves ls s1) as [[s2 outs]|] eqn:E2; [|done]. simplify_eq.
  cbn in Hk. apply andb_true_iff in Hk as [Hk1 Hk2].
  destruct (serve_apart l s s1 out n e Hok Hn ltac:(cbn; by rewrite Hk1) E1) as (Ok1 & N1 & H1).
  destruct (IH s1 s' outs n e Ok1 N1 Hk2 E2) as (Ok2 & N2 & H2). split; [done|]. split; [done|].
  change (l :: ls) with ([l] ++ ls). unfold uses_by, results in *. by rewrite !omap_app, in_turn_app, H1, H2.
Qed.
End Alone.

(** ** Sessions through a pool *)

(** C11. A query through a pool is a query on a connection of one's own:
    whatever the other goroutines do meanwhile (acquire, dial, ping, query the
    connections they hold, be evicted, drain or close the pool), every
    call that a goroutine makes between its Acquire and its Release
    returns what the reference machine says for that connection's cache, sends
    what it says and nothing else, and the connection it gives back is at rest,
    in the cache state its next holder's calls start from. *)
Theorem pooled_session_exact {MO : MapOrder} {RS : RowScan} handshake n1 n2 rnd (elapsed : nat → bool) (ping_ctx ctx : context) (dur : Z) (pc : Pool.Config) (cf : Config)
    (s s' : Served) (ls : list label) (log : list (nat * res answer)) (n : nat) (e : Pool.entry) (ts : list turn) (rest : bytes)
  (Hpool : Pool.reachable pc (sys s))
  (Hhold : Pool.goroutines (sys s) !! n = Some (Pool.Holding e))
  (Hrun : serves handshake n1 n2 rnd ping_ctx ls s = Some (s', log))
  (Hkeep : keeps n ls = true)
  (Hcalls : uses_by n ls = map (perform elapsed ctx dur) ts)
  (Hctx : ctx_err ctx 0 = None ∧ no_caps cf) :
  let c := clients s (Pool.e_c e) in
  let c' := clients s' (Pool.e_c e) in
  at_rest cf c → all_ok cf (stmts c) ts → inbound (conn c) = concat (along cf (hears cf) (stmts c) ts) ++ rest →
  results n log = along cf (returns cf) (stmts c) ts ∧
  inbound (conn c') = rest ∧ sent (conn c') = sent (conn c) ++ concat (along cf (sends cf) (stmts c) ts) ∧
  stmts c' = fold_left (leaves cf) ts (stmts c) ∧ at_rest cf c' ∧
  Pool.goroutines (sys s') !! n = Some (Pool.Holding e).
Proof.
  intros c c' Hrest Hok Hin. apply PoolSpec.reachable_ok in Hpool. destruct Hctx as (H1 & H2).
  destruct (alone _ _ _ _ _ ls s s' log n e Hpool Hhold Hkeep Hrun) as (_ & Hn & E). rewrite Hcalls in E.
  destruct (in_turn_exact elapsed ctx dur cf rest H1 H2 ts c Hrest Hok Hin) as (c2 & E2 & J1 & J2 & J3 & J4 & _).
  fold c c' in E. rewrite E2 in E. injection E as <- <-. done.
Qed.

(** *** Two goroutines and two connections: the second dials, queries and leaves
    for Drain between the calls of the first. *)

#[local] Existing Instance demo_scanning.

Definition script_for (sc : stmtCache) : bytes := concat (along demo_cf (hears demo_cf) sc demo_session) ++ str "x".
Definition held : Served := mkServed (PoolSpec.after_run 2 (PoolSpec.dials 1))
  (λ _, newClient small_config (New (script_for (newStmtCache 1)) None)).
Definition other_socket : Conn :=
  New (wire_of demo_greeting ++ frame Protocol.MsgReadyForQuery (str "I") ++ first_inbound) None.
(** The [k]-th call of the session, by goroutine [n]. *)
Definition asks (n k : nat) : label := Uses n (perform never background 0 (nth k demo_session demo_copy)).
Definition demo_moves : list label :=
  [asks 1 0; Calls (Pool.Acquiring 0); Runs 2 Pool.Go other_socket; Runs 2 (Pool.At 0) other_socket; asks 1 1; asks 1 2;
   Runs 2 (Pool.At 0) other_socket; asks 2 0; asks 1 3; asks 1 4; Calls Pool.DrainCall; Runs 3 Pool.Go other_socket;
   Runs 2 (Pool.At 9) other_socket; Runs 2 Pool.Go other_socket; asks 1 5; asks 1 6; asks 1 7; asks 1 8; asks 1 9; asks 1 10; asks 1 11].
Definition run_demo : option (Served * list (nat * res answer)) := serves declined 4 100 (inr []) background demo_moves held.

Lemma run_demo_runs : is_Some run_demo.
Proof. assert (match run_demo with Some _ => true | None => false end = true) as H by (vm_compute; reflexivity). by destruct run_demo. Qed.

Lemma pooled_session_exact_witness : ∃ s' log, run_demo = Some (s', log) ∧
  results 1 log = along demo_cf (returns demo_cf) (newStmtCache 1) demo_session ∧
  inbound (conn (clients s' 0)) = str "x" ∧
  sent (conn (clients s' 0)) = [] ++ concat (along demo_cf (sends demo_cf) (newStmtCache 1) demo_session) ∧
  stmts (clients s' 0) = fold_left (leaves demo_cf) demo_session (newStmtCache 1) ∧
  at_rest demo_cf (clients s' 0) ∧
  Pool.goroutines (sys s') !! 1%nat = Some (Pool.Holding (Pool.mkEntry 0 0 (Some 0))).
Proof.
  destruct run_demo_runs as [[s' log] E]. exists s', log. split; [exact E|].
  apply (pooled_session_exact declined 4 100 (inr []) never background background 0 (PoolSpec.demo_pool 2) demo_cf
    held s' demo_moves log 1 (Pool.mkEntry 0 0 (Some 0)) demo_session (str "x")).
  - apply PoolSpec.demo_reachable. reflexivity.
  - reflexivity.
  - exact E.
  - reflexivity.
  - reflexivity.
  - split; [reflexivity|]. split; discriminate.
  - split; [reflexivity|by split|apply every_new].
  - apply demo_session_ok.
  - reflexivity.
Defined.
